(* ===== verification/_CoqProject ===== *)
-Q . S2P
Prelude.v
StdMap.v
Tlm.v
Concrete.v
MemManager.v
BlockingHelper.v
SocketMap.v
Transactor.v
SlavePort.v
SlaveProtocol.v
SlavePortProps.v
SlavePortSpec.v
TxnRouter.v
TxnRouterProps.v
System.v
SystemProps.v
SystemSpec.v
SystemLive.v
SystemService.v
SimpleBus.v
SystemAccess.v
EventLoop.v
EventLoopSpec.v
SystemOnTime.v
MasterPort.v
MasterProtocol.v
MasterPortProps.v
MasterFunctions.v
MasterAccess.v
MasterSpec.v
MasterOnTime.v
WholeSystem.v
Translation.v
Logger.v
SimControl.v
Stats.v
Elaboration.v
Wrapper.v
Gem5Control.v
