(* ===== verification/Prelude.v ===== *)
(** * gem5_wrapper: a verification library

    gem5_wrapper runs the gem5 simulator inside a SystemC simulation.  Requests that leave gem5 become
    TLM transactions (the slave port), TLM transactions that enter gem5 become gem5 packets (the
    master port), and gem5's event queue is driven from SystemC (the event loop).  Around these stand
    a router to the memory, a bus, and the objects that configure and connect everything.

    ** Parts, files and code

    All paths are below src/: [.cc] files in src/src, headers in src/include.

    - Prelude: errors, the state and error monad, total correctness ([wp]) and its variant that says
      which errors may end the run ([wpe]), with their rules, machine integers, automation.  StdMap: std::map as an association list in the order of its keys.
    - Tlm: the parts of TLM the code uses (payload, extension, phases) and gem5's packets, behind two
      classes [TlmPayload] and [Gem5Packet] with their laws; payloads and packets live in a store of
      pointers, so that aliasing and use after free are visible.  Concrete: an
      instance of both classes, on which the witnesses run.
    - MemManager: sc_mm.cc, the pool of payloads, and sc_ext.cc, the extension of a payload.
    - BlockingHelper (Module Helper): blocking_packet_helper.cc, the table of what each socket is
      waiting for; its abstract table and the refinement between them.
    - SocketMap (Module Sockets): the functions of sc_slave_port.cc that say which CPU uses which
      socket.
    - Transactor (Module Transactor): slave_transactor.cc.
    - SlavePort: sc_slave_port.cc and sc_peq.hh, every handler as written.  SlaveProtocol: the
      monitor of the TLM base protocol, the class [Conforming] of the targets that keep to it, and the
      invariant.  SlavePortProps: one total-correctness lemma for each handler.  SlavePortSpec: the
      closed system of port, gem5, event queue and target as a relation on states, and the theorems.
    - TxnRouter (Module Router): txn_router.h; TxnRouterProps: its closed system and its theorems.
    - System (Module System): the port and the routers that gem5_wrapper.cc binds to the sockets of
      its transactor, over one payload memory: a call through a socket runs the router behind it, a
      call of a router runs the port.  SystemProps: the invariant that couples the two.
      SystemSpec: its closed system and the theorems.  SystemLive: what remains to be done in it,
      and that it comes to rest.  SystemService: its requests as sequences, from the port to
      the memory and back.  SystemAccess: its blocking and functional accesses, and the bus behind the
      routers.
    - Translation: packets made payloads (slave port) and payloads made packets (master port).
    - EventLoop (Module EventLoop): sc_module.cc, and the class [TimeKeeper] through which the ports
      use it.  EventLoopSpec: the module, the thread in [simulate], the SystemC kernel, gem5 and the
      processes that call it or put events into its queue as one closed system, and the theorems.
    - SystemOnTime: the port with its routers in a gem5 that the event loop runs.
    - MasterPort (Module Master): sc_master_port.cc, every function as written.  MasterProtocol: the
      account its history gives of its transactions, the references it names, the class [Peer] of the
      initiators and gem5 it can work with, and the invariant.  MasterPortProps: one total-correctness
      lemma for each handler.  MasterFunctions: its functions one by one, errors included.
      MasterAccess: its blocking and debug transports.  MasterSpec: its closed system and the theorems.
      MasterOnTime: the port in a gem5 that the event loop runs, catching up through the loop itself.
      WholeSystem: a gem5 that holds both ports, with the routers and the event loop.
    - SimpleBus (Module Bus): simple_bus.h.  Logger: sc_logger.cc.  Stats: stats.cc.
    - SimControl (Module Control): sim_control.cc and the two port handlers; sim_control_if.hh, as the
      class [Gem5SimControlInterface] through which the transactors call the control.  Elaboration: the
      callbacks before_end_of_elaboration of slave_transactor.cc and master_transactor.cc, over the
      control and all ports.
    - Wrapper: gem5_wrapper.cc.  Gem5Control (Module TopLevel): sc_gem5_control.cc.

    A class of the code is a [Record] with the code's member names, a method a [Definition] with the
    code's name in the monad [M], its guards in the order of the code.  A call that leaves the
    modelled code - of gem5, of a socket, of the memory - is a member of a class of the environment
    ([SlaveEnv], [RouterEnv], [MasterEnv], [Gem5Queue], [Gem5Config], ...), takes the whole state and
    may change what the callee may change; what a theorem relies on of it is a class of laws or a
    named hypothesis.

    Where two components meet, each is verified against an interface that the other implements.
    [Terms] is the account a target of the slave port keeps of the port's transactions, and
    [Conforming] its laws; [Client] is the account an initiator of a router keeps of the router's
    pipeline and references, and [Initiator] its laws.  SystemProps instantiates both with one
    coupling: [routers_conform] makes the routers a conforming target of the port,
    [port_initiates] makes the port, with all other routers, a conforming initiator of each router.
    So the theorems of either side hold of the composition; what is left as a hypothesis
    there ([Guests], [Layout], [Quiet]) is about gem5 and the memories only.  The laws of gem5 in
    EventLoopSpec leave open what gem5 keeps [sound] of its own state, and [and_sound] adds to it;
    SystemOnTime puts the reachability of the slave port there, for any gem5 that calls the port from its
    events ([Host]), and MasterOnTime that of the master port ([MasterHost]).  The master port takes its
    time from the class [TimeKeeper]: its theorems hold for any instance, and [on_loop_time] is the one that
    calls the event loop.

    ** What is assumed

    SC_REPORT_FATAL, panic, fatal, assert, sc_assert and std::exit end the run, as does
    SC_REPORT_ERROR (it throws by default); assertions are compiled in.  A failing call returns [Err]
    with the state it stopped in.  Only one process of SystemC runs at a time, and it is not
    interrupted except where it calls out.  SystemC time and gem5 ticks are both picoseconds.  The
    32- and 64-bit arithmetic that can wrap around is written with [wrap32] and [wrap64].  Strings
    passed to gem5 as [const char*] have no null byte.  Output to the console is left out.

    The environments of the closed systems are as general as the theorems need, and each theorem's comment
    says what its environment does.  What they leave out fails in the code, and the theorems say how:
    - gem5's queue takes the events of one tick and priority last in, first out.  The states of the slave
      port's systems are those reached while it took the events of each transaction in the order of their
      notification, which is so when END_REQ and BEGIN_RESP are due at different ticks; [port_safe] and
      [system_safe] say what happens in each of these states when it does not ([overtakes]).
    - gem5's requests are for the memory behind the router of their socket; [router_safe] and [system_safe]
      say what happens to others ([astray], [stray]).
    - gem5 may refuse a response that it asked for again, and the port then fails an assertion
      ([refuses]); only the gem5 of SystemOnTime does not ([activity]).
    - Nothing is assumed of what gem5's queue holds after an exit event, of when signals arrive, or of when other
      processes schedule events: the loop's steps end as [ends] says, in success or in one of three
      failures.  [Gem5Busy] is a gem5 whose queue never runs empty.
    - gem5 may send any number of responses from inside sendRetryResp; [Courteous] is a gem5 that waits
      for END_RESP between them, and without it [master_safe] has a case that fails.
    - sc_time(double, SC_PS) is the library's ([sc_time_ps]); the conversion of ticks to double is modelled
      ([to_double]), and [ExactPicoseconds] says that the library's is exact where it can be.

    ** Theorems

    - Slave port: in its closed system it fails exactly in two cases, a response refused again and events
      taken out of order ([port_safe]); it keeps the base protocol
      ([port_keeps_protocol]), owes no retry that will not come ([no_lost_retry], [retry_is_sent]);
      what a request does ([request_outcomes]); a response retry empties all slots
      ([responses_drained]); elaboration makes ports that these theorems apply to
      ([elaboration_makes_ready]); and two ways of using it that fail
      ([single_socket_fails], [early_end_req_fails]).
    - Port and routers together: no step of either fails, but for the same two cases and a request outside
      the memory ([system_safe]); the calls of the port and
      the pipelines of the routers agree, and a payload at work is referenced by both
      ([system_agrees]); no transaction is stuck ([system_never_stuck]); left alone the
      system stops within [work] steps, in any order, with every transaction ended and no retry owed
      ([system_drains]); the memory behind a socket is called once for each request, in order, and the
      answers come back once and in order ([system_serves_in_order]).  A blocking access is one
      call of the memory or the bus ([atomic_access]); an address error of the bus is lost
      ([bus_access]); a functional access is one debug call of a target of the bus
      ([functional_access]).
    - The pointers the port keeps never dangle ([port_well_typed]); the two translations undo
      each other ([packet_roundtrip], [payload_roundtrip]).
    - Blocking helper: refinement of the abstract table ([helper_refines]) and its bounds.
    - Memory manager: the pool is exact, nothing in use is handed out, leaks are counted.
    - Router: safety, with the one call that is fatal ([router_safe]), order, progress; the range, and an
      answer that strands a request.
    - Event loop: it ends and is woken in time ([eventLoop_done]); in its closed system it fails in exactly
      three cases ([event_loop_safe]); what the ports rely on when they catch up holds while [simulate] runs
      ([event_loop_on_time]); [simulate] does not hang ([event_loop_never_stuck]) and returns the exit
      event if it was not overwritten ([simulate_returns]); and an exit event that is lost
      ([exit_event_lost]).
    - Event loop and slave port together: gem5 calls the port only when its time is SystemC's, so the
      port's assertions hold; the loop's steps end as before ([port_runs_on_time]); what a router sends is
      scheduled in gem5's future, however far gem5 lags ([router_posts_in_time]).
    - Event loop and master port together: a delivery finds gem5 in the past, catches it up, and wakes the
      loop; each part fails only where it does alone ([master_runs_on_time], [delivered_on_time]).  Both
      ports, the routers and the loop are one closed system with the same failures and no others
      ([whole_system_runs]).
    - Master port: in its closed system it fails in one case, a response sent again while another waits for
      END_RESP ([master_safe]); it keeps both protocols and
      pays for every reference ([master_keeps_protocol]), loses no request and no retry
      ([master_never_stuck]); requests, retries and responses, on each branch ([request_forwarded],
      [request_retried], [response_returned]); blocking and debug transports ([blocking_request],
      [debug_request]); and a leaked reference ([end_resp_leaks]).
    - Bus: routing, and agreement with the router.  Logger: lines are reported once, in order.
    - Control: construction, registries, core numbers and their agreement with the slave port, debug
      flags.  Wrapper: its pointers and bindings stay valid, and one call is undefined
      ([wrapper_safe]); the control is bound once.

    ** Fuel

    Two loops are not structural.  [resp_retry_loop] runs with the number of sockets and two more,
    which [responses_drained] and [port_safe] show to be enough.  [event_loop] takes its fuel as an
    argument; [eventLoop_done] shows that any number above the events due now is enough.

    ** Not modelled

    [bindBus2Memory] and [init] of the wrapper, which have no body, and the build files.  The look-up
    of a CPU by the name the configuration lists is taken to succeed.  The memories and the bus work on
    payloads as the class [Guests] says; what they do with the data behind a pointer is theirs.  gem5,
    SystemC and TLM themselves are the environment.  The payloads of the
    slave port and those of the initiator of the master port are in separate stores: a transaction that
    leaves gem5 and comes back into it is not followed through both ports. *)

From stdpp Require Export base tactics option list gmap strings numbers relations.
From Stdlib Require Export ZArith Lia.

#[global] Open Scope Z_scope.

(** ** Errors *)

(** Every way the program stops before the end of a function.  A value of this type ends the
    run: none of the calls below returns in the code. *)
Inductive error :=
| SC_FATAL (id msg : string)  (* SC_REPORT_FATAL: the default action of SystemC aborts *)
| SC_ERROR (id msg : string)  (* SC_REPORT_ERROR: the default action of SystemC throws *)
| SC_ASSERT (what : string)   (* sc_assert *)
| ASSERT (what : string)      (* assert *)
| PANIC (msg : string)        (* gem5 panic, panic_if *)
| GEM5_FATAL (msg : string)   (* gem5 fatal, fatal_if *)
| EXIT_FAILURE (msg : string) (* std::exit(EXIT_FAILURE) *)
| THROW (what : string)       (* an exception of the C++ standard library *)
| UNDEFINED (what : string)   (* undefined behaviour: dangling or null pointer, index out of range *)
| DIVERGES (what : string)    (* a loop that never ends *)
| NO_FUEL.                    (* a loop of the model ran out of its fuel *)

Inductive outcome (A : Type) :=
| Ok (a : A)
| Err (e : error).
Arguments Ok {A} a.
Arguments Err {A} e.

#[global] Instance error_eq_dec : EqDecision error.
Proof. solve_decision. Defined.

(** ** The state and error monad

    A computation over the state [W] returns an outcome and the state it stopped in, so that a
    theorem can say what had been done when an error struck. *)
Definition M (W A : Type) : Type := W → outcome A * W.

#[global] Instance M_ret W : MRet (M W) := λ A a w, (Ok a, w).
#[global] Instance M_bind W : MBind (M W) := λ A B f m w,
  match m w with
  | (Ok a, w') => f a w'
  | (Err e, w') => (Err e, w')
  end.

Section primitives.
Context {W : Type}.

Definition get : M W W := λ w, (Ok w, w).
Definition gets {A} (f : W → A) : M W A := λ w, (Ok (f w), w).
Definition modify (f : W → W) : M W unit := λ w, (Ok tt, f w).
Definition fail {A} (e : error) : M W A := λ w, (Err e, w).
Definition check (b : bool) (e : error) : M W unit :=
  if b then mret tt else fail e.
Definition lift_option {A} (o : option A) (e : error) : M W A :=
  match o with Some a => mret a | None => fail e end.

(** The body of a [while (cond) body] loop, at most [fuel] times. *)
Fixpoint while_loop (fuel : nat) (cond : M W bool) (body : M W unit) : M W unit :=
  match fuel with
  | O => fail NO_FUEL
  | S fuel' =>
      b ← cond;
      if (b : bool) then body ;; while_loop fuel' cond body else mret tt
  end.

(** A [for] loop over a list. *)
Fixpoint for_each {A} (l : list A) (body : A → M W unit) : M W unit :=
  match l with
  | [] => mret tt
  | a :: l' => body a ;; for_each l' body
  end.
End primitives.

Lemma bind_Ok {W A B} (m : M W A) (f : A → M W B) w a w' :
  m w = (Ok a, w') → (m ≫= f) w = f a w'.
Proof. unfold mbind, M_bind. by intros ->. Qed.

Lemma bind_Err {W A B} (m : M W A) (f : A → M W B) w e w' :
  m w = (Err e, w') → (m ≫= f) w = (Err e, w').
Proof. unfold mbind, M_bind. by intros ->. Qed.

Lemma for_each_app {W A} (l1 l2 : list A) (f : A → M W unit) w :
  for_each (l1 ++ l2) f w = (for_each l1 f;; for_each l2 f) w.
Proof.
  revert w. induction l1 as [|a l1 IH]; intros w; [done|]. simpl.
  unfold mbind, M_bind in *. destruct (f a w) as [[[]|e] w']; [|done]. by rewrite IH.
Qed.

(** A computation on a part of the state. *)
Definition zoom {W S A} (part : W → S) (upd : S → W → W) (m : M S A) : M W A := λ w,
  let '(r, s) := m (part w) in (r, upd s w).

(** ** Total correctness

    [wp m Q w]: from [w], [m] stops without an error, with a result and a state that satisfy
    [Q]. *)
Definition wp {W A} (m : M W A) (Q : A → W → Prop) (w : W) : Prop :=
  match m w with
  | (Ok a, w') => Q a w'
  | (Err _, _) => False
  end.

(** [fails m e w]: from [w], [m] ends in the error [e]. *)
Definition fails {W A} (m : M W A) (e : error) (w : W) : Prop := fst (m w) = Err e.

Section wp_rules.
Context {W : Type}.
Implicit Types (w : W).

Lemma wp_ret {A} (a : A) (Q : A → W → Prop) w : Q a w → wp (mret a) Q w.
Proof. exact id. Qed.

Lemma wp_bind {A B} (m : M W A) (f : A → M W B) Q w :
  wp m (λ a, wp (f a) Q) w → wp (m ≫= f) Q w.
Proof. unfold wp, mbind, M_bind. by destruct (m w) as [[a|e] w']. Qed.

Lemma wp_bind_assoc {A B C} (m : M W A) (f : A → M W B) (g : B → M W C) Q w :
  wp ((m ≫= f) ≫= g) Q w → wp (m ≫= λ a, f a ≫= g) Q w.
Proof. unfold wp, mbind, M_bind. by destruct (m w) as [[a|e] w']. Qed.

Lemma wp_gets {A} (f : W → A) (Q : A → W → Prop) w : Q (f w) w → wp (gets f) Q w.
Proof. exact id. Qed.

Lemma wp_modify (f : W → W) (Q : unit → W → Prop) w : Q tt (f w) → wp (modify f) Q w.
Proof. exact id. Qed.

Lemma wp_check (b : bool) e (Q : unit → W → Prop) w :
  b = true → Q tt w → wp (check b e) Q w.
Proof. intros -> HQ. exact HQ. Qed.

Lemma wp_lift_option {A} (o : option A) e a (Q : A → W → Prop) w :
  o = Some a → Q a w → wp (lift_option o e) Q w.
Proof. intros -> HQ. exact HQ. Qed.

Lemma wp_mono {A} (m : M W A) (P Q : A → W → Prop) w :
  wp m P w → (∀ a w', P a w' → Q a w') → wp m Q w.
Proof. unfold wp. destruct (m w) as [[a|e] w']; eauto. Qed.

Lemma wp_and {A} (m : M W A) (P Q : A → W → Prop) w :
  wp m P w → wp m Q w → wp m (λ a w', P a w' ∧ Q a w') w.
Proof. unfold wp. destruct (m w) as [[a|e] w']; eauto. Qed.

Lemma wp_Ok {A} (m : M W A) Q w :
  wp m Q w → ∃ a w', m w = (Ok a, w') ∧ Q a w'.
Proof. unfold wp. destruct (m w) as [[a|e] w']; naive_solver. Qed.

Lemma wp_of_Ok {A} (m : M W A) (Q : A → W → Prop) w a w' :
  m w = (Ok a, w') → Q a w' → wp m Q w.
Proof. unfold wp. by intros ->. Qed.

(** A loop that keeps [I] and lowers a measure ends, in a state where its condition is false. *)
Lemma wp_while (I : W → Prop) (mu : W → nat) (cond : M W bool) (body : M W unit) (Q : unit → W → Prop) :
  (∀ w, I w → wp cond (λ b w', w' = w ∧
      if b then wp body (λ _ w', I w' ∧ (mu w' < mu w)%nat) w else Q tt w) w) →
  ∀ fuel w, I w → (mu w < fuel)%nat → wp (while_loop fuel cond body) Q w.
Proof.
  intros Hstep fuel. induction fuel as [|fuel IH]; intros w HI Hmu; [lia|].
  simpl. apply wp_bind. eapply wp_mono; [by apply Hstep|].
  intros b w1 [-> Hb]. destruct b; [|by apply wp_ret].
  apply wp_bind. eapply wp_mono; [exact Hb|].
  intros [] w2 [HI' Hlt]. apply IH; [done|lia].
Qed.
End wp_rules.

(** Both branches of a zoomed computation, from the computation on the part. *)
Lemma wp_zoom {W S A} (part : W → S) (upd : S → W → W) (m : M S A) Q w :
  wp m (λ a s, Q a (upd s w)) (part w) → wp (zoom part upd m) Q w.
Proof. unfold wp, zoom. destruct (m (part w)) as [[a|e] s]; done. Qed.

(** ** Computations that may stop in an error

    [wpe E m Q w]: from [w], [m] either stops without an error as [wp] says, or with an error [e] in a
    state that satisfy [E]. *)
Definition wpe {W A} (E : error → W → Prop) (m : M W A) (Q : A → W → Prop) (w : W) : Prop :=
  match m w with
  | (Ok a, w') => Q a w'
  | (Err e, w') => E e w'
  end.

Section wpe_rules.
Context {W : Type} (E : error → W → Prop).
Implicit Types (w : W).

Lemma wpe_wp {A} (m : M W A) (Q : A → W → Prop) w : wp m Q w → wpe E m Q w.
Proof. unfold wp, wpe. by destruct (m w) as [[a|e] w']. Qed.

Lemma wpe_bind {A B} (m : M W A) (f : A → M W B) Q w :
  wpe E m (λ a, wpe E (f a) Q) w → wpe E (m ≫= f) Q w.
Proof. unfold wpe, mbind, M_bind. by destruct (m w) as [[a|e] w']. Qed.

(** The first part does not fail. *)
Lemma wpe_step {A B} (m : M W A) (f : A → M W B) Q w :
  wp m (λ a, wpe E (f a) Q) w → wpe E (m ≫= f) Q w.
Proof. intros Hm. by apply wpe_bind, wpe_wp. Qed.

Lemma wpe_ret {A} (a : A) (Q : A → W → Prop) w : Q a w → wpe E (mret a) Q w.
Proof. exact id. Qed.

Lemma wpe_modify (f : W → W) (Q : unit → W → Prop) w : Q tt (f w) → wpe E (modify f) Q w.
Proof. exact id. Qed.

Lemma wpe_fail {A} e (Q : A → W → Prop) w : E e w → wpe E (fail e) Q w.
Proof. exact id. Qed.

Lemma wpe_check (b : bool) e (Q : unit → W → Prop) w :
  (b = false → E e w) → (b = true → Q tt w) → wpe E (check b e) Q w.
Proof. destruct b; intros HE HQ; [exact (HQ eq_refl)|exact (HE eq_refl)]. Qed.

Lemma wpe_mono {A} (E' : error → W → Prop) (m : M W A) (P Q : A → W → Prop) w :
  wpe E' m P w → (∀ e w', E' e w' → E e w') → (∀ a w', P a w' → Q a w') → wpe E m Q w.
Proof. unfold wpe. destruct (m w) as [[a|e] w']; eauto. Qed.

(** No error is possible. *)
Lemma wp_of_wpe {A} (m : M W A) (Q : A → W → Prop) w : wpe E m Q w → (∀ e w', ¬ E e w') → wp m Q w.
Proof. unfold wp, wpe. destruct (m w) as [[a|e] w']; [done|]. intros HE Hno. by eapply Hno. Qed.

(** Whether it stops in an error can be told from the outcome. *)
Lemma wpe_cases {A} (m : M W A) (Q : A → W → Prop) w :
  wpe E m Q w → (∃ a w', m w = (Ok a, w') ∧ Q a w') ∨ ∃ e w', m w = (Err e, w') ∧ E e w'.
Proof. unfold wpe. destruct (m w) as [[a|e] w']; [left|right]; eauto. Qed.
End wpe_rules.

Lemma wpe_zoom {W S A} (E : error → W → Prop) (part : W → S) (upd : S → W → W) (m : M S A) Q w :
  wpe (λ e s, E e (upd s w)) m (λ a s, Q a (upd s w)) (part w) → wpe E (zoom part upd m) Q w.
Proof. unfold wpe, zoom. destruct (m (part w)) as [[a|e] s]; done. Qed.

(** ** What a computation does to the state, whatever it returns

    [follows R m]: [R] relates the state before [m] to the one after it, error or not. *)
Definition follows {W A} (R : relation W) (m : M W A) : Prop := ∀ w, R w (snd (m w)).

Section follows_rules.
Context {W : Type} (R : relation W) `{!PreOrder R}.

Lemma follows_ret {A} (a : A) : follows R (mret a).
Proof. intros w. simpl. reflexivity. Qed.

Lemma follows_gets {A} (f : W → A) : follows R (gets f).
Proof. intros w. simpl. reflexivity. Qed.

Lemma follows_fail {A} e : follows R (fail e : M W A).
Proof. intros w. simpl. reflexivity. Qed.

Lemma follows_check b e : follows R (check b e : M W unit).
Proof. intros w. destruct b; simpl; reflexivity. Qed.

Lemma follows_lift_option {A} (o : option A) e : follows R (lift_option o e : M W A).
Proof. intros w. destruct o; simpl; reflexivity. Qed.

Lemma follows_modify (f : W → W) : (∀ w, R w (f w)) → follows R (modify f).
Proof. by intros Hf w. Qed.

Lemma follows_bind {A B} (m : M W A) (f : A → M W B) :
  follows R m → (∀ a, follows R (f a)) → follows R (m ≫= f).
Proof.
  intros Hm Hf w. specialize (Hm w). unfold mbind, M_bind.
  destruct (m w) as [[a|e] w']; [|done]. simpl in Hm. etrans; [exact Hm|apply Hf].
Qed.

Lemma follows_zoom {S A} (part : W → S) (upd : S → W → W) (m : M S A) :
  (∀ s w, R w (upd s w)) → follows R (zoom part upd m).
Proof. intros Hu w. unfold zoom. destruct (m (part w)) as [r s]. apply Hu. Qed.
Lemma follows_mono (R' : relation W) {A} (m : M W A) :
  (∀ w w', R w w' → R' w w') → follows R m → follows R' m.
Proof. intros HR Hm w. apply HR, Hm. Qed.
End follows_rules.

(** Takes a computation apart; what is left are its updates of the state and the calls that have
    no rule here. *)
Ltac follows_step :=
  lazymatch goal with
  | |- follows _ (mbind _ _) => refine (follows_bind _ _ _ _ _); [|intros ?]
  | |- follows _ (mret _) => refine (follows_ret _ _)
  | |- follows _ (gets _) => refine (follows_gets _ _)
  | |- follows _ (fail _) => refine (follows_fail _ _)
  | |- follows _ (check _ _) => refine (follows_check _ _ _)
  | |- follows _ (lift_option _ _) => refine (follows_lift_option _ _ _)
  | |- follows _ (modify _) => apply follows_modify
  | |- follows _ (zoom _ _ _) => apply follows_zoom
  | |- follows _ (let _ := _ in _) => cbv zeta
  | |- follows _ (match ?x with _ => _ end) => destruct x
  end.
Ltac follows_steps := repeat follows_step.

(** A step of a monitor that is allowed when [b]. *)
Definition when {A} (b : bool) (o : option A) : option A := if b then o else None.

(** Sums that differ in one term, and that differ in favour of one side. *)
Lemma sum_update {A} (f g : A → nat) l x :
  NoDup l → x ∈ l → (∀ y, y ≠ x → f y = g y) →
  (sum_list_with f l + g x = sum_list_with g l + f x)%nat.
Proof.
  intros Hl Hx Hfg. induction Hl as [|y l Hy Hl IH]; [by apply not_elem_of_nil in Hx|].
  simpl. apply elem_of_cons in Hx as [->|Hx].
  - assert (sum_list_with f l = sum_list_with g l) as ->; [|lia].
    clear -Hy Hfg. induction l as [|z l IH]; [done|]. simpl. rewrite Hfg, IH; set_solver.
  - rewrite (Hfg y) by (by intros ->). specialize (IH Hx). lia.
Qed.

Lemma sum_le {A} (f g : A → nat) l :
  (∀ x, x ∈ l → (f x ≤ g x)%nat) → (sum_list_with f l ≤ sum_list_with g l)%nat.
Proof.
  intros Hfg. induction l as [|x l IH]; [done|]. simpl. apply Nat.add_le_mono.
  - apply Hfg. by left.
  - apply IH. intros y Hy. apply Hfg. by right.
Qed.

Lemma sum_lt {A} (f g : A → nat) l x :
  (∀ x, x ∈ l → (f x ≤ g x)%nat) → x ∈ l → (f x < g x)%nat →
  (sum_list_with f l < sum_list_with g l)%nat.
Proof.
  intros Hfg Hx Hlt. induction l as [|y l IH]; [by apply not_elem_of_nil in Hx|]. simpl.
  assert (∀ z, z ∈ l → (f z ≤ g z)%nat) as Hl by (intros z Hz; apply Hfg; by right).
  apply elem_of_cons in Hx as [->|Hx].
  - apply Nat.add_lt_le_mono; [done|by apply sum_le].
  - apply Nat.add_le_lt_mono; [apply Hfg; by left|by apply IH].
Qed.

(** A stricter filter that drops an element keeps fewer. *)
Lemma filter_strict {A} (P Q : A → Prop) `{∀ x, Decision (P x), ∀ x, Decision (Q x)} l x :
  (∀ y, P y → Q y) → x ∈ l → Q x → ¬ P x → (length (filter P l) < length (filter Q l))%nat.
Proof.
  intros Hsub Hx HQ HP.
  assert (filter P l = filter P (filter Q l)) as ->.
  { clear -Hsub. induction l as [|y l IH]; [done|]. rewrite !filter_cons.
    destruct (decide (Q y)), (decide (P y)); rewrite ?filter_cons; [|..|naive_solver|done].
    - rewrite decide_True by done. by f_equal.
    - by rewrite decide_False. }
  apply (length_filter_lt P _ x); [|done]. by apply list_elem_of_filter.
Qed.

(** An error ends the computation it strikes in. *)
Lemma fails_bind {W A B} (m : M W A) (f : A → M W B) e w : fails m e w → fails (m ≫= f) e w.
Proof.
  unfold fails, mbind, M_bind. destruct (m w) as [[a|e'] w']; simpl; [done|]. by intros [= ->].
Qed.

Lemma fails_bind_Ok {W A B} (m : M W A) (f : A → M W B) e w a w' :
  m w = (Ok a, w') → fails (f a) e w' → fails (m ≫= f) e w.
Proof. unfold fails, mbind, M_bind. by intros ->. Qed.

Lemma fails_zoom {W S A} (part : W → S) (upd : S → W → W) (m : M S A) e w :
  fails m e (part w) → fails (zoom part upd m) e w.
Proof. unfold fails, zoom. by destruct (m (part w)). Qed.

(** ** Machine integers

    A w-bit unsigned integer is a [Z] in [0, 2^w). *)
Definition wrap32 (z : Z) : Z := z `mod` 2 ^ 32.
Definition wrap64 (z : Z) : Z := z `mod` 2 ^ 64.
Definition u32 (z : Z) : Prop := 0 ≤ z < 2 ^ 32.
Definition u64 (z : Z) : Prop := 0 ≤ z < 2 ^ 64.

Lemma wrap32_small z : u32 z → wrap32 z = z.
Proof. intros. by apply Z.mod_small. Qed.
Lemma wrap64_small z : u64 z → wrap64 z = z.
Proof. intros. by apply Z.mod_small. Qed.
Lemma wrap32_u32 z : u32 (wrap32 z).
Proof. apply Z.mod_pos_bound. lia. Qed.
Lemma wrap64_u64 z : u64 (wrap64 z).
Proof. apply Z.mod_pos_bound. lia. Qed.

(** A [uint32_t] stored in an [int]; converted back it is the same number. *)
Definition to_int32 (n : Z) : Z := if n <? 2 ^ 31 then n else n - 2 ^ 32.

Lemma wrap32_to_int32 n : u32 n → wrap32 (to_int32 n) = n.
Proof.
  intros Hn. unfold wrap32, to_int32. destruct (Z.ltb_spec n (2 ^ 31)).
  - by apply wrap32_small.
  - rewrite <- (Z.mod_small n (2 ^ 32)) at 2 by apply Hn.
    rewrite <- (Z_mod_plus_full (n - 2 ^ 32) 1). f_equal. lia.
Qed.

(** ** Automation *)

Create HintDb gem5.
#[export] Hint Resolve wrap32_u32 wrap64_u64 : gem5.

(** One step of a [wp] goal: the head computation is run by its rule.  The files that follow add
    the rules of their own computations to [wp_custom]. *)
Ltac wp_custom := fail.
Ltac wp_step :=
  lazymatch goal with
  | |- wp (mbind _ _) _ _ => apply wp_bind
  | |- wp (mret _) _ _ => apply wp_ret
  | |- wp (gets _) _ _ => apply wp_gets
  | |- wp (modify _) _ _ => apply wp_modify
  | |- wp (check _ _) _ _ => apply wp_check
  | |- wp (lift_option _ _) _ _ => eapply wp_lift_option
  | |- wp (zoom _ _ _) _ _ => apply wp_zoom
  | |- wp _ _ _ => wp_custom
  end.

Ltac wp_steps := repeat (wp_step; cbn beta; try done).
