(* ===== verification/StdMap.v ===== *)
(** * std::map

    A [std::map<K, V>] keeps its entries sorted by key, and the program iterates over several of
    its maps in that order.  The model is the list of entries in increasing key order, with the
    operations of the standard library that the sources use. *)

From S2P Require Import Prelude.
From Stdlib Require Import Ascii String.

(** A key type with the three-way comparison its [operator<] gives. *)
Class OrdKey (K : Type) := kcmp : K → K → comparison.
Class OrdKeyLaws (K : Type) `{OrdKey K} : Prop := {
  kcmp_eq : ∀ a b : K, kcmp a b = Eq ↔ a = b;
  kcmp_antisym : ∀ a b : K, kcmp b a = CompOpp (kcmp a b);
  kcmp_trans : ∀ a b c : K, kcmp a b = Lt → kcmp b c = Lt → kcmp a c = Lt;
}.

#[global] Arguments kcmp : simpl never.

(** Unsigned integer keys. *)
#[export] Instance Z_ord : OrdKey Z := Z.compare.
#[export] Instance Z_ord_laws : OrdKeyLaws Z.
Proof.
  split; unfold kcmp, Z_ord; intros.
  - apply Z.compare_eq_iff.
  - by rewrite Z.compare_antisym.
  - rewrite Z.compare_lt_iff in *. lia.
Qed.

Lemma kcmp_Z_lt (a b : Z) : kcmp a b = Lt ↔ a < b.
Proof. apply Z.compare_lt_iff. Qed.
Lemma kcmp_Z_gt (a b : Z) : kcmp a b = Gt ↔ b < a.
Proof. apply Z.compare_gt_iff. Qed.

(** [std::string] keys: lexicographic on the unsigned value of the characters. *)
Fixpoint string_cmp (s t : string) : comparison :=
  match s, t with
  | EmptyString, EmptyString => Eq
  | EmptyString, String _ _ => Lt
  | String _ _, EmptyString => Gt
  | String a s', String b t' =>
      match N.compare (N_of_ascii a) (N_of_ascii b) with
      | Eq => string_cmp s' t'
      | c => c
      end
  end.

#[export] Instance string_ord : OrdKey string := string_cmp.
#[export] Instance string_ord_laws : OrdKeyLaws string.
Proof.
  split; unfold kcmp, string_ord.
  - induction a as [|x a IH]; intros [|y b]; simpl; try (split; congruence).
    destruct (N.compare_spec (N_of_ascii x) (N_of_ascii y)) as [E|E|E].
    + rewrite IH. apply (f_equal ascii_of_N) in E. rewrite !ascii_N_embedding in E.
      split; [by intros ->; subst|by intros [= _ ->]].
    + split; [done|]. intros [= -> ->]. lia.
    + split; [done|]. intros [= -> ->]. lia.
  - induction a as [|x a IH]; intros [|y b]; simpl; try done.
    rewrite N.compare_antisym. destruct (N.compare _ _); simpl; auto.
  - induction a as [|x a IH]; intros [|y b] [|z c]; simpl; try done.
    destruct (N.compare_spec (N_of_ascii x) (N_of_ascii y)) as [E|E|E]; try done;
      destruct (N.compare_spec (N_of_ascii y) (N_of_ascii z)) as [F|F|F]; try done; intros ??;
      destruct (N.compare_spec (N_of_ascii x) (N_of_ascii z)); try lia; eauto.
Qed.

Definition stdmap (K V : Type) : Type := list (K * V).

Section operations.
Context {K V : Type} `{OrdKey K}.
Implicit Types (m : stdmap K V).

(** [m.find(k)], [None] for [m.end()]. *)
Fixpoint sm_find (k : K) m : option V :=
  match m with
  | [] => None
  | (k', v) :: m' => match kcmp k k' with Eq => Some v | _ => sm_find k m' end
  end.

(** [m[k] = v]: assigns to the entry of [k], and creates it where there is none. *)
Fixpoint sm_set (k : K) (v : V) m : stdmap K V :=
  match m with
  | [] => [(k, v)]
  | (k', v') :: m' =>
      match kcmp k k' with
      | Lt => (k, v) :: m
      | Eq => (k', v) :: m'
      | Gt => (k', v') :: sm_set k v m'
      end
  end.

(** [m.insert(std::make_pair(k, v))]: leaves an entry of [k] that is there already. *)
Definition sm_insert (k : K) (v : V) m : stdmap K V :=
  match sm_find k m with Some _ => m | None => sm_set k v m end.

(** [m[k]] read as a value: the entry, or a new one that holds [d]. *)
Definition sm_get_or (d : V) (k : K) m : V := default d (sm_find k m).

Definition sm_keys m : list K := m.*1.
Definition sm_values m : list V := m.*2.

(** The keys increase. *)
Inductive sm_sorted : stdmap K V → Prop :=
| sorted_nil : sm_sorted []
| sorted_cons k v m :
    Forall (λ e, kcmp k e.1 = Lt) m → sm_sorted m → sm_sorted ((k, v) :: m).
End operations.
#[export] Hint Constructors sm_sorted : gem5.

Section laws.
Context {K V : Type} `{OrdKeyLaws K}.
Implicit Types (m : stdmap K V) (k : K) (v : V).

Lemma kcmp_refl k : kcmp k k = Eq.
Proof. by apply kcmp_eq. Qed.

Lemma kcmp_gt k k' : kcmp k k' = Gt ↔ kcmp k' k = Lt.
Proof. rewrite (kcmp_antisym k k'). by destruct (kcmp k k'). Qed.

Lemma sm_find_set k k' v m :
  sm_sorted m →
  sm_find k (sm_set k' v m) = match kcmp k k' with Eq => Some v | _ => sm_find k m end.
Proof.
  induction 1 as [|k0 v0 m Hall Hs IH]; simpl; [done|].
  destruct (kcmp k' k0) eqn:E; simpl.
  - apply kcmp_eq in E as ->. by destruct (kcmp k k0).
  - by destruct (kcmp k k').
  - rewrite IH. destruct (kcmp k k0) eqn:E0; try done.
    apply kcmp_eq in E0 as ->. by rewrite (proj1 (kcmp_gt k' k0)).
Qed.

Lemma sm_find_set_eq k v m : sm_sorted m → sm_find k (sm_set k v m) = Some v.
Proof. intros. by rewrite sm_find_set, kcmp_refl. Qed.

Lemma sm_find_set_ne k k' v m :
  sm_sorted m → k ≠ k' → sm_find k (sm_set k' v m) = sm_find k m.
Proof.
  intros. rewrite sm_find_set by done. destruct (kcmp k k') eqn:E; try done.
  by apply kcmp_eq in E.
Qed.

Lemma sm_set_Forall (P : K * V → Prop) k v m :
  Forall P m → (∀ k', kcmp k k' = Eq → P (k', v)) → Forall P (sm_set k v m).
Proof.
  intros Hm HP. induction Hm as [|[k' v'] m Hp Hm IH]; simpl.
  - constructor; [|done]. apply HP, kcmp_refl.
  - destruct (kcmp k k') eqn:E; repeat constructor; auto. apply HP, kcmp_refl.
Qed.

Lemma sm_set_sorted k v m : sm_sorted m → sm_sorted (sm_set k v m).
Proof.
  induction 1 as [|k0 v0 m Hall Hs IH]; simpl; [by repeat constructor|].
  destruct (kcmp k k0) eqn:E; [by constructor| |].
  - constructor; [|by constructor]. constructor; [done|].
    eapply Forall_impl; [exact Hall|]. intros e He. by eapply kcmp_trans.
  - constructor; [|done]. apply sm_set_Forall; [done|].
    intros k' Heq. apply kcmp_eq in Heq as <-. by apply kcmp_gt.
Qed.

Lemma sm_insert_sorted k v m : sm_sorted m → sm_sorted (sm_insert k v m).
Proof. unfold sm_insert. destruct (sm_find k m); eauto using sm_set_sorted. Qed.

Lemma sm_find_insert k k' v m :
  sm_sorted m →
  sm_find k (sm_insert k' v m) =
    match sm_find k m with
    | Some v' => Some v'
    | None => match kcmp k k' with Eq => Some v | _ => None end
    end.
Proof.
  intros Hs. unfold sm_insert. destruct (sm_find k' m) eqn:F.
  - destruct (sm_find k m) eqn:G; [done|]. destruct (kcmp k k') eqn:E; try done.
    apply kcmp_eq in E as ->. congruence.
  - rewrite sm_find_set by done. destruct (kcmp k k') eqn:E; try by destruct (sm_find k m).
    apply kcmp_eq in E as ->. by rewrite F.
Qed.

Lemma sm_find_elem k v m : sm_sorted m → (k, v) ∈ m ↔ sm_find k m = Some v.
Proof.
  induction 1 as [|k0 v0 m Hall Hs IH]; simpl.
  - by rewrite elem_of_nil.
  - rewrite elem_of_cons. destruct (kcmp k k0) eqn:E.
    + apply kcmp_eq in E as ->. split; [|intros; left; congruence].
      intros [?|Hin]; [congruence|]. rewrite Forall_forall in Hall.
      specialize (Hall _ Hin). simpl in Hall. by rewrite kcmp_refl in Hall.
    + rewrite <- IH. split; [|by right]. intros [[= -> ->]|?]; [|done].
      by rewrite kcmp_refl in E.
    + rewrite <- IH. split; [|by right]. intros [[= -> ->]|?]; [|done].
      by rewrite kcmp_refl in E.
Qed.

(** Assigning to a key that has an entry changes no key. *)
Lemma sm_set_keys k v m : is_Some (sm_find k m) → sm_sorted m → sm_keys (sm_set k v m) = sm_keys m.
Proof.
  intros Hf Hs. induction Hs as [|k0 v0 m Hall Hs IH]; simpl in *; [by destruct Hf|].
  destruct (kcmp k k0) eqn:E; simpl; [done| |by rewrite IH].
  destruct Hf as [v' Hf]. apply sm_find_elem in Hf; [|done].
  rewrite Forall_forall in Hall. specialize (Hall _ Hf). simpl in Hall.
  apply kcmp_gt in Hall. congruence.
Qed.

Lemma sm_find_is_Some k m : is_Some (sm_find k m) ↔ k ∈ sm_keys m.
Proof.
  induction m as [|[k0 v0] m IH]; simpl.
  - rewrite elem_of_nil. split; [by intros []|done].
  - rewrite elem_of_cons. destruct (kcmp k k0) eqn:E.
    + apply kcmp_eq in E as ->. split; [by left|by exists v0].
    + rewrite IH. split; [by right|]. intros [->|?]; [|done]. by rewrite kcmp_refl in E.
    + rewrite IH. split; [by right|]. intros [->|?]; [|done]. by rewrite kcmp_refl in E.
Qed.

(** Two sorted maps with the same entries are the same map. *)
Lemma sm_find_head k m : Forall (λ e, kcmp k e.1 = Lt) m → sm_find k m = None.
Proof.
  induction 1 as [|[k' v'] m Hk Hm IH]; simpl in *; [done|]. by rewrite Hk.
Qed.

Lemma sm_ext m1 m2 :
  sm_sorted m1 → sm_sorted m2 → (∀ k, sm_find k m1 = sm_find k m2) → m1 = m2.
Proof.
  intros Hs1. revert m2. induction Hs1 as [|k1 v1 m1 Hall1 Hs1 IH]; intros m2 Hs2 Hext.
  - destruct Hs2 as [|k2 v2 m2]; [done|]. specialize (Hext k2). simpl in Hext.
    by rewrite kcmp_refl in Hext.
  - destruct Hs2 as [|k2 v2 m2 Hall2 Hs2].
    { specialize (Hext k1). simpl in Hext. by rewrite kcmp_refl in Hext. }
    assert (k1 = k2 ∧ v1 = v2) as [-> ->].
    { pose proof (Hext k1) as E1. pose proof (Hext k2) as E2. simpl in E1, E2.
      rewrite kcmp_refl in E1, E2. destruct (kcmp k1 k2) eqn:E.
      - apply kcmp_eq in E. by simplify_eq.
      - exfalso. symmetry in E1. apply sm_find_elem in E1; [|done].
        rewrite Forall_forall in Hall2. specialize (Hall2 _ E1). simpl in Hall2.
        apply kcmp_gt in Hall2. congruence.
      - exfalso. apply kcmp_gt in E. rewrite E in E2.
        apply sm_find_elem in E2; [|done].
        rewrite Forall_forall in Hall1. specialize (Hall1 _ E2). simpl in Hall1.
        apply kcmp_gt in Hall1. congruence. }
    f_equal. apply IH; [done|]. intros k. specialize (Hext k). simpl in Hext.
    destruct (kcmp k k2) eqn:E; try done. apply kcmp_eq in E as ->.
    by rewrite !sm_find_head.
Qed.
End laws.

#[export] Hint Resolve sm_set_sorted sm_insert_sorted : gem5.
