(* ===== verification/Tlm.v ===== *)
(** * The TLM-2.0 and gem5 interfaces

    The sources are written against two libraries that are not part of the repository: the TLM-2.0
    library of SystemC (generic payloads, phases) and gem5 (packets).  This file states what the
    sources use of them.  Enumerations are data; a generic payload and a packet are abstract types
    whose operations are parameters ([TlmPayload], [Gem5Packet]), and the classes
    [TlmPayloadLaws] and [Gem5PacketLaws] state the documented behaviour that the theorems rely
    on.  The file ends with the memory the components share: the payloads and packets that are
    reached through pointers. *)

From S2P Require Import Prelude.

(** ** Enumerations of the TLM base protocol *)

Inductive tlm_phase :=
| UNINITIALIZED_PHASE | BEGIN_REQ | END_REQ | BEGIN_RESP | END_RESP
| OTHER_PHASE (id : N).  (* a phase declared with DECLARE_EXTENDED_PHASE *)

Inductive tlm_sync_enum := TLM_ACCEPTED | TLM_UPDATED | TLM_COMPLETED.

Inductive tlm_command := TLM_READ_COMMAND | TLM_WRITE_COMMAND | TLM_IGNORE_COMMAND.

Inductive tlm_response_status :=
| TLM_OK_RESPONSE | TLM_INCOMPLETE_RESPONSE | TLM_GENERIC_ERROR_RESPONSE
| TLM_ADDRESS_ERROR_RESPONSE | TLM_COMMAND_ERROR_RESPONSE | TLM_BURST_ERROR_RESPONSE
| TLM_BYTE_ENABLE_ERROR_RESPONSE.

#[export] Instance tlm_phase_eq_dec : EqDecision tlm_phase.
Proof. solve_decision. Defined.
#[export] Instance tlm_sync_enum_eq_dec : EqDecision tlm_sync_enum.
Proof. solve_decision. Defined.
#[export] Instance tlm_command_eq_dec : EqDecision tlm_command.
Proof. solve_decision. Defined.
#[export] Instance tlm_response_status_eq_dec : EqDecision tlm_response_status.
Proof. solve_decision. Defined.

(** The address of a payload or of a packet; a null pointer is [None] of [option ptr]. *)
Abbreviation ptr := positive.

(** [class Gem5Extension]: the extension that carries a gem5 packet and the socket it was sent
    through, which is not initialised by the constructor. *)
Record Gem5Extension := { Packet : ptr; coreId : option Z }.

#[export] Instance Gem5Extension_eq_dec : EqDecision Gem5Extension.
Proof. solve_decision. Defined.

(** ** tlm_generic_payload *)

(** The documented attributes of a generic payload, as far as the sources read or write them. *)
Record gp_attributes := GpAttributes {
  get_address : Z;
  get_command : tlm_command;
  get_data_ptr : Z;
  get_data_length : Z;
  get_streaming_width : Z;
  get_byte_enable_ptr : Z;
  get_response_status : tlm_response_status;
  has_mm : bool;
  get_ref_count : nat;
  get_extension : option Gem5Extension;
}.

Class TlmPayload := {
  payload : Type;
  attrs : payload → gp_attributes;
  gp_new : payload;  (* the constructor that takes a memory manager *)
  set_address : Z → payload → payload;
  set_command : tlm_command → payload → payload;
  set_data_ptr : Z → payload → payload;
  set_data_length : Z → payload → payload;
  set_streaming_width : Z → payload → payload;
  set_response_status : tlm_response_status → payload → payload;
  set_auto_extension : Gem5Extension → payload → payload;
  gp_inc : payload → payload;    (* acquire: one more reference *)
  gp_dec : payload → payload;    (* release: one reference less *)
  gp_reset : payload → payload;  (* reset: drops the auto extensions *)
}.

(** What IEEE 1666-2011 documents of these operations.  Of [reset] only the effect on extensions
    and on the reference count is relied on. *)
Class TlmPayloadLaws `{TlmPayload} : Prop := {
  attrs_new : attrs gp_new =
    GpAttributes 0 TLM_IGNORE_COMMAND 0 0 0 0 TLM_INCOMPLETE_RESPONSE true 0 None;
  attrs_set_address v p : attrs (set_address v p) =
    let a := attrs p in
    GpAttributes v (get_command a) (get_data_ptr a) (get_data_length a) (get_streaming_width a)
      (get_byte_enable_ptr a) (get_response_status a) (has_mm a) (get_ref_count a)
      (get_extension a);
  attrs_set_command v p : attrs (set_command v p) =
    let a := attrs p in
    GpAttributes (get_address a) v (get_data_ptr a) (get_data_length a) (get_streaming_width a)
      (get_byte_enable_ptr a) (get_response_status a) (has_mm a) (get_ref_count a)
      (get_extension a);
  attrs_set_data_ptr v p : attrs (set_data_ptr v p) =
    let a := attrs p in
    GpAttributes (get_address a) (get_command a) v (get_data_length a) (get_streaming_width a)
      (get_byte_enable_ptr a) (get_response_status a) (has_mm a) (get_ref_count a)
      (get_extension a);
  attrs_set_data_length v p : attrs (set_data_length v p) =
    let a := attrs p in
    GpAttributes (get_address a) (get_command a) (get_data_ptr a) v (get_streaming_width a)
      (get_byte_enable_ptr a) (get_response_status a) (has_mm a) (get_ref_count a)
      (get_extension a);
  attrs_set_streaming_width v p : attrs (set_streaming_width v p) =
    let a := attrs p in
    GpAttributes (get_address a) (get_command a) (get_data_ptr a) (get_data_length a) v
      (get_byte_enable_ptr a) (get_response_status a) (has_mm a) (get_ref_count a)
      (get_extension a);
  attrs_set_response_status v p : attrs (set_response_status v p) =
    let a := attrs p in
    GpAttributes (get_address a) (get_command a) (get_data_ptr a) (get_data_length a)
      (get_streaming_width a) (get_byte_enable_ptr a) v (has_mm a) (get_ref_count a)
      (get_extension a);
  attrs_set_auto_extension v p : attrs (set_auto_extension v p) =
    let a := attrs p in
    GpAttributes (get_address a) (get_command a) (get_data_ptr a) (get_data_length a)
      (get_streaming_width a) (get_byte_enable_ptr a) (get_response_status a) (has_mm a)
      (get_ref_count a) (Some v);
  attrs_inc p : attrs (gp_inc p) =
    let a := attrs p in
    GpAttributes (get_address a) (get_command a) (get_data_ptr a) (get_data_length a)
      (get_streaming_width a) (get_byte_enable_ptr a) (get_response_status a) (has_mm a)
      (S (get_ref_count a)) (get_extension a);
  attrs_dec p : attrs (gp_dec p) =
    let a := attrs p in
    GpAttributes (get_address a) (get_command a) (get_data_ptr a) (get_data_length a)
      (get_streaming_width a) (get_byte_enable_ptr a) (get_response_status a) (has_mm a)
      (pred (get_ref_count a)) (get_extension a);
  reset_extension p : get_extension (attrs (gp_reset p)) = None;
  reset_ref_count p : get_ref_count (attrs (gp_reset p)) = get_ref_count (attrs p);
  reset_has_mm p : has_mm (attrs (gp_reset p)) = has_mm (attrs p);
}.

Create Rewrite HintDb gp.
#[export] Hint Rewrite @attrs_new @attrs_set_address @attrs_set_command @attrs_set_data_ptr
  @attrs_set_data_length @attrs_set_streaming_width @attrs_set_response_status
  @attrs_set_auto_extension @attrs_inc @attrs_dec @reset_extension @reset_ref_count
  @reset_has_mm using typeclasses eauto : gp.

(** ** gem5::Packet *)

(** The commands of the packets that the sources create. *)
Inductive MemCmd := ReadReq | WriteReq.

(** A sender state on a packet: the master port's [TlmSenderState], which holds a payload, or one
    that another class of gem5 pushed. *)
Inductive sender_state := TlmSenderState (trans : ptr) | OtherSenderState (id : N).

Class Gem5Packet := {
  packet : Type;
  isRead : packet → bool;
  isWrite : packet → bool;
  isInvalidate : packet → bool;
  isSwapReq : packet → bool;  (* cmd == MemCmd::SwapReq *)
  isResponse : packet → bool;
  needsResponse : packet → bool;
  cacheResponding : packet → bool;
  getAddr : packet → Z;
  getSize : packet → Z;
  getPtr : packet → Z;
  requestorId : packet → Z;
  hasCpuClusterId : packet → bool;
  cpuClusterId : packet → Z;
  payloadDelay : packet → Z;
  headerDelay : packet → Z;
  set_payloadDelay : Z → packet → packet;
  set_headerDelay : Z → packet → packet;
  makeResponse : packet → packet;
  pushSenderState : sender_state → packet → packet;
  popSenderState : packet → option (sender_state * packet);
  (* new Packet(make_shared<Request>(addr, size, 0, id), cmd) with dataStatic(data) *)
  new_packet : Z → Z → Z → MemCmd → Z → packet;
}.

(** What gem5's packet.hh documents of these operations. *)
Class Gem5PacketLaws `{Gem5Packet} : Prop := {
  makeResponse_isResponse p : needsResponse p = true → isResponse (makeResponse p) = true;
  makeResponse_done p : needsResponse p = true → needsResponse (makeResponse p) = false;
  set_payloadDelay_eq v p : payloadDelay (set_payloadDelay v p) = v;
  set_payloadDelay_header v p : headerDelay (set_payloadDelay v p) = headerDelay p;
  set_headerDelay_eq v p : headerDelay (set_headerDelay v p) = v;
  set_headerDelay_payload v p : payloadDelay (set_headerDelay v p) = payloadDelay p;
  pop_push s p : popSenderState (pushSenderState s p) = Some (s, p);
  new_packet_getAddr a n i c d : getAddr (new_packet a n i c d) = a;
  new_packet_getSize a n i c d : getSize (new_packet a n i c d) = n;
  new_packet_getPtr a n i c d : getPtr (new_packet a n i c d) = d;
  new_packet_requestorId a n i c d : requestorId (new_packet a n i c d) = i;
  new_packet_isRead a n i c d :
    isRead (new_packet a n i c d) = match c with ReadReq => true | WriteReq => false end;
  new_packet_isWrite a n i c d :
    isWrite (new_packet a n i c d) = match c with ReadReq => false | WriteReq => true end;
  new_packet_isInvalidate a n i c d : isInvalidate (new_packet a n i c d) = false;
  new_packet_needsResponse a n i c d : needsResponse (new_packet a n i c d) = true;
}.

Create Rewrite HintDb pkt.
#[export] Hint Rewrite @set_payloadDelay_eq @set_payloadDelay_header @set_headerDelay_eq
  @set_headerDelay_payload @pop_push @new_packet_getAddr @new_packet_getSize @new_packet_getPtr
  @new_packet_requestorId @new_packet_isRead @new_packet_isWrite
  @new_packet_isInvalidate @new_packet_needsResponse
  using typeclasses eauto : pkt.

(** ** The store *)

Section store.
Context `{TlmPayload, Gem5Packet}.

(** The payloads and packets that exist, by address, and the next address [new] hands out. *)
Record store := Store {
  gps : gmap ptr payload;
  pkts : gmap ptr packet;
  next_ptr : ptr;
}.

Definition set_gps (f : gmap ptr payload → gmap ptr payload) (s : store) : store :=
  Store (f (gps s)) (pkts s) (next_ptr s).
Definition set_pkts (f : gmap ptr packet → gmap ptr packet) (s : store) : store :=
  Store (gps s) (f (pkts s)) (next_ptr s).

(** [new]: an object at an address not in use. *)
Definition new_gp (p : payload) : M store ptr := λ s,
  (Ok (next_ptr s), Store (<[next_ptr s := p]> (gps s)) (pkts s) (Pos.succ (next_ptr s))).
Definition new_pkt (p : packet) : M store ptr := λ s,
  (Ok (next_ptr s), Store (gps s) (<[next_ptr s := p]> (pkts s)) (Pos.succ (next_ptr s))).
Definition delete_pkt (a : ptr) : M store unit := modify (set_pkts (delete a)).
Definition delete_gp (a : ptr) : M store unit := modify (set_gps (delete a)).

(** The object behind a pointer. *)
Definition gp_at (t : ptr) : M store payload := λ s,
  match gps s !! t with
  | Some p => (Ok p, s)
  | None => (Err (UNDEFINED "payload"), s)
  end.
Definition pkt_at (a : ptr) : M store packet := λ s,
  match pkts s !! a with
  | Some p => (Ok p, s)
  | None => (Err (UNDEFINED "packet"), s)
  end.

(** A call of a method that changes the object. *)
Definition gp_do (t : ptr) (f : payload → payload) : M store unit :=
  p ← gp_at t; modify (set_gps (insert t (f p))).
Definition pkt_do (a : ptr) (f : packet → packet) : M store unit :=
  p ← pkt_at a; modify (set_pkts (insert a (f p))).

(** [trans->acquire()] *)
Definition acquire (t : ptr) : M store unit := gp_do t gp_inc.

(** [new] never hands out an address in use. *)
Definition store_wf (s : store) : Prop :=
  (∀ t p, gps s !! t = Some p → (t < next_ptr s)%positive) ∧
  (∀ a p, pkts s !! a = Some p → (a < next_ptr s)%positive).

Lemma wp_gp_at t p (Q : payload → store → Prop) s :
  gps s !! t = Some p → Q p s → wp (gp_at t) Q s.
Proof. unfold wp, gp_at. by intros ->. Qed.

Lemma wp_pkt_at a p (Q : packet → store → Prop) s :
  pkts s !! a = Some p → Q p s → wp (pkt_at a) Q s.
Proof. unfold wp, pkt_at. by intros ->. Qed.

Lemma wp_gp_do t f p (Q : unit → store → Prop) s :
  gps s !! t = Some p → Q tt (set_gps (insert t (f p)) s) → wp (gp_do t f) Q s.
Proof. intros Hp HQ. apply wp_bind. eapply wp_gp_at; [exact Hp|]. exact HQ. Qed.

Lemma wp_pkt_do a f p (Q : unit → store → Prop) s :
  pkts s !! a = Some p → Q tt (set_pkts (insert a (f p)) s) → wp (pkt_do a f) Q s.
Proof. intros Hp HQ. apply wp_bind. eapply wp_pkt_at; [exact Hp|]. exact HQ. Qed.

Lemma wp_acquire t p (Q : unit → store → Prop) s :
  gps s !! t = Some p → Q tt (set_gps (insert t (gp_inc p)) s) → wp (acquire t) Q s.
Proof. apply wp_gp_do. Qed.
End store.
Arguments store : clear implicits.
Arguments store {_ _}.

Ltac wp_custom ::=
  lazymatch goal with
  | |- wp (gp_at _) _ _ => eapply wp_gp_at
  | |- wp (pkt_at _) _ _ => eapply wp_pkt_at
  | |- wp (gp_do _ _) _ _ => eapply wp_gp_do
  | |- wp (pkt_do _ _) _ _ => eapply wp_pkt_do
  | |- wp (acquire _) _ _ => eapply wp_acquire
  end.
