(* ===== verification/Concrete.v ===== *)
(** * A concrete payload and packet

    Instances of the interfaces of [Tlm]: a payload that is its attributes, and a packet that is a
    record.  They show that the laws the theorems rely on can hold, and let concrete runs be
    evaluated. *)

From S2P Require Import Prelude Tlm.

#[export] Instance concrete_payload : TlmPayload := {
  payload := gp_attributes;
  attrs p := p;
  gp_new := GpAttributes 0 TLM_IGNORE_COMMAND 0 0 0 0 TLM_INCOMPLETE_RESPONSE true 0 None;
  set_address v '(GpAttributes _ c d n w b r m k e) := GpAttributes v c d n w b r m k e;
  set_command v '(GpAttributes a _ d n w b r m k e) := GpAttributes a v d n w b r m k e;
  set_data_ptr v '(GpAttributes a c _ n w b r m k e) := GpAttributes a c v n w b r m k e;
  set_data_length v '(GpAttributes a c d _ w b r m k e) := GpAttributes a c d v w b r m k e;
  set_streaming_width v '(GpAttributes a c d n _ b r m k e) := GpAttributes a c d n v b r m k e;
  set_response_status v '(GpAttributes a c d n w b _ m k e) := GpAttributes a c d n w b v m k e;
  set_auto_extension v '(GpAttributes a c d n w b r m k _) :=
    GpAttributes a c d n w b r m k (Some v);
  gp_inc '(GpAttributes a c d n w b r m k e) := GpAttributes a c d n w b r m (S k) e;
  gp_dec '(GpAttributes a c d n w b r m k e) := GpAttributes a c d n w b r m (pred k) e;
  gp_reset '(GpAttributes a c d n w b r m k _) := GpAttributes a c d n w b r m k None;
}.

#[export] Instance concrete_payload_laws : TlmPayloadLaws.
Proof. by split; repeat intros []. Qed.

(** The packet of the examples: a command word, the request it carries, and its sender states. *)
Inductive concrete_cmd := CRead | CWrite | CInvalidate | CSwap | CSnoop.
Record concrete_pkt := CPkt {
  c_cmd : concrete_cmd;
  c_response : bool;
  c_needs : bool;
  c_addr : Z;
  c_size : Z;
  c_data : Z;
  c_requestor : Z;
  c_cluster : option Z;
  c_payload_delay : Z;
  c_header_delay : Z;
  c_sender : list sender_state;
}.

#[export] Instance concrete_packet : Gem5Packet := {
  packet := concrete_pkt;
  isRead p := match c_cmd p with CRead | CSwap => true | _ => false end;
  isWrite p := match c_cmd p with CWrite | CSwap => true | _ => false end;
  isInvalidate p := match c_cmd p with CInvalidate => true | _ => false end;
  isSwapReq p := match c_cmd p with CSwap => true | _ => false end;
  isResponse := c_response;
  needsResponse p := c_needs p && negb (c_response p);
  cacheResponding p := match c_cmd p with CSnoop => true | _ => false end;
  getAddr := c_addr;
  getSize := c_size;
  getPtr := c_data;
  requestorId := c_requestor;
  hasCpuClusterId p := match c_cluster p with Some _ => true | None => false end;
  cpuClusterId p := default 0 (c_cluster p);
  payloadDelay := c_payload_delay;
  headerDelay := c_header_delay;
  set_payloadDelay v '(CPkt c r n a s d i l _ h t) := CPkt c r n a s d i l v h t;
  set_headerDelay v '(CPkt c r n a s d i l p _ t) := CPkt c r n a s d i l p v t;
  makeResponse '(CPkt c _ n a s d i l p h t) := CPkt c true n a s d i l p h t;
  pushSenderState x '(CPkt c r n a s d i l p h t) := CPkt c r n a s d i l p h (x :: t);
  popSenderState '(CPkt c r n a s d i l p h t) :=
    match t with [] => None | x :: t' => Some (x, CPkt c r n a s d i l p h t') end;
  new_packet a s i c d :=
    CPkt match c with ReadReq => CRead | WriteReq => CWrite end false true a s d i None 0 0 [];
}.

#[export] Instance concrete_packet_laws : Gem5PacketLaws.
Proof.
  split; intros; repeat match goal with p : packet |- _ => destruct p end;
    simpl in *; try done; try by destruct c.
  all: repeat match goal with b : bool |- _ => destruct b end; done.
Qed.

(** A read request of the CPU with requestor id [i], of [n] bytes at [a]. *)
Definition read_request (i a n : Z) : packet := CPkt CRead false true a n 4096 i None 0 0 [].
Definition write_request (i a n : Z) : packet := CPkt CWrite false true a n 4096 i None 0 0 [].
