(* ===== verification/MemManager.v ===== *)
(** * Payload memory: sc_mm.cc, sc_ext.cc

    The memory manager that pools the payloads of the slave port, and the extension that ties a
    payload to its gem5 packet. *)

From S2P Require Import Prelude Tlm Concrete.

(** [class MemoryManager]; [freePayloads] is in the order of the vector, its back last. *)
Record MemoryManager := {
  numberOfAllocations : Z;
  numberOfFrees : Z;
  freePayloads : list ptr;
}.

Definition MemoryManager_new : MemoryManager :=
  {| numberOfAllocations := 0; numberOfFrees := 0; freePayloads := [] |}.

Definition set_freePayloads (l : list ptr) (m : MemoryManager) : MemoryManager :=
  {| numberOfAllocations := numberOfAllocations m; numberOfFrees := numberOfFrees m;
     freePayloads := l |}.

Section mem.
Context `{TlmPayload, Gem5Packet}.

(** The memory manager together with the store its payloads live in. *)
Record mem := Mem { mgr : MemoryManager; st : store }.

Definition set_mgr (f : MemoryManager → MemoryManager) (m : mem) : mem := Mem (f (mgr m)) (st m).
End mem.
Arguments mem : clear implicits.
Arguments mem {_ _}.

(** A computation on the store. *)
Abbreviation on_store c := (zoom st (λ s m, Mem (mgr m) s) c).

Section operations.
Context `{TlmPayload, Gem5Packet}.

(** [MemoryManager::allocate] *)
Definition allocate : M mem ptr :=
  free ← gets (λ m, freePayloads (mgr m));
  match last free with
  | None =>
      modify (set_mgr (λ g, {| numberOfAllocations := wrap32 (numberOfAllocations g + 1);
                               numberOfFrees := numberOfFrees g;
                               freePayloads := freePayloads g |}));;
      on_store (new_gp gp_new)
  | Some result =>
      modify (set_mgr (set_freePayloads (removelast free)));;
      mret result
  end.

(** [MemoryManager::free] *)
Definition mm_free (t : ptr) : M mem unit :=
  on_store (gp_do t gp_reset);;
  modify (set_mgr (λ g, set_freePayloads (freePayloads g ++ [t]) g)).

(** [MemoryManager::~MemoryManager] *)
Definition MemoryManager_delete : M mem unit :=
  free ← gets (λ m, freePayloads (mgr m));
  for_each free (λ t,
    on_store (delete_gp t);;
    modify (set_mgr (λ g, {| numberOfAllocations := numberOfAllocations g;
                             numberOfFrees := wrap32 (numberOfFrees g + 1);
                             freePayloads := freePayloads g |}))).

(** [trans->release()]: the library drops a reference, and calls [free] of the payload's memory
    manager with the last one. *)
Definition release (t : ptr) : M mem unit :=
  p ← on_store (gp_at t);
  check (0 <? get_ref_count (attrs p))%nat (ASSERT "m_ref_count > 0");;
  on_store (gp_do t gp_dec);;
  if (get_ref_count (attrs p) =? 1)%nat then mm_free t else mret tt.

(** [Gem5Extension::Gem5Extension]: leaves [coreId] uninitialised. *)
Definition Gem5Extension_new (packet : ptr) : Gem5Extension :=
  {| Packet := packet; coreId := None |}.

(** [Gem5Extension::setCoreID], [getCoreID], [getPacket] *)
Definition setCoreID (id : Z) (e : Gem5Extension) : Gem5Extension :=
  {| Packet := Packet e; coreId := Some id |}.
Definition getCoreID {W} (e : Gem5Extension) : M W Z :=
  lift_option (coreId e) (UNDEFINED "coreId").
Definition getPacket (e : Gem5Extension) : ptr := Packet e.

(** [Gem5Extension::getExtension] *)
Definition getExtension (t : ptr) : M store Gem5Extension :=
  p ← gp_at t; lift_option (get_extension (attrs p)) (SC_ASSERT "result!=NULL").

(** [Gem5Extension::clone] and [copy_from] *)
Definition Gem5Extension_clone (e : Gem5Extension) : Gem5Extension := Gem5Extension_new (Packet e).
Definition Gem5Extension_copy_from (self ext : Gem5Extension) : Gem5Extension :=
  {| Packet := Packet ext; coreId := coreId self |}.
End operations.

(** ** Invariant *)

Section invariant.
Context `{TlmPayloadLaws, Gem5Packet}.
Implicit Types (m : mem) (t : ptr).

Definition ref_count (p : payload) : nat := get_ref_count (attrs p).

(** A payload as the pool holds it: no reference, no extension, owned by a memory manager. *)
Definition idle (p : payload) : Prop :=
  ref_count p = 0%nat ∧ get_extension (attrs p) = None ∧ has_mm (attrs p) = true.

(** The pool holds exactly the payloads without a reference, each once. *)
Record mm_ok m : Prop := {
  ok_wf : store_wf (st m);
  ok_nodup : NoDup (freePayloads (mgr m));
  ok_pool t : t ∈ freePayloads (mgr m) → ∃ p, gps (st m) !! t = Some p ∧ idle p;
  ok_unused t p : gps (st m) !! t = Some p → ref_count p = 0%nat → t ∈ freePayloads (mgr m);
  ok_mm t p : gps (st m) !! t = Some p → has_mm (attrs p) = true;
  ok_count : numberOfAllocations (mgr m) = wrap32 (Z.of_nat (size (gps (st m))));
  ok_frees : numberOfFrees (mgr m) = 0;
}.

Definition live m t : Prop := ∃ p, gps (st m) !! t = Some p ∧ (0 < ref_count p)%nat.

Lemma live_not_free m t : mm_ok m → live m t → t ∉ freePayloads (mgr m).
Proof.
  intros Hok (p & Hp & Hc) Hin. destruct (ok_pool m Hok t Hin) as (p' & Hp' & Hi & _).
  simplify_eq. lia.
Qed.

(** What [allocate] followed by [acquire] gives: a payload nobody holds, referenced once, and
    nothing else changed. *)
Record allocated m t m' : Prop := {
  al_not_live : ¬ live m t;
  al_payload : ∃ p, gps (st m') !! t = Some p ∧ ref_count p = 1%nat
                    ∧ get_extension (attrs p) = None ∧ has_mm (attrs p) = true;
  al_other t' : t' ≠ t → gps (st m') !! t' = gps (st m) !! t';
  al_pkts : pkts (st m') = pkts (st m);
  al_next : (next_ptr (st m) ≤ next_ptr (st m'))%positive;
  al_pool : freePayloads (mgr m) = freePayloads (mgr m') ++ [t] ∨
            freePayloads (mgr m) = [] ∧ freePayloads (mgr m') = [] ∧ gps (st m) !! t = None;
  al_ok : mm_ok m';
}.

Lemma last_split (l : list ptr) t : last l = Some t → ∃ l', l = l' ++ [t] ∧ removelast l = l'.
Proof.
  intros (l' & ->)%last_Some. exists l'. split; [done|]. by rewrite removelast_last.
Qed.

(** The last payload of the pool, taken off it and acquired. *)
Lemma recycled_ok m l t p :
  mm_ok m → freePayloads (mgr m) = l ++ [t] → gps (st m) !! t = Some p →
  ref_count (gp_inc p) ≠ 0%nat → has_mm (attrs p) = true →
  mm_ok (Mem (set_freePayloads l (mgr m)) (set_gps (insert t (gp_inc p)) (st m))).
Proof.
  intros Hok Hl Hp Hc Hmm. pose proof (ok_nodup m Hok) as Hnd. rewrite Hl in Hnd.
  apply NoDup_app in Hnd as (Hnd & Hnot & _). split; simpl.
  - destruct (ok_wf m Hok) as [Hw1 Hw2]. split; simpl; [|done].
    intros t' p' [[-> <-]|[? ?]]%lookup_insert_Some; eauto.
  - done.
  - intros t' Hin. destruct (ok_pool m Hok t') as (p' & Hp' & Hi'); [rewrite Hl; set_solver|].
    exists p'. split; [|done]. rewrite lookup_insert_ne; [done|]. intros <-.
    apply (Hnot t Hin). set_solver.
  - intros t' p' [[-> <-]|[Hne Hp']]%lookup_insert_Some; [done|].
    intros Hz. pose proof (ok_unused m Hok t' p' Hp' Hz) as Hin.
    rewrite Hl, elem_of_app, list_elem_of_singleton in Hin. by destruct Hin.
  - intros t' p' [[-> <-]|[Hne Hp']]%lookup_insert_Some; [by autorewrite with gp|].
    by eapply (ok_mm m Hok).
  - rewrite map_size_insert_Some by (by eexists). apply (ok_count m Hok).
  - apply (ok_frees m Hok).
Qed.

(** A new payload, acquired. *)
Lemma fresh_ok m n :
  mm_ok m → freePayloads (mgr m) = [] → gps (st m) !! next_ptr (st m) = None →
  ref_count (gp_inc gp_new) ≠ 0%nat → n = wrap32 (numberOfAllocations (mgr m) + 1) →
  mm_ok (Mem {| numberOfAllocations := n; numberOfFrees := numberOfFrees (mgr m);
                freePayloads := freePayloads (mgr m) |}
             (Store (insert (next_ptr (st m)) (gp_inc gp_new) (gps (st m))) (pkts (st m))
                (Pos.succ (next_ptr (st m))))).
Proof.
  intros Hok Hpool Hfresh Hc ->. split; simpl.
  - destruct (ok_wf m Hok) as [Hw1 Hw2]. split; simpl.
    + intros t' p' [[-> _]|[_ Hp']]%lookup_insert_Some; [lia|]. apply Hw1 in Hp'. lia.
    + intros t' p' Hp'. apply Hw2 in Hp'. lia.
  - rewrite Hpool. constructor.
  - rewrite Hpool. set_solver.
  - intros t' p' [[<- <-]|[Hne Hp']]%lookup_insert_Some; [done|]. by apply (ok_unused m Hok).
  - intros t' p' [[<- <-]|[Hne Hp']]%lookup_insert_Some; [by autorewrite with gp|].
    by eapply (ok_mm m Hok).
  - rewrite map_size_insert_None by done. rewrite (ok_count m Hok).
    unfold wrap32. rewrite Zplus_mod_idemp_l. f_equal. lia.
  - apply (ok_frees m Hok).
Qed.

Lemma wp_allocate_acquire {A} (k : ptr → M mem A) (Q : A → mem → Prop) m :
  mm_ok m → (∀ t m', allocated m t m' → wp (k t) Q m') →
  wp (t ← allocate; on_store (acquire t);; k t) Q m.
Proof.
  intros Hok HQ. unfold allocate. wp_steps. destruct (last _) as [t|] eqn:Hlast.
  - apply last_split in Hlast as (l' & Hl & Hrem).
    destruct (ok_pool m Hok t) as (p & Hp & Hi1 & Hi2 & Hi3); [rewrite Hl; set_solver|].
    wp_steps. assert (ref_count (gp_inc p) = 1%nat) as Hc.
    { unfold ref_count in *. autorewrite with gp. simpl. by rewrite Hi1. }
    apply HQ. split; simpl.
    + intros (p' & Hp' & Hc'). simplify_eq. lia.
    + exists (gp_inc p). rewrite lookup_insert_eq. autorewrite with gp. auto.
    + intros t' Hne. by rewrite lookup_insert_ne.
    + done.
    + lia.
    + left. by rewrite Hrem.
    + rewrite Hrem. by apply recycled_ok; [..|rewrite Hc|].
  - apply last_None in Hlast. wp_steps.
    assert (Hfresh : gps (st m) !! next_ptr (st m) = None).
    { destruct (gps (st m) !! next_ptr (st m)) eqn:E; [|done].
      apply (ok_wf m Hok) in E. lia. }
    unfold wp at 1. simpl. eapply wp_bind, wp_zoom, wp_acquire; [apply lookup_insert_eq|].
    unfold set_gps. simpl. rewrite insert_insert_eq.
    assert (ref_count (gp_inc gp_new) = 1%nat) as Hc by (unfold ref_count; by autorewrite with gp).
    apply HQ. split; simpl.
    + intros (p' & Hp' & Hc'). congruence.
    + exists (gp_inc gp_new). rewrite lookup_insert_eq. autorewrite with gp. auto.
    + intros t' Hne. by rewrite lookup_insert_ne.
    + done.
    + lia.
    + by right.
    + by apply fresh_ok; [..|rewrite Hc|].
Qed.

(** Writing a payload that stays referenced keeps the invariant. *)
Lemma mm_ok_write m t p p' :
  mm_ok m → gps (st m) !! t = Some p → (0 < ref_count p)%nat →
  (0 < ref_count p')%nat → has_mm (attrs p') = true →
  mm_ok (Mem (mgr m) (set_gps (insert t p') (st m))).
Proof.
  intros Hok Hp Hc Hc' Hmm. split; simpl.
  - destruct (ok_wf m Hok) as [Hw1 Hw2]. split; simpl; [|done].
    intros t' q [[<- _]|[_ ?]]%lookup_insert_Some; eauto.
  - apply (ok_nodup m Hok).
  - intros t' Hin. destruct (ok_pool m Hok t' Hin) as (q & Hq & Hi). exists q. split; [|done].
    rewrite lookup_insert_ne; [done|]. intros <-. destruct Hi. simplify_eq. lia.
  - intros t' q [[<- <-]|[_ ?]]%lookup_insert_Some; [lia|]. by apply (ok_unused m Hok).
  - intros t' q [[<- <-]|[_ ?]]%lookup_insert_Some; [done|]. by eapply (ok_mm m Hok).
  - rewrite map_size_insert_Some by (by eexists). apply (ok_count m Hok).
  - apply (ok_frees m Hok).
Qed.

(** What [release] of a referenced payload gives. *)
Record released m t (p : payload) m' : Prop := {
  re_payload : ∃ p', gps (st m') !! t = Some p' ∧ ref_count p' = pred (ref_count p) ∧
                     ((1 < ref_count p)%nat → get_extension (attrs p') = get_extension (attrs p) ∧
                                              get_address (attrs p') = get_address (attrs p) ∧
                                              get_command (attrs p') = get_command (attrs p) ∧
                                              get_response_status (attrs p') =
                                                get_response_status (attrs p));
  re_other t' : t' ≠ t → gps (st m') !! t' = gps (st m) !! t';
  re_pkts : pkts (st m') = pkts (st m);
  re_next : next_ptr (st m') = next_ptr (st m);
  re_pool : freePayloads (mgr m') =
    if (ref_count p =? 1)%nat then freePayloads (mgr m) ++ [t] else freePayloads (mgr m);
  re_ok : mm_ok m';
}.

Lemma mm_ok_free m t p :
  mm_ok m → gps (st m) !! t = Some p → ref_count p = 1%nat →
  mm_ok (Mem (set_freePayloads (freePayloads (mgr m) ++ [t]) (mgr m))
             (set_gps (insert t (gp_reset (gp_dec p))) (st m))).
Proof.
  intros Hok Hp Hc. assert (Ht : t ∉ freePayloads (mgr m)).
  { apply live_not_free; [done|]. exists p. split; [done|lia]. }
  unfold ref_count in Hc. split; simpl.
  - destruct (ok_wf m Hok) as [Hw1 Hw2]. split; simpl; [|done].
    intros t' q [[<- _]|[_ ?]]%lookup_insert_Some; eauto.
  - apply NoDup_app. split; [apply (ok_nodup m Hok)|]. split; [|apply NoDup_singleton].
    intros t' Hin ->%list_elem_of_singleton. done.
  - intros t' [Hin| ->%list_elem_of_singleton]%elem_of_app.
    + destruct (ok_pool m Hok t' Hin) as (q & Hq & Hi). exists q. split; [|done].
      rewrite lookup_insert_ne; [done|]. by intros <-.
    + eexists. split; [apply lookup_insert_eq|]. unfold idle, ref_count.
      autorewrite with gp. simpl. rewrite Hc. split; [done|]. split; [done|].
      by eapply (ok_mm m Hok).
  - intros t' q [[<- <-]|[_ ?]]%lookup_insert_Some Hz; apply elem_of_app.
    + right. by apply list_elem_of_singleton.
    + left. by apply (ok_unused m Hok t' q).
  - intros t' q [[<- <-]|[_ ?]]%lookup_insert_Some; [|by eapply (ok_mm m Hok)].
    autorewrite with gp. simpl. by eapply (ok_mm m Hok).
  - rewrite map_size_insert_Some by (by eexists). apply (ok_count m Hok).
  - apply (ok_frees m Hok).
Qed.

Lemma wp_release (Q : unit → mem → Prop) m t p :
  mm_ok m → gps (st m) !! t = Some p → (0 < ref_count p)%nat →
  (∀ m', released m t p m' → Q tt m') → wp (release t) Q m.
Proof.
  intros Hok Hp Hc HQ. unfold release. wp_steps.
  { apply Nat.ltb_lt. exact Hc. }
  wp_steps. fold (ref_count p). destruct (ref_count p =? 1)%nat eqn:E.
  - apply Nat.eqb_eq in E. unfold mm_free. wp_steps; [apply lookup_insert_eq|]. wp_steps.
    apply HQ. split; simpl; try done.
    + eexists. rewrite insert_insert_eq, lookup_insert_eq. split; [done|].
      unfold ref_count in *. autorewrite with gp. simpl. rewrite E. split; [done|lia].
    + intros t' Hne. by rewrite !lookup_insert_ne.
    + by rewrite E.
    + unfold set_gps. simpl. rewrite insert_insert_eq. by apply (mm_ok_free m t p).
  - apply Nat.eqb_neq in E. apply wp_ret, HQ. split; simpl; try done.
    + eexists. rewrite lookup_insert_eq. split; [done|]. unfold ref_count. by autorewrite with gp.
    + intros t' Hne. by rewrite lookup_insert_ne.
    + by rewrite (proj2 (Nat.eqb_neq _ _) E).
    + eapply (mm_ok_write m t p); try done.
      * unfold ref_count in *. autorewrite with gp. simpl. lia.
      * autorewrite with gp. simpl. by eapply (ok_mm m Hok).
Qed.
End invariant.

(** ** Runs of the clients

    The slave port uses the manager in one way only: it acquires what it allocates, and writes and
    releases payloads it has references to. *)

Section runs.
Context `{TlmPayloadLaws, Gem5Packet}.
Implicit Types (m : mem) (t : ptr) (n : nat).

Definition mem_empty : mem := Mem MemoryManager_new (Store ∅ ∅ 1).

(** The payloads somebody references. *)
Definition live_count m : nat := size (filter (λ e, 0 < ref_count e.2)%nat (gps (st m))).

(** [mm_run m n]: the clients can reach [m], and at most [n] payloads were referenced at once on
    the way. *)
Inductive mm_run : mem → nat → Prop :=
| run_start : mm_run mem_empty 0
| run_allocate m n t m' :
    mm_run m n → (t ← allocate; on_store (acquire t);; mret t) m = (Ok t, m') →
    mm_run m' (n `max` live_count m')
| run_acquire m n t m' :
    mm_run m n → live m t → on_store (acquire t) m = (Ok tt, m') →
    mm_run m' (n `max` live_count m')
| run_write m n t f m' :
    mm_run m n → live m t →
    (∀ p, ref_count (f p) = ref_count p ∧ has_mm (attrs (f p)) = has_mm (attrs p)) →
    on_store (gp_do t f) m = (Ok tt, m') → mm_run m' (n `max` live_count m')
| run_release m n t m' :
    mm_run m n → live m t → release t m = (Ok tt, m') →
    mm_run m' (n `max` live_count m').

Lemma mem_empty_ok : mm_ok mem_empty.
Proof. split; simpl; try done; try set_solver; try constructor; try done. Qed.

(** Every payload is either in the pool or referenced. *)
Lemma size_split m :
  mm_ok m → size (gps (st m)) = (length (freePayloads (mgr m)) + live_count m)%nat.
Proof.
  intros Hok. unfold live_count.
  assert (E : size (filter (λ e, ¬ (0 < ref_count e.2)%nat) (gps (st m))) =
              length (freePayloads (mgr m))).
  { rewrite <- size_dom, <- (size_list_to_set (C := gset ptr)) by apply (ok_nodup m Hok).
    f_equal. apply set_eq. intros t. rewrite elem_of_list_to_set, elem_of_dom. split.
    - intros (p & [Hp Hc]%map_lookup_filter_Some). simpl in Hc.
      apply (ok_unused m Hok t p Hp). lia.
    - intros Hin. destruct (ok_pool m Hok t Hin) as (p & Hp & Hi & _). exists p.
      apply map_lookup_filter_Some. split; [done|]. simpl. lia. }
  rewrite <- E, Nat.add_comm. rewrite <- map_size_disj_union by apply map_disjoint_filter_complement.
  by rewrite map_filter_union_complement.
Qed.

Lemma wp_run {A} (c : M mem A) m a m' (Q : A → mem → Prop) :
  c m = (Ok a, m') → wp c Q m → Q a m'.
Proof. unfold wp. by intros ->. Qed.

Lemma mm_ok_do m t p f m' :
  mm_ok m → gps (st m) !! t = Some p → (0 < ref_count p)%nat →
  (0 < ref_count (f p))%nat → has_mm (attrs (f p)) = has_mm (attrs p) →
  on_store (gp_do t f) m = (Ok tt, m') →
  mm_ok m' ∧ gps (st m') = <[t := f p]> (gps (st m)) ∧ mgr m' = mgr m.
Proof.
  intros Hok Hp Hc Hc' Hmm Hrun.
  refine (wp_run _ _ _ _ (λ _ m', mm_ok m' ∧ gps (st m') = <[t := f p]> (gps (st m)) ∧ mgr m' = mgr m)
    Hrun _).
  wp_steps. split; [|done]. eapply (mm_ok_write m t p); try done.
  rewrite Hmm. by eapply (ok_mm m Hok).
Qed.

Lemma live_count_le m : (live_count m ≤ size (gps (st m)))%nat.
Proof. apply map_size_filter. Qed.

Lemma allocated_size m t m' :
  mm_ok m → allocated m t m' →
  size (gps (st m')) = (size (gps (st m)) `max` live_count m')%nat.
Proof.
  intros Hok Hal. pose proof (live_count_le m') as Hle.
  destruct (al_payload m t m' Hal) as (p & Hp & _).
  assert (Hg : gps (st m') = <[t := p]> (gps (st m))).
  { apply map_eq. intros t'. rewrite lookup_insert. case_decide as E; [by subst|].
    by apply (al_other m t m' Hal). }
  destruct (al_pool m t m' Hal) as [Hpool|(_ & Hpool & Hnone)].
  - destruct (ok_pool m Hok t) as (q & Hq & _); [rewrite Hpool; set_solver|].
    rewrite Hg, map_size_insert_Some in * by eauto. lia.
  - pose proof (size_split m' (al_ok m t m' Hal)) as Hs. rewrite Hpool in Hs. simpl in Hs.
    rewrite Hg, map_size_insert_None in * by done. lia.
Qed.

Lemma insert_size m m' t (p p' : payload) :
  gps (st m) !! t = Some p → gps (st m') = <[t := p']> (gps (st m)) →
  size (<[t := p']> (gps (st m))) = (size (gps (st m)) `max` live_count m')%nat.
Proof.
  intros Hp Hg. pose proof (live_count_le m') as Hle.
  rewrite Hg, map_size_insert_Some in * by eauto. lia.
Qed.

Lemma released_size m t p m' :
  gps (st m) !! t = Some p → released m t p m' →
  size (gps (st m')) = (size (gps (st m)) `max` live_count m')%nat.
Proof.
  intros Hp Hre. destruct (re_payload m t p m' Hre) as (p' & Hp' & _).
  assert (Hg : gps (st m') = <[t := p']> (gps (st m))).
  { apply map_eq. intros t'. rewrite lookup_insert. case_decide as E; [by subst|].
    by apply (re_other m t p m' Hre). }
  rewrite Hg at 1. by eapply insert_size.
Qed.

(** The pool and the count of allocations along a run. *)
Lemma mm_run_ok m n : mm_run m n → mm_ok m ∧ size (gps (st m)) = n.
Proof.
  induction 1 as [|m n t m' _ [Hok <-] Hrun|m n t m' _ [Hok <-] (p & Hp & Hc) Hrun
    |m n t f m' _ [Hok <-] (p & Hp & Hc) Hf Hrun|m n t m' _ [Hok <-] (p & Hp & Hc) Hrun].
  - split; [apply mem_empty_ok|done].
  - eapply wp_run in Hrun; [|apply (wp_allocate_acquire _ (λ t m', allocated m t m') m Hok)].
    + split; [apply (al_ok m t m' Hrun)|]. by eapply allocated_size.
    + intros t' m'' Hal. by apply wp_ret.
  - eapply (mm_ok_do m t p) in Hrun as (Hok' & Hg & _); try done.
    + split; [done|]. rewrite Hg at 1. eapply insert_size; eauto.
    + unfold ref_count. autorewrite with gp. simpl. lia.
    + by autorewrite with gp.
  - destruct (Hf p) as [Hf1 Hf2].
    eapply (mm_ok_do m t p) in Hrun as (Hok' & Hg & _); [|try done; by rewrite Hf1..].
    split; [done|]. rewrite Hg at 1. eapply insert_size; eauto.
  - eapply wp_run in Hrun; [|by apply (wp_release (λ _ m', released m t p m') m t p)].
    split; [apply (re_ok m t p m' Hrun)|]. by eapply released_size.
Qed.

(** The destructor deletes the payloads of the pool and counts them. *)
Lemma delete_loop l m :
  numberOfFrees (mgr m) = wrap32 (numberOfFrees (mgr m)) →
  wp (for_each l (λ t,
        on_store (delete_gp t);;
        modify (set_mgr (λ g, {| numberOfAllocations := numberOfAllocations g;
                                 numberOfFrees := wrap32 (numberOfFrees g + 1);
                                 freePayloads := freePayloads g |}))))
     (λ _ m', numberOfAllocations (mgr m') = numberOfAllocations (mgr m) ∧
              numberOfFrees (mgr m') = wrap32 (numberOfFrees (mgr m) + Z.of_nat (length l)) ∧
              gps (st m') = foldr delete (gps (st m)) (reverse l)) m.
Proof.
  revert m. induction l as [|t l IH]; intros m Hm; simpl.
  { apply wp_ret. rewrite Z.add_0_r. auto. }
  unfold delete_gp. wp_steps. eapply wp_mono; [apply IH|]; simpl.
  { unfold wrap32. by rewrite Zmod_mod. }
  intros _ m' (-> & -> & ->). split; [done|]. split.
  - unfold wrap32. rewrite Zplus_mod_idemp_l. f_equal. lia.
  - by rewrite reverse_cons, foldr_snoc.
Qed.
End runs.

(** ** Properties *)

Section properties.
Context `{TlmPayloadLaws, Gem5Packet}.

(** C27: The pool holds a payload exactly when nobody references it, and holds it once: no payload
    is freed twice, none is in the pool while in use, and none that came back is lost. *)
Theorem pool_exact m n :
  mm_run m n →
  NoDup (freePayloads (mgr m)) ∧
  ∀ t, t ∈ freePayloads (mgr m) ↔ ∃ p, gps (st m) !! t = Some p ∧ ref_count p = 0%nat.
Proof.
  intros [Hok _]%mm_run_ok. split; [apply (ok_nodup m Hok)|]. intros t. split.
  - intros (p & Hp & Hi & _)%(ok_pool m Hok). by exists p.
  - intros (p & Hp & Hi). by apply (ok_unused m Hok t p).
Qed.

(** In every reachable state an allocation succeeds, with a payload that nobody references and
    that carries no extension of an earlier use; the payloads in use keep their contents. *)
Theorem allocate_recycles_safely m n :
  mm_run m n →
  ∃ t m', (t ← allocate; on_store (acquire t);; mret t) m = (Ok t, m') ∧ ¬ live m t ∧
    (∃ p, gps (st m') !! t = Some p ∧ ref_count p = 1%nat ∧ get_extension (attrs p) = None) ∧
    ∀ t', live m t' → gps (st m') !! t' = gps (st m) !! t'.
Proof.
  intros [Hok _]%mm_run_ok.
  destruct (wp_Ok _ _ _ (wp_allocate_acquire mret (allocated m) m Hok
    (λ t m' Hal, wp_ret t _ m' Hal))) as (t & m' & Hrun & Hal).
  exists t, m'. split; [done|]. split; [apply (al_not_live _ _ _ Hal)|]. split.
  - destruct (al_payload _ _ _ Hal) as (p & ? & ? & ? & _). eauto.
  - intros t' Hlive. apply (al_other _ _ _ Hal). intros ->. by apply (al_not_live _ _ _ Hal).
Qed.

(** [numberOfAllocations] is the largest number of payloads that were in use at once: the
    manager asks for memory only when the pool is empty. *)
Theorem allocations_high_water m n :
  mm_run m n → numberOfAllocations (mgr m) = wrap32 (Z.of_nat n).
Proof. intros [Hok <-]%mm_run_ok. apply (ok_count m Hok). Qed.

(** After the destructor, [numberOfAllocations - numberOfFrees] is the number of payloads that
    were never given back, and only those are left. *)
Theorem destructor_counts_leaks m n :
  mm_run m n →
  ∃ m', MemoryManager_delete m = (Ok tt, m') ∧
    wrap32 (numberOfAllocations (mgr m') - numberOfFrees (mgr m')) =
      wrap32 (Z.of_nat (live_count m)) ∧
    ∀ t, is_Some (gps (st m') !! t) ↔ live m t.
Proof.
  intros [Hok _]%mm_run_ok. pose proof (ok_frees m Hok) as Hf.
  edestruct (wp_Ok _ _ _ (delete_loop (freePayloads (mgr m)) m ltac:(by rewrite Hf)))
    as ([] & m' & Hrun & Ha & Hn & Hg).
  exists m'. split; [exact Hrun|]. split.
  - rewrite Ha, Hn, Hf, (ok_count m Hok), (size_split m Hok). unfold wrap32.
    rewrite <- Zminus_mod. f_equal. lia.
  - intros t. rewrite Hg. split.
    + intros (p & [Hnot Hp]%lookup_foldr_delete_Some). rewrite elem_of_reverse in Hnot.
      exists p. split; [done|]. destruct (decide (ref_count p = 0%nat)) as [Hz|]; [|lia].
      by apply (ok_unused m Hok) in Hp.
    + intros Hlive. pose proof (live_not_free m t Hok Hlive) as Hnot.
      destruct Hlive as (p & Hp & _). exists p. apply lookup_foldr_delete_Some.
      by rewrite elem_of_reverse.
Qed.
End properties.

(** ** Witnesses *)

Definition alloc_one : M mem ptr := t ← allocate; on_store (acquire t);; mret t.
Definition mem_a : mem := (alloc_one mem_empty).2.
Definition mem_b : mem := (alloc_one mem_a).2.
Definition mem_c : mem := (release 1%positive mem_b).2.

(** Two payloads, the first of them given back. *)
Lemma mem_c_run : mm_run mem_c 2.
Proof.
  apply (run_release mem_b 2 1 mem_c); [|eexists; split; [reflexivity|vm_compute; lia]|reflexivity].
  apply (run_allocate mem_a 1 2%positive mem_b); [|reflexivity].
  apply (run_allocate mem_empty 0 1%positive mem_a); [constructor|reflexivity].
Qed.

Lemma pool_exact_witness :
  freePayloads (mgr mem_c) = [1%positive] ∧ NoDup (freePayloads (mgr mem_c)).
Proof. split; [reflexivity|]. apply (pool_exact mem_c 2 mem_c_run). Defined.

Lemma allocate_recycles_safely_witness :
  ∃ t m', alloc_one mem_c = (Ok t, m') ∧ ¬ live mem_c t.
Proof.
  destruct (allocate_recycles_safely mem_c 2 mem_c_run) as (t & m' & ? & ? & _). by exists t, m'.
Defined.

Lemma allocations_high_water_witness : numberOfAllocations (mgr mem_c) = 2.
Proof. rewrite (allocations_high_water mem_c 2 mem_c_run). reflexivity. Defined.

Lemma destructor_counts_leaks_witness :
  ∃ m', MemoryManager_delete mem_c = (Ok tt, m') ∧
    wrap32 (numberOfAllocations (mgr m') - numberOfFrees (mgr m')) = 1.
Proof.
  destruct (destructor_counts_leaks mem_c 2 mem_c_run) as (m' & ? & Hd & _).
  exists m'. split; [done|]. rewrite Hd. reflexivity.
Defined.
