(* ===== verification/BlockingHelper.v ===== *)
(** * BlockingPacketHelper: blocking_packet_helper.cc

    The slave port's record of which socket is blocked by which transaction, and of which socket
    owes gem5 a retry.  The second half of the file is the abstract specification - one request
    slot, one response slot and one retry flag per socket - and its refinement. *)

From S2P Require Import Prelude StdMap Tlm.

Module Helper.

Inductive pktType := Request | Response.

#[export] Instance pktType_eq_dec : EqDecision pktType.
Proof. solve_decision. Defined.

(** [class BlockingPacketHelper], less the members [blockingRequest] and
    [needToSendRequestRetry_], which no function uses.  [socket_num] is an [int] that the
    constructor does not initialise. *)
Record BlockingPacketHelper := {
  socket_num : Z;
  blockingRequestMap : stdmap Z (option ptr);
  blockingResponseMap : stdmap Z (option ptr);
  needToSendRequestRetryMap : stdmap Z bool;
  isSystemPortBlocked : bool;
  usingGem5Cache : bool;
}.

Definition BlockingPacketHelper_new (uninit_socket_num : Z) : BlockingPacketHelper :=
  {| socket_num := uninit_socket_num; blockingRequestMap := []; blockingResponseMap := [];
     needToSendRequestRetryMap := []; isSystemPortBlocked := false; usingGem5Cache := false |}.

Definition set_socket_num (n : Z) (h : BlockingPacketHelper) : BlockingPacketHelper :=
  {| socket_num := n; blockingRequestMap := blockingRequestMap h;
     blockingResponseMap := blockingResponseMap h;
     needToSendRequestRetryMap := needToSendRequestRetryMap h;
     isSystemPortBlocked := isSystemPortBlocked h; usingGem5Cache := usingGem5Cache h |}.
Definition set_blockingMap (ty : pktType) (m : stdmap Z (option ptr)) (h : BlockingPacketHelper) :
    BlockingPacketHelper :=
  {| socket_num := socket_num h;
     blockingRequestMap := match ty with Request => m | Response => blockingRequestMap h end;
     blockingResponseMap := match ty with Request => blockingResponseMap h | Response => m end;
     needToSendRequestRetryMap := needToSendRequestRetryMap h;
     isSystemPortBlocked := isSystemPortBlocked h; usingGem5Cache := usingGem5Cache h |}.
Definition set_retryMap (m : stdmap Z bool) (h : BlockingPacketHelper) : BlockingPacketHelper :=
  {| socket_num := socket_num h; blockingRequestMap := blockingRequestMap h;
     blockingResponseMap := blockingResponseMap h; needToSendRequestRetryMap := m;
     isSystemPortBlocked := isSystemPortBlocked h; usingGem5Cache := usingGem5Cache h |}.
Definition set_systemPortBlocked (b : bool) (h : BlockingPacketHelper) : BlockingPacketHelper :=
  {| socket_num := socket_num h; blockingRequestMap := blockingRequestMap h;
     blockingResponseMap := blockingResponseMap h;
     needToSendRequestRetryMap := needToSendRequestRetryMap h;
     isSystemPortBlocked := b; usingGem5Cache := usingGem5Cache h |}.

Definition setUsingGem5Cache (b : bool) (h : BlockingPacketHelper) : BlockingPacketHelper :=
  {| socket_num := socket_num h; blockingRequestMap := blockingRequestMap h;
     blockingResponseMap := blockingResponseMap h;
     needToSendRequestRetryMap := needToSendRequestRetryMap h;
     isSystemPortBlocked := isSystemPortBlocked h; usingGem5Cache := b |}.

Definition blockingMap (ty : pktType) (h : BlockingPacketHelper) : stdmap Z (option ptr) :=
  match ty with Request => blockingRequestMap h | Response => blockingResponseMap h end.

(** The body of the loop of [init]. *)
Definition init_socket (i : Z) (h : BlockingPacketHelper) : BlockingPacketHelper :=
  set_retryMap (sm_insert i false (needToSendRequestRetryMap h))
    (set_blockingMap Response (sm_insert i None (blockingResponseMap h))
      (set_blockingMap Request (sm_insert i None (blockingRequestMap h)) h)).

(** [init]: sockets [0] to [_num] included; with the largest [uint32_t] the test of the loop is
    always true. *)
Definition init (num : Z) : M BlockingPacketHelper unit :=
  modify (set_socket_num (to_int32 num));;
  n ← gets (λ h, wrap32 (socket_num h));
  check (negb (n =? 2 ^ 32 - 1)) (DIVERGES "init");;
  for_each (seqZ 0 (n + 1)) (λ i, modify (init_socket i)).

Definition invalid_blocking_request : error := SC_FATAL "SCSlavePort" "Invaild blocking request".

Definition updateBlockingMap (core_id : Z) (blocking_trans : option ptr) (type : pktType) :
    M BlockingPacketHelper unit :=
  n ← gets (λ h, wrap32 (socket_num h));
  check (core_id <=? n) (ASSERT "core_id <= this->socket_num");;
  cache ← gets usingGem5Cache;
  (if (core_id =? 0) && cache
   then modify (set_systemPortBlocked
                  match blocking_trans with None => false | Some _ => true end)
   else mret tt);;
  m ← gets (blockingMap type);
  match sm_find core_id m with
  | Some _ => modify (set_blockingMap type (sm_set core_id blocking_trans m))
  | None => fail invalid_blocking_request
  end.

Definition getBlockingTrans (core_id : Z) (type : pktType) : M BlockingPacketHelper (option ptr) :=
  n ← gets (λ h, wrap32 (socket_num h));
  check (core_id <? n) (ASSERT "core_id < this->socket_num");;
  m ← gets (blockingMap type);
  lift_option (sm_find core_id m) invalid_blocking_request.

Definition isBlockedPort (core_id : Z) (type : pktType) : M BlockingPacketHelper bool :=
  b ← gets isSystemPortBlocked;
  if (b : bool) then mret true else
  t ← getBlockingTrans core_id type;
  mret match t with Some _ => true | None => false end.

(** [isBlockingTrans]: its second parameter is not used. *)
Definition isBlockingTrans (blockingRequest : option ptr) (type : pktType) :
    M BlockingPacketHelper bool :=
  match blockingRequest with
  | None => mret false
  | Some t => gets (λ h, existsb (λ v, bool_decide (v = Some t)) (sm_values (blockingRequestMap h)))
  end.

Definition needToSendRequestRetry (core_id : Z) : M BlockingPacketHelper bool :=
  n ← gets (λ h, wrap32 (socket_num h));
  check (core_id <? n) (ASSERT "core_id < this->socket_num");;
  m ← gets needToSendRequestRetryMap;
  lift_option (sm_find core_id m) (SC_FATAL "SCSlavePort" "Invaild send request retry").

Definition updateRetryMap (core_id : Z) (state : bool) : M BlockingPacketHelper unit :=
  n ← gets (λ h, wrap32 (socket_num h));
  check (core_id <? n) (ASSERT "core_id < this->socket_num");;
  modify (λ h, set_retryMap
    (map (λ e, if e.1 =? core_id then (e.1, state) else e) (needToSendRequestRetryMap h)) h).

Definition getBlockingResponse : M BlockingPacketHelper (option ptr) :=
  gets (λ h, foldr (λ v r, match v with Some t => Some t | None => r end) None
               (sm_values (blockingResponseMap h))).

(** ** Lemmas *)

(** A helper after [init N]: the maps have the keys [0 .. N]. *)
Record wf (N : Z) (h : BlockingPacketHelper) : Prop := {
  wf_range : 0 ≤ N < 2 ^ 32 - 1;
  wf_num : wrap32 (socket_num h) = N;
  wf_sorted ty : sm_sorted (blockingMap ty h);
  wf_keys ty : sm_keys (blockingMap ty h) = seqZ 0 (N + 1);
  wf_retry_sorted : sm_sorted (needToSendRequestRetryMap h);
  wf_retry_keys : sm_keys (needToSendRequestRetryMap h) = seqZ 0 (N + 1);
}.

(** The slots and the retry flag of a socket. *)
Definition slot (ty : pktType) (h : BlockingPacketHelper) (k : Z) : option ptr :=
  default None (sm_find k (blockingMap ty h)).
Definition retry (h : BlockingPacketHelper) (k : Z) : bool :=
  default false (sm_find k (needToSendRequestRetryMap h)).

Section lemmas.
Implicit Types (h : BlockingPacketHelper) (N k : Z) (ty : pktType).

Lemma wf_slot N h ty k : wf N h → 0 ≤ k ≤ N → sm_find k (blockingMap ty h) = Some (slot ty h k).
Proof.
  intros Hwf Hk. unfold slot.
  assert (is_Some (sm_find k (blockingMap ty h))) as [v ->]; [|done].
  rewrite sm_find_is_Some, (wf_keys N h Hwf), elem_of_seqZ. lia.
Qed.

Lemma wf_no_slot N h ty k : wf N h → ¬ (0 ≤ k ≤ N) → sm_find k (blockingMap ty h) = None.
Proof.
  intros Hwf Hk. apply eq_None_not_Some.
  rewrite sm_find_is_Some, (wf_keys N h Hwf), elem_of_seqZ. lia.
Qed.

Lemma wf_retry_find N h k :
  wf N h → 0 ≤ k ≤ N → sm_find k (needToSendRequestRetryMap h) = Some (retry h k).
Proof.
  intros Hwf Hk. unfold retry.
  assert (is_Some (sm_find k (needToSendRequestRetryMap h))) as [v ->]; [|done].
  rewrite sm_find_is_Some, (wf_retry_keys N h Hwf), elem_of_seqZ. lia.
Qed.

(** What [updateBlockingMap] and [updateRetryMap] leave in range. *)
Definition updated k (t : option ptr) ty h : BlockingPacketHelper :=
  set_blockingMap ty (sm_set k t (blockingMap ty h)) h.
Definition retried k (b : bool) h : BlockingPacketHelper :=
  set_retryMap (map (λ e, if e.1 =? k then (e.1, b) else e) (needToSendRequestRetryMap h)) h.

Lemma blockingMap_updated k t ty ty' h :
  blockingMap ty' (updated k t ty h) =
    if decide (ty' = ty) then sm_set k t (blockingMap ty h) else blockingMap ty' h.
Proof. by destruct ty, ty'. Qed.

Lemma slot_updated N h k t ty ty' k' :
  wf N h →
  slot ty' (updated k t ty h) k' =
    if decide (ty' = ty ∧ k' = k) then t else slot ty' h k'.
Proof.
  intros Hwf. unfold slot. rewrite blockingMap_updated.
  destruct (decide (ty' = ty)) as [->|]; [|by rewrite decide_False by tauto].
  rewrite sm_find_set by apply (wf_sorted N h Hwf).
  destruct (kcmp k' k) eqn:E; [|rewrite decide_False; [done|]..].
  - apply kcmp_eq in E as ->. by rewrite decide_True.
  - intros [_ ->]. by rewrite kcmp_refl in E.
  - intros [_ ->]. by rewrite kcmp_refl in E.
Qed.

Lemma retry_updated k t ty h k' : retry (updated k t ty h) k' = retry h k'.
Proof. done. Qed.

Lemma updated_wf N h k t ty : wf N h → 0 ≤ k ≤ N → wf N (updated k t ty h).
Proof.
  intros Hwf Hk. pose proof Hwf as [Hr Hn Hs Hks Hrs Hrk]. split; try done.
  - intros ty'. rewrite blockingMap_updated. case_decide; [apply sm_set_sorted|]; apply Hs.
  - intros ty'. rewrite blockingMap_updated. case_decide as E; [|done].
    rewrite sm_set_keys; [apply Hks| |done]. rewrite sm_find_is_Some, Hks, elem_of_seqZ. lia.
Qed.

Lemma find_map_retry k b (m : stdmap Z bool) k' :
  sm_find k' (map (λ e, if e.1 =? k then (e.1, b) else e) m) =
    if k' =? k then (λ _, b) <$> sm_find k' m else sm_find k' m.
Proof.
  induction m as [|[j v] m IH]; simpl; [by destruct (k' =? k)|].
  unfold kcmp, Z_ord in *.
  destruct (Z.eqb_spec j k) as [->|Hjk]; simpl.
  - destruct (Z.compare_spec k' k) as [->|Hl|Hl]; [by rewrite Z.eqb_refl|..]; exact IH.
  - destruct (Z.compare_spec k' j) as [->|Hl|Hl]; [|exact IH..].
    by destruct (Z.eqb_spec j k).
Qed.

Lemma retry_retried N h k b k' :
  wf N h → 0 ≤ k ≤ N → retry (retried k b h) k' = if k' =? k then b else retry h k'.
Proof.
  intros Hwf Hk. unfold retry. simpl. rewrite find_map_retry.
  destruct (Z.eqb_spec k' k) as [->|]; [|done]. by rewrite (wf_retry_find N h).
Qed.

Lemma slot_retried k b ty h k' : slot ty (retried k b h) k' = slot ty h k'.
Proof. by destruct ty. Qed.

Lemma map_retry_keys k b (m : stdmap Z bool) :
  sm_keys (map (λ e, if e.1 =? k then (e.1, b) else e) m) = sm_keys m.
Proof.
  unfold sm_keys. rewrite <- !list_fmap_compose. apply list_fmap_ext.
  intros _ [j v] _. simpl. by destruct (j =? k).
Qed.

Lemma map_retry_sorted k b (m : stdmap Z bool) :
  sm_sorted m → sm_sorted (map (λ e, if e.1 =? k then (e.1, b) else e) m).
Proof.
  induction 1 as [|j v m Hall Hs IH]; simpl; [constructor|].
  assert (Forall (λ e, kcmp j e.1 = Lt)
            (map (λ e, if e.1 =? k then (e.1, b) else e) m)) as Hall'.
  { apply Forall_map. eapply Forall_impl; [exact Hall|]. intros [i w]. simpl.
    by destruct (i =? k). }
  by destruct (j =? k); constructor.
Qed.

Lemma retried_wf N h k b : wf N h → wf N (retried k b h).
Proof.
  intros [Hr Hn Hs Hks Hrs Hrk]. split; try done.
  - by apply map_retry_sorted.
  - simpl. by rewrite map_retry_keys.
Qed.

(** *** The functions, on a helper that is in order *)

Lemma wp_updateBlockingMap N h k t ty (Q : unit → BlockingPacketHelper → Prop) :
  wf N h → 0 ≤ k ≤ N → (k = 0 → usingGem5Cache h = false) →
  Q tt (updated k t ty h) → wp (updateBlockingMap k t ty) Q h.
Proof.
  intros Hwf Hk Hc HQ. unfold updateBlockingMap. wp_steps.
  { rewrite (wf_num N h Hwf). apply Z.leb_le. lia. }
  assert (((k =? 0) && usingGem5Cache h)%bool = false) as ->.
  { destruct (Z.eqb_spec k 0); [by rewrite Hc|done]. }
  wp_steps. rewrite (wf_slot N h ty k) by done. by wp_steps.
Qed.

Lemma wp_getBlockingTrans N h k ty (Q : option ptr → BlockingPacketHelper → Prop) :
  wf N h → 0 ≤ k < N → Q (slot ty h k) h → wp (getBlockingTrans k ty) Q h.
Proof.
  intros Hwf Hk HQ. unfold getBlockingTrans. wp_steps.
  { rewrite (wf_num N h Hwf). apply Z.ltb_lt. lia. }
  wp_steps. apply (wf_slot N h ty k); [done|lia].
Qed.

Lemma wp_isBlockedPort N h k ty (Q : bool → BlockingPacketHelper → Prop) :
  wf N h → 0 ≤ k < N → isSystemPortBlocked h = false →
  Q (bool_decide (is_Some (slot ty h k))) h → wp (isBlockedPort k ty) Q h.
Proof.
  intros Hwf Hk Hsys HQ. unfold isBlockedPort. wp_steps. rewrite Hsys. wp_steps.
  eapply wp_getBlockingTrans; [done..|]. wp_steps. destruct (slot ty h k) as [t|].
  - by rewrite bool_decide_true in HQ by eauto.
  - rewrite bool_decide_false in HQ; [done|]. by intros [].
Qed.

Lemma wp_needToSendRequestRetry N h k (Q : bool → BlockingPacketHelper → Prop) :
  wf N h → 0 ≤ k < N → Q (retry h k) h → wp (needToSendRequestRetry k) Q h.
Proof.
  intros Hwf Hk HQ. unfold needToSendRequestRetry. wp_steps.
  { rewrite (wf_num N h Hwf). apply Z.ltb_lt. lia. }
  wp_steps. apply (wf_retry_find N h k); [done|lia].
Qed.

Lemma wp_updateRetryMap N h k b (Q : unit → BlockingPacketHelper → Prop) :
  wf N h → 0 ≤ k < N → Q tt (retried k b h) → wp (updateRetryMap k b) Q h.
Proof.
  intros Hwf Hk HQ. unfold updateRetryMap. wp_steps.
  rewrite (wf_num N h Hwf). apply Z.ltb_lt. lia.
Qed.

(** The values of a map are the slots of its sockets. *)
Lemma values_slot N h ty v :
  wf N h → v ∈ sm_values (blockingMap ty h) ↔ ∃ k, 0 ≤ k ≤ N ∧ slot ty h k = v.
Proof.
  intros Hwf. unfold sm_values. rewrite list_elem_of_fmap. split.
  - intros ([k v'] & -> & Hin). apply sm_find_elem in Hin; [|apply (wf_sorted N h Hwf)].
    exists k. unfold slot. rewrite Hin. split; [|done].
    destruct (decide (0 ≤ k ≤ N)) as [|Hk]; [done|]. by rewrite (wf_no_slot N h) in Hin.
  - intros (k & Hk & <-). exists (k, slot ty h k). split; [done|].
    apply sm_find_elem; [apply (wf_sorted N h Hwf)|]. by apply (wf_slot N h).
Qed.

Lemma slot_range N h ty k t : wf N h → slot ty h k = Some t → 0 ≤ k ≤ N.
Proof.
  intros Hwf Hs. destruct (decide (0 ≤ k ≤ N)) as [|Hk]; [done|].
  unfold slot in Hs. by rewrite (wf_no_slot N h) in Hs.
Qed.

Lemma wp_isBlockingTrans N h t ty (Q : bool → BlockingPacketHelper → Prop) :
  wf N h →
  (∀ b : bool, (b = true ↔ ∃ k, slot Request h k = Some t) → Q b h) →
  wp (isBlockingTrans (Some t) ty) Q h.
Proof.
  intros Hwf HQ. unfold isBlockingTrans. apply wp_gets, HQ.
  rewrite existsb_exists. split.
  - intros (v & Hin & ->%bool_decide_eq_true). apply list_elem_of_In in Hin.
    change (blockingRequestMap h) with (blockingMap Request h) in Hin.
    apply (values_slot N) in Hin as (k & _ & ?); [|done]. by exists k.
  - intros (k & Hk). exists (Some t). split; [|by apply bool_decide_eq_true].
    apply list_elem_of_In. change (blockingRequestMap h) with (blockingMap Request h).
    apply (values_slot N); [done|]. exists k. eauto using slot_range.
Qed.

(** [getBlockingResponse] gives the response of the first socket that has one. *)
Definition first_response h (r : option ptr) : Prop :=
  match r with
  | Some t => ∃ k, slot Response h k = Some t ∧ ∀ k', 0 ≤ k' < k → slot Response h k' = None
  | None => ∀ k, slot Response h k = None
  end.

Lemma foldr_first (m : stdmap Z (option ptr)) r :
  sm_sorted m →
  foldr (λ v r, match v with Some t => Some t | None => r end) None (sm_values m) = r →
  match r with
  | Some t => ∃ k, sm_find k m = Some (Some t) ∧
                   ∀ k', k' < k → default None (sm_find k' m) = None
  | None => ∀ k, default None (sm_find k m) = None
  end.
Proof.
  intros Hs. revert r. induction Hs as [|k v m Hall Hs IH]; intros r; simpl.
  { by intros <-. }
  destruct v as [t|].
  - intros <-. exists k. rewrite kcmp_refl. split; [done|]. intros k' Hlt.
    rewrite (proj2 (kcmp_Z_lt _ _) Hlt).
    rewrite (sm_find_head k' m); [done|]. eapply Forall_impl; [exact Hall|].
    intros [j w]. simpl. rewrite !kcmp_Z_lt. lia.
  - intros Hr. specialize (IH r Hr). destruct r as [t|].
    + destruct IH as (j & Hj & Hless).
      assert (k < j) as Hkj.
      { apply sm_find_elem in Hj; [|done]. rewrite Forall_forall in Hall.
        specialize (Hall _ Hj). by apply kcmp_Z_lt in Hall. }
      exists j. split.
      * by rewrite (proj2 (kcmp_Z_gt _ _) Hkj).
      * intros k' Hk'. destruct (kcmp k' k) eqn:E; [done|by apply Hless..].
    + intros k'. destruct (kcmp k' k); [done|by apply IH..].
Qed.

Lemma wp_getBlockingResponse N h (Q : option ptr → BlockingPacketHelper → Prop) :
  wf N h → (∀ r, first_response h r → Q r h) → wp getBlockingResponse Q h.
Proof.
  intros Hwf HQ. apply wp_gets, HQ. pose proof (wf_sorted N h Hwf Response) as Hs.
  simpl in Hs. pose proof (foldr_first _ _ Hs eq_refl) as Hf. revert Hf.
  destruct (foldr _ _ _) as [t|]; unfold first_response, slot; simpl.
  - intros (k & Hk & Hless). exists k. rewrite Hk. split; [done|]. intros k' ?. apply Hless. lia.
  - done.
Qed.

(** *** init *)

(** A map with the keys [0 .. j-1], all with the same value. *)
Definition row {V} (v : V) (j : Z) : stdmap Z V := (λ k, (k, v)) <$> seqZ 0 j.

Lemma row_keys {V} (v : V) j : sm_keys (row v j) = seqZ 0 j.
Proof. unfold sm_keys, row. rewrite <- list_fmap_compose. apply list_fmap_id. Qed.

Lemma row_Forall {V} (v : V) (P : Z * V → Prop) j :
  (∀ k, 0 ≤ k < j → P (k, v)) → Forall P (row v j).
Proof.
  intros HP. apply Forall_fmap, Forall_forall. intros k Hk%elem_of_seqZ. apply HP. lia.
Qed.

Lemma row_S {V} (v : V) (j : nat) : row v (Z.of_nat (S j)) = row v (Z.of_nat j) ++ [(Z.of_nat j, v)].
Proof. unfold row. by rewrite seqZ_S, fmap_app. Qed.

Lemma row_insert {V} (v : V) (j : nat) :
  sm_insert (Z.of_nat j) v (row v (Z.of_nat j)) = row v (Z.of_nat (S j)).
Proof.
  rewrite row_S. unfold sm_insert.
  assert (Forall (λ e, kcmp (Z.of_nat j) e.1 = Gt) (row v (Z.of_nat j))) as Hgt.
  { apply row_Forall. intros k Hk. apply kcmp_Z_gt. simpl. lia. }
  assert (∀ k w (m : stdmap Z V), Forall (λ e, kcmp k e.1 = Gt) m →
            sm_find k m = None ∧ sm_set k w m = m ++ [(k, w)]) as Haux.
  { clear. intros k w m. induction 1 as [|[k' v'] m Hk Hm [IH1 IH2]]; simpl in *; [done|].
    by rewrite Hk, IH1, IH2. }
  by destruct (Haux _ v _ Hgt) as [-> ->].
Qed.

Lemma row_sorted {V} (v : V) (j : nat) : sm_sorted (row v (Z.of_nat j)).
Proof.
  induction j as [|j IH]; [constructor|]. rewrite <- row_insert. by apply sm_insert_sorted.
Qed.

Lemma row_find {V} (v : V) j k : default v (sm_find k (row v j)) = v.
Proof.
  unfold row. induction (seqZ 0 j) as [|i l IH]; simpl; [done|]. by destruct (kcmp k i).
Qed.

(** The state of the helper after [init] of [j] sockets of a fresh helper. *)
Definition ready (n : Z) (j : nat) : BlockingPacketHelper :=
  {| socket_num := n;
     blockingRequestMap := row None (Z.of_nat j); blockingResponseMap := row None (Z.of_nat j);
     needToSendRequestRetryMap := row false (Z.of_nat j);
     isSystemPortBlocked := false; usingGem5Cache := false |}.

Lemma init_loop n j :
  for_each (seqZ 0 (Z.of_nat j)) (λ i, modify (init_socket i)) (ready n 0) = (Ok tt, ready n j).
Proof.
  induction j as [|j IH]; [done|].
  rewrite seqZ_S, for_each_app. unfold mbind, M_bind. rewrite IH. simpl.
  unfold mbind, M_bind, modify, init_socket. simpl. unfold mret, M_ret.
  do 2 f_equal. unfold ready, set_retryMap, set_blockingMap. simpl.
  by rewrite !Z.add_0_l, !row_insert.
Qed.

Lemma init_fresh num u :
  0 ≤ num < 2 ^ 32 - 1 →
  init num (BlockingPacketHelper_new u) = (Ok tt, ready (to_int32 num) (Z.to_nat (num + 1))).
Proof.
  intros Hn. unfold init, mbind, M_bind. simpl.
  rewrite wrap32_to_int32 by (split; lia). unfold check.
  destruct (Z.eqb_spec num (2 ^ 32 - 1)); [lia|]. simpl.
  rewrite <- (Z2Nat.id (num + 1)) at 1 by lia. apply (init_loop (to_int32 num)).
Qed.

Lemma ready_wf num : 0 ≤ num < 2 ^ 32 - 1 → wf num (ready (to_int32 num) (Z.to_nat (num + 1))).
Proof.
  intros Hn. split; simpl.
  - done.
  - apply wrap32_to_int32. split; lia.
  - intros []; apply row_sorted.
  - intros []; simpl; by rewrite row_keys, Z2Nat.id by lia.
  - apply row_sorted.
  - by rewrite row_keys, Z2Nat.id by lia.
Qed.

Lemma ready_slot n j ty k : slot ty (ready n j) k = None.
Proof. unfold slot. destruct ty; apply (row_find None). Qed.

Lemma ready_retry n j k : retry (ready n j) k = false.
Proof. apply (row_find false). Qed.
End lemmas.
#[export] Hint Resolve updated_wf retried_wf : gem5.

(** ** Abstract specification

    What the helper is for: a request slot, a response slot and a retry flag per socket. *)

Record sockets := Sockets { v_slot : pktType → Z → option ptr; v_retry : Z → bool }.

(** Two descriptions of the sockets are the same when they agree on every socket. *)
#[global] Instance sockets_equiv : Equiv sockets := λ a b,
  (∀ ty k, v_slot a ty k = v_slot b ty k) ∧ (∀ k, v_retry a k = v_retry b k).
#[global] Instance sockets_equivalence : Equivalence (≡@{sockets}).
Proof.
  split.
  - by intros a.
  - intros a b [H1 H2]. by split.
  - intros a b c [H1 H2] [H3 H4]. split; intros; [by rewrite H1|by rewrite H2].
Qed.

Definition sk_initial : sockets := Sockets (λ _ _, None) (λ _, false).
Definition sk_update (k : Z) (t : option ptr) (ty : pktType) (a : sockets) : sockets :=
  Sockets (λ ty' k', if decide (ty' = ty ∧ k' = k) then t else v_slot a ty' k') (v_retry a).
Definition sk_retry (k : Z) (b : bool) (a : sockets) : sockets :=
  Sockets (v_slot a) (λ k', if k' =? k then b else v_retry a k').
Definition sk_blocked (k : Z) (ty : pktType) (a : sockets) : bool :=
  match v_slot a ty k with Some _ => true | None => false end.

#[global] Instance sk_update_proper k t ty : Proper ((≡) ==> (≡)) (sk_update k t ty).
Proof. intros a b [H1 H2]. split; [|done]. intros ty' k'. simpl. by rewrite H1. Qed.
#[global] Instance sk_retry_proper k b : Proper ((≡) ==> (≡)) (sk_retry k b).
Proof. intros a c [H1 H2]. split; [done|]. intros k'. simpl. by rewrite H2. Qed.
#[global] Instance sk_blocked_proper k ty : Proper ((≡) ==> (=)) (sk_blocked k ty).
Proof. intros a b [H1 H2]. unfold sk_blocked. by rewrite H1. Qed.

Definition view (h : BlockingPacketHelper) : sockets := Sockets (λ ty, slot ty h) (retry h).

(** A helper in use by a port without the gem5 cache. *)
Record in_order (N : Z) (h : BlockingPacketHelper) : Prop := {
  io_wf : wf N h;
  io_system : isSystemPortBlocked h = false;
  io_cache : usingGem5Cache h = false;
}.

(** One call of a function that changes the helper, on the abstract side. *)
Inductive sk_step (N : Z) : M BlockingPacketHelper unit → sockets → sockets → Prop :=
| sk_step_update k t ty a :
    0 ≤ k ≤ N → sk_step N (updateBlockingMap k t ty) a (sk_update k t ty a)
| sk_step_retry k b a : 0 ≤ k < N → sk_step N (updateRetryMap k b) a (sk_retry k b a).

(** ** Properties *)

(** C11: Every update in range is the update of the abstract table, and every query in range is the
    query of the abstract table; queries change nothing. *)
Theorem helper_refines N h :
  in_order N h →
  (∀ c a, sk_step N c (view h) a →
     ∃ h', c h = (Ok tt, h') ∧ in_order N h' ∧ view h' ≡ a) ∧
  (∀ k ty, 0 ≤ k < N →
     getBlockingTrans k ty h = (Ok (v_slot (view h) ty k), h) ∧
     isBlockedPort k ty h = (Ok (sk_blocked k ty (view h)), h) ∧
     needToSendRequestRetry k h = (Ok (v_retry (view h) k), h)) ∧
  (∀ t ty, ∃ b : bool, isBlockingTrans (Some t) ty h = (Ok b, h) ∧
     (b = true ↔ ∃ k, v_slot (view h) Request k = Some t)) ∧
  (∃ r, getBlockingResponse h = (Ok r, h) ∧ first_response h r).
Proof.
  intros [Hwf Hsys Hc]. repeat split_and.
  - intros c a Hstep. inversion Hstep as [k t ty ? Hk|k b ? Hk]; subst.
    + destruct (wp_Ok _ _ _ (wp_updateBlockingMap N h k t ty (λ _ h', h' = updated k t ty h)
        Hwf Hk (λ _, Hc) eq_refl)) as ([] & h' & Hrun & ->).
      eexists. split; [exact Hrun|]. split; [by split; auto with gem5|].
      split; intros; [by apply (slot_updated N)|done].
    + destruct (wp_Ok _ _ _ (wp_updateRetryMap N h k b (λ _ h', h' = retried k b h)
        Hwf Hk eq_refl)) as ([] & h' & Hrun & ->).
      eexists. split; [exact Hrun|]. split; [by split; auto with gem5|].
      split; intros; [apply slot_retried|apply (retry_retried N); [done|lia]].
  - intros k ty Hk.
    destruct (wp_Ok _ _ _ (wp_getBlockingTrans N h k ty (λ r h', r = slot ty h k ∧ h' = h)
      Hwf Hk (conj eq_refl eq_refl))) as (r & h' & Hrun & -> & ->).
    split; [exact Hrun|]. split.
    + unfold isBlockedPort, mbind, M_bind, gets. rewrite Hsys, Hrun. done.
    + destruct (wp_Ok _ _ _ (wp_needToSendRequestRetry N h k (λ r h', r = retry h k ∧ h' = h)
        Hwf Hk (conj eq_refl eq_refl))) as (r & h' & Hrun' & -> & ->). exact Hrun'.
  - intros t ty.
    destruct (wp_Ok _ _ _ (wp_isBlockingTrans N h t ty
      (λ b h', (b = true ↔ ∃ k, slot Request h k = Some t) ∧ h' = h) Hwf
      (λ b Hb, conj Hb eq_refl))) as (b & h' & Hrun & Hb & ->). by exists b.
  - destruct (wp_Ok _ _ _ (wp_getBlockingResponse N h (λ r h', first_response h r ∧ h' = h) Hwf
      (λ r Hr, conj Hr eq_refl))) as (r & h' & Hrun & Hr & ->). by exists r.
Qed.

(** [init] of a new helper, whatever its uninitialised members hold, gives a helper in order with
    every slot free and no retry owed. *)
Theorem init_ready num u :
  0 ≤ num < 2 ^ 32 - 1 →
  ∃ h, init num (BlockingPacketHelper_new u) = (Ok tt, h) ∧ in_order num h ∧ view h ≡ sk_initial.
Proof.
  intros Hn. eexists. split; [by apply init_fresh|]. split.
  - split; [by apply ready_wf|done..].
  - split; intros; [apply ready_slot|apply ready_retry].
Qed.

(** The bounds the functions check differ: a helper of [N] sockets takes a blocking transaction
    for socket [N], which it can then neither read nor owe a retry. *)
Theorem socket_bounds N h k t ty b :
  in_order N h → N ≤ k →
  fails (getBlockingTrans k ty) (ASSERT "core_id < this->socket_num") h ∧
  fails (isBlockedPort k ty) (ASSERT "core_id < this->socket_num") h ∧
  fails (needToSendRequestRetry k) (ASSERT "core_id < this->socket_num") h ∧
  fails (updateRetryMap k b) (ASSERT "core_id < this->socket_num") h ∧
  (N < k → fails (updateBlockingMap k t ty) (ASSERT "core_id <= this->socket_num") h) ∧
  (k = N → ∃ h', updateBlockingMap k t ty h = (Ok tt, h') ∧ slot ty h' k = t).
Proof.
  intros [Hwf Hsys Hc] Hk. pose proof (wf_num N h Hwf) as Hn.
  assert ((k <? N) = false) as Hlt by (apply Z.ltb_ge; lia).
  unfold fails, isBlockedPort, getBlockingTrans, needToSendRequestRetry, updateRetryMap.
  unfold mbind, M_bind, gets. rewrite Hsys, Hn, Hlt. repeat split_and; try done.
  - intros HNk. unfold updateBlockingMap, mbind, M_bind, gets. rewrite Hn.
    by rewrite (proj2 (Z.leb_gt k N)).
  - intros ->. pose proof (wf_range N h Hwf).
    destruct (wp_Ok _ _ _ (wp_updateBlockingMap N h N t ty (λ _ h', h' = updated N t ty h)
      Hwf ltac:(lia) (λ _, Hc) eq_refl)) as ([] & h' & Hrun & ->).
    eexists. split; [exact Hrun|]. rewrite (slot_updated N) by done. by rewrite decide_True.
Qed.

(** A helper that was not initialised refuses every socket. *)
Theorem uninitialised_helper_fails u k t ty :
  (∃ e, fails (updateBlockingMap k t ty) e (BlockingPacketHelper_new u)) ∧
  (∃ e, fails (isBlockedPort k ty) e (BlockingPacketHelper_new u)).
Proof.
  unfold fails, updateBlockingMap, isBlockedPort, getBlockingTrans, mbind, M_bind, gets. simpl.
  split.
  - destruct (k <=? _); simpl; [|by eexists]. rewrite andb_false_r. simpl.
    destruct ty; by eexists.
  - destruct (k <? _); simpl; [|by eexists]. destruct ty; by eexists.
Qed.

(** ** Witnesses *)

Definition helper2 : BlockingPacketHelper := ready 2 3.

Lemma helper2_in_order : in_order 2 helper2.
Proof. split; [by apply (ready_wf 2)|done..]. Qed.

Lemma helper_refines_witness :
  ∃ h', updateBlockingMap 1 (Some 7%positive) Request helper2 = (Ok tt, h') ∧ in_order 2 h'.
Proof.
  destruct (helper_refines 2 helper2 helper2_in_order) as [Hs _].
  destruct (Hs _ _ (sk_step_update 2 1 (Some 7%positive) Request _ ltac:(lia)))
    as (h' & ? & ? & _). by exists h'.
Defined.

Lemma init_ready_witness : ∃ h, init 2 (BlockingPacketHelper_new (-5)) = (Ok tt, h) ∧ in_order 2 h.
Proof. destruct (init_ready 2 (-5)) as (h & ? & ? & _); [lia|]. by exists h. Defined.

Lemma socket_bounds_witness :
  fails (updateRetryMap 2 true) (ASSERT "core_id < this->socket_num") helper2.
Proof.
  destruct (socket_bounds 2 helper2 2 None Request true helper2_in_order) as (_ & _ & _ & ? & _);
    [lia|done].
Defined.
End Helper.
