(* ===== verification/SocketMap.v ===== *)
(** * The socket map of the slave port: sc_slave_port.cc

    Which CPU of gem5 talks through which socket of the transactor: the members [cpu_port_map],
    [socket_map] and [cpu_vec] of [SCSlavePort], and the functions that fill and read them. *)

From S2P Require Import Prelude StdMap.

Module Sockets.

(** The requestor ids of each CPU by name, the requestor ids of each socket, and the names of the
    CPUs by index. *)
Record cpu_sockets := {
  cpu_port_map : stdmap string (list Z);
  socket_map : stdmap Z (list Z);
  cpu_vec : list string;
}.

Definition cpu_sockets_new : cpu_sockets := {| cpu_port_map := []; socket_map := []; cpu_vec := [] |}.

(** [updateCorePortMap]: replaces the map, and appends its names to [cpu_vec]. *)
Definition updateCorePortMap (map : stdmap string (list Z)) (t : cpu_sockets) : cpu_sockets :=
  {| cpu_port_map := map; socket_map := socket_map t; cpu_vec := cpu_vec t ++ sm_keys map |}.

(** The loop of [initSocketMap] for an empty configuration: one socket per CPU, in the order of
    the map. *)
Fixpoint default_loop (count : Z) (cpus : list (string * list Z)) (m : stdmap Z (list Z)) :
    stdmap Z (list Z) :=
  match cpus with
  | [] => m
  | (_, ids) :: cpus' => default_loop (wrap32 (count + 1)) cpus' (sm_insert count ids m)
  end.

(** One core of the configuration: [cpu_port_map[core_name]] creates a missing entry, a core
    index past the end of [cpu_vec] is skipped. *)
Definition add_core (socket_id : Z) (t : cpu_sockets) (core_id : Z) : cpu_sockets :=
  if Z.of_nat (length (cpu_vec t)) <=? wrap64 core_id then t else
  match cpu_vec t !! Z.to_nat core_id with
  | None => t
  | Some core_name =>
      let ports := sm_insert core_name [] (cpu_port_map t) in
      {| cpu_port_map := ports;
         socket_map := sm_set socket_id
           (sm_get_or [] socket_id (socket_map t) ++ sm_get_or [] core_name ports) (socket_map t);
         cpu_vec := cpu_vec t |}
  end.

(** One entry of the configuration: an [int] copy of the key is the key of the map. *)
Definition add_socket (t : cpu_sockets) (entry : Z * list Z) : cpu_sockets :=
  foldl (add_core (wrap32 (to_int32 entry.1))) t entry.2.

(** [initSocketMap]; the argument is the configuration of [transactor_multi], [None] where that
    pointer is null. *)
Definition initSocketMap (config : option (stdmap Z (list Z))) (t : cpu_sockets) : cpu_sockets :=
  match config with
  | None => t
  | Some [] =>
      {| cpu_port_map := cpu_port_map t;
         socket_map := default_loop 0 (cpu_port_map t) (socket_map t); cpu_vec := cpu_vec t |}
  | Some config_map => foldl add_socket t config_map
  end.

(** The loop of [getSocketId]: the first socket whose list has the id. *)
Fixpoint find_socket (id : Z) (m : stdmap Z (list Z)) : option Z :=
  match m with
  | [] => None
  | (k, ids) :: m' => if bool_decide (id ∈ ids) then Some k else find_socket id m'
  end.

(** [getSocketId]: with the gem5 cache, socket 0 is the system port's. *)
Definition getSocketId (usingGem5Cache : bool) (id : Z) (t : cpu_sockets) : Z :=
  match find_socket id (socket_map t) with
  | Some k => if usingGem5Cache then wrap32 (k + 1) else k
  | None => 0
  end.

(** ** Lemmas *)

Section lemmas.
Implicit Types (m : stdmap Z (list Z)) (t : cpu_sockets).

(** The index of the first list that has [id]. *)
Fixpoint first_index (id : Z) (ls : list (list Z)) : option nat :=
  match ls with
  | [] => None
  | l :: ls' => if bool_decide (id ∈ l) then Some 0%nat else S <$> first_index id ls'
  end.

Lemma first_index_lt id ls i : first_index id ls = Some i → (i < length ls)%nat.
Proof.
  revert i. induction ls as [|l ls IH]; intros i; simpl; [done|].
  case_bool_decide; [intros [= <-]; lia|].
  destruct (first_index id ls); simpl; [|done]. intros [= <-]. specialize (IH _ eq_refl). lia.
Qed.

Lemma first_index_Some id ls i :
  first_index id ls = Some i ↔
  (∃ l, ls !! i = Some l ∧ id ∈ l) ∧ ∀ j l, (j < i)%nat → ls !! j = Some l → id ∉ l.
Proof.
  revert i. induction ls as [|l ls IH]; intros i; simpl.
  { split; [done|]. intros [(l & Hl & _) _]. by rewrite lookup_nil in Hl. }
  case_bool_decide as Hin.
  - split.
    + intros [= <-]. split; [by exists l|]. intros j l' Hj. lia.
    + intros [_ Hless]. destruct i as [|i]; [done|]. by destruct (Hless 0%nat l ltac:(lia) eq_refl).
  - destruct i as [|i].
    { split; [by destruct (first_index id ls)|]. intros [(l' & [= <-] & ?) _]. done. }
    rewrite fmap_Some. split.
    + intros (i' & Hi & [= <-]). apply IH in Hi as [Hi Hless]. split; [done|].
      intros [|j] l' Hj; simpl; [by intros [= <-]|]. apply Hless. lia.
    + intros [Hi Hless]. exists i. split; [|done]. apply IH. split; [done|].
      intros j l' Hj. apply (Hless (S j) l'). lia.
Qed.

(** The default map numbers the lists. *)
Definition numbered (i : Z) (ls : list (list Z)) : stdmap Z (list Z) :=
  zip (seqZ i (Z.of_nat (length ls))) ls.

Lemma numbered_cons i l ls : numbered i (l :: ls) = (i, l) :: numbered (i + 1) ls.
Proof.
  unfold numbered. rewrite seqZ_cons by (simpl; lia). simpl. do 3 f_equal. lia.
Qed.

Lemma numbered_snoc i ls l :
  numbered i (ls ++ [l]) = numbered i ls ++ [(i + Z.of_nat (length ls), l)].
Proof.
  revert i. induction ls as [|l' ls IH]; intros i; simpl.
  - rewrite numbered_cons. unfold numbered. simpl. by rewrite Z.add_0_r.
  - rewrite !numbered_cons, IH. simpl. do 4 f_equal. lia.
Qed.

Lemma numbered_below i ls k :
  i + Z.of_nat (length ls) ≤ k → Forall (λ e, kcmp k e.1 = Gt) (numbered i ls).
Proof.
  revert i. induction ls as [|l ls IH]; intros i Hk; [constructor|].
  rewrite numbered_cons. simpl in *. constructor; [|apply IH; lia]. apply kcmp_Z_gt. simpl. lia.
Qed.

Lemma insert_last m k (l : list Z) :
  Forall (λ e, kcmp k e.1 = Gt) m → sm_insert k l m = m ++ [(k, l)].
Proof.
  intros Hm. unfold sm_insert.
  assert (sm_find k m = None ∧ sm_set k l m = m ++ [(k, l)]) as [-> ->]; [|done].
  induction Hm as [|[k' l'] m Hk Hm [IH1 IH2]]; simpl in *; [done|]. by rewrite Hk, IH1, IH2.
Qed.

Lemma default_loop_numbered cpus ls :
  Z.of_nat (length ls + length cpus) ≤ 2 ^ 32 →
  default_loop (wrap32 (Z.of_nat (length ls))) cpus (numbered 0 ls) = numbered 0 (ls ++ cpus.*2).
Proof.
  revert ls. induction cpus as [|[s l] cpus IH]; intros ls Hlen; simpl in *.
  { by rewrite app_nil_r. }
  rewrite (wrap32_small (Z.of_nat (length ls))) by (split; lia).
  rewrite insert_last by (apply numbered_below; lia).
  assert (wrap32 (Z.of_nat (length ls) + 1) = wrap32 (Z.of_nat (length (ls ++ [l])))) as ->.
  { rewrite length_app. simpl. f_equal. lia. }
  rewrite <- (Z.add_0_l (Z.of_nat (length ls))), <- numbered_snoc, IH.
  - by rewrite <- app_assoc.
  - rewrite length_app. simpl. lia.
Qed.

Lemma find_numbered id i ls :
  find_socket id (numbered i ls) = (λ j, i + Z.of_nat j) <$> first_index id ls.
Proof.
  revert i. induction ls as [|l ls IH]; intros i; [done|].
  rewrite numbered_cons. simpl. case_bool_decide; simpl; [by rewrite Z.add_0_r|].
  rewrite IH. destruct (first_index id ls) as [j|]; simpl; [|done]. f_equal. lia.
Qed.

Lemma find_socket_Some id m k :
  find_socket id m = Some k → ∃ ids, (k, ids) ∈ m ∧ id ∈ ids.
Proof.
  induction m as [|[k' ids] m IH]; simpl; [done|]. case_bool_decide as Hin.
  - intros [= <-]. exists ids. split; [left|done].
  - intros (ids' & ? & ?)%IH. exists ids'. split; [by right|done].
Qed.

(** *** Configured sockets *)

(** The core indices that [add_core] does not skip. *)
Definition valid_core (n : nat) (c : Z) : bool := wrap64 c <? Z.of_nat n.

(** The requestor ids of the core with index [c]. *)
Definition core_ids (t : cpu_sockets) (c : Z) : list Z :=
  match cpu_vec t !! Z.to_nat c with
  | Some name => sm_get_or [] name (cpu_port_map t)
  | None => []
  end.

(** The names of the CPUs are keys of the map, and core indices are [int]s. *)
Record table_wf t : Prop := {
  tw_names : Forall (λ name, is_Some (sm_find name (cpu_port_map t))) (cpu_vec t);
  tw_small : Z.of_nat (length (cpu_vec t)) < 2 ^ 31;
  tw_sorted : sm_sorted (socket_map t);
}.
Definition int32 (c : Z) : Prop := - 2 ^ 31 ≤ c < 2 ^ 31.

Lemma valid_core_lookup t c :
  table_wf t → int32 c → valid_core (length (cpu_vec t)) c = true →
  ∃ name, cpu_vec t !! Z.to_nat c = Some name ∧ is_Some (sm_find name (cpu_port_map t)).
Proof.
  intros Hwf [Hc1 Hc2] Hv%Z.ltb_lt. pose proof (tw_small t Hwf).
  destruct (decide (0 ≤ c)) as [Hp|Hn].
  - rewrite wrap64_small in Hv by (split; lia).
    destruct (lookup_lt_is_Some_2 (cpu_vec t) (Z.to_nat c)) as [name Hname]; [lia|].
    exists name. split; [done|]. by apply (Forall_lookup_1 _ _ _ _ (tw_names t Hwf) Hname).
  - exfalso. unfold wrap64 in Hv. rewrite <- (Z_mod_plus_full c 1) in Hv.
    rewrite Z.mod_small in Hv by lia. lia.
Qed.

Lemma add_core_spec t k c :
  table_wf t → int32 c →
  let t' := add_core k t c in
  table_wf t' ∧ cpu_vec t' = cpu_vec t ∧ cpu_port_map t' = cpu_port_map t ∧
  ∀ k', sm_find k' (socket_map t') =
    if (k' =? k) && valid_core (length (cpu_vec t)) c
    then Some (sm_get_or [] k (socket_map t) ++ core_ids t c)
    else sm_find k' (socket_map t).
Proof.
  intros Hwf Hc. unfold add_core, core_ids. rewrite Z.leb_antisym.
  fold (valid_core (length (cpu_vec t)) c). destruct (valid_core _ c) eqn:Hv; simpl.
  - destruct (valid_core_lookup t c Hwf Hc Hv) as (name & -> & [ids Hids]).
    unfold sm_insert. rewrite Hids. simpl. split; [|split; [done|split; [done|]]].
    + destruct Hwf. split; simpl; try done. by apply sm_set_sorted.
    + intros k'. rewrite sm_find_set by apply (tw_sorted t Hwf). rewrite andb_true_r.
      destruct (Z.eqb_spec k' k) as [->|Hne]; [by rewrite kcmp_refl|].
      destruct (kcmp k' k) eqn:E; try done. by apply kcmp_eq in E.
  - repeat split_and; try done. intros k'. by rewrite andb_false_r.
Qed.

Definition socket_ids t (cores : list Z) : list Z :=
  mjoin ((λ c, if valid_core (length (cpu_vec t)) c then core_ids t c else []) <$> cores).

Lemma add_cores_spec t k cores :
  table_wf t → Forall int32 cores →
  let t' := foldl (add_core k) t cores in
  table_wf t' ∧ cpu_vec t' = cpu_vec t ∧ cpu_port_map t' = cpu_port_map t ∧
  ∀ k', sm_find k' (socket_map t') =
    if (k' =? k) && existsb (valid_core (length (cpu_vec t))) cores
    then Some (sm_get_or [] k (socket_map t) ++ socket_ids t cores)
    else sm_find k' (socket_map t).
Proof.
  intros Hwf Hcs. revert t Hwf. induction Hcs as [|c cores Hc Hcs IH]; intros t Hwf; simpl.
  { repeat split_and; try done. intros k'. by rewrite andb_false_r. }
  destruct (add_core_spec t k c Hwf Hc) as (Hwf1 & Hv1 & Hp1 & Hf1).
  destruct (IH _ Hwf1) as (Hwf2 & Hv2 & Hp2 & Hf2).
  split; [done|]. split; [congruence|]. split; [congruence|]. intros k'. rewrite Hf2, Hv1.
  assert (Hids : ∀ cs, socket_ids (add_core k t c) cs = socket_ids t cs).
  { intros cs. unfold socket_ids, core_ids. by rewrite Hv1, Hp1. }
  rewrite Hids. unfold sm_get_or at 1. rewrite !Hf1, Z.eqb_refl. simpl.
  destruct (Z.eqb_spec k' k) as [->|Hne]; simpl; [|done].
  change (socket_ids t (c :: cores)) with
    ((if valid_core (length (cpu_vec t)) c then core_ids t c else []) ++ socket_ids t cores).
  destruct (valid_core (length (cpu_vec t)) c); simpl.
  - destruct (existsb (valid_core (length (cpu_vec t))) cores) eqn:Hex; [by rewrite <- app_assoc|].
    assert (socket_ids t cores = []) as ->; [|by rewrite app_nil_r].
    clear -Hex. unfold socket_ids. induction cores as [|c' cores IH]; [done|]. simpl in *.
    apply orb_false_iff in Hex as [-> Hex]. simpl. by apply IH.
  - done.
Qed.

(** The entries of a configuration: [uint32_t] keys, [int] core indices. *)
Definition config_wf (config : stdmap Z (list Z)) : Prop :=
  sm_sorted config ∧ Forall (λ e, u32 e.1 ∧ Forall int32 e.2) config.

Lemma add_sockets_spec config t :
  table_wf t → config_wf config →
  let t' := foldl add_socket t config in
  table_wf t' ∧ cpu_vec t' = cpu_vec t ∧ cpu_port_map t' = cpu_port_map t ∧
  ∀ k, sm_find k (socket_map t') =
    match sm_find k config with
    | Some cores =>
        if existsb (valid_core (length (cpu_vec t))) cores
        then Some (sm_get_or [] k (socket_map t) ++ socket_ids t cores)
        else sm_find k (socket_map t)
    | None => sm_find k (socket_map t)
    end.
Proof.
  intros Hwf [Hs Hall]. revert t Hwf Hall.
  induction Hs as [|k0 cores m Hlt Hs IH]; intros t Hwf Hall; simpl; [done|].
  apply Forall_cons in Hall as [[Hk Hcores] Hall]. simpl in Hk, Hcores.
  assert (add_socket t (k0, cores) = foldl (add_core k0) t cores) as ->.
  { unfold add_socket. simpl. by rewrite wrap32_to_int32. }
  destruct (add_cores_spec t k0 cores Hwf Hcores) as (Hwf1 & Hv1 & Hp1 & Hf1).
  destruct (IH _ Hwf1 Hall) as (Hwf2 & Hv2 & Hp2 & Hf2).
  split; [done|]. split; [congruence|]. split; [congruence|]. intros k.
  rewrite Hf2, Hv1. unfold sm_get_or at 1, socket_ids at 1, core_ids at 1.
  rewrite Hf1, Hv1, Hp1. fold (core_ids t) (socket_ids t).
  destruct (kcmp k k0) eqn:E.
  - apply kcmp_eq in E as ->. rewrite (sm_find_head k0 m) by done.
    by rewrite Z.eqb_refl.
  - rewrite (proj2 (Z.eqb_neq k k0)); [done|]. intros ->. by rewrite kcmp_refl in E.
  - rewrite (proj2 (Z.eqb_neq k k0)); [done|]. intros ->. by rewrite kcmp_refl in E.
Qed.

(** The table when the socket map is set up: the CPUs are known, no socket is. *)
Definition registered (M : stdmap string (list Z)) : cpu_sockets :=
  updateCorePortMap M cpu_sockets_new.

Lemma registered_wf M : Z.of_nat (length M) < 2 ^ 31 → table_wf (registered M).
Proof.
  intros Hlen. split; simpl.
  - apply Forall_forall. intros name Hin. by apply sm_find_is_Some.
  - unfold sm_keys. by rewrite length_fmap.
  - constructor.
Qed.
End lemmas.

(** ** Properties *)

(** With an empty configuration the CPUs get the sockets [0, 1, ...] in the order of their names,
    [getSocketId] finds the first CPU with the requestor id, an unknown id goes through socket 0,
    and every id is sent to a socket that exists. *)
Theorem default_sockets (M : stdmap string (list Z)) id :
  Z.of_nat (length M) ≤ 2 ^ 32 →
  let t := initSocketMap (Some []) (registered M) in
  socket_map t = numbered 0 (sm_values M) ∧
  getSocketId false id t = default 0 (Z.of_nat <$> first_index id (sm_values M)) ∧
  (M ≠ [] → 0 ≤ getSocketId false id t < Z.of_nat (length (socket_map t))).
Proof.
  intros Hlen t.
  assert (socket_map t = numbered 0 (sm_values M)) as Hm.
  { unfold t. simpl. apply (default_loop_numbered M []). simpl. lia. }
  assert (getSocketId false id t = default 0 (Z.of_nat <$> first_index id (sm_values M))) as Hg.
  { unfold getSocketId. rewrite Hm, find_numbered. by destruct (first_index _ _). }
  split; [done|]. split; [done|]. intros HM. rewrite Hg, Hm.
  unfold numbered. rewrite length_zip_with, length_seqZ, Nat2Z.id, Nat.min_id.
  destruct (first_index id (sm_values M)) as [i|] eqn:Hi; simpl.
  - apply first_index_lt in Hi. lia.
  - unfold sm_values. rewrite length_fmap. destruct M; [done|]. simpl. lia.
Qed.

(** With a configuration, a socket exists when at least one core of its entry does, and it has the
    requestor ids of these cores in the order of the entry; core indices that are negative or
    past the last CPU are skipped. *)
Theorem configured_sockets (M : stdmap string (list Z)) config k :
  Z.of_nat (length M) < 2 ^ 31 → config_wf config → config ≠ [] →
  sm_find k (socket_map (initSocketMap (Some config) (registered M))) =
    (cores ← sm_find k config;
     if existsb (valid_core (length M)) cores then Some (socket_ids (registered M) cores) else None).
Proof.
  intros Hlen Hwf Hne. pose proof (registered_wf M Hlen) as Htw.
  assert (initSocketMap (Some config) (registered M) = foldl add_socket (registered M) config) as ->.
  { by destruct config. }
  destruct (add_sockets_spec config (registered M) Htw Hwf) as (_ & _ & _ & ->).
  simpl. unfold sm_keys at 1. rewrite length_fmap.
  by destruct (sm_find k config) as [cores|]; simpl.
Qed.

(** ** Witnesses *)

(** Two CPUs; by name, [cpu10] comes before [cpu2]. *)
Definition two_cpus : stdmap string (list Z) := [("cpu10"%string, [7; 8]); ("cpu2"%string, [5; 6])].

Lemma default_sockets_witness :
  getSocketId false 6 (initSocketMap (Some []) (registered two_cpus)) = 1.
Proof.
  destruct (default_sockets two_cpus 6) as (_ & -> & _); [vm_compute; congruence|]. reflexivity.
Defined.

Lemma configured_sockets_witness :
  sm_find 3 (socket_map (initSocketMap (Some [(0, [9]); (3, [1; -1])]) (registered two_cpus)))
    = Some [5; 6].
Proof.
  refine (eq_trans (configured_sockets two_cpus [(0, [9]); (3, [1; -1])] 3 _ _ _) _).
  - reflexivity.
  - split; repeat constructor; simpl; try lia; vm_compute; congruence.
  - done.
  - reflexivity.
Defined.
End Sockets.
