(* ===== verification/Transactor.v ===== *)
(** * Transactors: slave_transactor.cc, slave_transactor.hh

    The SystemC modules that own the sockets of a slave port: the default one with a single
    socket, and [Gem5SlaveTransactor_Multi] with a vector of sockets. *)

From stdpp Require Import pretty.
From S2P Require Import Prelude StdMap.

Module Transactor.

(** [class Gem5SlaveTransactor_Multi]; [sockets] holds the names of the sockets made so far. *)
Record Gem5SlaveTransactor_Multi := {
  socket_core_map : stdmap Z (list Z);
  portName : string;
  socket_num : Z;
  count : Z;
  sockets : list string;
}.

Definition set_count (c : Z) (m : Gem5SlaveTransactor_Multi) : Gem5SlaveTransactor_Multi :=
  {| socket_core_map := socket_core_map m; portName := portName m; socket_num := socket_num m;
     count := c; sockets := sockets m |}.
Definition set_sockets (l : list string) (m : Gem5SlaveTransactor_Multi) :
    Gem5SlaveTransactor_Multi :=
  {| socket_core_map := socket_core_map m; portName := portName m; socket_num := socket_num m;
     count := count m; sockets := l |}.

Definition setSocketCoreMap (map : stdmap Z (list Z)) (m : Gem5SlaveTransactor_Multi) :
    Gem5SlaveTransactor_Multi :=
  {| socket_core_map := map; portName := portName m; socket_num := socket_num m;
     count := count m; sockets := sockets m |}.

(** The inline accessors. *)
Definition getSocketNum (m : Gem5SlaveTransactor_Multi) : Z := socket_num m.
Definition isUsingGem5Cache (m : Gem5SlaveTransactor_Multi) : bool := false.
Definition getSocketCoreMap (m : Gem5SlaveTransactor_Multi) : stdmap Z (list Z) := socket_core_map m.

(** [std::to_string] of a [uint32_t]: its decimal digits. *)
Definition to_string (n : Z) : string := pretty (Z.to_N n).

(** [getNameForNewSocket] *)
Definition getNameForNewSocket (name : string) : M Gem5SlaveTransactor_Multi string :=
  c ← gets count;
  n ← gets socket_num;
  check (c <? n) (ASSERT "count < socket_num");;
  modify (set_count (wrap32 (c + 1)));;
  mret (name +:+ to_string c).

(** [create_socket] *)
Definition create_socket : M Gem5SlaveTransactor_Multi string :=
  port ← gets portName; getNameForNewSocket port.

(** The constructor; [sc_vector::init] calls [create_socket] once for each of its elements. *)
Definition init_sockets (n : Z) : M Gem5SlaveTransactor_Multi unit :=
  for_each (seqZ 0 n) (λ _,
    s ← create_socket;
    modify (λ m, set_sockets (sockets m ++ [s]) m)).

Definition Gem5SlaveTransactor_Multi_new (name portName : string) (socket_num : Z) :
    outcome unit * Gem5SlaveTransactor_Multi :=
  (check (negb (bool_decide (portName = ""%string))) (SC_ERROR name "No port name specified!");;
   init_sockets socket_num)
    {| socket_core_map := []; portName := portName; socket_num := socket_num; count := 0;
       sockets := [] |}.

(** [Gem5SlaveTransactor::Gem5SlaveTransactor]: only the check of the port name. *)
Definition Gem5SlaveTransactor_new (name portName : string) : outcome string :=
  if bool_decide (portName = ""%string) then Err (SC_ERROR name "No port name specified!")
  else Ok portName.

(** [Gem5SlaveTransactor_Multi::getInstance] on the static [instance]: only the first call makes
    a transactor, the arguments of later calls are dropped. *)
Definition getInstance (name portName : string) (num : Z)
    (instance : option Gem5SlaveTransactor_Multi) :
    outcome Gem5SlaveTransactor_Multi * option Gem5SlaveTransactor_Multi :=
  match instance with
  | Some m => (Ok m, instance)
  | None =>
      match Gem5SlaveTransactor_Multi_new name portName num with
      | (Ok _, m) => (Ok m, Some m)
      | (Err e, _) => (Err e, None)
      end
  end.

(** ** Properties *)

Definition socket_name (port : string) (i : Z) : string := port +:+ to_string i.

Lemma to_string_inj a b : 0 ≤ a → 0 ≤ b → to_string a = to_string b → a = b.
Proof. unfold to_string. intros Ha Hb H. apply (inj pretty) in H. lia. Qed.

Lemma app_string_inj (s a b : string) : s +:+ a = s +:+ b → a = b.
Proof. induction s as [|c s IH]; simpl; [done|]. intros [= ?]. by apply IH. Qed.

(** The sockets after [j] calls of [create_socket]. *)
Lemma init_sockets_loop port num (j : nat) (m : Gem5SlaveTransactor_Multi) :
  u32 num → Z.of_nat j ≤ num → portName m = port → socket_num m = num → count m = 0 →
  sockets m = [] →
  init_sockets (Z.of_nat j) m =
    (Ok tt, {| socket_core_map := socket_core_map m; portName := port; socket_num := num;
               count := wrap32 (Z.of_nat j);
               sockets := socket_name port <$> seqZ 0 (Z.of_nat j) |}).
Proof.
  intros Hn Hj Hp Hs Hc Hl. unfold init_sockets. induction j as [|j IH].
  { destruct m; simpl in *. by subst. }
  rewrite seqZ_S, for_each_app. erewrite bind_Ok by (apply IH; lia). simpl.
  unfold create_socket, getNameForNewSocket, mbind, M_bind, gets, check, modify. simpl.
  rewrite (wrap32_small (Z.of_nat j)) by (destruct Hn; split; lia).
  rewrite (proj2 (Z.ltb_lt (Z.of_nat j) num)) by lia. simpl.
  unfold mret, M_ret, set_sockets, set_count. simpl.
  rewrite fmap_app. simpl. do 3 f_equal. f_equal. lia.
Qed.

(** The constructor fails in two ways only. *)
Lemma new_errors name port num e m :
  Gem5SlaveTransactor_Multi_new name port num = (Err e, m) →
  e = SC_ERROR name "No port name specified!" ∨ e = ASSERT "count < socket_num".
Proof.
  unfold Gem5SlaveTransactor_Multi_new, init_sockets. case_bool_decide; simpl.
  { intros [= <- _]. by left. }
  unfold mbind at 1, M_bind at 1. simpl. intros Hrun. right. revert Hrun.
  generalize {| socket_core_map := []; portName := port; socket_num := num; count := 0; sockets := [] |}.
  induction (seqZ 0 num) as [|i l IH]; intros m0; simpl; [done|].
  unfold create_socket, getNameForNewSocket, mbind, M_bind, gets, modify, check, mret, M_ret. simpl.
  destruct (count m0 <? socket_num m0); simpl; [apply IH|]. by intros [= <- _].
Qed.

(** The constructor makes [socket_num] sockets, named by the port and the index, and no two of
    them have the same name. *)
Theorem sockets_named name port num :
  port ≠ ""%string → u32 num →
  ∃ m, Gem5SlaveTransactor_Multi_new name port num = (Ok tt, m) ∧
    sockets m = socket_name port <$> seqZ 0 num ∧ NoDup (sockets m) ∧
    getSocketNum m = num ∧ isUsingGem5Cache m = false.
Proof.
  intros Hp Hn. eexists. split.
  { unfold Gem5SlaveTransactor_Multi_new. rewrite bool_decide_false by done. simpl.
    unfold mbind, M_bind. simpl.
    rewrite <- (Z2Nat.id num) at 1 by apply Hn. rewrite (init_sockets_loop port num); simpl; try done.
    rewrite Z2Nat.id; [done|apply Hn]. }
  simpl. rewrite Z2Nat.id by apply Hn. split; [done|]. split; [|done].
  apply NoDup_fmap_2_strong; [|apply NoDup_seqZ].
  intros a b [Ha _]%elem_of_seqZ [Hb _]%elem_of_seqZ Heq%app_string_inj.
  by apply to_string_inj.
Qed.

Lemma sockets_named_witness :
  ∃ m, Gem5SlaveTransactor_Multi_new "t" "port" 2 = (Ok tt, m) ∧
    sockets m = ["port0"%string; "port1"%string].
Proof.
  destruct (sockets_named "t" "port" 2) as (m & ? & Hs & _); [done|split; lia|].
  exists m. split; [done|]. rewrite Hs. reflexivity.
Defined.
End Transactor.
