(* ===== verification/SlavePort.v ===== *)
(** * SCSlavePort: sc_slave_port.cc, sc_slave_port.hh, sc_peq.hh

    The gem5 port that turns packets into TLM transactions.  This file has the state and the
    functions of the port; [SlavePortProps] has its invariant and theorems. *)

From S2P Require Import Prelude StdMap Tlm MemManager BlockingHelper SocketMap Transactor.

Module Port.
Export Helper(pktType(..), BlockingPacketHelper).
Import Transactor(Gem5SlaveTransactor_Multi).

(** [class SCSlavePort].  [transactor] says whether the pointer to a [Gem5SlaveTransactor] is set;
    the three maps of sockets are in [sockets]. *)
Record SCSlavePort := {
  blockingRequest : option ptr;
  needToSendRequestRetry : bool;
  blockingResponse : option ptr;
  usingGem5Cache : bool;
  transactor : bool;
  transactor_multi : option Gem5SlaveTransactor_Multi;
  blk_pkt_helper : BlockingPacketHelper;
  sockets : Sockets.cpu_sockets;
}.

(** The constructor leaves [transactor_multi] uninitialised. *)
Definition SCSlavePort_new (uninit_socket_num : Z)
    (uninit_transactor_multi : option Gem5SlaveTransactor_Multi) : SCSlavePort :=
  {| blockingRequest := None; needToSendRequestRetry := false; blockingResponse := None;
     usingGem5Cache := false; transactor := false; transactor_multi := uninit_transactor_multi;
     blk_pkt_helper := Helper.BlockingPacketHelper_new uninit_socket_num;
     sockets := Sockets.cpu_sockets_new |}.

Definition set_blockingRequest (v : option ptr) (p : SCSlavePort) : SCSlavePort :=
  {| blockingRequest := v; needToSendRequestRetry := needToSendRequestRetry p;
     blockingResponse := blockingResponse p; usingGem5Cache := usingGem5Cache p;
     transactor := transactor p; transactor_multi := transactor_multi p;
     blk_pkt_helper := blk_pkt_helper p; sockets := sockets p |}.
Definition set_needToSendRequestRetry (v : bool) (p : SCSlavePort) : SCSlavePort :=
  {| blockingRequest := blockingRequest p; needToSendRequestRetry := v;
     blockingResponse := blockingResponse p; usingGem5Cache := usingGem5Cache p;
     transactor := transactor p; transactor_multi := transactor_multi p;
     blk_pkt_helper := blk_pkt_helper p; sockets := sockets p |}.
Definition set_blockingResponse (v : option ptr) (p : SCSlavePort) : SCSlavePort :=
  {| blockingRequest := blockingRequest p; needToSendRequestRetry := needToSendRequestRetry p;
     blockingResponse := v; usingGem5Cache := usingGem5Cache p;
     transactor := transactor p; transactor_multi := transactor_multi p;
     blk_pkt_helper := blk_pkt_helper p; sockets := sockets p |}.
Definition set_usingGem5Cache (v : bool) (p : SCSlavePort) : SCSlavePort :=
  {| blockingRequest := blockingRequest p; needToSendRequestRetry := needToSendRequestRetry p;
     blockingResponse := blockingResponse p; usingGem5Cache := v;
     transactor := transactor p; transactor_multi := transactor_multi p;
     blk_pkt_helper := blk_pkt_helper p; sockets := sockets p |}.
Definition set_transactor (v : bool) (p : SCSlavePort) : SCSlavePort :=
  {| blockingRequest := blockingRequest p; needToSendRequestRetry := needToSendRequestRetry p;
     blockingResponse := blockingResponse p; usingGem5Cache := usingGem5Cache p;
     transactor := v; transactor_multi := transactor_multi p;
     blk_pkt_helper := blk_pkt_helper p; sockets := sockets p |}.
Definition set_transactor_multi (v : option Gem5SlaveTransactor_Multi) (p : SCSlavePort) :
    SCSlavePort :=
  {| blockingRequest := blockingRequest p; needToSendRequestRetry := needToSendRequestRetry p;
     blockingResponse := blockingResponse p; usingGem5Cache := usingGem5Cache p;
     transactor := transactor p; transactor_multi := v;
     blk_pkt_helper := blk_pkt_helper p; sockets := sockets p |}.
Definition set_helper (v : BlockingPacketHelper) (p : SCSlavePort) : SCSlavePort :=
  {| blockingRequest := blockingRequest p; needToSendRequestRetry := needToSendRequestRetry p;
     blockingResponse := blockingResponse p; usingGem5Cache := usingGem5Cache p;
     transactor := transactor p; transactor_multi := transactor_multi p;
     blk_pkt_helper := v; sockets := sockets p |}.
Definition set_sockets (v : Sockets.cpu_sockets) (p : SCSlavePort) : SCSlavePort :=
  {| blockingRequest := blockingRequest p; needToSendRequestRetry := needToSendRequestRetry p;
     blockingResponse := blockingResponse p; usingGem5Cache := usingGem5Cache p;
     transactor := transactor p; transactor_multi := transactor_multi p;
     blk_pkt_helper := blk_pkt_helper p; sockets := v |}.

(** A socket of the transactor the port is bound to. *)
Inductive socket_ref := SingleSocket | MultiSocket (i : Z).

(** [class PayloadEvent<SCSlavePort>]: the transaction and the phase it was notified with, which
    the constructor leaves uninitialised, and the tick it is scheduled at. *)
Record PayloadEvent := { pe_t : option (ptr * tlm_phase); pe_when : option Z }.

(** What the port calls, with the answers it got, and the calls of [nb_transport_bw] it got. *)
Inductive call :=
| CallFw (s : socket_ref) (t : ptr) (phase : tlm_phase) (delay : Z)
         (answer : tlm_sync_enum * tlm_phase * Z)
| CallBw (t : ptr) (phase : tlm_phase) (delay : Z)
| CallB (s : socket_ref) (t : ptr)
| CallDbg (s : socket_ref) (t : ptr) (bytes : Z)
| CallSendTimingResp (packet : ptr) (accepted : bool)
| CallSendRetryReq.

#[export] Instance socket_ref_eq_dec : EqDecision socket_ref.
Proof. solve_decision. Defined.

Section port.
Context `{TlmPayload, Gem5Packet} {E : Type}.

(** The state the port works in: its members, the payload memory, the payload events that exist,
    the two clocks, what is behind the sockets and the gem5 side ([env]), and the history of
    calls, oldest first. *)
Record world := World {
  port : SCSlavePort;
  memory : mem;
  events : gmap positive PayloadEvent;
  next_event : positive;
  sc_time_stamp : Z;
  curTick : Z;
  env : E;
  calls : list call;
}.

Definition set_port (f : SCSlavePort → SCSlavePort) (w : world) : world :=
  World (f (port w)) (memory w) (events w) (next_event w) (sc_time_stamp w) (curTick w) (env w)
    (calls w).
Definition set_memory (m : mem) (w : world) : world :=
  World (port w) m (events w) (next_event w) (sc_time_stamp w) (curTick w) (env w) (calls w).
Definition set_events (f : gmap positive PayloadEvent → gmap positive PayloadEvent) (w : world) :
    world :=
  World (port w) (memory w) (f (events w)) (next_event w) (sc_time_stamp w) (curTick w) (env w)
    (calls w).
Definition log_call (c : call) (w : world) : world :=
  World (port w) (memory w) (events w) (next_event w) (sc_time_stamp w) (curTick w) (env w)
    (calls w ++ [c]).

(** The code outside the repository that the port calls.  Each function may change the whole
    state: gem5 may call back into the port before it returns. *)
Class SlaveEnv := {
  nb_transport_fw : socket_ref → ptr → tlm_phase → Z → world →
                    (tlm_sync_enum * tlm_phase * Z) * world;
  b_transport : socket_ref → ptr → Z → world → Z * world;
  transport_dbg : socket_ref → ptr → world → Z * world;
  sendTimingResp : ptr → world → bool * world;
  sendRetryReq : world → world;
}.
End port.
Arguments world {_ _} E.
Arguments SlaveEnv {_ _} E.

(** A computation on the helper, the memory, the store of the port's state. *)
Abbreviation on_helper c :=
  (zoom (λ w, blk_pkt_helper (port w)) (λ h w, set_port (set_helper h) w) c).
Abbreviation on_memory c := (zoom memory set_memory c).
Abbreviation on_mem_store c :=
  (zoom (λ w, st (memory w)) (λ s w, set_memory (Mem (mgr (memory w)) s) w) c).

Section functions.
Context `{TlmPayload, Gem5Packet} {E : Type} `{!SlaveEnv E}.
Abbreviation MP := (M (world E)).

(** *** Calls of the environment *)

Definition call_fw (s : socket_ref) (t : ptr) (phase : tlm_phase) (delay : Z) :
    MP (tlm_sync_enum * tlm_phase * Z) := λ w,
  let '(r, w') := nb_transport_fw s t phase delay w in
  (Ok r, log_call (CallFw s t phase delay r) w').

Definition call_b (s : socket_ref) (t : ptr) (delay : Z) : MP Z := λ w,
  let '(delay', w') := b_transport s t delay w in (Ok delay', log_call (CallB s t) w').

Definition call_dbg (s : socket_ref) (t : ptr) : MP Z := λ w,
  let '(bytes, w') := transport_dbg s t w in (Ok bytes, log_call (CallDbg s t bytes) w').

Definition call_sendTimingResp (packet : ptr) : MP bool := λ w,
  let '(ok, w') := sendTimingResp packet w in
  (Ok ok, log_call (CallSendTimingResp packet ok) w').

Definition call_sendRetryReq : MP unit := λ w,
  (Ok tt, sendRetryReq (log_call CallSendRetryReq w)).

(** [CAUGHT_UP] *)
Definition CAUGHT_UP : MP unit :=
  b ← gets (λ w, curTick w =? sc_time_stamp w);
  check b (ASSERT "curTick() == sc_time_stamp()").

Definition no_transactor : error := SC_FATAL "SCSlavePort" "No binded transactor, please check".

(** The selection of the socket that precedes every transport call. *)
Definition bound_socket (socket_id : Z) : MP socket_ref :=
  p ← gets port;
  if transactor p then mret SingleSocket else
  match transactor_multi p with
  | Some m =>
      check (socket_id <? Transactor.socket_num m) (UNDEFINED "sockets[socket_id]");;
      mret (MultiSocket socket_id)
  | None => fail no_transactor
  end.

(** *** PayloadEvent *)

(** [new PayloadEvent] *)
Definition new_PayloadEvent : MP positive := λ w,
  (Ok (next_event w),
   World (port w) (memory w)
     (<[next_event w := {| pe_t := None; pe_when := None |}]> (events w))
     (Pos.succ (next_event w)) (sc_time_stamp w) (curTick w) (env w) (calls w)).

(** [PayloadEvent::notify] *)
Definition notify (pe : positive) (t : ptr) (phase : tlm_phase) (delay : Z) : MP unit :=
  es ← gets events;
  e ← lift_option (es !! pe) (UNDEFINED "PayloadEvent");
  check match pe_when e with None => true | Some _ => false end (ASSERT "!scheduled()");;
  now ← gets sc_time_stamp;
  modify (set_events (insert pe {| pe_t := Some (t, phase); pe_when := Some (wrap64 (now + delay)) |})).

(** [delete pe] *)
Definition delete_event (pe : positive) : MP unit := modify (set_events (delete pe)).

(** *** packet2payload *)

Definition packet2payload (packet : ptr) (trans : ptr) : MP unit :=
  pkt ← on_mem_store (pkt_at packet);
  on_mem_store (gp_do trans (set_address (getAddr pkt)));;
  p ← on_mem_store (gp_at trans);
  check (has_mm (attrs p)) (SC_ASSERT "trans.has_mm()");;
  let size := wrap32 (getSize pkt) in
  let data := getPtr pkt in
  on_mem_store (gp_do trans (set_data_length size));;
  on_mem_store (gp_do trans (set_streaming_width size));;
  on_mem_store (gp_do trans (set_data_ptr data));;
  if isRead pkt then on_mem_store (gp_do trans (set_command TLM_READ_COMMAND))
  else if isInvalidate pkt then mret tt
  else if isWrite pkt then on_mem_store (gp_do trans (set_command TLM_WRITE_COMMAND))
  else fail (SC_FATAL "SCSlavePort" "No R/W packet").

(** The extension that ties the payload to the packet and to the socket. *)
Definition attach_extension (packet trans : ptr) (socket_id : Z) : MP unit :=
  on_mem_store (gp_do trans (set_auto_extension (setCoreID socket_id (Gem5Extension_new packet)))).

Definition getSocketId (id : Z) : MP Z :=
  gets (λ w, Sockets.getSocketId (usingGem5Cache (port w)) id (sockets (port w))).

(** *** recvAtomic, recvFunctional *)

Definition recvAtomic (packet : ptr) : MP Z :=
  CAUGHT_UP;;
  pkt ← on_mem_store (pkt_at packet);
  check (negb (cacheResponding pkt))
    (PANIC "Should not see packets where cache is responding");;
  check (isRead pkt || isWrite pkt) (PANIC "Should only see read and writes at TLM memory");;
  trans ← on_memory allocate;
  on_mem_store (acquire trans);;
  packet2payload packet trans;;
  socket_id ← getSocketId (requestorId pkt);
  attach_extension packet trans socket_id;;
  delay ←
    (if isSwapReq pkt then fail (SC_FATAL "SCSlavePort" "SwapReq not supported")
     else if isRead pkt then s ← bound_socket socket_id; call_b s trans 0
     else if isInvalidate pkt then mret 0
     else if isWrite pkt then s ← bound_socket socket_id; call_b s trans 0
     else fail (SC_FATAL "SCSlavePort" "Typo of request not supported"));
  pkt' ← on_mem_store (pkt_at packet);
  (if needsResponse pkt' then on_mem_store (pkt_do packet makeResponse) else mret tt);;
  on_memory (release trans);;
  mret delay.

Definition recvFunctional (packet : ptr) : MP unit :=
  trans ← on_memory allocate;
  on_mem_store (acquire trans);;
  packet2payload packet trans;;
  pkt ← on_mem_store (pkt_at packet);
  socket_id ← getSocketId (requestorId pkt);
  attach_extension packet trans socket_id;;
  s ← bound_socket socket_id;
  bytes ← call_dbg s trans;
  p ← on_mem_store (gp_at trans);
  check (bytes =? get_data_length (attrs p))
    (SC_FATAL "SCSlavePort" "debug transport was not completed");;
  on_memory (release trans).

Definition recvTimingSnoopResp (packet : ptr) : MP bool :=
  fail (SC_FATAL "SCSlavePort" "unimplemented func.: recvTimingSnoopResp").
Definition recvFunctionalSnoop (packet : ptr) : MP unit :=
  fail (SC_FATAL "SCSlavePort" "unimplemented func.: recvFunctionalSnoop").

(** *** recvTimingReq *)

(** What happens after BEGIN_REQ, by the status the target returned. *)
Definition after_begin_req (socket_id : Z) (trans : ptr)
    (answer : tlm_sync_enum * tlm_phase * Z) : MP unit :=
  let '(status, phase, delay) := answer in
  match status with
  | TLM_ACCEPTED =>
      check (bool_decide (phase = BEGIN_REQ)) (SC_ASSERT "phase == tlm::BEGIN_REQ");;
      cache ← gets (λ w, usingGem5Cache (port w));
      if (socket_id =? 0) && cache
      then modify (set_port (set_blockingRequest (Some trans)))
      else on_helper (Helper.updateBlockingMap socket_id (Some trans) Request)
  | TLM_UPDATED =>
      check (bool_decide (phase = END_REQ) || bool_decide (phase = BEGIN_RESP))
        (SC_ASSERT "phase == tlm::END_REQ || phase == tlm::BEGIN_RESP");;
      pe ← new_PayloadEvent;
      notify pe trans phase delay
  | TLM_COMPLETED =>
      check (bool_decide (phase = END_RESP)) (SC_ASSERT "phase == tlm::END_RESP");;
      on_memory (release trans)
  end.

(** The part that sends BEGIN_REQ, once the socket is known to be free. *)
Definition send_begin_req (packet : ptr) (socket_id : Z) : MP bool :=
  trans ← on_memory allocate;
  on_mem_store (acquire trans);;
  packet2payload packet trans;;
  attach_extension packet trans socket_id;;
  pkt ← on_mem_store (pkt_at packet);
  let delay := payloadDelay pkt in
  on_mem_store (pkt_do packet (set_payloadDelay 0));;
  on_mem_store (pkt_do packet (set_headerDelay 0));;
  s ← bound_socket socket_id;
  answer ← call_fw s trans BEGIN_REQ delay;
  after_begin_req socket_id trans answer;;
  mret true.

(** The socket of a packet: that of its requestor, unless the packet names another cluster. *)
Definition request_socket (pkt : packet) (socket_id : Z) : Z :=
  if hasCpuClusterId pkt
  then if negb (cpuClusterId pkt =? socket_id) then wrap32 (cpuClusterId pkt) else socket_id
  else socket_id.

Definition recvTimingReq (packet : ptr) : MP bool :=
  CAUGHT_UP;;
  pkt ← on_mem_store (pkt_at packet);
  check (negb (cacheResponding pkt))
    (PANIC "Should not see packets where cache is responding");;
  check (isRead pkt || isWrite pkt) (PANIC "Should only see read and writes at TLM memory");;
  p ← gets port;
  check (negb (needToSendRequestRetry p)) (SC_ASSERT "!needToSendRequestRetry");;
  id ← getSocketId (requestorId pkt);
  let socket_id := request_socket pkt id in
  if match blockingRequest p with Some _ => usingGem5Cache p | None => false end
  then modify (set_port (set_needToSendRequestRetry true));; mret false
  else
  blocked ← on_helper (Helper.isBlockedPort socket_id Request);
  if (blocked : bool)
  then on_helper (Helper.updateRetryMap socket_id true);; mret false
  else send_begin_req packet socket_id.

(** *** pec *)

(** The core id in the payload's extension. *)
Definition core_of (trans : ptr) : MP Z :=
  e ← on_mem_store (getExtension trans); getCoreID e.

(** Sends END_RESP and releases the transaction. *)
Definition send_end_resp (trans : ptr) (core_id : Z) : MP unit :=
  s ← bound_socket core_id;
  call_fw s trans END_RESP 0;;
  on_memory (release trans).

(** The first part of [pec]: the request channel is free again. *)
Definition pec_unblock (trans : ptr) : MP unit :=
  p ← gets port;
  if bool_decide (blockingRequest p = Some trans) && usingGem5Cache p
  then
    modify (set_port (set_blockingRequest None));;
    if needToSendRequestRetry p
    then modify (set_port (set_needToSendRequestRetry false));; call_sendRetryReq
    else mret tt
  else
    b ← on_helper (Helper.isBlockingTrans (Some trans) Request);
    check b (SC_ASSERT "blk_pkt_helper->isBlockingTrans(&trans, pktType::Request)");;
    core_id ← core_of trans;
    on_helper (Helper.updateBlockingMap core_id None Request);;
    r ← on_helper (Helper.needToSendRequestRetry core_id);
    if (r : bool)
    then on_helper (Helper.updateRetryMap core_id false);; call_sendRetryReq
    else mret tt.

(** The second part of [pec]: the response goes to gem5. *)
Definition pec_response (trans : ptr) : MP unit :=
  CAUGHT_UP;;
  e ← on_mem_store (getExtension trans);
  let packet := getPacket e in
  core_id ← getCoreID e;
  p ← gets port;
  (if (core_id =? 0) && usingGem5Cache p
   then check match blockingResponse p with None => true | Some _ => false end
          (SC_ASSERT "!blockingResponse")
   else
     r ← on_helper (Helper.getBlockingTrans core_id Response);
     check match r with None => true | Some _ => false end
       (SC_ASSERT "!blk_pkt_helper->getBlockingTrans(core_id, pktType::Response)"));;
  pkt ← on_mem_store (pkt_at packet);
  (if needsResponse pkt then on_mem_store (pkt_do packet makeResponse) else mret tt);;
  pkt' ← on_mem_store (pkt_at packet);
  need_retry ←
    (if isResponse pkt' then ok ← call_sendTimingResp packet; mret (negb ok) else mret false);
  if (need_retry : bool)
  then
    cache ← gets (λ w, usingGem5Cache (port w));
    if (core_id =? 0) && cache
    then modify (set_port (set_blockingResponse (Some trans)))
    else on_helper (Helper.updateBlockingMap core_id (Some trans) Response)
  else send_end_resp trans core_id.

Definition pec (pe : positive) (trans : ptr) (phase : tlm_phase) : MP unit :=
  blocking ← on_helper (Helper.isBlockingTrans (Some trans) Request);
  p ← gets port;
  (if bool_decide (phase = END_REQ)
      || (blocking && bool_decide (phase = BEGIN_RESP))
      || (bool_decide (blockingRequest p = Some trans) && bool_decide (phase = BEGIN_RESP))
   then pec_unblock trans else mret tt);;
  (if bool_decide (phase = BEGIN_RESP) then pec_response trans else mret tt);;
  delete_event pe.

(** [PayloadEvent::process]: gem5's event queue has taken the event off the queue. *)
Definition process (pe : positive) : MP unit :=
  es ← gets events;
  e ← lift_option (es !! pe) (UNDEFINED "PayloadEvent");
  modify (set_events (insert pe {| pe_t := pe_t e; pe_when := None |}));;
  tp ← lift_option (pe_t e) (UNDEFINED "uninitialised event");
  pec pe tp.1 tp.2.

(** *** recvRespRetry *)

(** One response that gem5 refused before. *)
Definition retry_response (trans : ptr) : MP unit :=
  e ← on_mem_store (getExtension trans);
  let packet := getPacket e in
  core_id ← getCoreID e;
  ok ← call_sendTimingResp packet;
  check ok (SC_ASSERT "!need_retry");;
  send_end_resp trans core_id.

(** The loop; [response] is the local variable of that name. *)
Fixpoint resp_retry_loop (fuel : nat) (response : option ptr) : MP unit :=
  match fuel with
  | O => fail NO_FUEL
  | S fuel' =>
      p ← gets port;
      match blockingResponse p, response with
      | None, None => mret tt
      | Some trans, _ =>
          modify (set_port (set_blockingResponse None));;
          retry_response trans;;
          response' ← on_helper Helper.getBlockingResponse;
          resp_retry_loop fuel' response'
      | None, Some trans =>
          core_id ← core_of trans;
          on_helper (Helper.updateBlockingMap core_id None Response);;
          retry_response trans;;
          response' ← on_helper Helper.getBlockingResponse;
          resp_retry_loop fuel' response'
      end
  end.

(** Each pass frees a response slot, the port's own or one of the helper's. *)
Definition recvRespRetry : MP unit :=
  CAUGHT_UP;;
  response ← on_helper Helper.getBlockingResponse;
  n ← gets (λ w, length (Helper.blockingResponseMap (blk_pkt_helper (port w))));
  resp_retry_loop (S (S n)) response.

(** *** nb_transport_bw and binding *)

Definition nb_transport_bw (trans : ptr) (phase : tlm_phase) (delay : Z) :
    MP (tlm_sync_enum * tlm_phase * Z) :=
  modify (log_call (CallBw trans phase delay));;
  pe ← new_PayloadEvent;
  notify pe trans phase delay;;
  mret (TLM_ACCEPTED, phase, delay).

Definition bindToTransactor : MP unit :=
  p ← gets port;
  check (negb (transactor p)) (SC_ASSERT "this->transactor == nullptr");;
  modify (set_port (set_transactor true)).

Definition bindToTransactor_Multi (m : Gem5SlaveTransactor_Multi) : MP unit :=
  p ← gets port;
  check (negb (transactor p)) (SC_ASSERT "this->transactor == nullptr");;
  modify (set_port (set_transactor_multi (Some m)));;
  modify (set_port (set_usingGem5Cache (Transactor.isUsingGem5Cache m)));;
  on_helper (modify (Helper.setUsingGem5Cache (Transactor.isUsingGem5Cache m)));;
  modify (set_port (λ p, set_sockets
    (Sockets.initSocketMap (Transactor.getSocketCoreMap <$> transactor_multi p) (sockets p)) p));;
  n ← gets (λ w, Z.of_nat (length (Sockets.socket_map (sockets (port w)))));
  on_helper (Helper.init (wrap32 n)).

Definition updateCorePortMap (map : stdmap string (list Z)) : MP unit :=
  modify (set_port (λ p, set_sockets (Sockets.updateCorePortMap map (sockets p)) p)).
End functions.
End Port.
