(* ===== verification/SlaveProtocol.v ===== *)
(** * The TLM protocol the slave port takes part in

    A monitor of the history of calls, the assumptions on what is behind the port's sockets and on
    gem5, and the invariant of the port. *)

From S2P Require Import Prelude StdMap Tlm MemManager BlockingHelper SocketMap Transactor SlavePort.
From Stdlib Require Import Sorted.
Import Helper(in_order, slot, retry, view, updated, retried).
Import Port.

(** ** The monitor

    Where a transaction that the port began and did not finish is: BEGIN_REQ was accepted and the
    request channel of its socket is taken ([MReq]), the channel was freed by END_REQ ([MWait]),
    or BEGIN_RESP was given and the response channel of its socket is taken ([MResp]). *)
Inductive mstage := MReq | MWait | MResp.

#[export] Instance mstage_eq_dec : EqDecision mstage.
Proof. solve_decision. Defined.

Abbreviation protocol := (gmap ptr (Z * mstage)).

(** No transaction of socket [k] is at stage [s]. *)
Definition channel_free (s : mstage) (k : Z) (G : protocol) : bool :=
  bool_decide (map_Forall (λ _ x, x ≠ (k, s)) G).

Definition when {A} (b : bool) (o : option A) : option A := if b then o else None.

(** One call, by the rules of the base protocol (IEEE 1666-2011, 15.2): [None] when a rule is
    broken. *)
Definition mon_step (G : protocol) (c : call) : option protocol :=
  match c with
  | CallFw (MultiSocket k) t BEGIN_REQ _ (status, phase, _) =>
      when (bool_decide (G !! t = None) && channel_free MReq k G)
      match status, phase with
      | TLM_ACCEPTED, BEGIN_REQ => Some (<[t := (k, MReq)]> G)
      | TLM_UPDATED, END_REQ => Some (<[t := (k, MWait)]> G)
      | TLM_UPDATED, BEGIN_RESP => when (channel_free MResp k G) (Some (<[t := (k, MResp)]> G))
      | TLM_COMPLETED, _ => Some G
      | _, _ => None
      end
  | CallFw (MultiSocket k) t END_RESP _ _ =>
      when (bool_decide (G !! t = Some (k, MResp))) (Some (delete t G))
  | CallFw _ _ _ _ _ => None
  | CallBw t END_REQ _ =>
      match G !! t with
      | Some (k, MReq) => Some (<[t := (k, MWait)]> G)
      | _ => None
      end
  | CallBw t BEGIN_RESP _ =>
      match G !! t with
      | Some (k, MReq) | Some (k, MWait) =>
          when (channel_free MResp k G) (Some (<[t := (k, MResp)]> G))
      | _ => None
      end
  | CallBw _ _ _ => None
  | CallB _ _ | CallDbg _ _ _ | CallSendTimingResp _ _ | CallSendRetryReq => Some G
  end.

Definition monitor (l : list call) : option protocol :=
  foldl (λ o c, o ≫= λ G, mon_step G c) (Some ∅) l.

Lemma monitor_snoc l c : monitor (l ++ [c]) = monitor l ≫= λ G, mon_step G c.
Proof. unfold monitor. by rewrite foldl_app. Qed.

Lemma channel_free_spec s k G : channel_free s k G = true ↔ ∀ t, G !! t ≠ Some (k, s).
Proof.
  unfold channel_free. rewrite bool_decide_eq_true. split.
  - intros Hall t Ht. by apply (Hall t _ Ht).
  - intros Hno t x Ht ->. by apply (Hno t).
Qed.

Lemma channel_free_intro s k G : (∀ t, G !! t ≠ Some (k, s)) → channel_free s k G = true.
Proof. by rewrite channel_free_spec. Qed.

(** What the port holds of a transaction: whether it is in the request slot and in the response
    slot of its socket, and the phases of its scheduled events. *)
Abbreviation held_by_port := (bool * bool * list tlm_phase)%type.

Abbreviation helper w := (blk_pkt_helper (port w)).

(** What gem5, the port and the targets agree on: the addresses gem5 uses on each socket, when gem5
    takes every response, and what the other side keeps of the transactions in progress, next to
    the payloads in memory. *)
Class Terms `{TlmPayload, Gem5Packet} (E : Type) := {
  addressable : Z → Z → Prop;
  willing : E → Prop;
  coupled : protocol → mem → E → Prop;
}.

Section protocol.
Context `{TlmPayloadLaws, Gem5PacketLaws} {E : Type} `{!SlaveEnv E, !Terms E}.
Implicit Types (w : world E) (t : ptr) (k N : Z) (G : protocol).

(** ** Assumptions on the other side *)

(** Payload [t] is referenced and carries the extension [e]. *)
Definition held w t (e : Gem5Extension) : Prop :=
  ∃ p, gps (st (memory w)) !! t = Some p ∧ (0 < ref_count p)%nat ∧
       get_extension (attrs p) = Some e.

Definition has_packet w (a : ptr) : Prop := is_Some (pkts (st (memory w)) !! a).

Definition tracked w t : Prop := ∃ G, monitor (calls w) = Some G ∧ is_Some (G !! t).

Definition caught_up w : Prop := curTick w = sc_time_stamp w.

(** What the other side may change during a call: its own state, and memory, except that the
    payloads the port is using stay referenced and keep their extension and packet.  The payload
    of the call itself is [extra]; the packet of [gone] may be deleted. *)
Record private (extra gone : option ptr) w w' : Prop := {
  pr_port : port w' = port w;
  pr_events : events w' = events w;
  pr_next : next_event w' = next_event w;
  pr_calls : calls w' = calls w;
  pr_sc : sc_time_stamp w' = sc_time_stamp w;
  pr_tick : curTick w' = curTick w;
  pr_mem : mm_ok (memory w) → mm_ok (memory w');
  pr_held t e : tracked w t ∨ extra = Some t → held w t e → held w' t e;
  pr_packet t e : tracked w t ∨ extra = Some t → gone ≠ Some t → held w t e →
    has_packet w (Packet e) → has_packet w' (Packet e);
}.

(** The other side keeps its own account of the transactions. *)
Definition keeps w w' : Prop :=
  ∀ G, monitor (calls w) = Some G → coupled G (memory w) (env w) → coupled G (memory w') (env w').

(** A packet gem5 may send as a timing request: a read or a write for one of the [N] sockets, at an
    address of that socket. *)
Definition socket_of w (pkt : packet) : Z :=
  request_socket pkt (Sockets.getSocketId false (requestorId pkt) (sockets (port w))).
Definition good_packet N (a : ptr) w : Prop :=
  ∃ pkt, pkts (st (memory w)) !! a = Some pkt ∧ cacheResponding pkt = false ∧
         (isRead pkt || isWrite pkt) = true ∧ 0 ≤ socket_of w pkt < N ∧
         addressable (socket_of w pkt) (getAddr pkt).

(** During a callback gem5 may send further requests. *)
Inductive callback N (gone : option ptr) : world E → world E → Prop :=
| cb_done w : callback N gone w w
| cb_private w w' w'' :
    private None gone w w' → keeps w w' → callback N gone w' w'' → callback N gone w w''
| cb_request w a b w' w'' :
    good_packet N a w → recvTimingReq a w = (Ok b, w') → callback N gone w' w'' →
    callback N gone w w''.

(** The answers to BEGIN_REQ the port supports on socket [k]. *)
Definition answer_ok k G (answer : tlm_sync_enum * tlm_phase * Z) : Prop :=
  match answer with
  | (TLM_ACCEPTED, phase, _) => phase = BEGIN_REQ
  | (TLM_UPDATED, phase, _) => phase = BEGIN_RESP ∧ channel_free MResp k G = true
  | (TLM_COMPLETED, phase, _) => phase = END_RESP
  end.

(** Payload [t], which the port has just made, goes to socket [k]. *)
Record offered N w G k t : Prop := {
  of_monitor : monitor (calls w) = Some G;
  of_mem : mm_ok (memory w);
  of_coupled : coupled G (memory w) (env w);
  of_socket : 0 ≤ k < N;
  of_new : G !! t = None;
  of_held : ∃ a, held w t {| Packet := a; coreId := Some k |};
}.

Definition addressed w k t : Prop :=
  ∃ p, gps (st (memory w)) !! t = Some p ∧ addressable k (get_address (attrs p)).

(** The other side keeps the protocol and completes debug transports.  What it keeps of the
    transactions does not depend on payloads of no transaction. *)
Class Conforming N : Prop := {
  cf_stable G m m' (e : E) :
    coupled G m e → mm_ok m' →
    (∀ t, is_Some (G !! t) → gps (st m') !! t = gps (st m) !! t) → coupled G m' e;
  cf_begin k t delay w G answer w' :
    offered N w G k t → addressed w k t → channel_free MReq k G = true →
    nb_transport_fw (MultiSocket k) t BEGIN_REQ delay w = (answer, w') →
    private (Some t) None w w' ∧ answer_ok k G answer ∧
    ∀ G', mon_step G (CallFw (MultiSocket k) t BEGIN_REQ delay answer) = Some G' →
          coupled G' (memory w') (env w');
  cf_end k t delay w G r w' :
    monitor (calls w) = Some G → mm_ok (memory w) → coupled G (memory w) (env w) →
    G !! t = Some (k, MResp) → nb_transport_fw (MultiSocket k) t END_RESP delay w = (r, w') →
    private None None w w' ∧ (willing (env w) → willing (env w')) ∧
    coupled (delete t G) (memory w') (env w');
  cf_retry w : callback N None w (sendRetryReq w);
  cf_resp t e w ok w' :
    held w t e → sendTimingResp (Packet e) w = (ok, w') →
    callback N (if ok then Some t else None) w w' ∧
    (willing (env w) → ok = true ∧ willing (env w'));
  cf_b k t delay w G r w' :
    offered N w G k t → b_transport (MultiSocket k) t delay w = (r, w') →
    private (Some t) None w w' ∧ coupled G (memory w') (env w');
  cf_dbg k t w G r w' :
    offered N w G k t → addressed w k t → transport_dbg (MultiSocket k) t w = (r, w') →
    private (Some t) None w w' ∧ coupled G (memory w') (env w') ∧
    (∀ p, gps (st (memory w')) !! t = Some p → get_data_length (attrs p) = r);
}.

(** ** Invariant *)

(** The port as [bindToTransactor] on a transactor of [N] sockets leaves it, without cache. *)
Record configured N (p : SCSlavePort) : Prop := {
  c_helper : in_order N (blk_pkt_helper p);
  c_cache : Port.usingGem5Cache p = false;
  c_request : blockingRequest p = None;
  c_response : blockingResponse p = None;
  c_retry : Port.needToSendRequestRetry p = false;
  c_single : transactor p = false;
  c_multi : ∃ m, transactor_multi p = Some m ∧ N ≤ Transactor.socket_num m;
  c_ids id : 0 ≤ Sockets.getSocketId false id (sockets p) < N;
}.

(** Event [pe] is scheduled for [t] and [ph]. *)
Definition scheduled w pe t (ph : tlm_phase) : Prop :=
  ∃ when, events w !! pe = Some {| pe_t := Some (t, ph); pe_when := Some when |}.

(** The scheduled events of [t], in the order of their notification. *)
Definition pending w t (l : list (positive * tlm_phase)) : Prop :=
  StronglySorted (λ x y, (x.1 < y.1)%positive) l ∧
  ∀ pe ph, (pe, ph) ∈ l ↔ scheduled w pe t ph.

Inductive shape : mstage → held_by_port → Prop :=
| shape_req : shape MReq (true, false, [])
| shape_end_req : shape MWait (true, false, [END_REQ])
| shape_wait : shape MWait (false, false, [])
| shape_both : shape MResp (true, false, [END_REQ; BEGIN_RESP])
| shape_resp b : shape MResp (b, false, [BEGIN_RESP])
| shape_refused : shape MResp (false, true, []).

(** [cur]: the transaction an operation has in hand, with what the port holds of it. *)
Definition fits (cur : option (ptr * held_by_port)) t (s : mstage) (x : held_by_port) : Prop :=
  match cur with
  | Some (t', y) => if decide (t = t') then x = y ∧ s ≠ MReq else shape s x
  | None => shape s x
  end.

Definition holding w t k (l : list tlm_phase) : held_by_port :=
  (bool_decide (slot Request (helper w) k = Some t),
   bool_decide (slot Response (helper w) k = Some t), l).

Record inv N (cur : option (ptr * held_by_port)) w G : Prop := {
  i_config : configured N (port w);
  i_mem : mm_ok (memory w);
  i_monitor : monitor (calls w) = Some G;
  i_socket t k s : G !! t = Some (k, s) → 0 ≤ k < N;
  i_held t k s : G !! t = Some (k, s) →
    ∃ a, held w t {| Packet := a; coreId := Some k |} ∧
         (fst <$> cur ≠ Some t → has_packet w a);
  i_slot ty k t : slot ty (helper w) k = Some t → ∃ s, G !! t = Some (k, s);
  i_stage t k s : G !! t = Some (k, s) →
    ∃ l, pending w t l ∧ fits cur t s (holding w t k l.*2);
  i_exclusive t t' k : G !! t = Some (k, MResp) → G !! t' = Some (k, MResp) → t = t';
  i_retry k : retry (helper w) k = true → is_Some (slot Request (helper w) k);
  i_events pe t ph : scheduled w pe t ph → is_Some (G !! t);
  i_fresh pe : is_Some (events w !! pe) → (pe < next_event w)%positive;
  i_cur c : cur = Some c → is_Some (G !! c.1);
}.

(** The invariant of the port together with what the other side keeps. *)
Record winv N (cur : option (ptr * held_by_port)) w G : Prop := {
  v_inv :> inv N cur w G;
  v_coupled : coupled G (memory w) (env w);
}.

Lemma inv_tracked N cur w G t : inv N cur w G → tracked w t ↔ is_Some (G !! t).
Proof.
  intros Hi. unfold tracked. rewrite (i_monitor N cur w G Hi). split; [|eauto].
  by intros (G' & [= <-] & ?).
Qed.

(** A step of the other side keeps the invariant. *)
Lemma inv_private N cur w G extra gone w' :
  inv N cur w G → private extra gone w w' → (∀ t, gone = Some t → fst <$> cur = Some t) →
  inv N cur w' G.
Proof.
  intros Hi [Hp He Hn Hc _ _ Hm Hh Hk] Hgone.
  assert (∀ pe t ph, scheduled w' pe t ph ↔ scheduled w pe t ph) as Hs.
  { intros. unfold scheduled. by rewrite He. }
  destruct Hi as [J1 J2 J3 J4 J5 J6 J7 J8 J9 J10 J11 J12].
  split; rewrite ?Hp, ?He, ?Hn, ?Hc; eauto.
  - intros t k s Ht. destruct (J5 t k s Ht) as (a & Ha & Hpkt).
    assert (tracked w t) as Htr by (exists G; eauto).
    exists a. split; [eauto|]. intros Hcur.
    apply (Hk t {| Packet := a; coreId := Some k |}); eauto.
  - intros t k s Ht. destruct (J7 t k s Ht) as (l & [Hl1 Hl2] & Hfit). exists l.
    unfold holding. rewrite Hp. split; [|done]. split; [done|]. intros. by rewrite Hs.
  - intros pe t ph. rewrite Hs. eauto.
Qed.

Lemma pending_nil w t : (∀ pe ph, ¬ scheduled w pe t ph) → pending w t [].
Proof. intros Hno. split; [constructor|]. intros pe ph. split; [set_solver|]. by intros ?%Hno. Qed.

Lemma pending_ext w w' t l :
  (∀ pe ph, scheduled w' pe t ph ↔ scheduled w pe t ph) → pending w t l → pending w' t l.
Proof. intros Hs [Hl1 Hl2]. split; [done|]. intros pe ph. by rewrite Hs. Qed.

(** A request in the slot of a socket belongs to that socket. *)
Lemma inv_slot_socket N cur w G ty k k' t s :
  inv N cur w G → slot ty (helper w) k = Some t → G !! t = Some (k', s) → k = k'.
Proof. intros Hi Hs Ht. destruct (i_slot N cur w G Hi ty k t Hs) as (s' & ?). congruence. Qed.

(** A free request slot is a free request channel. *)
Lemma inv_request_free N cur w G k :
  inv N cur w G → slot Request (helper w) k = None → channel_free MReq k G = true.
Proof.
  intros Hi Hk. apply channel_free_intro. intros t Ht.
  destruct (i_stage N cur w G Hi t k MReq Ht) as (l & _ & Hfit).
  unfold fits, holding in Hfit. rewrite Hk in Hfit.
  destruct cur as [[t' y]|]; [case_decide|]; [by destruct Hfit|..]; by inversion Hfit.
Qed.

Lemma winv_private N cur w G extra gone w' :
  winv N cur w G → private extra gone w w' → keeps w w' →
  (∀ t, gone = Some t → fst <$> cur = Some t) → winv N cur w' G.
Proof.
  intros [Hi Hc] Hpr Hk Hgone. split; [by eapply inv_private|]. apply Hk; [apply Hi|done].
Qed.

(** [w'] differs from [w] in what concerns transaction [t] only. *)
Record only t w w' : Prop := {
  on_held t' e : t' ≠ t → held w t' e → held w' t' e;
  on_packet a : has_packet w a → has_packet w' a;
  on_slot ty k t' : t' ≠ t →
    slot ty (helper w') k = Some t' ↔ slot ty (helper w) k = Some t';
  on_scheduled pe t' ph : t' ≠ t → scheduled w' pe t' ph ↔ scheduled w pe t' ph;
}.

(** What the invariant asks of one transaction, given the others. *)
Definition tracked_ok N cur w G t (x : option (Z * mstage)) : Prop :=
  match x with
  | Some (k, s) =>
      0 ≤ k < N ∧
      (∃ a, held w t {| Packet := a; coreId := Some k |} ∧
            (fst <$> cur ≠ Some t → has_packet w a)) ∧
      (∀ ty k', slot ty (helper w) k' = Some t → k' = k) ∧
      (∃ l, pending w t l ∧ fits cur t s (holding w t k l.*2)) ∧
      (s = MResp → ∀ t', t' ≠ t → G !! t' ≠ Some (k, MResp))
  | None =>
      (∀ ty k', slot ty (helper w) k' ≠ Some t) ∧ (∀ pe ph, ¬ scheduled w pe t ph) ∧
      fst <$> cur ≠ Some t
  end.

Definition set_stage t (x : option (Z * mstage)) G : protocol := partial_alter (λ _, x) t G.

Lemma set_stage_Some t t' x y G :
  set_stage t x G !! t' = Some y ↔ t' = t ∧ x = Some y ∨ t' ≠ t ∧ G !! t' = Some y.
Proof. unfold set_stage. rewrite lookup_partial_alter. case_decide as Ht.
  - subst t'. split; [by left|]. by intros [(_ & ?)|(? & _)].
  - split; [by right; split; [congruence|]|]. by intros [(-> & _)|(_ & ?)].
Qed.

(** The operation may take [t] in hand or put it down. *)
Definition in_hand_change t (cur cur' : option (ptr * held_by_port)) : Prop :=
  cur' = cur ∨ (∀ c, cur = Some c → c.1 = t) ∧ (∀ c, cur' = Some c → c.1 = t).

Lemma in_hand_other t cur cur' t' :
  in_hand_change t cur cur' → t' ≠ t →
  (fst <$> cur ≠ Some t' ↔ fst <$> cur' ≠ Some t') ∧ ∀ s x, fits cur t' s x ↔ fits cur' t' s x.
Proof.
  intros [->|[H3 H4]] Hne; [done|]. unfold fits.
  destruct cur as [[u y]|]; destruct cur' as [[u' y']|]; simpl in *;
    repeat match goal with Hc : ∀ c, Some _ = Some c → _ |- _ =>
      specialize (Hc _ eq_refl); simpl in Hc; subst end;
    (split; [split; intros; congruence|intros s x; by rewrite ?decide_False by done]).
Qed.

(** Every transition of the port: one transaction changes. *)
Lemma inv_step N cur cur' w w' G t x :
  inv N cur w G → configured N (port w') → mm_ok (memory w') →
  monitor (calls w') = Some (set_stage t x G) → only t w w' → in_hand_change t cur cur' →
  (∀ k, retry (helper w') k = true → is_Some (slot Request (helper w') k)) →
  (∀ pe, is_Some (events w' !! pe) → (pe < next_event w')%positive) →
  tracked_ok N cur' w' G t x →
  inv N cur' w' (set_stage t x G).
Proof.
  intros Hi Hc Hm Hmon [Hh Hp Hs He] Hcur Hr Hf Ht.
  destruct Hi as [J1 J2 J3 J4 J5 J6 J7 J8 J9 J10 J11 J12].
  split; try done.
  - intros t' k s [(-> & ->)|(Hne & Hg)]%set_stage_Some; [apply Ht|eauto].
  - intros t' k s [(-> & ->)|(Hne & Hg)]%set_stage_Some; [apply Ht|].
    destruct (J5 t' k s Hg) as (a & Ha & Hpk). exists a. split; [eauto|].
    intros Hn. apply Hp, Hpk. by apply (in_hand_other t cur cur').
  - intros ty k t' Hsl. destruct (decide (t' = t)) as [->|Hne].
    + destruct x as [[k' s]|]; [|by apply Ht in Hsl].
      destruct Ht as (_ & _ & Hk & _). apply Hk in Hsl as ->. exists s.
      apply set_stage_Some. by left.
    + apply Hs in Hsl; [|done]. destruct (J6 ty k t' Hsl) as (s & ?). exists s.
      apply set_stage_Some. by right.
  - intros t' k s [(-> & ->)|(Hne & Hg)]%set_stage_Some; [apply Ht|].
    destruct (J7 t' k s Hg) as (l & Hl & Hfit). exists l. split.
    + eapply pending_ext; [|exact Hl]. intros. by apply He.
    + apply (in_hand_other t cur cur'); [done..|]. unfold holding in *.
      by rewrite !(bool_decide_ext _ _ (Hs _ _ _ Hne)).
  - intros t1 t2 k [(-> & ->)|(Hn1 & Hg1)]%set_stage_Some
      [(-> & Hx)|(Hn2 & Hg2)]%set_stage_Some; [done|..|eauto].
    + destruct Ht as (_ & _ & _ & _ & Hex). by destruct (Hex eq_refl t2 Hn2).
    + subst x. destruct Ht as (_ & _ & _ & _ & Hex). by destruct (Hex eq_refl t1 Hn1).
  - intros pe t' ph Hsch. destruct (decide (t' = t)) as [->|Hne].
    + destruct x as [y|]; [|by apply Ht in Hsch]. exists y. apply set_stage_Some. by left.
    + apply He in Hsch; [|done]. destruct (J10 pe t' ph Hsch) as (y & ?). exists y.
      apply set_stage_Some. by right.
  - intros c Hc'. destruct (decide (c.1 = t)) as [Heq|Hne].
    + destruct x as [y|]; [exists y; apply set_stage_Some; by left|].
      destruct Ht as (_ & _ & []). rewrite Hc'. simpl. congruence.
    + destruct Hcur as [->|[_ Hcur]]; [|by apply Hcur in Hc'].
      destruct (J12 c Hc') as (y & ?). exists y. apply set_stage_Some. by right.
Qed.

(** ** Events *)

(** [w'] is [w] with one more event, for [t] and [ph]. *)
Record notified w t (ph : tlm_phase) w' : Prop := {
  nt_port : port w' = port w;
  nt_memory : memory w' = memory w;
  nt_calls : calls w' = calls w;
  nt_env : env w' = env w;
  nt_tick : curTick w' = curTick w;
  nt_sc : sc_time_stamp w' = sc_time_stamp w;
  nt_next : next_event w' = Pos.succ (next_event w);
  nt_events pe : pe ≠ next_event w → events w' !! pe = events w !! pe;
  nt_new : scheduled w' (next_event w) t ph;
}.

Lemma wp_notify w t ph delay (Q : unit → world E → Prop) :
  (∀ w', notified w t ph w' → Q tt w') →
  wp (pe ← new_PayloadEvent; notify pe t ph delay) Q w.
Proof.
  intros HQ. apply wp_bind. unfold wp at 1, new_PayloadEvent. unfold notify.
  wp_steps; [apply lookup_insert_eq|done|]. apply HQ. split; simpl; try done.
  - intros pe Hne. by rewrite !lookup_insert_ne.
  - eexists. simpl. by rewrite lookup_insert_eq.
Qed.

Lemma scheduled_notified w t ph w' pe t' ph' :
  notified w t ph w' →
  scheduled w' pe t' ph' ↔ pe ≠ next_event w ∧ scheduled w pe t' ph' ∨
                           pe = next_event w ∧ t' = t ∧ ph' = ph.
Proof.
  intros Hn. destruct (nt_new _ _ _ _ Hn) as (d & Hd).
  destruct (decide (pe = next_event w)) as [->|Hne]; unfold scheduled.
  - rewrite Hd. split; [intros (d' & [=]); by right|]. intros [[]|(_ & -> & ->)]; [done|eauto].
  - rewrite (nt_events _ _ _ _ Hn) by done. split; [by left|]. by intros [[]|[]].
Qed.

Lemma pending_notified w t ph w' l :
  (∀ pe, is_Some (events w !! pe) → (pe < next_event w)%positive) →
  notified w t ph w' → pending w t l →
  pending w' t (l ++ [(next_event w, ph)]).
Proof.
  intros Hfresh Hn [Hl1 Hl2].
  assert (∀ x, x ∈ l → (x.1 < next_event w)%positive) as Hlt.
  { intros [pe ph'] (d & Hd)%Hl2. apply Hfresh. eauto. }
  split.
  - clear -Hl1 Hlt. induction Hl1 as [|x l Hl IH Hx]; simpl; [repeat constructor|].
    constructor; [apply IH; set_solver|]. apply Forall_app. split; [done|].
    constructor; [|done]. apply Hlt. set_solver.
  - intros pe ph'. rewrite (scheduled_notified w t ph w') by done.
    rewrite elem_of_app, list_elem_of_singleton. split.
    + intros [Hin|[= -> ->]]; [left|by right]. split; [|by apply Hl2].
      apply Hlt in Hin. simpl in Hin. intros ->. lia.
    + intros [(_ & ?)|(-> & _ & ->)]; [left; by apply Hl2|by right].
Qed.
End protocol.

