(* ===== verification/SlavePortProps.v ===== *)
(** * Theorems about the slave port

    Each entry point of [SlavePort], called where the protocol allows it, runs without an error and
    keeps the invariant of [SlaveProtocol]. *)

From S2P Require Import Prelude StdMap Tlm Concrete MemManager BlockingHelper SocketMap Transactor.
From S2P Require Import SlavePort SlaveProtocol.
From Stdlib Require Import Sorted.
Import Helper(in_order, slot, retry, view, updated, retried).
Import Port.

Section memory.
Context `{TlmPayloadLaws, Gem5PacketLaws} {E : Type} `{!SlaveEnv E}.
Implicit Types (w : world E) (t : ptr) (p : payload).

(** ** Payloads *)

(** [w] with payload [t] overwritten. *)
Definition wrote w t p : world E :=
  set_memory (Mem (mgr (memory w)) (set_gps (insert t p) (st (memory w)))) w.

Lemma wrote_wrote w t p p' : wrote (wrote w t p) t p' = wrote w t p'.
Proof. unfold wrote, set_memory, set_gps. simpl. by rewrite insert_insert_eq. Qed.

Lemma wp_do w t p f (Q : unit → world E → Prop) :
  gps (st (memory w)) !! t = Some p → Q tt (wrote w t (f p)) →
  wp (on_mem_store (gp_do t f)) Q w.
Proof. intros Hp HQ. apply wp_zoom. by eapply wp_gp_do. Qed.

Lemma wp_new (A : Type) (K : ptr → M (world E) A) (Q : A → world E → Prop) w :
  mm_ok (memory w) → (∀ t m, allocated (memory w) t m → wp (K t) Q (set_memory m w)) →
  wp (t ← on_memory allocate; on_mem_store (acquire t);; K t) Q w.
Proof.
  intros Hok HQ.
  assert (wp (t ← allocate; on_store (acquire t);; mret t) (allocated (memory w)) (memory w)) as Hwp.
  { apply wp_allocate_acquire; [done|]. intros t m Ha. by apply wp_ret. }
  revert Hwp. unfold wp, mbind, M_bind, zoom, mret, M_ret.
  destruct (allocate (memory w)) as [[t|e] m]; [|done]. simpl.
  destruct (acquire t (st m)) as [[[]|e] s]; [|done]. exact (HQ t _).
Qed.

(** Reading changes nothing. *)
Lemma wp_packet w a pkt (Q : packet → world E → Prop) :
  pkts (st (memory w)) !! a = Some pkt → Q pkt w → wp (on_mem_store (pkt_at a)) Q w.
Proof.
  intros Ha HQ. apply wp_zoom. eapply wp_pkt_at; [exact Ha|]. by destruct w as [? [] ? ? ? ? ? ?].
Qed.

Lemma wp_payload w t p (Q : payload → world E → Prop) :
  gps (st (memory w)) !! t = Some p → Q p w → wp (on_mem_store (gp_at t)) Q w.
Proof.
  intros Ha HQ. apply wp_zoom. eapply wp_gp_at; [exact Ha|]. by destruct w as [? [] ? ? ? ? ? ?].
Qed.

Lemma wp_extension w t e (Q : Gem5Extension → world E → Prop) :
  held w t e → Q e w → wp (on_mem_store (getExtension t)) Q w.
Proof.
  intros (p & Hp & _ & He) HQ. apply wp_zoom. unfold getExtension. apply wp_bind.
  eapply wp_gp_at; [exact Hp|]. eapply wp_lift_option; [exact He|].
  by destruct w as [? [] ? ? ? ? ? ?].
Qed.

Lemma wp_core_of w t a k (Q : Z → world E → Prop) :
  held w t {| Packet := a; coreId := Some k |} → Q k w → wp (core_of t) Q w.
Proof. intros He HQ. apply wp_bind. by eapply wp_extension, wp_ret. Qed.

Lemma wp_query {A} w (c : M BlockingPacketHelper A) (Q : A → world E → Prop) :
  wp c (λ a h, h = helper w ∧ Q a w) (helper w) → wp (on_helper c) Q w.
Proof.
  intros Hc. apply wp_zoom. eapply wp_mono; [exact Hc|]. intros a h [-> HQ].
  by destruct w as [[] ? ? ? ? ? ? ?].
Qed.

Lemma wp_packet_do w a pkt f (Q : unit → world E → Prop) :
  pkts (st (memory w)) !! a = Some pkt →
  Q tt (set_memory (Mem (mgr (memory w)) (set_pkts (insert a (f pkt)) (st (memory w)))) w) →
  wp (on_mem_store (pkt_do a f)) Q w.
Proof. intros Ha HQ. apply wp_zoom. by eapply wp_pkt_do. Qed.

(** What [packet2payload] makes of payload [p0]. *)
Record payload_of (pkt : packet) (p0 p : payload) : Prop := {
  po_address : get_address (attrs p) = getAddr pkt;
  po_length : get_data_length (attrs p) = wrap32 (getSize pkt);
  po_width : get_streaming_width (attrs p) = wrap32 (getSize pkt);
  po_data : get_data_ptr (attrs p) = getPtr pkt;
  po_command : get_command (attrs p) =
    if isRead pkt then TLM_READ_COMMAND
    else if isInvalidate pkt then get_command (attrs p0) else TLM_WRITE_COMMAND;
  po_mm : has_mm (attrs p) = has_mm (attrs p0);
  po_ref : ref_count p = ref_count p0;
}.

Lemma wp_packet2payload w a t pkt p0 (Q : unit → world E → Prop) :
  pkts (st (memory w)) !! a = Some pkt → (isRead pkt || isWrite pkt) = true →
  gps (st (memory w)) !! t = Some p0 → has_mm (attrs p0) = true →
  (∀ p, payload_of pkt p0 p → get_extension (attrs p) = get_extension (attrs p0) →
        Q tt (wrote w t p)) →
  wp (packet2payload a t) Q w.
Proof.
  intros Ha Hrw Hp Hmm HQ. unfold packet2payload.
  apply wp_bind, wp_zoom. eapply wp_pkt_at; [exact Ha|].
  replace (set_memory _ w) with w by (by destruct w as [? [] ? ? ? ? ? ?]).
  apply wp_bind. eapply wp_do; [exact Hp|].
  apply wp_bind, wp_zoom. eapply wp_gp_at; [apply lookup_insert_eq|]. cbn beta.
  replace (set_memory _ (wrote _ _ _)) with (wrote w t (set_address (getAddr pkt) p0)) by done.
  apply wp_bind, wp_check; [by autorewrite with gp|].
  do 3 (apply wp_bind; eapply wp_do; [apply lookup_insert_eq|]; rewrite wrote_wrote).
  destruct (isRead pkt) eqn:Hr; [|destruct (isInvalidate pkt) eqn:Hi;
    [|simpl in Hrw; rewrite Hrw]].
  1, 3: eapply wp_do; [apply lookup_insert_eq|]; rewrite wrote_wrote.
  2: apply wp_ret.
  all: apply HQ; try split; unfold ref_count; autorewrite with gp; simpl; rewrite ?Hr, ?Hi; done.
Qed.

(** A payload made for packet [pkt] by a function that began in [w], with the extension [e]. *)
Record made w (pkt : packet) (e : option Gem5Extension) t (m : mem) : Prop := {
  ma_new : ¬ live (memory w) t;
  ma_gp : ∃ p0 p, gps (st m) !! t = Some p ∧ ref_count p = 1%nat ∧ has_mm (attrs p) = true ∧
    payload_of pkt p0 p ∧ get_extension (attrs p) = e;
  ma_other t' : t' ≠ t → gps (st m) !! t' = gps (st (memory w)) !! t';
  ma_pkts : pkts (st m) = pkts (st (memory w));
  ma_ok : mm_ok m;
}.

Lemma wp_new_payload (A : Type) (K : ptr → M (world E) A) (Q : A → world E → Prop) w a pkt :
  mm_ok (memory w) → pkts (st (memory w)) !! a = Some pkt → (isRead pkt || isWrite pkt) = true →
  (∀ t m, made w pkt None t m → wp (K t) Q (set_memory m w)) →
  wp (t ← on_memory allocate; on_mem_store (acquire t);; packet2payload a t;; K t) Q w.
Proof.
  intros Hok Ha Hrw HQ. apply wp_new; [done|].
  intros t m [Hnl (p0 & Hp0 & Hr & He & Hmm) Hoth Hpk _ _ Hok'].
  apply wp_bind. eapply (wp_packet2payload _ a t pkt p0); simpl; [by rewrite Hpk|done..|].
  intros p [] Hext. apply (HQ t (Mem (mgr m) (set_gps (insert t p) (st m)))).
  split; simpl; [done| | |done|].
  - exists p0, p. rewrite lookup_insert_eq. by repeat split; try congruence.
  - intros t' Hne. rewrite lookup_insert_ne by done. by apply Hoth.
  - eapply mm_ok_write; try done; [lia..|congruence].
Qed.

Lemma wp_attach w a t pkt k (Q : unit → world E → Prop) m :
  made w pkt None t m →
  (∀ m', made w pkt (Some {| Packet := a; coreId := Some k |}) t m' → Q tt (set_memory m' w)) →
  wp (attach_extension a t k) Q (set_memory m w).
Proof.
  intros [Hnl (p0 & p & Hp & Hr & Hmm & [] & He) Hoth Hpk Hok] HQ.
  eapply wp_do; [exact Hp|]. apply HQ. unfold ref_count in *. split; simpl; [done| | |done|].
  - exists p0. eexists. rewrite lookup_insert_eq. split; [done|]. autorewrite with gp. simpl.
    repeat split; unfold ref_count; autorewrite with gp; simpl; congruence.
  - intros t' Hne. rewrite lookup_insert_ne by done. by apply Hoth.
  - eapply mm_ok_write; try done; unfold ref_count; autorewrite with gp; simpl; try done; lia.
Qed.
End memory.

Section handlers.
Context `{TlmPayloadLaws, Gem5PacketLaws} {E : Type} `{!SlaveEnv E, !Terms E}.
Context (N : Z) `{!Conforming N}.
Implicit Types (w : world E) (t : ptr) (G : protocol) (cur : option (ptr * held_by_port)).

(** ** What a request leaves unchanged

    [kept gone w w']: the clocks, the older events and the response slots are as they were, the
    history is longer, and the transactions in progress keep their payload, extension and packet,
    except for the packet of [gone]. *)
Record kept (gone : option ptr) w w' : Prop := {
  kp_tick : curTick w' = curTick w;
  kp_sc : sc_time_stamp w' = sc_time_stamp w;
  kp_next : (next_event w ≤ next_event w')%positive;
  kp_events pe : (pe < next_event w)%positive → events w' !! pe = events w !! pe;
  kp_calls : ∃ l, calls w' = calls w ++ l;
  kp_response : Helper.blockingResponseMap (helper w') = Helper.blockingResponseMap (helper w);
  kp_held t e : tracked w t → held w t e → held w' t e;
  kp_packet t e : tracked w t → gone ≠ Some t → held w t e → has_packet w (Packet e) →
    has_packet w' (Packet e);
  kp_tracked t : tracked w t → tracked w' t;
}.

Lemma kept_refl gone w : kept gone w w.
Proof. split; eauto; [lia|]. exists []. by rewrite app_nil_r. Qed.

Lemma kept_trans gone w1 w2 w3 : kept gone w1 w2 → kept gone w2 w3 → kept gone w1 w3.
Proof.
  intros [] []. split; eauto; try congruence; try lia.
  - intros pe Hpe. rewrite kp_events1 by lia. by apply kp_events0.
  - destruct kp_calls0 as [l0 Hl0], kp_calls1 as [l1 Hl1]. exists (l0 ++ l1).
    by rewrite Hl1, Hl0, app_assoc.
Qed.

Lemma kept_weaken gone w w' : kept None w w' → kept gone w w'.
Proof. intros []. split; eauto. Qed.

Lemma private_kept extra gone w w' : private extra gone w w' → kept gone w w'.
Proof.
  intros []. split; eauto; rewrite ?pr_port, ?pr_events, ?pr_next, ?pr_calls; eauto; [lia|..].
  - exists []. by rewrite app_nil_r.
  - unfold tracked. by rewrite pr_calls.
Qed.

(** What has to be shown of a run from [w]: the invariant holds again, with every transaction of
    before. *)
Definition again cur gone w G (w' : world E) : Prop :=
  kept gone w w' ∧ ∃ G', winv N cur w' G' ∧ G ⊆ G'.

(** ** Steps of the port's own state *)

Lemma configured_helper p h :
  configured N p → in_order N h → configured N (set_helper h p).
Proof. intros [] ?. by split. Qed.

Lemma updated_in_order h k o ty : in_order N h → 0 ≤ k ≤ N → in_order N (updated k o ty h).
Proof. intros [] ?. split; auto using Helper.updated_wf. Qed.

Lemma retried_in_order h k b : in_order N h → in_order N (retried k b h).
Proof. intros []. split; auto using Helper.retried_wf. Qed.

Lemma i_order cur w G : inv N cur w G → in_order N (helper w).
Proof. intros Hi. apply (c_helper N _ (i_config _ _ _ _ Hi)). Qed.
Lemma i_wf cur w G : inv N cur w G → Helper.wf N (helper w).
Proof. intros Hi. apply (Helper.io_wf N _ (i_order _ _ _ Hi)). Qed.

(** Memory that the transactions in progress do not use may change. *)
Lemma inv_memory cur w G m :
  inv N cur w G → mm_ok m →
  (∀ t, is_Some (G !! t) → gps (st m) !! t = gps (st (memory w)) !! t) →
  (∀ a, is_Some (pkts (st (memory w)) !! a) → is_Some (pkts (st m) !! a)) →
  inv N cur (set_memory m w) G.
Proof.
  intros [] Hok Hg Hp. split; try done. intros t k s Ht.
  destruct (i_held t k s Ht) as (a & Ha & Hpk). exists a. split; [|unfold has_packet in *; eauto].
  unfold held. simpl. by rewrite Hg.
Qed.

Lemma winv_memory cur w G m :
  winv N cur w G → mm_ok m →
  (∀ t, is_Some (G !! t) → gps (st m) !! t = gps (st (memory w)) !! t) →
  (∀ a, is_Some (pkts (st (memory w)) !! a) → is_Some (pkts (st m) !! a)) →
  winv N cur (set_memory m w) G.
Proof. intros [Hi Hc] Hok Hg Hp. split; [by apply inv_memory|]. by eapply cf_stable. Qed.

(** Only the port changes. *)
Lemma winv_same cur cur' w w' G :
  winv N cur w G → inv N cur' w' G → memory w' = memory w → env w' = env w → winv N cur' w' G.
Proof. intros [_ Hc] Hi Hm He. split; [done|]. by rewrite Hm, He. Qed.

Lemma made_untracked cur w G pkt e t m : inv N cur w G → made w pkt e t m → G !! t = None.
Proof.
  intros Hi Hm. destruct (G !! t) as [[k s]|] eqn:Ht; [|done].
  destruct (i_held _ _ _ _ Hi t k s Ht) as (a & (p & Hp & Hr & _) & _).
  destruct (ma_new _ _ _ _ _ Hm). by exists p.
Qed.

Lemma winv_made cur w G pkt e t m :
  winv N cur w G → made w pkt e t m → winv N cur (set_memory m w) G.
Proof.
  intros Hi Hm. pose proof (made_untracked _ _ _ _ _ _ _ Hi Hm) as Ht.
  apply winv_memory; [done|apply Hm|..].
  - intros t' [x Hx]. apply (ma_other _ _ _ _ _ Hm). congruence.
  - intros a. by rewrite (ma_pkts _ _ _ _ _ Hm).
Qed.

(** The history may grow by calls the monitor ignores. *)
Lemma inv_log cur w G c :
  inv N cur w G → mon_step G c = Some G → inv N cur (log_call c w) G.
Proof. intros [] Hc. split; try done. simpl. by rewrite monitor_snoc, i_monitor. Qed.

Lemma winv_log cur w G c :
  winv N cur w G → mon_step G c = Some G → winv N cur (log_call c w) G.
Proof. intros [Hi Hcp] Hc. split; [by apply inv_log|done]. Qed.

Lemma untracked_no_slot cur w G t ty k : inv N cur w G → G !! t = None → slot ty (helper w) k ≠ Some t.
Proof. intros Hi Ht Hs. destruct (i_slot _ _ _ _ Hi ty k t Hs). congruence. Qed.

Lemma untracked_no_event cur w G t pe ph : inv N cur w G → G !! t = None → ¬ scheduled w pe t ph.
Proof. intros Hi Ht Hs. destruct (i_events _ _ _ _ Hi pe t ph Hs). congruence. Qed.

Lemma untracked_not_cur cur w G t : inv N cur w G → G !! t = None → fst <$> cur ≠ Some t.
Proof.
  intros Hi Ht Hc. destruct cur as [c|]; [|done]. destruct (i_cur _ _ _ _ Hi c eq_refl).
  injection Hc as <-. congruence.
Qed.

Lemma fits_not_cur cur t s x : fst <$> cur ≠ Some t → fits cur t s x ↔ shape s x.
Proof.
  intros Hc. destruct cur as [[t' y]|]; [|done]. simpl in *. rewrite decide_False; [done|congruence].
Qed.

Lemma slot_updated_other h k o ty ty' k' t' :
  in_order N h → o ≠ Some t' → slot ty h k ≠ Some t' →
  slot ty' (updated k o ty h) k' = Some t' ↔ slot ty' h k' = Some t'.
Proof.
  intros Hh Ho Hk. rewrite (Helper.slot_updated N) by apply Hh. case_decide as Hd; [|done].
  destruct Hd as [-> ->]. done.
Qed.

Lemma inv_accepted cur w G t a k delay d :
  inv N cur w G → G !! t = None → held w t {| Packet := a; coreId := Some k |} →
  has_packet w a → 0 ≤ k < N → slot Request (helper w) k = None →
  let c := CallFw (MultiSocket k) t BEGIN_REQ delay (TLM_ACCEPTED, BEGIN_REQ, d) in
  inv N cur (set_port (set_helper (updated k (Some t) Request (helper w))) (log_call c w))
    (set_stage t (Some (k, MReq)) G).
Proof.
  intros Hi Ht Hh Hp Hk Hs c.
  pose proof (i_order _ _ _ Hi) as Ho. pose proof (untracked_not_cur _ _ _ _ Hi Ht) as Hc.
  assert (∀ ty' k' t', t' ≠ t →
    slot ty' (updated k (Some t) Request (helper w)) k' = Some t' ↔
    slot ty' (helper w) k' = Some t') as Hoth.
  { intros. apply slot_updated_other; [done|congruence..]. }
  apply (inv_step N cur cur w); try done.
  - apply configured_helper; [apply Hi|]. apply updated_in_order; [done|lia].
  - apply Hi.
  - simpl. rewrite monitor_snoc, (i_monitor _ _ _ _ Hi). simpl.
    by rewrite Ht, (inv_request_free _ _ _ _ _ Hi Hs).
  - by left.
  - intros k' Hr. simpl in *. rewrite (Helper.slot_updated N) by apply Ho.
    case_decide; [by eexists|]. by apply (i_retry _ _ _ _ Hi).
  - apply (i_fresh _ _ _ _ Hi).
  - split; [done|]. split; [by exists a|]. split; [|split; [|done]].
    + intros ty k' Hs'. simpl in Hs'. rewrite (Helper.slot_updated N) in Hs' by apply Ho.
      case_decide as Hd; [apply Hd|]. by apply (untracked_no_slot _ _ _ _ _ _ Hi Ht) in Hs'.
    + exists []. split.
      { apply pending_nil. intros pe ph. apply (untracked_no_event _ _ _ _ _ _ Hi Ht). }
      apply fits_not_cur; [done|]. unfold holding. simpl.
      rewrite !(Helper.slot_updated N) by apply Ho. rewrite decide_True by done.
      rewrite decide_False by (by intros []). rewrite bool_decide_true by done.
      rewrite bool_decide_false by (by apply (untracked_no_slot _ _ _ _ _ _ Hi Ht)).
      constructor.
Qed.

Lemma inv_answered_resp cur w G t a k delay d w' :
  inv N cur w G → G !! t = None → held w t {| Packet := a; coreId := Some k |} →
  has_packet w a → 0 ≤ k < N → slot Request (helper w) k = None →
  channel_free MResp k G = true →
  let c := CallFw (MultiSocket k) t BEGIN_REQ delay (TLM_UPDATED, BEGIN_RESP, d) in
  notified (log_call c w) t BEGIN_RESP w' → inv N cur w' (set_stage t (Some (k, MResp)) G).
Proof.
  intros Hi Ht Hh Hp Hk Hs Hfree c Hn. pose proof Hn as [N1 N2 N3 N4 N5 N6 N7 N8 N9].
  assert (pending w' t [(next_event w, BEGIN_RESP)]) as Hpend.
  { split; [repeat constructor|]. intros pe ph.
    rewrite (scheduled_notified (log_call c w) t BEGIN_RESP w') by done.
    rewrite list_elem_of_singleton. simpl. split; [intros [= -> ->]; by right|].
    intros [[_ Hsch]|(-> & _ & ->)]; [|done].
    by apply (untracked_no_event _ _ _ _ _ _ Hi Ht) in Hsch. }
  pose proof (untracked_not_cur _ _ _ _ Hi Ht) as Hc.
  apply (inv_step N cur cur w); rewrite ?N1; try done.
  - apply Hi.
  - rewrite N2. apply Hi.
  - rewrite N3. simpl. rewrite monitor_snoc, (i_monitor _ _ _ _ Hi). simpl.
    by rewrite Ht, (inv_request_free _ _ _ _ _ Hi Hs), Hfree.
  - split; unfold held, has_packet; rewrite ?N1, ?N2; try done.
    intros pe t' ph Hne. rewrite (scheduled_notified _ _ _ _ _ _ _ Hn). split.
    + by intros [[_ ?]|(_ & -> & _)].
    + intros Hsch. left. split; [|done]. intros ->. simpl in Hsch. destruct Hsch as (? & Hsch).
      assert (next_event w < next_event w)%positive; [|lia].
      eapply (i_fresh _ _ _ _ Hi). eauto.
  - by left.
  - apply (i_retry _ _ _ _ Hi).
  - intros pe. rewrite N7. simpl. destruct (decide (pe = next_event w)) as [->|Hne]; [lia|].
    rewrite N8 by done. intros Hpe%(i_fresh _ _ _ _ Hi). lia.
  - split; [done|]. split; [exists a; unfold held, has_packet; by rewrite N2|].
    split; [|split].
    + intros ty k' Hs'. rewrite N1 in Hs'.
      by apply (untracked_no_slot _ _ _ _ _ _ Hi Ht) in Hs'.
    + exists [(next_event w, BEGIN_RESP)]. split; [exact Hpend|].
      apply fits_not_cur; [done|]. unfold holding. rewrite N1. simpl.
      rewrite (bool_decide_false (slot Response _ _ = _))
        by (by apply (untracked_no_slot _ _ _ _ _ _ Hi Ht)). constructor.
    + intros _ t' Hne Ht'. by apply (proj1 (channel_free_spec _ _ _) Hfree t').
Qed.

(** ** recvTimingReq *)

Lemma wp_bound_socket w k (Q : socket_ref → world E → Prop) :
  configured N (port w) → 0 ≤ k < N → Q (MultiSocket k) w → wp (bound_socket k) Q w.
Proof.
  intros Hc Hk HQ. unfold bound_socket. apply wp_bind, wp_gets.
  rewrite (c_single N _ Hc). destruct (c_multi N _ Hc) as (m & -> & Hm).
  apply wp_bind, wp_check; [apply Z.ltb_lt; lia|]. by apply wp_ret.
Qed.

Lemma wp_call_fw w s t ph d (Q : tlm_sync_enum * tlm_phase * Z → world E → Prop) :
  (∀ r w', nb_transport_fw s t ph d w = (r, w') → Q r (log_call (CallFw s t ph d r) w')) →
  wp (call_fw s t ph d) Q w.
Proof.
  intros HQ. unfold wp, call_fw. destruct (nb_transport_fw s t ph d w) as [r w']. by apply HQ.
Qed.

(** Writing a packet leaves the invariant. *)
Lemma mm_ok_write_packet m a pkt :
  mm_ok m → is_Some (pkts (st m) !! a) → mm_ok (Mem (mgr m) (set_pkts (insert a pkt) (st m))).
Proof.
  intros [[W1 W2] ? ? ? ? ? ?] [pkt0 Ha]. split; try done. split; [done|]. simpl.
  intros a' p [[<- _]|[_ ?]]%lookup_insert_Some; eauto.
Qed.

Lemma winv_write_packet cur w G a pkt :
  winv N cur w G → has_packet w a →
  winv N cur (set_memory (Mem (mgr (memory w)) (set_pkts (insert a pkt) (st (memory w)))) w) G.
Proof.
  intros Hi Hp. apply winv_memory; [done|apply mm_ok_write_packet; [apply Hi|done]|done|].
  intros a' [p' Hp']. simpl. destruct (decide (a = a')) as [<-|Hne].
  - rewrite lookup_insert_eq. by eexists.
  - rewrite lookup_insert_ne by done. by eexists.
Qed.

Lemma kept_write_packet gone w a pkt :
  kept gone w (set_memory (Mem (mgr (memory w)) (set_pkts (insert a pkt) (st (memory w)))) w).
Proof.
  split; try done; [exists []; by rewrite app_nil_r|].
  intros t e _ _ _ [p Hp]. unfold has_packet. simpl. destruct (decide (a = Packet e)) as [->|Hne].
  - rewrite lookup_insert_eq. by eexists.
  - rewrite lookup_insert_ne by done. by eexists.
Qed.

Lemma kept_step gone w w' G G' :
  monitor (calls w) = Some G → (∃ l, calls w' = calls w ++ l) → monitor (calls w') = Some G' →
  G ⊆ G' → curTick w' = curTick w → sc_time_stamp w' = sc_time_stamp w →
  (next_event w ≤ next_event w')%positive →
  (∀ pe, (pe < next_event w)%positive → events w' !! pe = events w !! pe) →
  Helper.blockingResponseMap (helper w') = Helper.blockingResponseMap (helper w) →
  (∀ t, is_Some (G !! t) → gps (st (memory w')) !! t = gps (st (memory w)) !! t) →
  (∀ a, has_packet w a → has_packet w' a) → kept gone w w'.
Proof.
  intros Hm Hl Hm' Hsub Ht Hs Hn He Hr Hg Hp. split; try done.
  - intros t e (G0 & HG0 & Hx). rewrite Hm in HG0. injection HG0 as <-.
    unfold held. by rewrite Hg.
  - intros t e _ _ _. apply Hp.
  - intros t (G0 & HG0 & [x Hx]). rewrite Hm in HG0. injection HG0 as <-.
    exists G'. split; [done|]. exists x. by eapply lookup_weaken.
Qed.

Lemma set_stage_new t x G : G !! t = None → G ⊆ set_stage t (Some x) G.
Proof. exact (insert_subseteq G t x). Qed.

Lemma wp_after_begin_req cur w G t a k delay answer (Q : unit → world E → Prop) :
  let c := CallFw (MultiSocket k) t BEGIN_REQ delay answer in
  inv N cur w G → G !! t = None → held w t {| Packet := a; coreId := Some k |} →
  has_packet w a → 0 ≤ k < N → slot Request (helper w) k = None → answer_ok k G answer →
  (∀ G', mon_step G c = Some G' → coupled G' (memory w) (env w)) →
  (∀ w', kept None w w' → (∃ G', winv N cur w' G' ∧ G ⊆ G') → calls w' = calls w ++ [c] → Q tt w') →
  wp (after_begin_req k t answer) Q (log_call c w).
Proof.
  intros c Hi Ht Hh Hp Hk Hs Ha Hcp HQ. subst c.
  pose proof (inv_request_free _ _ _ _ _ Hi Hs) as Hfr.
  destruct answer as [[[] ph] d]; simpl in Ha.
  - subst ph. pose proof (inv_accepted _ _ _ _ _ _ delay d Hi Ht Hh Hp Hk Hs) as Hi'.
    unfold after_begin_req. wp_step. apply wp_check; [by rewrite bool_decide_true|].
    wp_step. apply wp_gets. cbn beta.
    replace ((k =? 0) && _)%bool with false
      by (simpl; rewrite (c_cache N _ (i_config _ _ _ _ Hi)); by rewrite andb_false_r).
    apply wp_zoom. eapply Helper.wp_updateBlockingMap; [exact (i_wf _ _ _ Hi)|simpl; lia|..].
    { intros _. apply (i_order _ _ _ Hi). }
    apply HQ; [| |done].
    + eapply kept_step; [apply Hi|by eexists|apply Hi'|by apply set_stage_new|done..].
    + eexists; split; [split; [exact Hi'|]|by apply set_stage_new].
      apply Hcp. simpl. by rewrite Ht, Hfr.
  - destruct Ha as [-> Hfree]. unfold after_begin_req. wp_step. apply wp_check.
    { rewrite bool_decide_false by done. by rewrite bool_decide_true. }
    apply wp_notify. intros w' Hn.
    pose proof (inv_answered_resp _ _ _ _ _ _ delay d w' Hi Ht Hh Hp Hk Hs Hfree Hn) as Hi'.
    pose proof Hn as [N1 N2 N3 N4 N5 N6 N7 N8 N9].
    apply HQ; [| |done].
    + eapply kept_step; [apply Hi|by rewrite N3; eexists|apply Hi'|by apply set_stage_new|..];
        unfold has_packet; rewrite ?N1, ?N2, ?N5, ?N6, ?N7; simpl; try done; [lia|].
      intros pe Hpe. apply N8. simpl. lia.
    + eexists; split; [split; [exact Hi'|]|by apply set_stage_new].
      rewrite N2, N4. apply Hcp. simpl. by rewrite Ht, Hfr, Hfree.
  - subst ph. unfold after_begin_req. wp_step. apply wp_check; [by rewrite bool_decide_true|].
    assert (mon_step G (CallFw (MultiSocket k) t BEGIN_REQ delay (TLM_COMPLETED, END_RESP, d))
      = Some G) as Hstep by (simpl; by rewrite Ht, Hfr).
    pose proof (inv_log _ _ _ _ Hi Hstep) as Hi1.
    destruct Hh as (p & Hgp & Hr & _). apply wp_zoom.
    eapply wp_release; [apply Hi|exact Hgp|done|]. intros m [_ Hoth Hpk _ _ Hok].
    assert (∀ t', is_Some (G !! t') → gps (st m) !! t' = gps (st (memory w)) !! t') as Hg.
    { intros t' [x Hx]. apply Hoth. congruence. }
    apply HQ; [| |done].
    + eapply kept_step; [apply Hi|by eexists|apply Hi1|done..|].
      unfold has_packet. simpl. by rewrite Hpk.
    + exists G. split; [|done]. apply winv_memory; [split; [done|by apply Hcp]|done|done|].
      simpl. by rewrite Hpk.
Qed.

Lemma kept_made gone cur w G pkt e t m :
  inv N cur w G → made w pkt e t m → kept gone w (set_memory m w).
Proof.
  intros Hi Hm. eapply kept_step; try (by apply Hi); try done.
  - exists []. by rewrite app_nil_r.
  - intros t' [x Hx]. apply (ma_other _ _ _ _ _ Hm). intros ->.
    by rewrite (made_untracked _ _ _ _ _ _ _ Hi Hm) in Hx.
  - intros a. unfold has_packet. simpl. by rewrite (ma_pkts _ _ _ _ _ Hm).
Qed.

(** What the port has made for a packet may be sent. *)
Lemma made_offered cur w G pkt a k t m :
  winv N cur w G → made w pkt (Some {| Packet := a; coreId := Some k |}) t m → 0 ≤ k < N →
  offered N (set_memory m w) G k t ∧ held (set_memory m w) t {| Packet := a; coreId := Some k |}.
Proof.
  intros Hi Hm Hk. pose proof (winv_made _ _ _ _ _ _ _ Hi Hm) as [Hi1 Hc1].
  destruct (ma_gp _ _ _ _ _ Hm) as (p0 & p & Hp & Hr & _ & Hpo & He).
  assert (held (set_memory m w) t {| Packet := a; coreId := Some k |}) as Hh
    by (exists p; split; [exact Hp|]; split; [lia|done]).
  split; [|done].
  split; [apply Hi1|apply Hi1|exact Hc1|exact Hk| |by exists a].
  eapply made_untracked; [apply Hi|exact Hm].
Qed.

(** The payload [t] is for the address [a]. *)
Definition at_address w t (a : Z) : Prop :=
  ∃ p, gps (st (memory w)) !! t = Some p ∧ get_address (attrs p) = a.

Lemma made_address w pkt e t m : made w pkt e t m → at_address (set_memory m w) t (getAddr pkt).
Proof.
  intros Hm. destruct (ma_gp _ _ _ _ _ Hm) as (p0 & p & Hp & _ & _ & Hpo & _).
  exists p. split; [exact Hp|]. exact (po_address pkt p0 p Hpo).
Qed.

Lemma made_addressed w pkt e t m k :
  made w pkt e t m → addressable k (getAddr pkt) → addressed (set_memory m w) k t.
Proof.
  intros Hm Ha. destruct (made_address _ _ _ _ _ Hm) as (p & Hp & Had). exists p. by rewrite Had.
Qed.

(** BEGIN_REQ is sent. *)
Lemma wp_begin_call cur w G a k t delay (Q : bool → world E → Prop) :
  winv N cur w G → offered N w G k t → addressed w k t →
  held w t {| Packet := a; coreId := Some k |} → has_packet w a → slot Request (helper w) k = None →
  (∀ w' answer, again cur None w G w' →
     calls w' = calls w ++ [CallFw (MultiSocket k) t BEGIN_REQ delay answer] → Q true w') →
  wp (s ← bound_socket k; answer ← call_fw s t BEGIN_REQ delay;
      after_begin_req k t answer;; mret true) Q w.
Proof.
  intros [Hi Hc] Hof Had Hh Hp Hs HQ. pose proof Hof as [_ _ _ Hk Ht _].
  apply wp_bind, wp_bound_socket; [apply Hi|done|].
  apply wp_bind, wp_call_fw. intros answer w1 Hfw.
  destruct (cf_begin k t _ w G answer w1 Hof Had (inv_request_free _ _ _ _ _ Hi Hs) Hfw)
    as (Hpr & Hans & Hcp).
  pose proof (inv_private _ _ _ _ _ _ _ Hi Hpr ltac:(done)) as Hi1.
  apply wp_bind. eapply wp_after_begin_req.
  { exact Hi1. } { exact Ht. } { apply (pr_held _ _ _ _ Hpr); [by right|exact Hh]. }
  { apply (pr_packet _ _ _ _ Hpr t {| Packet := a; coreId := Some k |}); [by right|done..]. }
  { done. } { by rewrite (pr_port _ _ _ _ Hpr). } { done. } { done. }
  intros w' Hk' Hex Hcalls. apply wp_ret. eapply HQ.
  - split; [|done]. eapply kept_trans; [by eapply private_kept|exact Hk'].
  - by rewrite Hcalls, (pr_calls _ _ _ _ Hpr).
Qed.

(** Up to the call of the socket. *)
Lemma wp_send_begin_req_call cur w G a pkt k (Q : bool → world E → Prop) :
  winv N cur w G → pkts (st (memory w)) !! a = Some pkt → (isRead pkt || isWrite pkt) = true → 0 ≤ k < N →
  (∀ w2 t, winv N cur w2 G → kept None w w2 → offered N w2 G k t →
     held w2 t {| Packet := a; coreId := Some k |} → has_packet w2 a → port w2 = port w → env w2 = env w →
     calls w2 = calls w → at_address w2 t (getAddr pkt) →
     wp (s ← bound_socket k; answer ← call_fw s t BEGIN_REQ (payloadDelay pkt);
         after_begin_req k t answer;; mret true) Q w2) →
  wp (send_begin_req a k) Q w.
Proof.
  intros Hi Ha Hrw Hk HQ. unfold send_begin_req.
  eapply wp_new_payload; [apply Hi|exact Ha|exact Hrw|]. intros t m Hm.
  apply wp_bind. eapply wp_attach; [exact Hm|]. clear m Hm. intros m Hm.
  pose proof (winv_made _ _ _ _ _ _ _ Hi Hm) as Hi1.
  pose proof (kept_made None _ _ _ _ _ _ _ Hi Hm) as Hk1.
  destruct (made_offered _ _ _ _ _ _ _ _ Hi Hm Hk) as [[] Hh1].
  pose proof (made_address _ _ _ _ _ Hm) as Had1.
  assert (pkts (st (memory (set_memory m w))) !! a = Some pkt) as Ha1.
  { simpl. by rewrite (ma_pkts _ _ _ _ _ Hm). }
  apply wp_bind. eapply wp_packet; [exact Ha1|]. cbv zeta.
  apply wp_bind. eapply wp_packet_do; [exact Ha1|].
  apply wp_bind. eapply wp_packet_do; [apply lookup_insert_eq|].
  assert (winv N cur (set_memory m w) G → has_packet (set_memory m w) a) as Hp1 by (by eexists).
  set (w2 := set_memory _ (set_memory _ (set_memory m w))).
  assert (winv N cur w2 G) as Hi2.
  { apply winv_write_packet; [apply winv_write_packet; [done|by apply Hp1]|].
    eexists. apply lookup_insert_eq. }
  assert (kept None w w2) as Hk2.
  { eapply kept_trans; [exact Hk1|]. eapply kept_trans; apply kept_write_packet. }
  apply HQ; try done; [|eexists; apply lookup_insert_eq]. split; try done; apply Hi2.
Qed.

Lemma wp_send_begin_req cur w G a pkt k (Q : bool → world E → Prop) :
  winv N cur w G → pkts (st (memory w)) !! a = Some pkt → (isRead pkt || isWrite pkt) = true →
  0 ≤ k < N → addressable k (getAddr pkt) → slot Request (helper w) k = None →
  (∀ w' t answer, again cur None w G w' →
     calls w' = calls w ++ [CallFw (MultiSocket k) t BEGIN_REQ (payloadDelay pkt) answer] →
     Q true w') →
  wp (send_begin_req a k) Q w.
Proof.
  intros Hi Ha Hrw Hk Had Hs HQ. eapply wp_send_begin_req_call; [exact Hi|exact Ha|done..|].
  intros w2 t Hi2 Hk2 Hof Hh Hp Hport _ Hcalls (p & Hgp & Hadr).
  eapply wp_begin_call; [exact Hi2|exact Hof|exists p; by rewrite Hadr|exact Hh|exact Hp|by rewrite Hport|].
  intros w' answer [Hk' Hex] Hc. eapply HQ; [split; [by eapply kept_trans|exact Hex]|].
  by rewrite Hc, Hcalls.
Qed.

Lemma inv_retried cur w G k :
  inv N cur w G → is_Some (slot Request (helper w) k) →
  inv N cur (set_port (set_helper (retried k true (helper w))) w) G.
Proof.
  intros Hi Hs. pose proof (i_order _ _ _ Hi) as Ho. destruct Hi.
  split; try done.
  - apply configured_helper; [done|]. by apply retried_in_order.
  - intros k' Hr. simpl in *. rewrite Helper.slot_retried.
    destruct (decide (k' = k)) as [->|Hne]; [done|]. apply i_retry.
    destruct Hs as [t Hs]. rewrite (Helper.retry_retried N) in Hr; [|apply Ho|].
    + by rewrite (proj2 (Z.eqb_neq k' k) Hne) in Hr.
    + destruct (i_slot _ _ _ Hs) as [s Ht]. apply i_socket in Ht. lia.
Qed.

(** A timing request is refused by a note that a retry is owed, or sent on. *)
Definition request_outcome w (pkt : packet) (b : bool) w' : Prop :=
  let k := socket_of w pkt in
  match slot Request (helper w) k with
  | Some _ => b = false ∧ w' = set_port (set_helper (retried k true (helper w))) w
  | None => b = true ∧ ∃ t answer,
      calls w' = calls w ++ [CallFw (MultiSocket k) t BEGIN_REQ (payloadDelay pkt) answer]
  end.

(** Whether the socket is taken decides. *)
Lemma wp_recvTimingReq_cases cur w G a pkt (Q : bool → world E → Prop) :
  winv N cur w G → caught_up w → pkts (st (memory w)) !! a = Some pkt →
  cacheResponding pkt = false → (isRead pkt || isWrite pkt) = true → 0 ≤ socket_of w pkt < N →
  let k := socket_of w pkt in
  match slot Request (helper w) k with
  | Some _ =>
      let w' := set_port (set_helper (retried k true (helper w))) w in
      again cur None w G w' → Q false w'
  | None => wp (send_begin_req a k) Q w
  end → wp (recvTimingReq a) Q w.
Proof.
  intros Hi Hcu Ha Hcr Hrw Hsock. cbv zeta. intros HQ. unfold recvTimingReq, CAUGHT_UP.
  pose proof (i_config _ _ _ _ Hi) as Hc.
  do 2 apply wp_bind. apply wp_gets, wp_check; [by apply Z.eqb_eq|].
  apply wp_bind. eapply wp_packet; [exact Ha|].
  apply wp_bind, wp_check; [by rewrite Hcr|]. apply wp_bind, wp_check; [done|].
  apply wp_bind, wp_gets. apply wp_bind, wp_check; [by rewrite (c_retry N _ Hc)|].
  apply wp_bind, wp_gets. rewrite (c_cache N _ Hc). cbv zeta.
  rewrite (c_request N _ Hc). fold (socket_of w pkt).
  set (k := socket_of w pkt) in *. apply wp_bind, wp_query.
  eapply Helper.wp_isBlockedPort; [by eapply i_wf, v_inv|done|apply (i_order _ _ _ Hi)|].
  split; [done|]. destruct (slot Request (helper w) k) as [t|] eqn:Hs.
  - rewrite bool_decide_true by eauto. apply wp_bind, wp_zoom.
    eapply Helper.wp_updateRetryMap; [by eapply i_wf, v_inv|done|]. apply wp_ret, HQ.
    assert (winv N cur (set_port (set_helper (retried k true (helper w))) w) G) as Hi'
      by (split; [apply inv_retried; [apply Hi|eauto]|apply Hi]).
    split; [|by exists G]. eapply kept_step; [apply Hi| |apply Hi'|done..].
    exists []. by rewrite app_nil_r.
  - by rewrite bool_decide_false by (by intros []).
Qed.

Lemma wp_recvTimingReq_outcome cur w G a pkt :
  winv N cur w G → caught_up w → pkts (st (memory w)) !! a = Some pkt →
  cacheResponding pkt = false → (isRead pkt || isWrite pkt) = true → 0 ≤ socket_of w pkt < N →
  addressable (socket_of w pkt) (getAddr pkt) →
  wp (recvTimingReq a) (λ b w', again cur None w G w' ∧ request_outcome w pkt b w') w.
Proof.
  intros Hi Hcu Ha Hcr Hrw Hsock Had. unfold request_outcome.
  eapply (wp_recvTimingReq_cases cur w G a pkt); [done..|]. cbv zeta.
  destruct (slot Request (helper w) (socket_of w pkt)) as [t|] eqn:Hs; [done|].
  eapply wp_send_begin_req; [exact Hi|exact Ha|done..|]. intros w' t answer Hw' Hcalls.
  split; [done|]. split; [done|]. by exists t, answer.
Qed.

Lemma wp_recvTimingReq cur w G a :
  winv N cur w G → caught_up w → good_packet N a w →
  wp (recvTimingReq a) (λ _ w', again cur None w G w') w.
Proof.
  intros Hi Hcu (pkt & Ha & Hcr & Hrw & Hsock & Had).
  eapply wp_mono; [by eapply wp_recvTimingReq_outcome|]. by intros b w' [].
Qed.

Lemma again_refl cur gone w G : winv N cur w G → again cur gone w G w.
Proof. split; [apply kept_refl|]. by exists G. Qed.

Lemma again_trans cur gone w1 w2 w3 G :
  again cur gone w1 G w2 → (∀ G', winv N cur w2 G' → again cur gone w2 G' w3) →
  again cur gone w1 G w3.
Proof.
  intros [Hk (G' & Hi' & Hs)] Hn. destruct (Hn G' Hi') as [Hk' (G'' & Hi'' & Hs')].
  split; [by eapply kept_trans|]. exists G''. split; [done|]. by etrans.
Qed.

Lemma kept_caught_up gone w w' : kept gone w w' → caught_up w → caught_up w'.
Proof. intros []. unfold caught_up. congruence. Qed.

(** So does a callback. *)
Lemma callback_again cur gone w G w' :
  callback N gone w w' → winv N cur w G → caught_up w → (∀ t, gone = Some t → fst <$> cur = Some t) →
  again cur gone w G w'.
Proof.
  intros Hcb. revert G. induction Hcb as [w|w w1 w2 Hpr Hkp _ IH|w a b w1 w2 Hg Hrun _ IH];
    intros G Hi Hcu Hgone; [by apply again_refl|..].
  - assert (again cur gone w G w1) as Ha.
    { split; [by eapply private_kept|]. exists G. split; [by eapply winv_private|done]. }
    eapply again_trans; [exact Ha|]. intros G' Hi'. apply IH; [done| |done].
    eapply kept_caught_up; [apply Ha|done].
  - pose proof (wp_recvTimingReq cur w G a Hi Hcu Hg) as Hwp. unfold wp in Hwp.
    rewrite Hrun in Hwp. destruct Hwp as [Hk Hex].
    assert (again cur gone w G w1) as Ha by (split; [by apply kept_weaken|done]).
    eapply again_trans; [exact Ha|]. intros G' Hi'. apply IH; [done| |done].
    eapply kept_caught_up; [apply Ha|done].
Qed.

(** ** The request channel is freed *)

Lemma set_stage_same t y G : G !! t = Some y → set_stage t (Some y) G = G.
Proof. exact (insert_id G t y). Qed.

(** Only the slots of [t] change. *)
Lemma inv_helper cur' w G t k s b r b' r' l h' :
  inv N (Some (t, (b, r, l))) w G → G !! t = Some (k, s) →
  in_order N h' →
  (∀ ty k' t', t' ≠ t → slot ty h' k' = Some t' ↔ slot ty (helper w) k' = Some t') →
  (∀ ty k', slot ty h' k' = Some t → k' = k) →
  bool_decide (slot Request h' k = Some t) = b' → bool_decide (slot Response h' k = Some t) = r' →
  (∀ k', retry h' k' = true → is_Some (slot Request h' k')) →
  (cur' = Some (t, (b', r', l)) ∨
   cur' = None ∧ shape s (b', r', l) ∧
   ∃ a, held w t {| Packet := a; coreId := Some k |} ∧ has_packet w a) →
  inv N cur' (set_port (set_helper h') w) G.
Proof.
  intros Hi Ht Ho Hoth Hown Hb Hr Hretry Hcur. rewrite <- (set_stage_same t (k, s) G Ht).
  destruct (i_stage _ _ _ _ Hi t k s Ht) as (l0 & Hl0 & Hfit). simpl in Hfit.
  rewrite decide_True in Hfit by done. destruct Hfit as [Hfit Hs]. injection Hfit as _ _ Hl. subst l.
  destruct (i_held _ _ _ _ Hi t k s Ht) as (a & Hh & _).
  apply (inv_step N (Some (t, (b, r, l0.*2))) cur' w); try done.
  - apply configured_helper; [apply Hi|done].
  - apply Hi.
  - simpl. rewrite (i_monitor _ _ _ _ Hi). by rewrite set_stage_same.
  - right. split; [by intros c [= <-]|]. by destruct Hcur as [-> | [-> _]]; intros c Hc; [injection Hc as <-|].
  - apply (i_fresh _ _ _ _ Hi).
  - split; [by eapply (i_socket _ _ _ _ Hi)|]. split; [|split; [done|split]].
    + destruct Hcur as [-> | (-> & _ & a' & ? & ?)]; [|by exists a'].
      exists a. split; [done|]. by intros [].
    + exists l0. split; [done|]. unfold holding. simpl. rewrite Hb, Hr.
      destruct Hcur as [-> | (-> & ? & _)]; [|done]. simpl. by rewrite decide_True.
    + intros -> t' Hne Ht'. by apply Hne, (i_exclusive _ _ _ _ Hi t' t k).
Qed.

(** [w'] comes after [w]. *)
Record later w w' : Prop := {
  lt_tick : curTick w' = curTick w;
  lt_sc : sc_time_stamp w' = sc_time_stamp w;
  lt_next : (next_event w ≤ next_event w')%positive;
  lt_events pe : (pe < next_event w)%positive → events w' !! pe = events w !! pe;
  lt_calls : ∃ l, calls w' = calls w ++ l;
}.

Lemma kept_later gone w w' : kept gone w w' → later w w'.
Proof. intros []. by split. Qed.

Lemma later_trans w1 w2 w3 : later w1 w2 → later w2 w3 → later w1 w3.
Proof.
  intros [] []. split; try congruence; try lia.
  - intros pe Hpe. rewrite lt_events1 by lia. by apply lt_events0.
  - destruct lt_calls0 as [l0 Hl0], lt_calls1 as [l1 Hl1]. exists (l0 ++ l1).
    by rewrite Hl1, Hl0, app_assoc.
Qed.

Lemma later_same w w' :
  curTick w' = curTick w → sc_time_stamp w' = sc_time_stamp w → next_event w' = next_event w →
  events w' = events w → (∃ l, calls w' = calls w ++ l) → later w w'.
Proof. intros ? ? Hn He ?. split; try done; rewrite ?Hn, ?He; [lia|done]. Qed.

Lemma kept_same gone w w' G :
  monitor (calls w) = Some G → monitor (calls w') = Some G → (∃ l, calls w' = calls w ++ l) →
  curTick w' = curTick w → sc_time_stamp w' = sc_time_stamp w → next_event w' = next_event w →
  events w' = events w → memory w' = memory w →
  Helper.blockingResponseMap (helper w') = Helper.blockingResponseMap (helper w) →
  kept gone w w'.
Proof.
  intros Hm Hm' Hl Ht Hs Hn He Hmem Hr.
  apply (kept_step gone w w' G G); try done; unfold has_packet; rewrite ?Hn, ?He, ?Hmem;
    [lia|done..].
Qed.

Lemma wp_call_sendRetryReq cur w G (Q : unit → world E → Prop) :
  winv N cur w G → caught_up w →
  (∀ w', again cur None w G w' → (∃ l, calls w' = calls w ++ CallSendRetryReq :: l) → Q tt w') →
  wp call_sendRetryReq Q w.
Proof.
  intros Hi Hcu HQ.
  pose proof (winv_log cur w G CallSendRetryReq Hi eq_refl) as Hi1.
  assert (again cur None (log_call CallSendRetryReq w) G
    (sendRetryReq (log_call CallSendRetryReq w))) as Ha
    by (eapply callback_again; [apply cf_retry|exact Hi1|done|done]).
  apply HQ; [|destruct Ha as [Hk _]; destruct (kp_calls _ _ _ Hk) as [l Hl]; exists l;
    rewrite Hl; simpl; by rewrite <- app_assoc].
  eapply again_trans.
  - split; [|by exists G]. eapply (kept_same _ _ _ G); try done; [apply Hi|apply Hi1|by eexists].
  - intros G' Hi'. eapply callback_again; [apply cf_retry|exact Hi'|done|done].
Qed.

(** If a retry was owed on socket [k], gem5 was told first. *)
Definition retry_sent w k w' : Prop :=
  retry (helper w) k = true → ∃ l, calls w' = calls w ++ CallSendRetryReq :: l.

(** The slot of [t] is freed and, if a retry is owed, gem5 is told. *)
(** The request slot of [t] is freed; only retry notes of other sockets are left. *)
Lemma inv_freed w G t k s l h' :
  inv N (Some (t, (true, false, l))) w G → G !! t = Some (k, s) →
  slot Request (helper w) k = Some t → slot Response (helper w) k ≠ Some t →
  in_order N h' → (∀ ty k', slot ty h' k' = slot ty (updated k None Request (helper w)) k') →
  (∀ k', retry h' k' = true → k' ≠ k ∧ retry (helper w) k' = true) →
  inv N (Some (t, (false, false, l))) (set_port (set_helper h') w) G.
Proof.
  intros Hi Ht Hreq Hresp Ho' Hs Hr.
  pose proof (i_socket _ _ _ _ Hi t k s Ht) as Hk. pose proof (i_wf _ _ _ Hi) as Hwf.
  assert (∀ ty k', slot ty (updated k None Request (helper w)) k' =
    if decide (ty = Request ∧ k' = k) then None else slot ty (helper w) k') as Hs1
    by (intros; by apply (Helper.slot_updated N)).
  eapply (inv_helper _ w G t k s true false false false l); try done.
  - intros ty k' t' Hne. rewrite Hs, Hs1. case_decide as Hd; [|done].
    destruct Hd as [-> ->]. split; congruence.
  - intros ty k'. rewrite Hs, Hs1. case_decide; [done|]. intros Hsl.
    by eapply (inv_slot_socket N _ w G ty k' k t s).
  - rewrite Hs, Hs1, decide_True by done. by apply bool_decide_false.
  - rewrite Hs, Hs1, decide_False by (by intros []). by apply bool_decide_false.
  - intros k' [Hne Hr']%Hr. rewrite Hs, Hs1, decide_False by (by intros []).
    by apply (i_retry _ _ _ _ Hi).
  - by left.
Qed.

Lemma wp_pec_unblock w G t k s l (Q : unit → world E → Prop) :
  winv N (Some (t, (true, false, l))) w G → G !! t = Some (k, s) → caught_up w →
  (∀ w', again (Some (t, (false, false, l))) None w G w' → retry_sent w k w' → Q tt w') →
  wp (pec_unblock t) Q w.
Proof.
  intros Hi Ht Hcu HQ. unfold pec_unblock. apply wp_bind, wp_gets.
  pose proof (i_config _ _ _ _ Hi) as Hc. rewrite (c_cache N _ Hc), andb_false_r.
  destruct (i_stage _ _ _ _ Hi t k s Ht) as (l0 & _ & Hfit). simpl in Hfit.
  rewrite decide_True in Hfit by done. destruct Hfit as [Hfit _].
  injection Hfit as Hreq%bool_decide_eq_true Hresp%bool_decide_eq_false _.
  pose proof (i_socket _ _ _ _ Hi t k s Ht) as Hk. pose proof (i_wf _ _ _ Hi) as Hwf.
  pose proof (i_order _ _ _ Hi) as Ho.
  apply wp_bind, wp_query. eapply Helper.wp_isBlockingTrans; [exact Hwf|].
  intros b Hb. split; [done|]. apply wp_bind, wp_check; [apply Hb; by exists k|].
  destruct (i_held _ _ _ _ Hi t k s Ht) as (a & Hh & _).
  apply wp_bind. eapply wp_core_of; [exact Hh|].
  apply wp_bind, wp_zoom. eapply Helper.wp_updateBlockingMap; [done|lia|by intros; apply Ho|].
  set (h1 := updated k None Request (helper w)). set (w1 := set_port (set_helper h1) w).
  assert (in_order N h1) as Ho1 by (apply updated_in_order; [done|lia]).
  apply wp_bind, wp_query. eapply Helper.wp_needToSendRequestRetry; [apply Ho1|done|].
  split; [done|]. change (retry (helper _) k) with (retry (helper w) k).
  destruct (retry (helper w) k) eqn:Hretry.
  - apply wp_bind, wp_zoom. eapply Helper.wp_updateRetryMap; [apply Ho1|done|].
    set (w2 := set_port (set_helper (retried k false h1)) w).
    assert (winv N (Some (t, (false, false, l))) w2 G) as Hi2.
    { eapply winv_same; [exact Hi| |done..].
      eapply inv_freed; [apply Hi|done..|by apply retried_in_order|intros; apply Helper.slot_retried|].
      intros k' Hr. rewrite (Helper.retry_retried N) in Hr; [|apply Ho1|lia].
      destruct (Z.eqb_spec k' k); [done|]. done. }
    eapply wp_call_sendRetryReq; [exact Hi2|done|]. intros w' Hw' Hsent. apply HQ; [|by intros _].
    eapply again_trans; [split; [|by exists G]|].
    + eapply (kept_same _ _ _ G); try done; [apply Hi|apply Hi2|].
      exists []. by rewrite app_nil_r.
    + intros G' Hi'. destruct Hw' as [? (G'' & ? & ?)].
      pose proof (i_monitor _ _ _ _ Hi'). pose proof (i_monitor _ _ _ _ Hi2).
      assert (G' = G) as -> by congruence. split; [done|]. by exists G''.
  - apply wp_ret, HQ; [|by intros ?; congruence].
    assert (winv N (Some (t, (false, false, l))) w1 G) as Hi1.
    { eapply winv_same; [exact Hi| |done..]. eapply inv_freed; [apply Hi|done..|]. intros k' Hr. split; [|done]. intros ->.
      unfold h1 in Hr. rewrite Helper.retry_updated in Hr. congruence. }
    split; [|by exists G]. eapply (kept_same _ _ _ G); try done; [apply Hi|apply Hi1|].
    exists []. by rewrite app_nil_r.
Qed.

(** ** The response *)

(** The end of transaction [t]. *)
Lemma wp_send_end_resp w G t k e (Q : unit → world E → Prop) :
  winv N (Some (t, (false, false, []))) w G → G !! t = Some (k, MResp) → held w t e →
  (∀ w', winv N None w' (set_stage t None G) → later w w' →
     Helper.blockingResponseMap (helper w') = Helper.blockingResponseMap (helper w) →
     (willing (env w) → willing (env w')) → Q tt w') →
  wp (send_end_resp t k) Q w.
Proof.
  intros Hi Ht Hh HQ. unfold send_end_resp.
  pose proof (i_socket _ _ _ _ Hi t k _ Ht) as Hk.
  apply wp_bind, wp_bound_socket; [apply Hi|done|].
  apply wp_bind, wp_call_fw. intros r w1 Hfw.
  destruct (cf_end k t 0 w G r w1 (i_monitor _ _ _ _ Hi) (i_mem _ _ _ _ Hi) (v_coupled _ _ _ _ Hi)
    Ht Hfw) as (Hpr & Hwill & Hcp).
  pose proof (inv_private _ _ _ _ _ _ _ Hi Hpr ltac:(done)) as Hi1.
  assert (held w1 t e) as (p & Hp & Hr & _).
  { apply (pr_held _ _ _ _ Hpr); [left; exists G; split; [apply Hi|by eexists]|done]. }
  apply wp_zoom. eapply wp_release; [apply Hi1|exact Hp|done|].
  intros m [_ Hoth Hpk _ _ Hok]. apply HQ; [|by destruct Hpr; apply later_same; simpl; try done;
    rewrite pr_calls; eexists|by simpl; rewrite (pr_port _ _ _ _ Hpr)|done].
  destruct (i_stage _ _ _ _ Hi1 t k _ Ht) as (l0 & Hl0 & Hfit). simpl in Hfit.
  rewrite decide_True in Hfit by done. destruct Hfit as [Hfit _].
  injection Hfit as Hreq%bool_decide_eq_false Hresp%bool_decide_eq_false Hl.
  split; [|eapply cf_stable; [exact Hcp|done|]; intros t' Hx;
    apply Hoth; intros ->; revert Hx; unfold set_stage; rewrite lookup_partial_alter_eq; by intros []].
  apply (inv_step N (Some (t, (false, false, []))) None w1); try done.
  - apply Hi1.
  - simpl. rewrite monitor_snoc, (i_monitor _ _ _ _ Hi1). simpl. by rewrite bool_decide_true.
  - split; try done; unfold held, has_packet; simpl.
    + intros t' e' Hne. by rewrite Hoth.
    + intros a. by rewrite Hpk.
  - right. split; [by intros c [= <-]|done].
  - apply (i_retry _ _ _ _ Hi1).
  - apply (i_fresh _ _ _ _ Hi1).
  - split; [|split; [|done]].
    + intros ty k' Hs. simpl in Hs. assert (k' = k) as -> by
        (by eapply (inv_slot_socket N _ w1 G ty k' k t MResp)). by destruct ty.
    + intros pe ph Hs. destruct Hl0 as [_ Hl0]. apply Hl0 in Hs.
      destruct l0; [|done]. by apply not_elem_of_nil in Hs.
Qed.

Lemma wp_call_sendTimingResp w G t k a (x : held_by_port) (Q : bool → world E → Prop) :
  winv N (Some (t, x)) w G → caught_up w → held w t {| Packet := a; coreId := Some k |} →
  (∀ (ok : bool) w', again (Some (t, x)) (if ok then Some t else None) w G w' →
     (willing (env w) → ok = true ∧ willing (env w')) → Q ok w') →
  wp (call_sendTimingResp a) Q w.
Proof.
  intros Hi Hcu Hh HQ. unfold wp, call_sendTimingResp.
  destruct (sendTimingResp a w) as [ok w1] eqn:Hrun.
  destruct (cf_resp t _ w ok w1 Hh Hrun) as [Hcb Hw]. apply HQ; [|done].
  assert (again (Some (t, x)) (if ok then Some t else None) w G w1) as Ha.
  { eapply callback_again; [exact Hcb|done|done|]. by destruct ok. }
  eapply again_trans; [exact Ha|]. intros G' Hi'.
  assert (winv N (Some (t, x)) (log_call (CallSendTimingResp a ok) w1) G') as Hi2
    by (by apply winv_log).
  split; [|by exists G']. eapply (kept_same _ _ _ G'); try done; [apply Hi'|apply Hi2|by eexists].
Qed.

(** The response channel of the transaction in hand has no other transaction in its slot. *)
Lemma inv_response_free w G t k l :
  inv N (Some (t, (false, false, l))) w G → G !! t = Some (k, MResp) →
  slot Response (helper w) k = None.
Proof.
  intros Hi Ht. destruct (slot Response (helper w) k) as [t'|] eqn:Hs; [|done]. exfalso.
  destruct (i_slot _ _ _ _ Hi Response k t' Hs) as [s' Ht'].
  destruct (i_stage _ _ _ _ Hi t' k s' Ht') as (l' & _ & Hf). simpl in Hf. unfold holding in Hf.
  rewrite Hs, (bool_decide_true (Some t' = Some t')) in Hf by done.
  case_decide as Hd; [by destruct Hf|].
  inversion Hf; subst. by apply Hd, (i_exclusive _ _ _ _ Hi t' t k).
Qed.

(** [t] is refused by gem5 and goes to the response slot. *)
Lemma inv_refused w G t k a :
  inv N (Some (t, (false, false, []))) w G → G !! t = Some (k, MResp) →
  held w t {| Packet := a; coreId := Some k |} → has_packet w a →
  inv N None (set_port (set_helper (updated k (Some t) Response (helper w))) w) G.
Proof.
  intros Hi Ht Hh Hp. pose proof (i_order _ _ _ Hi) as Ho.
  pose proof (i_socket _ _ _ _ Hi t k _ Ht) as Hk. pose proof (i_wf _ _ _ Hi) as Hwf.
  destruct (i_stage _ _ _ _ Hi t k _ Ht) as (l0 & _ & Hfit). simpl in Hfit.
  rewrite decide_True in Hfit by done. destruct Hfit as [Hfit _].
  injection Hfit as Hreq%bool_decide_eq_false Hresp%bool_decide_eq_false _.
  pose proof (inv_response_free _ _ _ _ _ Hi Ht) as Hfree.
  assert (∀ ty k', slot ty (updated k (Some t) Response (helper w)) k' =
    if decide (ty = Response ∧ k' = k) then Some t else slot ty (helper w) k') as Hs1
    by (intros; by apply (Helper.slot_updated N)).
  eapply (inv_helper None w G t k MResp false false false true []); try done.
  - apply updated_in_order; [done|lia].
  - intros ty k' t' Hne. rewrite Hs1. case_decide as Hd; [|done]. destruct Hd as [-> ->].
    rewrite Hfree. split; congruence.
  - intros ty k'. rewrite Hs1. case_decide as Hd; [by intros; apply Hd|]. intros Hsl.
    by eapply (inv_slot_socket N _ w G ty k' k t MResp).
  - rewrite Hs1, decide_False by (by intros []). by apply bool_decide_false.
  - rewrite Hs1, decide_True by done. by apply bool_decide_true.
  - intros k'. rewrite Helper.retry_updated, Hs1, decide_False by (by intros []).
    apply (i_retry _ _ _ _ Hi).
  - right. split; [done|]. split; [constructor|]. by exists a.
Qed.

(** The response is sent; refused, it is recorded for its socket. *)
Lemma wp_answer_gem5 w w1 G t k a l (Q : unit → world E → Prop) :
  winv N (Some (t, (false, false, l))) w1 G → G !! t = Some (k, MResp) → caught_up w1 →
  later w w1 → held w1 t {| Packet := a; coreId := Some k |} → has_packet w1 a →
  (∀ w2 G', winv N (Some (t, (false, false, l))) w2 G' → G' !! t = Some (k, MResp) →
     held w2 t {| Packet := a; coreId := Some k |} → later w w2 → wp (send_end_resp t k) Q w2) →
  (∀ w2 G', winv N (Some (t, (false, false, l))) w2 G' → G' !! t = Some (k, MResp) →
     held w2 t {| Packet := a; coreId := Some k |} → has_packet w2 a → later w w2 →
     Q tt (set_port (set_helper (updated k (Some t) Response (helper w2))) w2)) →
  wp (pkt' ← on_mem_store (pkt_at a);
      need_retry ← (if isResponse pkt' then ok ← call_sendTimingResp a; mret (negb ok)
                    else mret false);
      if (need_retry : bool)
      then cache ← gets (λ w, Port.usingGem5Cache (port w));
           if (k =? 0) && cache
           then modify (set_port (set_blockingResponse (Some t)))
           else on_helper (Helper.updateBlockingMap k (Some t) Response)
      else send_end_resp t k) Q w1.
Proof.
  intros Hi Ht Hcu Hlt Hh [pkt' Ha] Hend Hput. pose proof (i_socket _ _ _ _ Hi t k _ Ht) as Hk.
  apply wp_bind. eapply wp_packet; [exact Ha|].
  destruct (isResponse pkt'); [|by apply wp_bind, wp_ret; eapply Hend].
  do 2 apply wp_bind. eapply wp_call_sendTimingResp; [exact Hi|done|exact Hh|].
  intros ok w2 [Hkp (G' & Hi2 & Hsub)] _. apply wp_ret.
  assert (tracked w1 t) as Htr by (exists G; split; [apply Hi|by eexists]).
  assert (G' !! t = Some (k, MResp)) as Ht2 by (by eapply lookup_weaken).
  assert (held w2 t {| Packet := a; coreId := Some k |}) as Hh2
    by (by apply (kp_held _ _ _ Hkp)).
  assert (later w w2) as Hlt2 by (by eapply later_trans; [|eapply kept_later]).
  destruct ok; simpl; [by eapply Hend|].
  apply wp_bind, wp_gets. rewrite (c_cache N _ (i_config _ _ _ _ Hi2)), andb_false_r.
  apply wp_zoom. eapply Helper.wp_updateBlockingMap; [by eapply i_wf, v_inv|lia| |].
  { intros _. apply (i_order _ _ _ Hi2). }
  eapply Hput; [exact Hi2|done..| |done].
  apply (kp_packet _ _ _ Hkp t {| Packet := a; coreId := Some k |}); try done. by eexists.
Qed.

(** What [pec] does with BEGIN_RESP, for a transaction with the events [l] still to come. *)
Lemma wp_pec_answer w G t k a l (Q : unit → world E → Prop) :
  winv N (Some (t, (false, false, l))) w G → G !! t = Some (k, MResp) → caught_up w →
  held w t {| Packet := a; coreId := Some k |} → has_packet w a →
  (∀ w2 G', winv N (Some (t, (false, false, l))) w2 G' → G' !! t = Some (k, MResp) →
     held w2 t {| Packet := a; coreId := Some k |} → later w w2 → wp (send_end_resp t k) Q w2) →
  (∀ w2 G', winv N (Some (t, (false, false, l))) w2 G' → G' !! t = Some (k, MResp) →
     held w2 t {| Packet := a; coreId := Some k |} → has_packet w2 a → later w w2 →
     Q tt (set_port (set_helper (updated k (Some t) Response (helper w2))) w2)) →
  wp (pec_response t) Q w.
Proof.
  intros Hi Ht Hcu Hh Hp Hend Hput. unfold pec_response, CAUGHT_UP.
  pose proof (i_socket _ _ _ _ Hi t k _ Ht) as Hk.
  do 2 apply wp_bind. apply wp_gets, wp_check; [by apply Z.eqb_eq|].
  apply wp_bind. eapply wp_extension; [exact Hh|]. cbv zeta. simpl getPacket.
  apply wp_bind. eapply wp_lift_option; [done|]. apply wp_bind, wp_gets.
  rewrite (c_cache N _ (i_config _ _ _ _ Hi)), andb_false_r.
  apply wp_bind, wp_bind, wp_query.
  eapply Helper.wp_getBlockingTrans; [by eapply i_wf, v_inv|done|]. split; [done|].
  rewrite (inv_response_free _ _ _ _ _ Hi Ht). apply wp_check; [done|].
  pose proof Hp as [pkt Ha]. apply wp_bind. eapply wp_packet; [exact Ha|].
  destruct (needsResponse pkt).
  - apply wp_bind. eapply wp_packet_do; [exact Ha|].
    eapply wp_answer_gem5; [|done..| | | |exact Hend|exact Hput].
    + by apply winv_write_packet.
    + apply (kept_later None), kept_write_packet.
    + done.
    + eexists. apply lookup_insert_eq.
  - apply wp_bind, wp_ret. eapply wp_answer_gem5; [done..| | | |exact Hend|exact Hput]; [|done..].
    apply later_same; try done. exists []. by rewrite app_nil_r.
Qed.

(** What [pec] does with BEGIN_RESP when it is the last event. *)
Lemma wp_pec_response w G t k a (Q : unit → world E → Prop) :
  winv N (Some (t, (false, false, []))) w G → G !! t = Some (k, MResp) → caught_up w →
  held w t {| Packet := a; coreId := Some k |} → has_packet w a →
  (∀ w' G', winv N None w' G' → later w w' → Q tt w') → wp (pec_response t) Q w.
Proof.
  intros Hi Ht Hcu Hh Hp HQ. eapply wp_pec_answer; [done..| |].
  - intros w2 G' Hi2 Ht2 Hh2 Hlt2. eapply wp_send_end_resp; [done..|].
    intros w3 Hi3 Hlt3 _ _. eapply HQ; [exact Hi3|]. by eapply later_trans.
  - intros w2 G' Hi2 Ht2 Hh2 Hp2 Hlt2.
    eapply HQ; [eapply winv_same; [exact Hi2|eapply inv_refused; [apply Hi2|done..]|done..]|].
    eapply later_trans; [exact Hlt2|]. apply later_same; try done. exists [].
    by rewrite app_nil_r.
Qed.

(** ** Payload events *)

(** An operation takes [t] in hand. *)
Lemma inv_take w G t k s x l :
  inv N None w G → G !! t = Some (k, s) → s ≠ MReq → pending w t l → holding w t k l.*2 = x →
  inv N (Some (t, x)) w G.
Proof.
  intros Hi Ht Hs Hl Hx. destruct Hi. split; try done.
  - intros t' k' s' Ht'. destruct (i_held t' k' s' Ht') as (a & Ha & Hp). exists a.
    split; [done|]. intros _. by apply Hp.
  - intros t' k' s' Ht'. destruct (decide (t' = t)) as [->|Hne].
    + simplify_eq. exists l. split; [done|]. simpl. by rewrite decide_True.
    + destruct (i_stage t' k' s' Ht') as (l' & ? & ?). exists l'. split; [done|]. simpl.
      by rewrite decide_False.
  - intros c [= <-]. simpl. by eexists.
Qed.

(** The operation puts it down. *)
Lemma inv_put w G t k s x a :
  inv N (Some (t, x)) w G → G !! t = Some (k, s) → shape s x →
  held w t {| Packet := a; coreId := Some k |} → has_packet w a → inv N None w G.
Proof.
  intros Hi Ht Hs Hh Hp. destruct Hi. split; try done.
  - intros t' k' s' Ht'. destruct (decide (t' = t)) as [->|Hne].
    + simplify_eq. by exists a.
    + destruct (i_held t' k' s' Ht') as (a' & ? & Hpk). exists a'. split; [done|]. intros _.
      apply Hpk. simpl. congruence.
  - intros t' k' s' Ht'. destruct (i_stage t' k' s' Ht') as (l' & ? & Hf). exists l'.
    split; [done|]. simpl in *. case_decide as Hd; [|done]. subst t'. simplify_eq.
    by destruct Hf as [-> _].
Qed.

(** The event is taken off the queue of events. *)
Definition unscheduled w pe t (ph : tlm_phase) : world E :=
  set_events (insert pe {| pe_t := Some (t, ph); pe_when := None |}) w.

Lemma scheduled_unscheduled w pe t ph pe' t' ph' :
  scheduled (unscheduled w pe t ph) pe' t' ph' ↔ pe' ≠ pe ∧ scheduled w pe' t' ph'.
Proof.
  unfold scheduled, unscheduled. simpl. destruct (decide (pe' = pe)) as [->|Hne].
  - rewrite lookup_insert_eq. split; [by intros []|by intros []].
  - rewrite lookup_insert_ne by done. by split; [|intros []].
Qed.

(** The first scheduled event of a transaction heads its list. *)
Lemma pending_first w t pe ph l :
  pending w t l → scheduled w pe t ph → (∀ pe' ph', scheduled w pe' t ph' → (pe ≤ pe')%positive) →
  ∃ l', l = (pe, ph) :: l' ∧ pending (unscheduled w pe t ph) t l'.
Proof.
  intros [Hl1 Hl2] Hs Hf. pose proof Hs as Hin%Hl2.
  destruct l as [|[pe' ph'] l']; [by apply not_elem_of_nil in Hin|].
  inversion Hl1 as [|x l0 Hl1' Hall]; subst. rewrite Forall_forall in Hall.
  assert ((pe, ph) = (pe', ph')) as [= <- <-].
  { apply elem_of_cons in Hin as [|Hin]; [done|]. apply Hall in Hin. simpl in Hin.
    assert (pe ≤ pe')%positive; [|lia]. apply (Hf pe' ph'), Hl2, elem_of_cons. by left. }
  exists l'. split; [done|]. split; [done|]. intros pe' ph'.
  rewrite scheduled_unscheduled, <- Hl2, elem_of_cons. split.
  - intros Hin'. split; [|by right]. intros ->. apply Hall in Hin'. simpl in Hin'. lia.
  - intros [Hne [[= -> ->]|?]]; done.
Qed.

Lemma inv_unscheduled w G pe t ph k s l :
  inv N None w G → G !! t = Some (k, s) →
  pending (unscheduled w pe t ph) t l → scheduled w pe t ph →
  s ≠ MReq → inv N (Some (t, holding w t k l.*2)) (unscheduled w pe t ph) G.
Proof.
  intros Hi Ht Hl Hs Hsr. rewrite <- (set_stage_same t (k, s) G Ht).
  destruct (i_held _ _ _ _ Hi t k s Ht) as (a & Hh & _).
  apply (inv_step N None (Some (t, holding w t k l.*2)) w); try done.
  - apply Hi.
  - apply Hi.
  - simpl. rewrite (i_monitor _ _ _ _ Hi). by rewrite set_stage_same.
  - split; try done. intros pe' t' ph' Hne. rewrite scheduled_unscheduled. split; [by intros []|].
    intros Hs'. split; [|done]. intros ->. destruct Hs as (? & Hs), Hs' as (? & Hs').
    congruence.
  - right. split; [done|]. by intros c [= <-].
  - apply (i_retry _ _ _ _ Hi).
  - intros pe'. simpl. destruct (decide (pe' = pe)) as [->|Hne].
    + intros _. apply (i_fresh _ _ _ _ Hi). destruct Hs as (? & ->). by eexists.
    + rewrite lookup_insert_ne by done. apply (i_fresh _ _ _ _ Hi).
  - split; [by eapply (i_socket _ _ _ _ Hi)|]. split; [|split; [|split]].
    + exists a. split; [done|]. by intros [].
    + intros ty k' Hsl. by eapply (inv_slot_socket N _ w G ty k' k t s).
    + exists l. split; [done|]. simpl. by rewrite decide_True.
    + intros -> t' Hne Ht'. by apply Hne, (i_exclusive _ _ _ _ Hi t' t k).
Qed.

Lemma inv_delete_event w G pe :
  inv N None w G → (∀ t ph, ¬ scheduled w pe t ph) →
  inv N None (set_events (delete pe) w) G.
Proof.
  intros Hi Hno. assert (∀ pe' t ph, scheduled (set_events (delete pe) w) pe' t ph ↔
    scheduled w pe' t ph) as Hs.
  { intros pe' t ph. unfold scheduled. simpl. destruct (decide (pe' = pe)) as [->|Hne].
    - rewrite lookup_delete_eq. split; [by intros []|]. intros Hs. by destruct (Hno t ph).
    - by rewrite lookup_delete_ne. }
  destruct Hi. split; try done.
  - intros t k s Ht. destruct (i_stage t k s Ht) as (l & Hl & Hfit). exists l. split; [|done].
    eapply pending_ext; [|exact Hl]. done.
  - intros pe' t ph. rewrite Hs. apply i_events.
  - intros pe'. simpl. intros [_ Hpe]%lookup_delete_is_Some. by apply i_fresh.
Qed.

(** Event [pe] is scheduled for [t] and [ph], and no event of [t] was notified before it. *)
Definition first_event w pe t (ph : tlm_phase) : Prop :=
  scheduled w pe t ph ∧ ∀ pe' ph', scheduled w pe' t ph' → (pe ≤ pe')%positive.

(** The end of [pec]: its event is deleted. *)
Lemma wp_delete_event cur w w1 G G1 pe t ph (P : Prop) k (Q : unit → world E → Prop) :
  winv N cur w G → events w !! pe = Some {| pe_t := Some (t, ph); pe_when := None |} →
  (∀ w' G', winv N None w' G' → (∃ l, calls w' = calls w ++ l) → (P → retry_sent w k w') → Q tt w') →
  winv N None w1 G1 → later w w1 → (P → retry_sent w k w1) → wp (delete_event pe) Q w1.
Proof.
  intros Hi Hpe HQ Hi1 Hlt Hsent. eapply HQ; [eapply winv_same; [exact Hi1|apply inv_delete_event; [apply Hi1|]|done..]| |done].
  - intros t' ph' (d & Hd). assert (events w1 !! pe = events w !! pe) as He.
    { apply (lt_events _ _ Hlt), (i_fresh _ _ _ _ Hi). by eexists. }
    congruence.
  - apply (lt_calls _ _ Hlt).
Qed.

(** [pec] on a transaction whose event was taken off the queue; [b]: it is in the request slot. *)
Lemma wp_pec w G pe t ph k s b l (Q : unit → world E → Prop) :
  winv N (Some (t, (b, false, l))) w G → G !! t = Some (k, s) → caught_up w →
  (∀ a, held w t {| Packet := a; coreId := Some k |} → has_packet w a) →
  shape s (b, false, ph :: l) → events w !! pe = Some {| pe_t := Some (t, ph); pe_when := None |} →
  (∀ w' G', winv N None w' G' → (∃ l, calls w' = calls w ++ l) →
     (b = true → retry_sent w k w') → Q tt w') →
  wp (pec pe t ph) Q w.
Proof.
  intros Hi Ht Hcu Hpk Hsh Hpe HQ. unfold pec.
  destruct (i_held _ _ _ _ Hi t k s Ht) as (a & Hh & _). apply Hpk in Hh as Hp. clear Hpk.
  destruct (i_stage _ _ _ _ Hi t k s Ht) as (l0 & _ & Hfit). simpl in Hfit.
  rewrite decide_True in Hfit by done. destruct Hfit as [Hfit _]. unfold holding in Hfit.
  apply wp_bind, wp_query. eapply Helper.wp_isBlockingTrans; [by eapply i_wf, v_inv|].
  intros blocking Hb. split; [done|]. apply wp_bind, wp_gets.
  assert (blocking = b) as ->.
  { injection Hfit as Hreq _ _. rewrite <- Hreq. apply eq_true_iff_eq. rewrite Hb.
    rewrite bool_decide_eq_true. split; [|by exists k]. intros (k' & Hk').
    by rewrite <- (inv_slot_socket N _ w G Request k' k t s Hi Hk' Ht). }
  rewrite (c_request N _ (i_config _ _ _ _ Hi)), (bool_decide_false (None = Some t)) by done.
  rewrite orb_false_r.
  assert (∀ w1 G1, winv N None w1 G1 → later w w1 → (b = true → retry_sent w k w1) →
    wp (delete_event pe) Q w1) as Hdel.
  { intros w1 G1 ? ? ?. by eapply (wp_delete_event _ w w1 G G1 pe t ph (b = true) k). }
  assert (∀ w1 G1, winv N (Some (t, (false, false, l))) w1 G1 → kept None w w1 → G ⊆ G1 →
    shape s (false, false, if decide (ph = END_REQ) then l else [BEGIN_RESP]) →
    (b = true → retry_sent w k w1) →
    wp ((if bool_decide (ph = BEGIN_RESP) then pec_response t else mret tt);; delete_event pe)
       Q w1) as Hsecond.
  { intros w1 G1 Hi1 Hkp Hsub Hsh1 Hsent. apply wp_bind.
    assert (tracked w t) as Htr by (exists G; split; [apply Hi|by eexists]).
    assert (G1 !! t = Some (k, s)) as Ht1 by (by eapply lookup_weaken).
    pose proof (kp_held _ _ _ Hkp t _ Htr Hh) as Hh1.
    pose proof (kp_packet _ _ _ Hkp t _ Htr ltac:(done) Hh Hp) as Hp1. simpl in Hp1.
    pose proof (kept_later _ _ _ Hkp) as Hlt.
    destruct (decide (ph = BEGIN_RESP)) as [->|Hph].
    - rewrite bool_decide_true by done. inversion Hsh; subst.
      eapply wp_pec_response; [exact Hi1|done|by eapply kept_caught_up|done..|].
      intros w2 G2 Hi2 Hlt2. eapply Hdel; [exact Hi2|by eapply later_trans|].
      intros Hb' Hr. destruct (Hsent Hb' Hr) as [l1 Hl1], (lt_calls _ _ Hlt2) as [l2 Hl2].
      exists (l1 ++ l2). by rewrite Hl2, Hl1, <- app_assoc.
    - rewrite bool_decide_false by done. apply wp_ret. eapply Hdel; [|exact Hlt|done].
      eapply winv_same; [exact Hi1| |done..]. eapply inv_put; [apply Hi1|done| |done|done].
      inversion Hsh; subst; done. }
  apply wp_bind. inversion Hsh; subst; simpl.
  1, 2: eapply wp_pec_unblock; [exact Hi|exact Ht|done|]; intros w1 [Hkp (G1 & Hi1 & Hsub)] Hrs;
    eapply Hsecond; [done..|constructor|done].
  destruct b.
  - eapply wp_pec_unblock; [exact Hi|exact Ht|done|]. intros w1 [Hkp (G1 & Hi1 & Hsub)] Hrs.
    eapply Hsecond; [done..|constructor|done].
  - apply wp_ret. eapply Hsecond; [exact Hi|apply kept_refl|done|constructor|done].
Qed.

(** An event is processed without an error. *)
Lemma wp_process w G pe t ph (Q : unit → world E → Prop) :
  winv N None w G → first_event w pe t ph → caught_up w →
  (∀ w' G', winv N None w' G' → (∃ l, calls w' = calls w ++ l) →
     (∀ k, slot Request (helper w) k = Some t → retry_sent w k w') → Q tt w') →
  wp (process pe) Q w.
Proof.
  intros Hi [Hs Hfirst] Hcu HQ. unfold process. pose proof Hs as (d & Hpe).
  apply wp_bind, wp_gets. apply wp_bind. eapply wp_lift_option; [exact Hpe|].
  apply wp_bind, wp_modify. apply wp_bind. eapply wp_lift_option; [done|]. simpl.
  fold (unscheduled w pe t ph).
  destruct (i_events _ _ _ _ Hi pe t ph Hs) as [[k s] Ht].
  destruct (i_stage _ _ _ _ Hi t k s Ht) as (l & Hl & Hsh). simpl in Hsh.
  destruct (pending_first w t pe ph l Hl Hs Hfirst) as (l' & -> & Hl').
  assert (s ≠ MReq) as Hsr by (intros ->; inversion Hsh).
  assert (winv N (Some (t, holding w t k l'.*2)) (unscheduled w pe t ph) G) as Hi1
    by (eapply winv_same; [exact Hi|by apply (inv_unscheduled w G pe t ph k s l' Hi)|done..]).
  unfold holding in Hi1, Hsh. simpl in Hsh.
  assert (bool_decide (slot Response (helper w) k = Some t) = false) as Hr
    by (inversion Hsh; congruence).
  rewrite Hr in Hi1, Hsh.
  eapply wp_pec; [exact Hi1|exact Ht|done| |exact Hsh|apply lookup_insert_eq|]; cycle 1.
  { intros w' G' Hi' Hcalls Hsent. eapply HQ; [exact Hi'|exact Hcalls|]. intros k' Hk'.
    assert (k' = k) as -> by exact (inv_slot_socket N _ w G Request k' k t s Hi Hk' Ht).
    exact (Hsent (bool_decide_true _ Hk')). }
  intros a Hh. destruct (i_held _ _ _ _ Hi t k s Ht) as (a' & Hh' & Hp).
  destruct Hh as (p & Hgp & _ & He), Hh' as (p' & Hgp' & _ & He').
  simpl in Hgp. simplify_eq. by apply Hp.
Qed.

(** The event for END_REQ fails an assertion if its transaction is in no request slot. *)
Lemma stray_end_req_fails w pe t d :
  in_order N (helper w) → (∀ k, slot Request (helper w) k ≠ Some t) → blockingRequest (port w) ≠ Some t →
  events w !! pe = Some {| pe_t := Some (t, END_REQ); pe_when := d |} →
  fails (process pe) (SC_ASSERT "blk_pkt_helper->isBlockingTrans(&trans, pktType::Request)") w.
Proof.
  intros Ho Hs Hb He. unfold fails, process.
  assert (∀ w1, port w1 = port w →
    on_helper (Helper.isBlockingTrans (Some t) Request) w1 = (Ok false, w1)) as Hq.
  { intros w1 Hw1. assert (wp (on_helper (Helper.isBlockingTrans (Some t) Request))
      (λ b w2, b = false ∧ w2 = w1) w1) as Hq.
    { apply wp_query. rewrite Hw1.
      eapply Helper.wp_isBlockingTrans; [apply Ho|]. intros b Hbt. split; [done|].
      split; [|done]. destruct b; [|done]. destruct (proj1 Hbt eq_refl) as (k' & Hk').
      by destruct (Hs k'). }
    destruct (wp_Ok _ _ _ Hq) as (b & w2 & Hr & -> & ->). exact Hr. }
  erewrite bind_Ok by done. erewrite bind_Ok by (unfold lift_option; by rewrite He).
  erewrite bind_Ok by done. erewrite bind_Ok by done. cbn [fst snd pe_t].
  set (w1 := set_events _ w). unfold pec. erewrite bind_Ok by (by apply Hq).
  erewrite bind_Ok by done. rewrite (bool_decide_true (END_REQ = END_REQ)) by done. cbn [orb].
  assert (fst (pec_unblock t w1) =
    Err (SC_ASSERT "blk_pkt_helper->isBlockingTrans(&trans, pktType::Request)")) as Hu.
  { unfold pec_unblock. erewrite bind_Ok by done.
    change (port w1) with (port w). rewrite (bool_decide_false (_ = Some t)) by done.
    simpl. erewrite bind_Ok by (by apply Hq). done. }
  destruct (pec_unblock t w1) as [[]] eqn:Heq; simpl in Hu; [done|].
  injection Hu as ->. by erewrite bind_Err.
Qed.

(** *** An event taken out of order

    The events of one transaction that are out of order are BEGIN_RESP, taken, and END_REQ, still to
    come. *)

(** The event [pe] is still scheduled for [t], which is in no request slot. *)
Record left_over w pe t (ph : tlm_phase) : Prop := {
  lo_order : in_order N (helper w);
  lo_request : blockingRequest (port w) = None;
  lo_slot k : slot Request (helper w) k ≠ Some t;
  lo_event : scheduled w pe t ph;
}.

Lemma no_request w G t k s b l k' :
  inv N (Some (t, (false, b, l))) w G → G !! t = Some (k, s) → slot Request (helper w) k' ≠ Some t.
Proof.
  intros Hi Ht Hs. pose proof (inv_slot_socket N _ w G Request k' k t s Hi Hs Ht) as ->.
  destruct (i_stage _ _ _ _ Hi t k s Ht) as (l0 & _ & Hfit). simpl in Hfit.
  rewrite decide_True in Hfit by done. destruct Hfit as [[= Hreq%bool_decide_eq_false _ _] _]. done.
Qed.

Lemma left_over_same w w' pe t ph :
  left_over w pe t ph → port w' = port w → events w' !! pe = events w !! pe → left_over w' pe t ph.
Proof.
  intros [? ? ? (d & He)] Hp He'. split; rewrite ?Hp; try done. exists d. by rewrite He'.
Qed.

(** Neither end of the answer to gem5 takes the event away. *)
Lemma wp_send_end_resp_left w G t k pe l e :
  winv N (Some (t, (false, false, l))) w G → G !! t = Some (k, MResp) → held w t e →
  scheduled w pe t END_REQ → wp (send_end_resp t k) (λ _ w', left_over w' pe t END_REQ) w.
Proof.
  intros Hi Ht Hh Hs. unfold send_end_resp. pose proof (i_socket _ _ _ _ Hi t k _ Ht) as Hk.
  assert (left_over w pe t END_REQ) as Hlo.
  { split; [apply (i_order _ _ _ Hi)|apply (c_request N _ (i_config _ _ _ _ Hi))| |done].
    intros k'. eapply no_request; [apply Hi|exact Ht]. }
  apply wp_bind, wp_bound_socket; [apply Hi|done|].
  apply wp_bind, wp_call_fw. intros r w1 Hfw.
  destruct (cf_end k t 0 w G r w1 (i_monitor _ _ _ _ Hi) (i_mem _ _ _ _ Hi) (v_coupled _ _ _ _ Hi)
    Ht Hfw) as (Hpr & _).
  assert (held w1 t e) as (p & Hp & Hr & _).
  { apply (pr_held _ _ _ _ Hpr); [left; exists G; split; [apply Hi|by eexists]|done]. }
  apply wp_zoom. eapply wp_release; [by apply (pr_mem _ _ _ _ Hpr), Hi|exact Hp|done|].
  intros m _. eapply left_over_same; [exact Hlo|apply (pr_port _ _ _ _ Hpr)|].
  simpl. by rewrite (pr_events _ _ _ _ Hpr).
Qed.

Lemma left_over_refused w G t k pe l :
  winv N (Some (t, (false, false, l))) w G → G !! t = Some (k, MResp) → scheduled w pe t END_REQ →
  left_over (set_port (set_helper (updated k (Some t) Response (helper w))) w) pe t END_REQ.
Proof.
  intros Hi Ht Hs. pose proof (i_socket _ _ _ _ Hi t k _ Ht) as Hk.
  pose proof (i_order _ _ _ Hi) as Ho.
  split; [apply updated_in_order; [done|lia]|apply (c_request N _ (i_config _ _ _ _ Hi))| |done].
  intros k'. change (slot Request (updated k (Some t) Response (helper w)) k' ≠ Some t).
  rewrite (Helper.slot_updated N) by (by eapply i_wf, v_inv). rewrite decide_False by (by intros []).
  eapply no_request; [apply Hi|exact Ht].
Qed.

(** [pec] for BEGIN_RESP, when the event [pe0] for END_REQ is still to come. *)
Lemma wp_pec_overtaking w G pe pe0 t k :
  winv N (Some (t, (true, false, [END_REQ]))) w G → G !! t = Some (k, MResp) → caught_up w →
  (∀ a, held w t {| Packet := a; coreId := Some k |} → has_packet w a) →
  scheduled w pe0 t END_REQ → pe0 ≠ pe →
  wp (pec pe t BEGIN_RESP) (λ _ w', left_over w' pe0 t END_REQ) w.
Proof.
  intros Hi Ht Hcu Hpk Hs Hne. unfold pec.
  destruct (i_held _ _ _ _ Hi t k _ Ht) as (a & Hh & _). apply Hpk in Hh as Hp. clear Hpk.
  destruct (i_stage _ _ _ _ Hi t k _ Ht) as (l0 & _ & Hfit). simpl in Hfit.
  rewrite decide_True in Hfit by done. destruct Hfit as [Hfit _]. unfold holding in Hfit.
  injection Hfit as Hreq%bool_decide_eq_true _ _.
  apply wp_bind, wp_query. eapply Helper.wp_isBlockingTrans; [by eapply i_wf, v_inv|].
  intros b Hb. split; [done|]. apply wp_bind, wp_gets. rewrite (proj2 Hb) by (by exists k).
  simpl. apply wp_bind. eapply wp_pec_unblock; [exact Hi|exact Ht|done|].
  intros w1 [Hkp (G1 & Hi1 & Hsub)] _. apply wp_bind.
  assert (tracked w t) as Htr by (exists G; split; [apply Hi|by eexists]).
  assert (G1 !! t = Some (k, MResp)) as Ht1 by (by eapply lookup_weaken).
  pose proof (kp_held _ _ _ Hkp t _ Htr Hh) as Hh1.
  pose proof (kp_packet _ _ _ Hkp t _ Htr ltac:(done) Hh Hp) as Hp1. simpl in Hp1.
  assert (∀ w2, later w w2 → scheduled w2 pe0 t END_REQ) as Hs2.
  { intros w2 Hlt. destruct Hs as (d & He). exists d. rewrite <- He.
    apply (lt_events _ _ Hlt), (i_fresh _ _ _ _ Hi). by eexists. }
  pose proof (kept_later _ _ _ Hkp) as Hlt.
  assert (∀ w2, left_over w2 pe0 t END_REQ → wp (delete_event pe) (λ _ w', left_over w' pe0 t END_REQ) w2)
    as Hdel.
  { intros w2 Hlo. apply wp_modify. eapply left_over_same; [exact Hlo|done|].
    simpl. by rewrite lookup_delete_ne. }
  eapply wp_pec_answer; [exact Hi1|done|by eapply kept_caught_up|done..| |].
  - intros w2 G2 Hi2 Ht2 Hh2 Hlt2. eapply wp_mono; [eapply wp_send_end_resp_left; [done..|]|].
    + eapply Hs2, later_trans; done.
    + intros [] w3. apply Hdel.
  - intros w2 G2 Hi2 Ht2 Hh2 Hp2 Hlt2. apply Hdel. eapply left_over_refused; [done..|].
    eapply Hs2, later_trans; done.
Qed.

(** An event that is not the first of its transaction is for BEGIN_RESP, and overtakes END_REQ. *)
Lemma not_first w G pe t ph :
  inv N None w G → scheduled w pe t ph → ¬ first_event w pe t ph →
  ∃ pe0 k, ph = BEGIN_RESP ∧ (pe0 < pe)%positive ∧ G !! t = Some (k, MResp) ∧
    slot Request (helper w) k = Some t ∧ slot Response (helper w) k ≠ Some t ∧
    pending w t [(pe0, END_REQ); (pe, BEGIN_RESP)].
Proof.
  intros Hi Hs Hnf. destruct (i_events _ _ _ _ Hi pe t ph Hs) as [[k s] Ht].
  destruct (i_stage _ _ _ _ Hi t k s Ht) as (l & Hl & Hsh). simpl in Hsh. unfold holding in Hsh.
  pose proof (proj2 (proj2 Hl pe ph) Hs) as Hin.
  assert (∀ pe1 ph1 l', l = (pe1, ph1) :: l' → pe ≠ pe1) as Hno.
  { intros pe1 ph1 l' -> ->. apply Hnf. split; [done|]. intros pe' ph' Hs'%(proj2 Hl).
    apply elem_of_cons in Hs' as [[= -> ->]|Hs']; [done|].
    destruct Hl as [Hsort _]. inversion Hsort as [|? ? _ Hall]; subst.
    rewrite Forall_forall in Hall. apply Hall in Hs'. simpl in Hs'. lia. }
  destruct l as [|[pe0 ph0] l']; [by apply not_elem_of_nil in Hin|].
  specialize (Hno _ _ _ eq_refl). apply elem_of_cons in Hin as [[= -> ->]|Hin]; [done|].
  destruct l' as [|[pe1 ph1] l'']; [by apply not_elem_of_nil in Hin|].
  inversion Hsh as [| | |Hb [Hreq Hresp Hph0 Hph1 Hl'']| |]; subst.
  destruct l''; [|done]. apply list_elem_of_singleton in Hin as [= -> ->].
  exists pe0, k. split; [done|]. destruct Hl as [Hsort Hl].
  inversion Hsort as [|? ? _ Hall]; subst. apply Forall_cons in Hall as [Hlt _]. simpl in Hlt.
  do 2 (split; [done|]). split; [exact (bool_decide_eq_true_1 _ (eq_sym Hreq))|].
  split; [exact (bool_decide_eq_false_1 _ (eq_sym Hresp))|done].
Qed.

(** Such an event is processed, and leaves END_REQ to a transaction that is in no slot. *)
Lemma wp_process_overtaking w G pe t ph :
  winv N None w G → scheduled w pe t ph → ¬ first_event w pe t ph → caught_up w →
  ph = BEGIN_RESP ∧ ∃ pe0, (pe0 < pe)%positive ∧ scheduled w pe0 t END_REQ ∧
    wp (process pe) (λ _ w', left_over w' pe0 t END_REQ) w.
Proof.
  intros Hi Hs Hnf Hcu.
  destruct (not_first w G pe t ph Hi Hs Hnf) as (pe0 & k & -> & Hlt & Ht & Hreq & Hresp & [Hsort Hl]).
  assert (scheduled w pe0 t END_REQ) as Hs0 by (apply Hl, elem_of_cons; by left).
  split; [done|]. exists pe0. do 2 (split; [done|]). unfold process. pose proof Hs as (d & Hpe).
  apply wp_bind, wp_gets. apply wp_bind. eapply wp_lift_option; [exact Hpe|].
  apply wp_bind, wp_modify. apply wp_bind. eapply wp_lift_option; [done|]. simpl.
  fold (unscheduled w pe t BEGIN_RESP).
  assert (pending (unscheduled w pe t BEGIN_RESP) t [(pe0, END_REQ)]) as Hl'.
  { split; [by repeat constructor|]. intros pe' ph'. rewrite scheduled_unscheduled, <- Hl.
    rewrite !elem_of_cons. split.
    - intros [[= -> ->]|[]%not_elem_of_nil]. split; [lia|by left].
    - intros [Hne [?|[[= -> ->]|[]%not_elem_of_nil]]]; [by left|done]. }
  pose proof (inv_unscheduled w G pe t BEGIN_RESP k MResp [(pe0, END_REQ)] Hi Ht Hl' Hs ltac:(done))
    as Hi1.
  unfold holding in Hi1. rewrite bool_decide_true, bool_decide_false in Hi1 by done. simpl in Hi1.
  eapply wp_pec_overtaking; [split; [exact Hi1|apply Hi]|exact Ht|done| | |lia].
  - intros a (p & Hgp & _ & He).
    destruct (i_held _ _ _ _ Hi t k MResp Ht) as (a' & (p' & Hgp' & _ & He') & Hp).
    simpl in Hgp. simplify_eq. by apply Hp.
  - apply scheduled_unscheduled. split; [lia|done].
Qed.

Lemma left_over_fails w pe t :
  left_over w pe t END_REQ →
  fails (process pe) (SC_ASSERT "blk_pkt_helper->isBlockingTrans(&trans, pktType::Request)") w.
Proof.
  intros [Ho Hb Hs (d & He)]. eapply stray_end_req_fails; [done|done| |exact He]. congruence.
Qed.

(** Whether an event is the first of its transaction. *)
Lemma first_or_not w G pe t ph :
  inv N None w G → scheduled w pe t ph → first_event w pe t ph ∨ ¬ first_event w pe t ph.
Proof.
  intros Hi Hs. destruct (i_events _ _ _ _ Hi pe t ph Hs) as [[k s] Ht].
  destruct (i_stage _ _ _ _ Hi t k s Ht) as (l & [Hsort Hl] & _).
  pose proof (proj2 (Hl pe ph) Hs) as Hin. destruct l as [|[pe0 ph0] l']; [by apply not_elem_of_nil in Hin|].
  inversion Hsort as [|? ? _ Hall]; subst. rewrite Forall_forall in Hall.
  destruct (decide (pe = pe0)) as [->|Hne].
  - left. split; [done|]. intros pe' ph' [[= -> ->]|Hin']%Hl%elem_of_cons; [done|].
    apply Hall in Hin'. simpl in Hin'. lia.
  - right. intros [_ Hf]. assert (pe ≤ pe0)%positive as Hle by (apply (Hf pe0 ph0), Hl, elem_of_cons; by left).
    apply elem_of_cons in Hin as [[= -> ->]|Hin]; [done|]. apply Hall in Hin. simpl in Hin. lia.
Qed.

(** ** nb_transport_bw *)

(** The target may send phase [ph] for [t]. *)
Definition target_may w t (ph : tlm_phase) : Prop :=
  ∀ G d, monitor (calls w) = Some G → coupled G (memory w) (env w) →
    ∃ G', mon_step G (CallBw t ph d) = Some G' ∧ coupled G' (memory w) (env w).

(** A phase of the target moves the transaction on, and keeps what the port holds of it. *)
Lemma backward_step G t ph d G' :
  mon_step G (CallBw t ph d) = Some G' →
  ∃ k s s', G !! t = Some (k, s) ∧ G' = set_stage t (Some (k, s')) G ∧ s ≠ MResp ∧
    (s' = MResp → channel_free MResp k G = true) ∧
    ∀ b l, shape s (b, false, l) → shape s' (b, false, l ++ [ph]).
Proof.
  intros Hstep. simpl in Hstep. destruct ph; try done; destruct (G !! t) as [[k s]|]; try done;
    destruct s; try done;
    try (destruct (channel_free MResp k G) eqn:Hf; [|done]); simpl in Hstep;
    injection Hstep as <-; exists k; eexists _, _; (split; [done|]; split; [reflexivity|]);
    (split; [done|]); (split; [done|]); intros b l Hs; inversion Hs; constructor.
Qed.

Lemma inv_backward w G t ph d G' w' :
  inv N None w G → mon_step G (CallBw t ph d) = Some G' →
  notified (log_call (CallBw t ph d) w) t ph w' → inv N None w' G'.
Proof.
  intros Hi Hstep Hn. pose proof Hn as [N1 N2 N3 N4 N5 N6 N7 N8 N9].
  destruct (backward_step G t ph d G' Hstep) as (k & s & s' & Ht & -> & Hsr & Hfree & Hsh).
  destruct (i_stage _ _ _ _ Hi t k s Ht) as (l & Hl & Hfit). simpl in Hfit.
  destruct (i_held _ _ _ _ Hi t k s Ht) as (a & Hh & Hp).
  apply (inv_step N None None w); rewrite ?N1; try done.
  - apply Hi.
  - rewrite N2. apply Hi.
  - rewrite N3. simpl. rewrite monitor_snoc, (i_monitor _ _ _ _ Hi). done.
  - split; unfold held, has_packet; rewrite ?N1, ?N2; try done.
    intros pe t' ph' Hne. rewrite (scheduled_notified _ _ _ _ _ _ _ Hn). split.
    + by intros [[_ ?]|(_ & -> & _)].
    + intros Hsch. left. split; [|done]. intros ->. destruct Hsch as (? & Hsch).
      assert (next_event w < next_event w)%positive; [|lia].
      eapply (i_fresh _ _ _ _ Hi). eauto.
  - by left.
  - apply (i_retry _ _ _ _ Hi).
  - intros pe. rewrite N7. simpl. destruct (decide (pe = next_event w)) as [->|Hne]; [lia|].
    rewrite N8 by done. intros Hpe%(i_fresh _ _ _ _ Hi). lia.
  - split; [by eapply (i_socket _ _ _ _ Hi)|]. split; [|split; [|split]].
    + exists a. unfold held, has_packet. rewrite N2. split; [done|]. intros _. by apply Hp.
    + intros ty k' Hsl. rewrite N1 in Hsl.
      by eapply (inv_slot_socket N _ w G ty k' k t s).
    + exists (l ++ [(next_event w, ph)]). split.
      * by eapply (pending_notified (log_call (CallBw t ph d) w)); [apply (i_fresh _ _ _ _ Hi)| |].
      * rewrite fmap_app. unfold holding in *. rewrite N1. simpl.
        assert (bool_decide (slot Response (helper w) k = Some t) = false) as Hr
          by (inversion Hfit; congruence).
        rewrite Hr in *. by apply Hsh.
    + intros Hs t' Hne. by apply channel_free_spec, Hfree.
Qed.

(** The call itself never fails. *)
Lemma wp_backward w t ph d (Q : tlm_sync_enum * tlm_phase * Z → world E → Prop) :
  (∀ w', notified (log_call (CallBw t ph d) w) t ph w' → Q (TLM_ACCEPTED, ph, d) w') →
  wp (nb_transport_bw t ph d) Q w.
Proof.
  intros HQ. unfold nb_transport_bw. apply wp_bind, wp_modify, wp_bind_assoc, wp_bind, wp_notify.
  intros w' Hn. by apply wp_ret, HQ.
Qed.

Lemma wp_nb_transport_bw w G t ph d (Q : tlm_sync_enum * tlm_phase * Z → world E → Prop) :
  winv N None w G → target_may w t ph →
  (∀ w' G', winv N None w' G' → calls w' = calls w ++ [CallBw t ph d] →
     Q (TLM_ACCEPTED, ph, d) w') →
  wp (nb_transport_bw t ph d) Q w.
Proof.
  intros [Hi Hc] Hmay HQ. destruct (Hmay G d (i_monitor _ _ _ _ Hi) Hc) as (G' & Hstep & Hc').
  apply wp_backward. intros w' Hn. apply (HQ w' G'); [|apply (nt_calls _ _ _ _ Hn)].
  split; [by eapply inv_backward|]. by rewrite (nt_memory _ _ _ _ Hn), (nt_env _ _ _ _ Hn).
Qed.

(** ** recvRespRetry *)

(** How many sockets have a transaction in the response slot. *)
Definition occupied w : nat :=
  length (filter (λ k, is_Some (slot Response (helper w) k)) (seqZ 0 (N + 1))).

Lemma slot_response_eq w w' k :
  Helper.blockingResponseMap (helper w') = Helper.blockingResponseMap (helper w) →
  slot Response (helper w') k = slot Response (helper w) k.
Proof. unfold slot. simpl. by intros ->. Qed.

Lemma occupied_less w w' k :
  0 ≤ k ≤ N → is_Some (slot Response (helper w) k) →
  (∀ k', slot Response (helper w') k' = if decide (k' = k) then None else slot Response (helper w) k') →
  (occupied w' < occupied w)%nat.
Proof.
  intros Hk Hs Hw'. unfold occupied. apply (filter_strict _ _ _ k).
  - intros k'. rewrite Hw'. case_decide; [by intros []|done].
  - apply elem_of_seqZ. lia.
  - done.
  - rewrite Hw', decide_True by done. by intros [].
Qed.

(** The transaction in a response slot is taken out of it. *)
Lemma inv_response_taken w G t k :
  inv N None w G → slot Response (helper w) k = Some t →
  G !! t = Some (k, MResp) ∧
  inv N (Some (t, (false, false, [])))
    (set_port (set_helper (updated k None Response (helper w))) w) G.
Proof.
  intros Hi Hs. destruct (i_slot _ _ _ _ Hi Response k t Hs) as [s Ht].
  pose proof (i_order _ _ _ Hi) as Ho. pose proof (i_socket _ _ _ _ Hi t k s Ht) as Hk.
  destruct (i_stage _ _ _ _ Hi t k s Ht) as (l & Hl & Hfit). simpl in Hfit.
  unfold holding in Hfit. rewrite Hs, (bool_decide_true (Some t = Some t)) in Hfit by done.
  assert (s = MResp ∧ bool_decide (slot Request (helper w) k = Some t) = false ∧ l.*2 = [])
    as (-> & Hreq & Hnil) by by inversion Hfit.
  assert (inv N (Some (t, (false, true, []))) w G) as Hi1.
  { eapply (inv_take w G t k MResp _ l); try done. unfold holding.
    by rewrite Hs, (bool_decide_true (Some t = Some t)), Hreq, Hnil by done. }
  split; [done|].
  assert (∀ ty k', slot ty (updated k None Response (helper w)) k' =
    if decide (ty = Response ∧ k' = k) then None else slot ty (helper w) k') as Hs1
    by (intros; apply (Helper.slot_updated N); apply Ho).
  eapply (inv_helper _ w G t k MResp false true false false []); try done.
  - apply updated_in_order; [done|lia].
  - intros ty k' t' Hne. rewrite Hs1. destruct (decide (_ ∧ _)) as [[-> ->]|]; [|done].
    rewrite Hs. split; congruence.
  - intros ty k'. rewrite Hs1. destruct (decide (_ ∧ _)); [done|]. intros Hsl.
    by eapply (inv_slot_socket N _ w G ty k' k t MResp).
  - rewrite Hs1, decide_True by done. by apply bool_decide_false.
  - intros k'. rewrite Helper.retry_updated, Hs1, decide_False by (by intros []).
    apply (i_retry _ _ _ _ Hi).
  - by left.
Qed.

(** gem5 refuses a response that is sent again. *)
Definition refused_again w (e : error) (_ : world E) : Prop := e = SC_ASSERT "!need_retry" ∧ ¬ willing (env w).

Lemma wpe_retry_response w G t k (Q : unit → world E → Prop) :
  winv N (Some (t, (false, false, []))) w G → G !! t = Some (k, MResp) → caught_up w →
  (∀ w' G', winv N None w' G' → later w w' →
     Helper.blockingResponseMap (helper w') = Helper.blockingResponseMap (helper w) →
     (willing (env w) → willing (env w')) → Q tt w') →
  wpe (refused_again w) (retry_response t) Q w.
Proof.
  intros Hi Ht Hcu HQ. unfold retry_response.
  destruct (i_held _ _ _ _ Hi t k _ Ht) as (a & Hh & _).
  apply wpe_step. eapply wp_extension; [exact Hh|]. cbv zeta.
  apply wpe_step. eapply wp_lift_option; [done|]. simpl getPacket.
  apply wpe_step. eapply wp_call_sendTimingResp; [exact Hi|done|exact Hh|].
  intros ok w1 [Hkp (G1 & Hi1 & Hsub)] Hwill. destruct ok.
  2: { apply wpe_bind, wpe_fail. split; [done|]. by intros [? _]%Hwill. }
  apply wpe_step, wp_check; [done|]. apply wpe_wp.
  assert (tracked w t) as Htr by (exists G; split; [apply Hi|by eexists]).
  eapply wp_send_end_resp; [exact Hi1|by eapply lookup_weaken| |].
  { apply (kp_held _ _ _ Hkp t _ Htr Hh). }
  intros w2 Hi2 Hlt Hmap Hw2. eapply HQ; [exact Hi2| | |].
  - eapply later_trans; [by eapply kept_later|done].
  - rewrite Hmap. apply (kp_response _ _ _ Hkp).
  - intros [_ ?]%Hwill. by apply Hw2.
Qed.

Lemma wpe_resp_retry_loop (Q : unit → world E → Prop) fuel w G response :
  winv N None w G → caught_up w → (occupied w < fuel)%nat →
  Helper.first_response (helper w) response →
  (∀ w' G', winv N None w' G' → (∃ l, calls w' = calls w ++ l) →
     (∀ k, slot Response (helper w') k = None) → Q tt w') →
  wpe (refused_again w) (resp_retry_loop fuel response) Q w.
Proof.
  revert w G response. induction fuel as [|fuel IH]; intros w G response Hi Hcu Hf Hr HQ; [lia|].
  simpl. apply wpe_step, wp_gets. rewrite (c_response N _ (i_config _ _ _ _ Hi)).
  destruct response as [t|].
  - destruct Hr as (k & Hs & _). destruct (inv_response_taken w G t k Hi Hs) as [Ht Hi1].
    eapply (winv_same None _ w) in Hi1; [|done..].
    pose proof (i_socket _ _ _ _ Hi t k _ Ht) as Hk. pose proof (i_order _ _ _ Hi) as Ho.
    destruct (i_held _ _ _ _ Hi t k _ Ht) as (a & Hh & _).
    apply wpe_step. eapply wp_core_of; [exact Hh|].
    apply wpe_step, wp_zoom. eapply Helper.wp_updateBlockingMap; [apply Ho|lia|by intros; apply Ho|].
    apply wpe_bind. eapply wpe_mono; [eapply wpe_retry_response; [exact Hi1|done..|]|done|by intros ? ? HP; exact HP].
    intros w2 G2 Hi2 Hlt Hmap Hw2. apply wpe_step, wp_query.
    eapply Helper.wp_getBlockingResponse; [by eapply i_wf, v_inv|]. intros r Hr. split; [done|].
    eapply (wpe_mono _ (refused_again w2)); [eapply IH; [exact Hi2| | |done|]| |by intros ? ? HP; exact HP].
    + destruct Hlt. unfold caught_up in *. simpl in *. congruence.
    + assert (occupied w2 < occupied w)%nat; [|lia]. eapply occupied_less; [|by eexists|].
      { split; [apply Hk|lia]. }
      intros k'. rewrite (slot_response_eq _ _ _ Hmap). simpl.
      rewrite (Helper.slot_updated N) by apply Ho.
      destruct (decide (k' = k)) as [->|Hne]; [by rewrite decide_True|].
      by rewrite decide_False by (by intros []).
    + intros w3 G3 Hi3 [l3 Hl3] Hn. eapply HQ; [exact Hi3| |done].
      destruct Hlt as [_ _ _ _ [l2 Hl2]]. simpl in Hl2. exists (l2 ++ l3).
      by rewrite Hl3, Hl2, app_assoc.
    + intros e w' [-> Hno]. split; [done|]. auto.
  - apply wpe_ret. eapply HQ; [done| |done]. exists []. by rewrite app_nil_r.
Qed.

(** Every refused response is sent and completed, in one call, unless gem5 refuses one again. *)
Lemma wpe_recvRespRetry w G (Q : unit → world E → Prop) :
  winv N None w G → caught_up w →
  (∀ w' G', winv N None w' G' → (∃ l, calls w' = calls w ++ l) →
     (∀ k, slot Response (helper w') k = None) → Q tt w') →
  wpe (refused_again w) recvRespRetry Q w.
Proof.
  intros Hi Hcu HQ. unfold recvRespRetry, CAUGHT_UP.
  apply wpe_step, wp_bind. apply wp_gets, wp_check; [by apply Z.eqb_eq|].
  apply wpe_step, wp_query. eapply Helper.wp_getBlockingResponse; [by eapply i_wf, v_inv|].
  intros r Hr. split; [done|]. apply wpe_step, wp_gets.
  eapply wpe_resp_retry_loop; [exact Hi|done| |done|done].
  unfold occupied. pose proof (length_filter (λ k, is_Some (slot Response (helper w) k))
    (seqZ 0 (N + 1))) as Hlen.
  rewrite <- (Helper.wf_keys N _ (i_wf _ _ _ Hi) Response) in Hlen at 2.
  unfold sm_keys in Hlen. rewrite length_fmap in Hlen. simpl in Hlen. lia.
Qed.

Lemma wp_recvRespRetry w G (Q : unit → world E → Prop) :
  winv N None w G → caught_up w → willing (env w) →
  (∀ w' G', winv N None w' G' → (∃ l, calls w' = calls w ++ l) →
     (∀ k, slot Response (helper w') k = None) → Q tt w') →
  wp recvRespRetry Q w.
Proof.
  intros Hi Hcu Hw HQ. eapply wp_of_wpe; [by eapply wpe_recvRespRetry|]. by intros e w' [_ Hno].
Qed.

(** ** recvAtomic, recvFunctional *)

(** The payload is released, which ends its use. *)
Lemma wp_release_untracked w0 w G t e (Q : unit → world E → Prop) :
  winv N None w0 G → kept None w0 w → winv N None w G → G !! t = None → held w t e →
  (∀ w', again None None w0 G w' → Q tt w') → wp (on_memory (release t)) Q w.
Proof.
  intros Hi0 Hkp Hi Ht (p & Hp & Hr & _) HQ. apply wp_zoom.
  eapply wp_release; [apply Hi|exact Hp|done|]. intros m [_ Hoth Hpk _ _ Hok].
  assert (∀ t', is_Some (G !! t') → gps (st m) !! t' = gps (st (memory w)) !! t') as Hg.
  { intros t' [x Hx]. apply Hoth. congruence. }
  assert (winv N None (set_memory m w) G) as Hi'
    by (apply winv_memory; [done|done|done|]; by rewrite Hpk).
  apply HQ. split; [|by exists G]. eapply kept_trans; [exact Hkp|].
  eapply kept_step; [apply Hi| |apply Hi'|done..|].
  - exists []. by rewrite app_nil_r.
  - unfold has_packet. simpl. by rewrite Hpk.
Qed.

(** A blocking call about a payload the port has just made. *)
Lemma after_private w0 w w1 G t e c :
  winv N None w0 G → kept None w0 w → winv N None w G → held w t e → private (Some t) None w w1 →
  coupled G (memory w1) (env w1) → mon_step G c = Some G →
  let w2 := log_call c w1 in
  winv N None w2 G ∧ kept None w0 w2 ∧ held w2 t e ∧
  (has_packet w (Packet e) → has_packet w2 (Packet e)).
Proof.
  intros Hi0 Hkp Hi Hh Hpr Hcp Hc w2.
  assert (winv N None w1 G) as Hi1 by (split; [by eapply (inv_private N None w); [apply Hi| |]|done]).
  assert (winv N None w2 G) as Hi2 by (by apply winv_log). split; [done|]. split; [|split].
  - eapply kept_trans; [exact Hkp|]. eapply kept_trans; [by eapply private_kept|].
    eapply (kept_same _ _ _ G); try done; [apply Hi1|apply Hi2|by eexists].
  - apply (pr_held _ _ _ _ Hpr); [by right|done].
  - apply (pr_packet _ _ _ _ Hpr t e); [by right|done..].
Qed.

(** A packet gem5 may send as an atomic request, and as a functional request. *)
Definition plain_packet (a : ptr) w : Prop :=
  ∃ pkt, pkts (st (memory w)) !! a = Some pkt ∧ cacheResponding pkt = false ∧
         (isRead pkt || isWrite pkt) = true ∧ isSwapReq pkt = false.
Definition functional_packet (a : ptr) w : Prop :=
  ∃ pkt, pkts (st (memory w)) !! a = Some pkt ∧ (isRead pkt || isWrite pkt) = true ∧
         addressable (Sockets.getSocketId false (requestorId pkt) (sockets (port w))) (getAddr pkt).

(** The end of [recvAtomic]. *)
Lemma wp_atomic_end w0 w G t a k d (Q : Z → world E → Prop) :
  winv N None w0 G → kept None w0 w → winv N None w G → G !! t = None →
  held w t {| Packet := a; coreId := Some k |} → has_packet w a →
  (∀ d w', again None None w0 G w' → Q d w') →
  wp (pkt' ← on_mem_store (pkt_at a);
      (if needsResponse pkt' then on_mem_store (pkt_do a makeResponse) else mret tt);;
      on_memory (release t);; mret d) Q w.
Proof.
  intros Hi0 Hk Hi Ht Hh [pkt' Ha] HQ. apply wp_bind. eapply wp_packet; [exact Ha|].
  apply wp_bind. destruct (needsResponse pkt').
  - eapply wp_packet_do; [exact Ha|]. apply wp_bind. eapply (wp_release_untracked w0).
    + exact Hi0.
    + eapply kept_trans; [exact Hk|apply kept_write_packet].
    + apply winv_write_packet; [done|by eexists].
    + done.
    + exact Hh.
    + intros w3 Hw3. by apply wp_ret, HQ.
  - apply wp_ret, wp_bind. eapply (wp_release_untracked w0); [done..|].
    intros w3 Hw3. by apply wp_ret, HQ.
Qed.

Lemma wp_recvAtomic w G a (Q : Z → world E → Prop) :
  winv N None w G → caught_up w → plain_packet a w →
  (∀ d w', again None None w G w' → Q d w') → wp (recvAtomic a) Q w.
Proof.
  intros Hi Hcu (pkt & Ha & Hcr & Hrw & Hsw) HQ. unfold recvAtomic, CAUGHT_UP.
  pose proof (i_config _ _ _ _ Hi) as Hc.
  do 2 apply wp_bind. apply wp_gets, wp_check; [by apply Z.eqb_eq|].
  apply wp_bind. eapply wp_packet; [exact Ha|].
  apply wp_bind, wp_check; [by rewrite Hcr|]. apply wp_bind, wp_check; [done|].
  eapply wp_new_payload; [apply Hi|exact Ha|exact Hrw|]. intros t m Hm.
  apply wp_bind, wp_gets. simpl. rewrite (c_cache N _ Hc).
  set (k := Sockets.getSocketId false _ _). assert (0 ≤ k < N) as Hk by apply Hc.
  apply wp_bind. eapply wp_attach; [exact Hm|]. clear m Hm. intros m Hm.
  pose proof (winv_made _ _ _ _ _ _ _ Hi Hm) as Hi1.
  pose proof (kept_made None _ _ _ _ _ _ _ Hi Hm) as Hk1.
  destruct (made_offered _ _ _ _ _ _ _ _ Hi Hm Hk) as [Hof Hh1].
  pose proof (of_new _ _ _ _ _ Hof) as Ht.
  assert (has_packet (set_memory m w) a) as Hp1.
  { unfold has_packet. simpl. rewrite (ma_pkts _ _ _ _ _ Hm). by eexists. }
  assert (∀ K, (∀ w2 d, winv N None w2 G → kept None w w2 →
      held w2 t {| Packet := a; coreId := Some k |} → has_packet w2 a → wp (K d) Q w2) →
    wp (d ← (s ← bound_socket k; call_b s t 0); K d) Q (set_memory m w)) as Hcall.
  { intros K HK. do 2 apply wp_bind. apply wp_bound_socket; [apply Hi1|done|].
    unfold wp at 1, call_b. destruct (b_transport (MultiSocket k) t 0 _) as [d w2] eqn:Hrun.
    destruct (cf_b _ _ _ _ _ _ _ Hof Hrun) as [Hpr Hcp].
    destruct (after_private w _ w2 G t _ (CallB (MultiSocket k) t) Hi Hk1 Hi1 Hh1 Hpr Hcp eq_refl)
      as (Hi2 & Hk2 & Hh2 & Hp2).
    by apply HK; try apply Hp2. }
  assert (∀ w2 d, winv N None w2 G → kept None w w2 →
    held w2 t {| Packet := a; coreId := Some k |} → has_packet w2 a → wp _ Q w2) as Hend
    by (intros w2 d Hi2 Hk2 Hh2 Hp2; exact (wp_atomic_end w w2 G t a k d Q Hi Hk2 Hi2 Ht Hh2 Hp2 HQ)).
  rewrite Hsw. destruct (isRead pkt); [by apply Hcall|].
  destruct (isInvalidate pkt); [by apply wp_bind, wp_ret, Hend|].
  simpl in Hrw. rewrite Hrw. by apply Hcall.
Qed.

Lemma wp_recvFunctional w G a (Q : unit → world E → Prop) :
  winv N None w G → functional_packet a w →
  (∀ w', again None None w G w' → Q tt w') → wp (recvFunctional a) Q w.
Proof.
  intros Hi (pkt & Ha & Hrw & Had) HQ. unfold recvFunctional.
  pose proof (i_config _ _ _ _ Hi) as Hc.
  eapply wp_new_payload; [apply Hi|exact Ha|exact Hrw|]. intros t m Hm.
  apply wp_bind. eapply wp_packet; [simpl; rewrite (ma_pkts _ _ _ _ _ Hm); exact Ha|].
  apply wp_bind, wp_gets. simpl. rewrite (c_cache N _ Hc).
  set (k := Sockets.getSocketId false _ _) in *. assert (0 ≤ k < N) as Hk by apply Hc.
  apply wp_bind. eapply wp_attach; [exact Hm|]. clear m Hm. intros m Hm.
  pose proof (winv_made _ _ _ _ _ _ _ Hi Hm) as Hi1.
  pose proof (kept_made None _ _ _ _ _ _ _ Hi Hm) as Hk1.
  destruct (made_offered _ _ _ _ _ _ _ _ Hi Hm Hk) as [Hof Hh1].
  apply wp_bind, wp_bound_socket; [apply Hi1|done|].
  apply wp_bind. unfold wp at 1, call_dbg.
  destruct (transport_dbg (MultiSocket k) t (set_memory m w)) as [r w2] eqn:Hrun.
  destruct (cf_dbg _ _ _ _ _ _ Hof (made_addressed _ _ _ _ _ _ Hm Had) Hrun) as (Hpr & Hcp & Hbytes).
  destruct (after_private w _ w2 G t _ (CallDbg (MultiSocket k) t r) Hi Hk1 Hi1 Hh1
    Hpr Hcp eq_refl) as (Hi2 & Hk2 & Hh2 & _).
  pose proof Hh2 as (p & Hp & _). apply wp_bind. eapply wp_payload; [exact Hp|].
  apply wp_bind, wp_check; [apply Z.eqb_eq; symmetry; by apply Hbytes|].
  eapply (wp_release_untracked w); [done..|apply (of_new _ _ _ _ _ Hof)|exact Hh2|done].
Qed.
End handlers.
