(* ===== verification/SlavePortSpec.v ===== *)
(** * What the slave port promises

    The port as a system of steps - requests of gem5, events of its queue, calls of the target -
    and the theorems about every run in which gem5 and the target keep their side of the protocol
    ([SlaveProtocol.Conforming]). *)

From S2P Require Import Prelude StdMap Tlm Concrete MemManager BlockingHelper SocketMap Transactor.
From S2P Require Import SlavePort SlaveProtocol SlavePortProps.
Import Helper(in_order, slot, retry, view, updated, retried).
Import Port.

(** ** Steps *)

Inductive action :=
| ARequest (a : ptr)
| AAtomic (a : ptr)
| AFunctional (a : ptr)
| AEvent (pe : positive)
| ABackward (t : ptr) (ph : tlm_phase) (d : Z)
| ARespRetry.

Section system.
Context `{TlmPayloadLaws, Gem5PacketLaws} {E : Type} `{!SlaveEnv E, !Terms E}.
Context (N : Z).
Implicit Types (w : world E) (t : ptr) (act : action).

Definition run act : M (world E) unit :=
  match act with
  | ARequest a => recvTimingReq a;; mret tt
  | AAtomic a => recvAtomic a;; mret tt
  | AFunctional a => recvFunctional a
  | AEvent pe => process pe
  | ABackward t ph d => nb_transport_bw t ph d;; mret tt
  | ARespRetry => recvRespRetry
  end.

(** When the other side may do so.  gem5 acts only when it has caught up with SystemC.  It may take
    events of the same time in any order, but those of one transaction in the order of their
    notification ([first_event]); what happens otherwise is in [port_safe].  It asks for refused responses at any time, and may refuse them again. *)
Definition enabled act w : Prop :=
  match act with
  | ARequest a => caught_up w ∧ good_packet N a w
  | AAtomic a => caught_up w ∧ plain_packet a w
  | AFunctional a => functional_packet a w
  | AEvent pe => caught_up w ∧ ∃ t ph, first_event w pe t ph
  | ABackward t ph d => target_may w t ph
  | ARespRetry => caught_up w
  end.

(** A port that was bound and has done nothing yet. *)
Record initial w : Prop := {
  in_config : configured N (port w);
  in_view : view (helper w) ≡ Helper.sk_initial;
  in_memory : mm_ok (memory w);
  in_events : events w = ∅;
  in_calls : calls w = [];
}.

Definition set_time (tick sc : Z) w : world E :=
  World (port w) (memory w) (events w) (next_event w) sc tick (env w) (calls w).

Inductive reachable : world E → Prop :=
| reach_initial w : initial w → coupled ∅ (memory w) (env w) → reachable w
| reach_action w act w' : reachable w → enabled act w → run act w = (Ok tt, w') → reachable w'
| reach_other_side w w' : reachable w → private None None w w' → keeps w w' → reachable w'
| reach_time w tick sc : reachable w → reachable (set_time tick sc w).

Lemma initial_inv w : initial w → inv N None w ∅.
Proof.
  intros [Hc [Hs Hr] Hm He Hcalls]. simpl in Hs, Hr. split; try done.
  - by rewrite Hcalls.
  - intros ty k t Hsl. by rewrite Hs in Hsl.
  - intros k Hrk. by rewrite Hr in Hrk.
  - intros pe t ph (d & Hd). by rewrite He, lookup_empty in Hd.
  - intros pe. rewrite He, lookup_empty. by intros [].
Qed.

Lemma winv_set_time cur w G tick sc : winv N cur w G → winv N cur (set_time tick sc w) G.
Proof. by intros [[] ?]. Qed.

Section safe.
Context `{!Conforming N}.

(** Every enabled step keeps the invariant, if it does not fail because gem5 refuses a response again. *)
Lemma wpe_action w G act :
  winv N None w G → enabled act w →
  wpe (λ e w', act = ARespRetry ∧ refused_again w e w') (run act)
    (λ _ w', (∃ G', winv N None w' G') ∧ ∃ l, calls w' = calls w ++ l) w.
Proof.
  intros Hi Hen. destruct act; simpl in *.
  - destruct Hen as [Hcu Hg]. apply wpe_wp, wp_bind.
    eapply wp_mono; [by eapply wp_recvTimingReq|].
    intros b w' [Hk (G' & ? & _)]. apply wp_ret. split; [by exists G'|apply Hk].
  - destruct Hen as [Hcu Hg]. apply wpe_wp, wp_bind. eapply wp_recvAtomic; [done..|].
    intros d w' [Hk (G' & ? & _)]. apply wp_ret. split; [by exists G'|apply Hk].
  - apply wpe_wp. eapply wp_recvFunctional; [done..|].
    intros w' [Hk (G' & ? & _)]. split; [by exists G'|apply Hk].
  - destruct Hen as [Hcu (t & ph & Hf)]. apply wpe_wp. eapply wp_process; [done..|].
    intros w' G' ? ? _. split; [by exists G'|done].
  - apply wpe_wp, wp_bind. eapply wp_nb_transport_bw; [done..|].
    intros w' G' ? Hc. apply wp_ret. split; [by exists G'|]. eexists. exact Hc.
  - eapply (wpe_mono _ (refused_again w)); [eapply (wpe_recvRespRetry N w G); [done..|]|done|by intros ? ? HP; exact HP].
    intros w' G' ? ? _. split; [by exists G'|done].
Qed.

Lemma wp_action w G act :
  winv N None w G → enabled act w → (act = ARespRetry → willing (env w)) →
  wp (run act) (λ _ w', (∃ G', winv N None w' G') ∧ ∃ l, calls w' = calls w ++ l) w.
Proof. intros Hi Hen Hw. eapply wp_of_wpe; [by apply (wpe_action w G)|]. intros e w' [Ha [_ Hno]]. auto. Qed.

Lemma reachable_inv w : reachable w → ∃ G, winv N None w G.
Proof.
  induction 1 as [w Hw Hc|w act w' _ [G Hi] Hen Hrun|w w' _ [G Hi] Hpr Hk|w tick sc _ [G Hi]].
  - exists ∅. split; [by apply initial_inv|done].
  - pose proof (wpe_action w G act Hi Hen) as Hwp. unfold wpe in Hwp. rewrite Hrun in Hwp.
    apply Hwp.
  - exists G. by eapply winv_private.
  - exists G. by apply winv_set_time.
Qed.

(** ** Properties *)

(** What gem5 may do when it takes the scheduled events in any order. *)
Definition may act w : Prop :=
  match act with
  | AEvent pe => caught_up w ∧ ∃ t ph, scheduled w pe t ph
  | _ => enabled act w
  end.

(** BEGIN_RESP of a transaction is taken before END_REQ, which was notified first.  That succeeds, and
    END_REQ then fails an assertion. *)
Definition overtakes act w : Prop :=
  ∃ pe pe0 t w', act = AEvent pe ∧ (pe0 < pe)%positive ∧
    scheduled w pe t BEGIN_RESP ∧ scheduled w pe0 t END_REQ ∧ run act w = (Ok tt, w') ∧
    fails (run (AEvent pe0))
      (SC_ASSERT "blk_pkt_helper->isBlockingTrans(&trans, pktType::Request)") w'.

Lemma enabled_or_overtakes w G act :
  winv N None w G → may act w → enabled act w ∨ overtakes act w.
Proof.
  intros Hi Hmay. destruct act; try by left. destruct Hmay as [Hcu (t & ph & Hs)].
  destruct (first_or_not N w G pe t ph Hi Hs) as [Hf|Hnf]; [left; split; eauto|right].
  destruct (wp_process_overtaking N w G pe t ph Hi Hs Hnf Hcu) as (-> & pe0 & Hlt & Hs0 & Hwp).
  destruct (wp_Ok _ _ _ Hwp) as ([] & w' & Hrun & Hlo). exists pe, pe0, t, w'.
  do 5 (split; [done|]). by eapply left_over_fails.
Qed.


(** C8: The port keeps the base protocol: the history of every reachable state passes the monitor.
    No BEGIN_REQ is sent on a socket whose request channel is taken, and END_RESP only answers
    BEGIN_RESP; so a socket never has two transactions in its request or response channel. *)
Theorem port_keeps_protocol w :
  reachable w →
  ∃ G, monitor (calls w) = Some G ∧
    ∀ s k t t', s ≠ MWait → G !! t = Some (k, s) → G !! t' = Some (k, s) → t = t'.
Proof.
  intros Hr. destruct (reachable_inv w Hr) as [G Hi]. exists G. split; [apply Hi|].
  intros s k t t' Hs Ht Ht'. destruct s; [|done|by eapply (i_exclusive _ _ _ _ Hi)].
  destruct (i_stage _ _ _ _ Hi t k MReq Ht) as (l & _ & Hf).
  destruct (i_stage _ _ _ _ Hi t' k MReq Ht') as (l' & _ & Hf').
  unfold holding in *. simpl in *.
  assert (slot Request (helper w) k = Some t) by (inversion Hf; by eapply bool_decide_eq_true).
  assert (slot Request (helper w) k = Some t') by (inversion Hf'; by eapply bool_decide_eq_true).
  congruence.
Qed.

(** C9: No retry is lost: while the port owes gem5 a retry for a socket, that socket is taken by a
    transaction that will free it: either the target still has to answer its BEGIN_REQ, or its
    answer is waiting in the event queue. *)
Theorem no_lost_retry w k :
  reachable w → retry (helper w) k = true →
  ∃ t G, slot Request (helper w) k = Some t ∧ monitor (calls w) = Some G ∧
    (G !! t = Some (k, MReq) ∨
     ∃ pe ph, first_event w pe t ph ∧ (ph = END_REQ ∨ ph = BEGIN_RESP)).
Proof.
  intros Hr Hk. destruct (reachable_inv w Hr) as [G Hi].
  destruct (i_retry _ _ _ _ Hi k Hk) as [t Ht]. exists t, G.
  split; [done|]. split; [apply Hi|].
  destruct (i_slot _ _ _ _ Hi Request k t Ht) as [s Hs].
  destruct (i_stage _ _ _ _ Hi t k s Hs) as (l & [Hl1 Hl2] & Hf).
  unfold holding in Hf. rewrite Ht, (bool_decide_true (Some t = Some t)) in Hf by done.
  simpl in Hf. assert (s = MReq ∨ ∃ pe ph l', l = (pe, ph) :: l' ∧ (ph = END_REQ ∨ ph = BEGIN_RESP))
    as [->|(pe & ph & l' & -> & Hph)].
  { inversion Hf as [| | |Heq| |]; [by left|..]; right;
      destruct l as [|[pe ph] l']; simplify_eq/=; eauto 10. }
  - by left.
  - right. exists pe, ph. split; [|done]. split; [apply Hl2; by left|].
    intros pe' ph' Hs'. apply Hl2 in Hs'. inversion Hl1 as [|x l0 _ Hall]; subst.
    apply elem_of_cons in Hs' as [[= -> ->]|Hin]; [done|].
    rewrite Forall_forall in Hall. apply Hall in Hin. simpl in Hin. lia.
Qed.

(** A payload as the port makes them: in use, managed, with the core id of its socket and a packet. *)
Definition well_typed w t : Prop :=
  ∃ p e k, gps (st (memory w)) !! t = Some p ∧ (0 < ref_count p)%nat ∧ has_mm (attrs p) = true ∧
    get_extension (attrs p) = Some e ∧ coreId e = Some k ∧ 0 ≤ k < N ∧
    is_Some (pkts (st (memory w)) !! Packet e).

Lemma tracked_typed w G t k s : winv N None w G → G !! t = Some (k, s) → well_typed w t.
Proof.
  intros Hi Ht. destruct (i_held _ _ _ _ Hi t k s Ht) as (a & (p & Hp & Hr & He) & Hpk).
  exists p, {| Packet := a; coreId := Some k |}, k.
  split; [done|]. split; [done|]. split; [by eapply ok_mm; [apply Hi|]|].
  split; [done|]. split; [done|]. split; [apply (i_socket _ _ _ _ Hi t k s Ht)|]. by apply Hpk.
Qed.

Lemma shape_phases s x ph : shape s x → ph ∈ x.2 → ph = END_REQ ∨ ph = BEGIN_RESP.
Proof. destruct 1; simpl; rewrite ?elem_of_cons, elem_of_nil; intuition. Qed.

(** C16: No pointer of the port dangles, in every state reached while gem5 took the events of each
    transaction in the order of their notification: the transactions of its scheduled events, which are
    for END_REQ or BEGIN_RESP, and those in its slots are payloads in use with the core id of a socket and
    a packet that exists.  (When gem5 takes BEGIN_RESP first, END_REQ is left behind: see [port_safe].) *)
Theorem port_well_typed w :
  reachable w →
  (∀ pe t ph, scheduled w pe t ph → (ph = END_REQ ∨ ph = BEGIN_RESP) ∧ well_typed w t) ∧
  (∀ ty k t, slot ty (helper w) k = Some t → well_typed w t).
Proof.
  intros Hr. destruct (reachable_inv w Hr) as [G Hi]. split.
  - intros pe t ph Hs. destruct (i_events _ _ _ _ Hi pe t ph Hs) as [[k s] Ht].
    split; [|by eapply tracked_typed].
    destruct (i_stage _ _ _ _ Hi t k s Ht) as (l & [_ Hl] & Hf).
    apply Hl, (list_elem_of_fmap_2 snd) in Hs. simpl in Hs.
    by eapply shape_phases.
  - intros ty k t Hs. destruct (i_slot _ _ _ _ Hi ty k t Hs) as [s Ht]. by eapply tracked_typed.
Qed.

(** When that event is processed, gem5 is told to retry. *)
Theorem retry_is_sent w k t pe ph :
  reachable w → caught_up w → first_event w pe t ph →
  slot Request (helper w) k = Some t → retry (helper w) k = true →
  ∃ w' l, process pe w = (Ok tt, w') ∧ calls w' = calls w ++ CallSendRetryReq :: l.
Proof.
  intros Hr Hcu Hf Hs Hk. destruct (reachable_inv w Hr) as [G Hi].
  destruct (wp_Ok _ _ _ (wp_process N w G pe t ph
    (λ _ w', ∃ l, calls w' = calls w ++ CallSendRetryReq :: l) Hi Hf Hcu
    (λ w' G' _ _ Hsent, Hsent k Hs Hk))) as ([] & w' & Hrun & l & Hl).
  by exists w', l.
Qed.

(** C12: A request is taken exactly when its socket is free.  Taken, it is sent to the target at once as
    BEGIN_REQ with the packet's payload delay; refused, only the retry of its socket is noted. *)
Theorem request_outcomes w a pkt :
  reachable w → caught_up w → pkts (st (memory w)) !! a = Some pkt →
  cacheResponding pkt = false → (isRead pkt || isWrite pkt) = true → 0 ≤ socket_of w pkt < N →
  addressable (socket_of w pkt) (getAddr pkt) →
  ∃ b w', recvTimingReq a w = (Ok b, w') ∧ request_outcome w pkt b w'.
Proof.
  intros Hr Hcu Ha Hcr Hrw Hs Had. destruct (reachable_inv w Hr) as [G Hi].
  destruct (wp_Ok _ _ _ (wp_recvTimingReq_outcome N None w G a pkt Hi Hcu Ha Hcr Hrw Hs Had))
    as (b & w' & Hrun & _ & Ho).
  by exists b, w'.
Qed.

(** C18: When gem5 takes responses again, one call sends and completes every response it refused; the
    loop ends, and no response slot stays occupied. *)
Theorem responses_drained w :
  reachable w → caught_up w → willing (env w) →
  ∃ w', recvRespRetry w = (Ok tt, w') ∧ ∀ k, slot Response (helper w') k = None.
Proof.
  intros Hr Hcu Hw. destruct (reachable_inv w Hr) as [G Hi].
  destruct (wp_Ok _ _ _ (wp_recvRespRetry N w G
    (λ _ w', ∀ k, slot Response (helper w') k = None) Hi Hcu Hw (λ w' G' _ _ Hk, Hk)))
    as ([] & w' & Hrun & Hk).
  by exists w'.
Qed.
End safe.
End system.

(** ** Binding *)

Section binding.
Context `{TlmPayloadLaws, Gem5PacketLaws} {E : Type} `{!SlaveEnv E}.
Implicit Types (w : world E).

(** A new port whose CPUs were registered as [M], in a world where nothing has happened. *)
Record unbound (M : stdmap string (list Z)) w : Prop := {
  ub_port : ∃ u m, port w = set_sockets (Sockets.registered M) (SCSlavePort_new u m);
  ub_memory : mm_ok (memory w);
  ub_events : events w = ∅;
  ub_calls : calls w = [];
}.

(** Binding a new port to a transactor that has a socket for each CPU, and no configuration of its
    own, makes a port with one socket per CPU that is ready to be used. *)
Lemma bind_makes_ready M m w :
  unbound M w → M ≠ [] → Z.of_nat (length M) < 2 ^ 32 - 1 →
  Z.of_nat (length M) ≤ Transactor.socket_num m → Transactor.socket_core_map m = [] →
  ∃ w', bindToTransactor_Multi m w = (Ok tt, w') ∧ initial (Z.of_nat (length M)) w' ∧
    sockets (port w') = Sockets.initSocketMap (Some []) (Sockets.registered M).
Proof.
  intros [(u & um & Hp) Hm He Hc] HM Hlen Hnum Hcfg.
  set (n := Z.of_nat (length M)) in *.
  pose proof (λ id, Sockets.default_sockets M id ltac:(lia)) as Hds.
  assert (Z.of_nat (length (Sockets.socket_map
    (Sockets.initSocketMap (Some []) (Sockets.registered M)))) = n) as Hlen'.
  { destruct (Hds 0) as (-> & _). unfold Sockets.numbered.
    rewrite length_zip_with, length_seqZ, Nat2Z.id, Nat.min_id. unfold sm_values.
    by rewrite length_fmap. }
  destruct (Helper.init_ready n u ltac:(lia)) as (h & Hinit & Ho & Hv).
  assert (Helper.setUsingGem5Cache false (Helper.BlockingPacketHelper_new u) =
    Helper.BlockingPacketHelper_new u) as Hset by done.
  eexists. split.
  - unfold bindToTransactor_Multi, mbind, M_bind, gets, modify, check, zoom. simpl. rewrite Hp.
    simpl. rewrite Hp. simpl. unfold Transactor.getSocketCoreMap, Transactor.isUsingGem5Cache.
    rewrite Hcfg, Hset. simpl in Hlen'. cbn [Sockets.socket_map].
    rewrite Hlen', (wrap32_small n) by (split; lia). rewrite Hinit. reflexivity.
  - split; [|simpl; by rewrite Hp, Hcfg]. split; simpl; rewrite ?Hp; simpl; try done. split; simpl; try done.
    + by exists m.
    + intros id. rewrite Hcfg. destruct (Hds id) as (_ & _ & Hr). rewrite <- Hlen'. by apply Hr.
Qed.
End binding.

(** ** Where the port fails *)

Section failures.
Context `{TlmPayloadLaws, Gem5PacketLaws} {E : Type} `{!SlaveEnv E}.
Implicit Types (w : world E) (t : ptr).

(** A target may answer BEGIN_REQ by TLM_UPDATED with END_REQ, and the port takes that answer.  But
    the transaction is in no request slot then, so the event that the port schedules for it fails
    an assertion. *)
Theorem early_end_req_fails N w k t d :
  in_order N (helper w) → (∀ k', slot Request (helper w) k' ≠ Some t) →
  blockingRequest (port w) ≠ Some t →
  ∃ w', after_begin_req k t (TLM_UPDATED, END_REQ, d) w = (Ok tt, w') ∧
    fails (process (next_event w))
      (SC_ASSERT "blk_pkt_helper->isBlockingTrans(&trans, pktType::Request)") w'.
Proof.
  intros Ho Hs Hb.
  assert (wp (after_begin_req k t (TLM_UPDATED, END_REQ, d)) (λ _ w', notified w t END_REQ w') w)
    as Hwp.
  { unfold after_begin_req. apply wp_bind, wp_check; [done|]. by apply wp_notify. }
  destruct (wp_Ok _ _ _ Hwp) as ([] & w' & Hrun & Hn). exists w'. split; [done|].
  destruct (nt_new _ _ _ _ Hn) as (dl & He). pose proof (nt_port _ _ _ _ Hn) as Hp.
  eapply stray_end_req_fails; rewrite ?Hp; done.
Qed.

(** A port bound to a transactor with a single socket never sets up its helper: it fails on every
    timing request that reaches the helper. *)
Theorem single_socket_fails w w' a pkt u m :
  port w = SCSlavePort_new u m → bindToTransactor w = (Ok tt, w') →
  caught_up w → pkts (st (memory w)) !! a = Some pkt → cacheResponding pkt = false →
  (isRead pkt || isWrite pkt) = true →
  ∃ e, fails (recvTimingReq a) e w'.
Proof.
  intros Hp Hbind Hcu Ha Hcr Hrw.
  unfold bindToTransactor, mbind, M_bind, gets, check, modify in Hbind. rewrite Hp in Hbind.
  simpl in Hbind. injection Hbind as <-. unfold fails, recvTimingReq, CAUGHT_UP.
  erewrite bind_Ok by (erewrite bind_Ok by done; unfold check;
    rewrite (proj2 (Z.eqb_eq _ _)) by exact Hcu; done).
  erewrite bind_Ok by (unfold zoom, pkt_at; simpl; by rewrite Ha).
  rewrite Hcr, Hrw. erewrite !bind_Ok by done. simpl. rewrite Hp. simpl.
  erewrite bind_Ok by done. erewrite bind_Ok by done. cbv zeta. simpl.
  destruct (Helper.uninitialised_helper_fails u (request_socket pkt
    (Sockets.getSocketId false (requestorId pkt) Sockets.cpu_sockets_new)) None Request)
    as [_ (e & He)].
  exists e. apply fails_bind, fails_zoom. simpl. rewrite Hp. exact He.
Qed.
End failures.

(** ** A conforming environment, and witnesses

    The target accepts every request and answers later; the state of the other side is whether
    gem5 takes responses. *)

#[local] Instance calm : SlaveEnv bool := {
  nb_transport_fw _ _ ph d w := ((TLM_ACCEPTED, ph, d), w);
  b_transport _ _ d w := (d, w);
  transport_dbg _ t w :=
    (match gps (st (memory w)) !! t with Some p => get_data_length p | None => 0 end, w);
  sendTimingResp _ w := (env w, w);
  sendRetryReq w := w;
}.

(** gem5 uses every address on every socket, and the target keeps nothing. *)
#[local] Instance calm_terms : Terms bool := {
  addressable _ _ := True;
  willing b := b = true;
  coupled _ _ _ := True;
}.

Lemma private_refl extra gone (w : world bool) : private extra gone w w.
Proof. by split. Qed.

#[local] Instance calm_conforming N : Conforming N.
Proof.
  split; intros; simpl in *; simplify_eq; try done; try (split; [apply private_refl|done]).
  - constructor.
  - split; [constructor|done].
  - split; [apply private_refl|]. split; [done|]. intros p ->. done.
Qed.

Definition cpus2 : stdmap string (list Z) := [("cpu0"%string, [5]); ("cpu1"%string, [6])].
Definition transactor2 : Transactor.Gem5SlaveTransactor_Multi :=
  {| Transactor.socket_core_map := []; Transactor.portName := "port"; Transactor.socket_num := 2;
     Transactor.count := 2; Transactor.sockets := ["port0"; "port1"]%string |}.

(** Two reads of one CPU and a write of the other. *)
Definition memory2 : mem :=
  Mem MemoryManager_new
    (Store ∅ {[ 1%positive := read_request 5 64 8; 2%positive := read_request 5 128 8;
                3%positive := write_request 6 256 4 ]} 10).

Definition world_unbound : world bool :=
  World (set_sockets (Sockets.registered cpus2) (SCSlavePort_new (-7) None)) memory2 ∅ 1 0 0 true [].
Definition world_bound : world bool := snd (bindToTransactor_Multi transactor2 world_unbound).

Lemma memory2_ok : mm_ok memory2.
Proof.
  split; simpl; try done; try constructor; simpl; try done; try set_solver.
  intros a p. rewrite !lookup_insert_Some, lookup_singleton_Some. intuition (subst; lia).
Qed.

Lemma world_unbound_ok : unbound cpus2 world_unbound.
Proof. split; try done; [by eexists _, _|apply memory2_ok]. Qed.


Lemma world_bound_initial : initial 2 world_bound.
Proof.
  unfold world_bound. destruct (bind_makes_ready cpus2 transactor2 _ world_unbound_ok)
    as (w' & -> & Hw' & _); done.
Qed.

Definition after (act : action) (w : world bool) : world bool := snd (run act w).
Abbreviation reached := (@reachable _ _ bool _ _ 2).

Lemma port_reach_after act w :
  reached w → enabled 2 act w → fst (run act w) = Ok tt → reached (after act w).
Proof.
  intros Hw Hen Hrun. eapply reach_action; [done..|]. unfold after.
  destruct (run act w) as [r w']. simpl in *. by subst.
Qed.

(** A CPU sends two requests; the first takes the socket, the second is refused. *)
Definition world_busy : world bool := after (ARequest 2) (after (ARequest 1) world_bound).
(** The payload of the first request. *)
Definition payload1 : ptr := 10%positive.
Definition world_answered : world bool := after (ABackward payload1 END_REQ 0) world_busy.

Lemma good_request a (w : world bool) pkt :
  pkts (st (memory w)) !! a = Some pkt →
  negb (cacheResponding pkt) && (isRead pkt || isWrite pkt) && (0 <=? socket_of w pkt) &&
    (socket_of w pkt <? 2) = true →
  good_packet 2 a w.
Proof.
  intros Ha Hg. exists pkt. split; [done|].
  apply andb_prop in Hg as [[[Hc Hr]%andb_prop Hl]%andb_prop Hu].
  apply negb_true_iff in Hc. apply Z.leb_le in Hl. apply Z.ltb_lt in Hu. by repeat split.
Qed.

Lemma world_bound_reached : reached world_bound.
Proof. by apply reach_initial; [apply world_bound_initial|]. Qed.

Lemma busy1_reached : reached (after (ARequest 1) world_bound).
Proof.
  apply port_reach_after; [apply world_bound_reached| |vm_compute; reflexivity].
  split; [vm_compute; reflexivity|].
  apply (good_request _ _ (read_request 5 64 8)); vm_compute; reflexivity.
Qed.

Lemma world_busy_reached : reached world_busy.
Proof.
  apply port_reach_after; [apply busy1_reached| |vm_compute; reflexivity].
  split; [vm_compute; reflexivity|].
  apply (good_request _ _ (read_request 5 128 8)); vm_compute; reflexivity.
Qed.

Lemma may_backward (w : world bool) t ph G :
  monitor (calls w) = Some G → (∀ d, is_Some (mon_step G (CallBw t ph d))) → target_may w t ph.
Proof. intros HG Hs G' d HG' _. simplify_eq. destruct (Hs d) as [G2 ?]. by exists G2. Qed.

Lemma world_answered_reached : reached world_answered.
Proof.
  apply port_reach_after; [apply world_busy_reached| |vm_compute; reflexivity].
  eapply may_backward; [vm_compute; reflexivity|]. intros d. by eexists.
Qed.

(** The first of the events. *)
Lemma first_event_1 (w : world bool) t ph : scheduled w 1 t ph → first_event w 1 t ph.
Proof. intros Hs. split; [done|]. intros. lia. Qed.

Lemma world_answered_event : first_event world_answered 1 payload1 END_REQ.
Proof. apply first_event_1. eexists. vm_compute. reflexivity. Qed.

(** END_REQ and BEGIN_RESP of a transaction are due at the same time.  gem5 handles the events of one tick and
    priority last in, first out: it takes BEGIN_RESP first, which frees the request slot and ends the
    transaction, and the event for END_REQ then fails an assertion. *)
Definition world_raced : world bool := after (ABackward payload1 BEGIN_RESP 0) world_answered.

Lemma world_raced_reached : reached world_raced.
Proof.
  apply port_reach_after; [apply world_answered_reached| |vm_compute; reflexivity].
  eapply may_backward; [vm_compute; reflexivity|]. intros d. by eexists.
Qed.

Example overtaken_end_req_fails :
  events world_raced = {[ 1%positive := {| pe_t := Some (payload1, END_REQ); pe_when := Some 0 |};
                          2%positive := {| pe_t := Some (payload1, BEGIN_RESP); pe_when := Some 0 |} ]} ∧
  fst (run (AEvent 2) world_raced) = Ok tt ∧
  fails (run (AEvent 1)) (SC_ASSERT "blk_pkt_helper->isBlockingTrans(&trans, pktType::Request)")
    (after (AEvent 2) world_raced).
Proof. vm_compute. done. Qed.

(** gem5 refuses the response of a request, and then takes responses again. *)
Definition set_env (b : bool) (w : world bool) : world bool :=
  World (port w) (memory w) (events w) (next_event w) (sc_time_stamp w) (curTick w) b (calls w).
Definition world_refusing : world bool := after (ARequest 1) (set_env false world_bound).
Definition world_response : world bool := after (ABackward payload1 BEGIN_RESP 0) world_refusing.
Definition world_refused : world bool := set_env true (after (AEvent 1) world_response).

Lemma reach_set_env b w : reached w → reached (set_env b w).
Proof. intros Hw. by eapply reach_other_side; [done| |]. Qed.

Lemma world_response_reached : reached world_response.
Proof.
  apply port_reach_after; [apply port_reach_after; [apply reach_set_env, world_bound_reached| |]| |].
  - split; [vm_compute; reflexivity|].
    apply (good_request _ _ (read_request 5 64 8)); vm_compute; reflexivity.
  - vm_compute; reflexivity.
  - eapply may_backward; [vm_compute; reflexivity|]. intros d. by eexists.
  - vm_compute; reflexivity.
Qed.

Lemma world_refused_reached : reached world_refused.
Proof.
  apply reach_set_env, port_reach_after; [apply world_response_reached| |vm_compute; reflexivity].
  split; [vm_compute; reflexivity|]. exists payload1, BEGIN_RESP. apply first_event_1.
  eexists. vm_compute. reflexivity.
Qed.


Lemma port_keeps_protocol_witness :
  ∃ G, monitor (calls world_busy) = Some G ∧ G !! payload1 = Some (0, MReq).
Proof.
  destruct (port_keeps_protocol 2 world_busy world_busy_reached) as (G & HG & _).
  exists G. split; [done|].
  assert (monitor (calls world_busy) = Some {[payload1 := (0, MReq)]}) as HG'
    by (vm_compute; reflexivity).
  rewrite HG in HG'. injection HG' as ->. reflexivity.
Defined.

Lemma port_well_typed_witness :
  (∃ pe ph, scheduled world_answered pe payload1 ph) ∧ well_typed 2 world_answered payload1.
Proof.
  destruct (port_well_typed 2 world_answered world_answered_reached) as [Hev _].
  pose proof (proj1 world_answered_event) as Hs. split; [by eexists _, _|]. by eapply Hev.
Defined.

Lemma no_lost_retry_witness :
  ∃ t, slot Request (helper world_busy) 0 = Some t.
Proof.
  destruct (no_lost_retry 2 world_busy 0 world_busy_reached) as (t & _ & Ht & _);
    [vm_compute; reflexivity|by exists t].
Defined.

Lemma retry_is_sent_witness :
  ∃ w' l, process 1 world_answered = (Ok tt, w') ∧
    calls w' = calls world_answered ++ CallSendRetryReq :: l.
Proof.
  apply (retry_is_sent 2 world_answered 0 payload1 1 END_REQ world_answered_reached);
    [vm_compute; reflexivity|apply world_answered_event|vm_compute; reflexivity..].
Defined.

Lemma request_outcomes_witness :
  ∃ b w', recvTimingReq 3 world_busy = (Ok b, w') ∧
    request_outcome world_busy (write_request 6 256 4) b w'.
Proof.
  apply (request_outcomes 2 world_busy 3 (write_request 6 256 4) world_busy_reached);
    try (vm_compute; reflexivity).
  split; vm_compute; [discriminate|reflexivity].
Defined.

Lemma responses_drained_witness :
  slot Response (helper world_refused) 0 = Some payload1 ∧
  ∃ w', recvRespRetry world_refused = (Ok tt, w') ∧ ∀ k, slot Response (helper w') k = None.
Proof.
  split; [vm_compute; reflexivity|].
  apply (responses_drained 2 world_refused world_refused_reached);
    vm_compute; reflexivity.
Defined.

Lemma early_end_req_fails_witness :
  ∃ w', after_begin_req 0 payload1 (TLM_UPDATED, END_REQ, 5) world_bound = (Ok tt, w') ∧
    fails (process 1) (SC_ASSERT "blk_pkt_helper->isBlockingTrans(&trans, pktType::Request)") w'.
Proof.
  apply (early_end_req_fails 2 world_bound 0 payload1 5).
  - apply (c_helper 2 _ (in_config 2 _ world_bound_initial)).
  - intros k. change (Helper.v_slot (view (helper world_bound)) Request k ≠ Some payload1).
    by rewrite (proj1 (in_view 2 _ world_bound_initial)).
  - vm_compute. discriminate.
Defined.

Definition world_single : world bool :=
  World (SCSlavePort_new 0 None) memory2 ∅ 1 0 0 true [].

Lemma single_socket_fails_witness :
  ∃ e, fails (recvTimingReq 1) e (snd (bindToTransactor world_single)).
Proof.
  apply (single_socket_fails world_single _ 1 (read_request 5 64 8) 0 None);
    vm_compute; reflexivity.
Defined.
