(* ===== verification/TxnRouter.v ===== *)
(** * TxnRouter: txn_router.h

    The module between a transactor and the memory: it answers BEGIN_REQ by END_REQ, forwards the
    transaction to memory in a thread, and sends BEGIN_RESP.  The second half of the file has the
    monitor of its history, its invariant and its theorems.

    The SystemC kernel is a sequence of steps: it delivers an entry of the payload event queue, or
    wakes the thread when [target_done_event] is due.  The thread runs in two steps, because the
    memory's [b_transport] may suspend it.  The messages printed with [debug] are left out. *)

From S2P Require Import Prelude Tlm Concrete MemManager.

Module Router.

Record TxnRouter := {
  transaction_in_progress : option ptr;
  response_in_progress : bool;
  next_response_pending : option ptr;
  end_req_pending : option ptr;
  mem_start_addr : Z;
  mem_size : Z;
}.

Definition TxnRouter_new (mem_start_addr mem_size : Z) : TxnRouter :=
  {| transaction_in_progress := None; response_in_progress := false;
     next_response_pending := None; end_req_pending := None;
     mem_start_addr := mem_start_addr; mem_size := mem_size |}.

Definition set_in_progress (v : option ptr) (r : TxnRouter) : TxnRouter :=
  {| transaction_in_progress := v; response_in_progress := response_in_progress r;
     next_response_pending := next_response_pending r; end_req_pending := end_req_pending r;
     mem_start_addr := mem_start_addr r; mem_size := mem_size r |}.
Definition set_response (v : bool) (r : TxnRouter) : TxnRouter :=
  {| transaction_in_progress := transaction_in_progress r; response_in_progress := v;
     next_response_pending := next_response_pending r; end_req_pending := end_req_pending r;
     mem_start_addr := mem_start_addr r; mem_size := mem_size r |}.
Definition set_next_response (v : option ptr) (r : TxnRouter) : TxnRouter :=
  {| transaction_in_progress := transaction_in_progress r;
     response_in_progress := response_in_progress r;
     next_response_pending := v; end_req_pending := end_req_pending r;
     mem_start_addr := mem_start_addr r; mem_size := mem_size r |}.
Definition set_end_req (v : option ptr) (r : TxnRouter) : TxnRouter :=
  {| transaction_in_progress := transaction_in_progress r;
     response_in_progress := response_in_progress r;
     next_response_pending := next_response_pending r; end_req_pending := v;
     mem_start_addr := mem_start_addr r; mem_size := mem_size r |}.

(** Where [execute_transaction_process] is: at [wait], or in the memory's [b_transport]. *)
Inductive thread := Waiting | Executing (t : ptr).

(** What goes through the sockets, with the answers. *)
Inductive rcall :=
| RFw (t : ptr) (ph : tlm_phase)
| RBw (t : ptr) (ph : tlm_phase) (status : tlm_sync_enum) (ph' : tlm_phase)
| RMem (t : ptr)     (* the thread's access to memory *)
| RBlock (t : ptr)   (* a blocking access to memory *)
| RBus (t : ptr)
| RDbg (t : ptr).

(** [sc_time(n, SC_NS)], at the default resolution of a picosecond. *)
Definition sc_ns (n : Z) : Z := 1000 * n.

Section router.
Context `{TlmPayload, Gem5Packet} {E : Type}.

(** [m_peq] is the list of its entries, each with the time it is due. *)
Record world := World {
  router : TxnRouter;
  memory : mem;
  m_peq : list (ptr * tlm_phase * Z);
  target_done_event : option Z;
  process : thread;
  now : Z;
  env : E;
  history : list rcall;
}.

Definition set_router (f : TxnRouter → TxnRouter) (w : world) : world :=
  World (f (router w)) (memory w) (m_peq w) (target_done_event w) (process w) (now w) (env w)
    (history w).
Definition set_memory (m : mem) (w : world) : world :=
  World (router w) m (m_peq w) (target_done_event w) (process w) (now w) (env w) (history w).
Definition set_peq (q : list (ptr * tlm_phase * Z)) (w : world) : world :=
  World (router w) (memory w) q (target_done_event w) (process w) (now w) (env w) (history w).
Definition set_done (e : option Z) (w : world) : world :=
  World (router w) (memory w) (m_peq w) e (process w) (now w) (env w) (history w).
Definition set_process (p : thread) (w : world) : world :=
  World (router w) (memory w) (m_peq w) (target_done_event w) p (now w) (env w) (history w).
Definition log_call (c : rcall) (w : world) : world :=
  World (router w) (memory w) (m_peq w) (target_done_event w) (process w) (now w) (env w)
    (history w ++ [c]).

(** What the router calls: the initiator behind [tsock], the memory and the bus. *)
Class RouterEnv := {
  nb_transport_bw : ptr → tlm_phase → Z → world → (tlm_sync_enum * tlm_phase * Z) * world;
  mem_b_transport : ptr → Z → world → Z * world;
  bus_b_transport : ptr → Z → world → Z * world;
  bus_transport_dbg : ptr → world → Z * world;
}.
End router.
Arguments world {_ _} E.
Arguments RouterEnv {_ _} E.

Abbreviation on_memory c := (zoom memory set_memory c).
Abbreviation on_store c :=
  (zoom (λ w, st (memory w)) (λ s w, set_memory (Mem (mgr (memory w)) s) w) c).

Section functions.
Context `{TlmPayload, Gem5Packet} {E : Type} `{!RouterEnv E}.
Abbreviation MR := (M (world E)).

Definition call_bw (t : ptr) (ph : tlm_phase) (delay : Z) : MR (tlm_sync_enum * tlm_phase * Z) :=
  λ w, let '(r, w') := nb_transport_bw t ph delay w in
       (Ok r, log_call (RBw t ph r.1.1 r.1.2) w').
Definition call_mem (c : rcall) (t : ptr) (delay : Z) : MR Z := λ w,
  let '(d, w') := mem_b_transport t delay (log_call c w) in (Ok d, w').
Definition call_bus (t : ptr) (delay : Z) : MR Z := λ w,
  let '(d, w') := bus_b_transport t delay (log_call (RBus t) w) in (Ok d, w').
Definition call_dbg (t : ptr) : MR Z := λ w,
  let '(n, w') := bus_transport_dbg t (log_call (RDbg t) w) in (Ok n, w').

(** [m_peq.notify] and [target_done_event.notify]: an event keeps the earlier of two times. *)
Definition peq_notify (t : ptr) (ph : tlm_phase) (delay : Z) : MR unit :=
  modify (λ w, set_peq (m_peq w ++ [(t, ph, now w + delay)]) w).
Definition done_notify (delay : Z) : MR unit :=
  modify (λ w, set_done (Some match target_done_event w with
                              | Some d => Z.min d (now w + delay)
                              | None => now w + delay
                              end) w).

(** [ToMem]: the end of the range is a 64-bit sum. *)
Definition in_range (r : TxnRouter) (addr : Z) : bool :=
  if addr <? mem_start_addr r then false
  else if wrap64 (mem_start_addr r + mem_size r) <=? addr then false
  else true.
Definition ToMem (t : ptr) : MR bool :=
  p ← on_store (gp_at t);
  r ← gets router;
  mret (in_range r (get_address (attrs p))).

Definition b_transport (t : ptr) (delay : Z) : MR Z :=
  to_mem ← ToMem t;
  if (to_mem : bool)
  then d ← call_mem (RBlock t) t delay; on_store (gp_do t (set_response_status TLM_OK_RESPONSE));; mret d
  else call_bus t delay.

Definition out_of_range : error := SC_FATAL "TXN_ROUTER" "Address out of range. Please check".

Definition transport_dbg (t : ptr) : MR Z :=
  to_mem ← ToMem t;
  if (to_mem : bool) then call_dbg t else fail out_of_range.

Definition nb_transport_fw (t : ptr) (ph : tlm_phase) (delay : Z) :
    MR (tlm_sync_enum * tlm_phase * Z) :=
  modify (log_call (RFw t ph));;
  to_mem ← ToMem t;
  (if (to_mem : bool) then peq_notify t ph delay else fail out_of_range);;
  mret (TLM_ACCEPTED, ph, delay).

Definition nb_transport_bw_resp (t : ptr) (ph : tlm_phase) (delay : Z) :
    MR (tlm_sync_enum * tlm_phase * Z) :=
  mret (TLM_ACCEPTED, ph, delay).

Definition send_end_req (t : ptr) : MR unit :=
  answer ← call_bw t END_REQ (sc_ns 10);
  done_notify (answer.2 + sc_ns 15);;
  r ← gets router;
  check match transaction_in_progress r with None => true | Some _ => false end
    (ASSERT "transaction_in_progress == 0");;
  modify (set_router (set_in_progress (Some t))).

Definition send_response (t : ptr) : MR unit :=
  modify (set_router (set_response true));;
  answer ← call_bw t BEGIN_RESP (sc_ns 10);
  let '(status, ph, delay) := answer in
  match status with
  | TLM_UPDATED => peq_notify t ph delay
  | TLM_COMPLETED =>
      modify (set_router (set_in_progress None));; modify (set_router (set_response false))
  | TLM_ACCEPTED => mret tt
  end;;
  on_memory (release t).

Definition illegal_phase (what : string) : error := SC_FATAL "TxnRouter" what.

Definition peq_cb (t : ptr) (ph : tlm_phase) : MR unit :=
  match ph with
  | BEGIN_REQ =>
      on_store (acquire t);;
      r ← gets router;
      match transaction_in_progress r with
      | None => send_end_req t
      | Some _ => modify (set_router (set_end_req (Some t)))
      end
  | END_RESP =>
      r ← gets router;
      check (response_in_progress r) (illegal_phase "Illegal transaction phase END RESP");;
      modify (set_router (set_in_progress None));;
      modify (set_router (set_response false));;
      r ← gets router;
      match next_response_pending r with
      | Some p => send_response p;; modify (set_router (set_next_response None))
      | None => mret tt
      end;;
      r ← gets router;
      match end_req_pending r with
      | Some p => send_end_req p;; modify (set_router (set_end_req None))
      | None => mret tt
      end
  | _ => fail (illegal_phase "Illegal transaction phase")
  end.

(** The kernel delivers the [i]-th entry of the queue. *)
Definition peq_deliver (i : nat) : MR unit :=
  q ← gets m_peq;
  e ← lift_option (q !! i) (UNDEFINED "m_peq");
  modify (set_peq (delete i q));;
  peq_cb e.1.1 e.1.2.

(** [execute_transaction_process], from [wait] to the call of [b_transport] in
    [execute_transaction].  A notification that comes while the thread is not waiting is lost. *)
Definition execute_begin : MR unit :=
  modify (set_done None);;
  p ← gets process;
  match p with
  | Executing _ => mret tt
  | Waiting =>
      r ← gets router;
      t ← lift_option (transaction_in_progress r) (UNDEFINED "*transaction_in_progress");
      call_mem (RMem t) t (sc_ns 10);;
      modify (set_process (Executing t))
  end.

(** The rest of the loop's body, once [b_transport] has returned. *)
Definition execute_end : MR unit :=
  p ← gets process;
  match p with
  | Waiting => mret tt
  | Executing t =>
      on_store (gp_do t (set_response_status TLM_OK_RESPONSE));;
      r ← gets router;
      (if response_in_progress r
       then
         check match next_response_pending r with None => true | Some _ => false end
           (SC_FATAL "TLM-2" "Attempt to have two pending responses in target");;
         modify (set_router (set_next_response (transaction_in_progress r)))
       else
         p ← lift_option (transaction_in_progress r) (UNDEFINED "*transaction_in_progress");
         send_response p);;
      modify (set_process Waiting)
  end.
End functions.
End Router.
