(* ===== verification/TxnRouterProps.v ===== *)
(** * Theorems about the router

    A monitor of the router's history, what it relies on, its invariant, and the theorems. *)

From S2P Require Import Prelude Tlm Concrete MemManager TxnRouter.
Import Router.

(** ** The pipeline

    Where the transaction is that was answered by END_REQ last: [Accepted] until it goes to memory,
    [Executed] until BEGIN_RESP, [Answered] until END_RESP, then [Ended]. *)
Inductive rstage := Accepted | Executed | Answered | Ended.

#[export] Instance rstage_eq_dec : EqDecision rstage.
Proof. solve_decision. Defined.

(** The request that has no END_REQ yet, and the transaction after END_REQ. *)
Abbreviation pipeline := (option ptr * option (ptr * rstage))%type.

Definition idle_pipeline (cur : option (ptr * rstage)) : bool :=
  match cur with None | Some (_, Ended) => true | _ => false end.

(** Transaction [t] is between END_REQ and END_RESP. *)
Definition in_flight (t : ptr) (cur : option (ptr * rstage)) : bool :=
  match cur with None | Some (_, Ended) => false | Some (t', _) => bool_decide (t = t') end.

(** One call; [None] where a call comes out of order. *)
Definition pipeline_step (s : pipeline) (c : rcall) : option pipeline :=
  let '(req, cur) := s in
  match c with
  | RFw t BEGIN_REQ => when (bool_decide (req = None) && negb (in_flight t cur)) (Some (Some t, cur))
  | RFw t END_RESP => when (bool_decide (cur = Some (t, Answered))) (Some (req, Some (t, Ended)))
  | RFw _ _ => None
  | RBw t END_REQ _ _ =>
      when (bool_decide (req = Some t) && idle_pipeline cur) (Some (None, Some (t, Accepted)))
  | RMem t => when (bool_decide (cur = Some (t, Accepted))) (Some (req, Some (t, Executed)))
  | RBw t BEGIN_RESP status ph =>
      when (bool_decide (cur = Some (t, Executed)))
      match status with
      | TLM_ACCEPTED => Some (req, Some (t, Answered))
      | TLM_UPDATED => when (bool_decide (ph = END_RESP)) (Some (req, Some (t, Ended)))
      | TLM_COMPLETED => Some (req, Some (t, Ended))
      end
  | RBw _ _ _ _ => None
  | RBlock _ | RBus _ | RDbg _ => Some s
  end.

Definition pipeline_of (l : list rcall) : option pipeline :=
  foldl (λ o c, o ≫= λ s, pipeline_step s c) (Some (None, None)) l.

Lemma pipeline_snoc l c : pipeline_of (l ++ [c]) = pipeline_of l ≫= λ s, pipeline_step s c.
Proof. unfold pipeline_of. by rewrite foldl_app. Qed.

(** ** Invariant *)

(** The router's registers, the thread and the END_RESP entries of the queue, by where the current
    transaction is. *)
Inductive current_ok : option (ptr * rstage) → option ptr → bool → bool → thread →
    list (ptr * tlm_phase) → Prop :=
| ok_idle cur : idle_pipeline cur = true → current_ok cur None false false Waiting []
| ok_accepted t : current_ok (Some (t, Accepted)) (Some t) false true Waiting []
| ok_executed t : current_ok (Some (t, Executed)) (Some t) false false (Executing t) []
| ok_answered t : current_ok (Some (t, Answered)) (Some t) true false Waiting []
| ok_ended t : current_ok (Some (t, Ended)) (Some t) true false Waiting [(t, END_RESP)].

(** [end_req_pending] and the BEGIN_REQ entries of the queue, by the open request. *)
Inductive request_ok (busy : bool) : option ptr → option ptr → list (ptr * tlm_phase) → Prop :=
| ok_none : request_ok busy None None []
| ok_queued t : request_ok busy (Some t) None [(t, BEGIN_REQ)]
| ok_pending t : busy = true → request_ok busy (Some t) (Some t) [].

(** The transactions the router has a reference to, or will take one of. *)
Definition in_use (s : pipeline) (t : ptr) : Prop :=
  s.1 = Some t ∨ s.2 = Some (t, Accepted) ∨ s.2 = Some (t, Executed).

(** Of these, those it has a reference to. *)
Definition references (pending : option ptr) (cur : option (ptr * rstage)) : list ptr :=
  match cur with
  | Some (t, Accepted) | Some (t, Executed) => [t]
  | _ => []
  end ++ option_list pending.

(** What the other side keeps of the pipeline and of the references the router has. *)
Class Client `{TlmPayload, Gem5Packet} (E : Type) :=
  credit : pipeline → list ptr → mem → E → Prop.

(** How much a router still has to do for its transactions: a bound on its own steps, on the phases
    it sends, and on the entries that come to its queue. *)
Definition pipeline_load (s : pipeline) : nat :=
  (match s.1 with Some _ => 9 | None => 0 end +
   match s.2 with
   | Some (_, Accepted) => 7
   | Some (_, Executed) => 6
   | Some (_, Answered) => 4
   | _ => 0
   end)%nat.

(** How many phases it has sent. *)
Definition is_bw (c : rcall) : bool := match c with RBw _ _ _ _ => true | _ => false end.
Definition sent (l : list rcall) : nat := length (filter (λ c, is_bw c) l).

Lemma sent_snoc l c : sent (l ++ [c]) = (sent l + sent [c])%nat.
Proof. unfold sent. by rewrite filter_app, length_app. Qed.

Lemma idle_load o cur : idle_pipeline cur = true → pipeline_load (o, cur) = pipeline_load (o, None).
Proof. by destruct cur as [[? []]|]. Qed.

Definition is_busy (o : option ptr) : bool := match o with Some _ => true | None => false end.

Section router.
Context `{TlmPayloadLaws, Gem5PacketLaws} {E : Type} `{!RouterEnv E, !Client E}.
(** The start and the size of the memory behind the router. *)
Context (range : Z * Z).
Implicit Types (w : world E) (t : ptr) (req : option ptr) (cur : option (ptr * rstage)).

Record rinv w (s : pipeline) : Prop := {
  r_range : (mem_start_addr (router w), mem_size (router w)) = range;
  r_history : pipeline_of (history w) = Some s;
  r_next : next_response_pending (router w) = None;
  r_registers : ∃ ends begins,
    (fst <$> m_peq w) ≡ₚ ends ++ begins ∧
    current_ok s.2 (transaction_in_progress (router w)) (response_in_progress (router w))
      (bool_decide (is_Some (target_done_event w))) (process w) ends ∧
    request_ok (is_busy (transaction_in_progress (router w))) s.1 (end_req_pending (router w)) begins;
  r_memory : mm_ok (memory w);
  r_live t : in_use s t → live (memory w) t;
  r_distinct t : s.1 = Some t → in_flight t s.2 = false;
}.

(** What the other side may change: memory, but the payloads in use stay referenced. *)
Record rprivate w w' : Prop := {
  rp_router : router w' = router w;
  rp_peq : m_peq w' = m_peq w;
  rp_done : target_done_event w' = target_done_event w;
  rp_process : process w' = process w;
  rp_now : now w' = now w;
  rp_history : history w' = history w;
  rp_memory : mm_ok (memory w) → mm_ok (memory w');
  rp_live s t : pipeline_of (history w) = Some s → in_use s t →
    live (memory w) t → live (memory w') t;
}.

(** The invariant, with what the other side keeps. *)
Abbreviation credit_of w s :=
  (credit s (references (end_req_pending (router w)) s.2) (memory w) (env w)).

Definition load w (s : pipeline) : nat :=
  (length (m_peq w) + pipeline_load s + sent (history w))%nat.

Record rwinv w (s : pipeline) : Prop := {
  rv_inv :> rinv w s;
  rv_credit : credit_of w s;
}.

(** The invariant holds again, and less remains to be done. *)
Definition lighter {A} w s (_ : A) w' : Prop := ∃ s', rwinv w' s' ∧ (load w' s' < load w s)%nat.

Definition rkeeps w w' : Prop :=
  ∀ s l, pipeline_of (history w) = Some s → credit s l (memory w) (env w) →
  credit s l (memory w') (env w').

(** The initiator answers BEGIN_RESP by TLM_ACCEPTED, or by TLM_UPDATED with END_RESP.  Its account
    follows the pipeline, and what the router does with the payloads it has references to. *)
Class Initiator : Prop := {
  ri_end_req t d w r w' cur l :
    pipeline_of (history w) = Some (Some t, cur) → idle_pipeline cur = true → t ∈ l →
    mm_ok (memory w) → credit (Some t, cur) l (memory w) (env w) →
    nb_transport_bw t END_REQ d w = (r, w') →
    rprivate w w' ∧ credit (None, Some (t, Accepted)) l (memory w') (env w');
  ri_resp t d w r w' req l :
    pipeline_of (history w) = Some (req, Some (t, Executed)) → t ∈ l →
    mm_ok (memory w) → credit (req, Some (t, Executed)) l (memory w) (env w) →
    nb_transport_bw t BEGIN_RESP d w = (r, w') →
    rprivate w w' ∧
    (r.1.1 = TLM_ACCEPTED ∧ credit (req, Some (t, Answered)) l (memory w') (env w') ∨
     r.1.1 = TLM_UPDATED ∧ r.1.2 = END_RESP ∧
     credit (req, Some (t, Ended)) l (memory w') (env w'));
  ri_mem t d w d' w' req l :
    mm_ok (memory w) → t ∈ l → credit (req, Some (t, Accepted)) l (memory w) (env w) →
    mem_b_transport t d w = (d', w') →
    rprivate w w' ∧ credit (req, Some (t, Executed)) l (memory w') (env w');
  ri_acquire t s l m e p :
    credit s l m e → s.1 = Some t → t ∉ l → gps (st m) !! t = Some p →
    credit s (l ++ [t]) (Mem (mgr m) (set_gps (insert t (gp_inc p)) (st m))) e;
  ri_status t s l m e p v :
    credit s l m e → t ∈ l → gps (st m) !! t = Some p →
    credit s l (Mem (mgr m) (set_gps (insert t (set_response_status v p)) (st m))) e;
  ri_release t s l m e p m' :
    credit s (t :: l) m e → t ∉ l → gps (st m) !! t = Some p → released m t p m' →
    credit s l m' e;
}.

Lemma rinv_private w w' s : rinv w s → rprivate w w' → rinv w' s.
Proof.
  intros [] []. split; rewrite ?rp_router0, ?rp_peq0, ?rp_done0, ?rp_process0, ?rp_history0; eauto.
Qed.

Lemma rwinv_private w w' s : rwinv w s → rprivate w w' → rkeeps w w' → rwinv w' s.
Proof.
  intros [Hi Hc] Hp Hk. split; [by eapply rinv_private|].
  rewrite (rp_router _ _ Hp). apply Hk; [apply Hi|done].
Qed.

(** *** The functions *)

Lemma wp_call_bw w t ph d (Q : tlm_sync_enum * tlm_phase * Z → world E → Prop) :
  (∀ r w', nb_transport_bw t ph d w = (r, w') → Q r (log_call (RBw t ph r.1.1 r.1.2) w')) →
  wp (call_bw t ph d) Q w.
Proof. intros HQ. unfold wp, call_bw. destruct (nb_transport_bw t ph d w). by apply HQ. Qed.

Lemma live_do m t f p :
  mm_ok m → gps (st m) !! t = Some p → (0 < ref_count p)%nat →
  ref_count (f p) = ref_count p ∨ ref_count (f p) = S (ref_count p) →
  has_mm (attrs (f p)) = has_mm (attrs p) →
  let m' := Mem (mgr m) (set_gps (insert t (f p)) (st m)) in
  mm_ok m' ∧ ∀ t', live m t' → live m' t'.
Proof.
  intros Hok Hp Hr Hf Hmm m'. split.
  - eapply mm_ok_write; [done..|lia|]. rewrite Hmm. by eapply (ok_mm m Hok).
  - intros t' (p' & Hp' & Hr'). unfold live, m'. simpl. destruct (decide (t' = t)) as [->|Hne].
    + exists (f p). rewrite lookup_insert_eq. split; [done|]. simplify_eq. lia.
    + exists p'. by rewrite lookup_insert_ne.
Qed.

(** What [send_end_req] leaves. *)
Record end_req_sent cur l w t w' : Prop := {
  es_router : router w' = set_in_progress (Some t) (router w);
  es_peq : m_peq w' = m_peq w;
  es_done : is_Some (target_done_event w');
  es_process : process w' = process w;
  es_history : ∃ status ph, history w' = history w ++ [RBw t END_REQ status ph];
  es_memory : mm_ok (memory w');
  es_live t' : in_use (Some t, cur) t' → live (memory w) t' → live (memory w') t';
  es_credit : credit (None, Some (t, Accepted)) l (memory w') (env w');
}.

Lemma wp_send_end_req `{!Initiator} w t cur l (Q : unit → world E → Prop) :
  pipeline_of (history w) = Some (Some t, cur) → idle_pipeline cur = true → t ∈ l →
  mm_ok (memory w) → credit (Some t, cur) l (memory w) (env w) →
  transaction_in_progress (router w) = None →
  (∀ w', end_req_sent cur l w t w' → Q tt w') → wp (send_end_req t) Q w.
Proof.
  intros Hh Hidle Hin Hm Hc Ht HQ. unfold send_end_req. apply wp_bind, wp_call_bw. intros r w1 Hbw.
  destruct (ri_end_req _ _ _ _ _ _ _ Hh Hidle Hin Hm Hc Hbw) as [[] Hc1].
  apply wp_bind, wp_modify.
  apply wp_bind, wp_gets, wp_bind, wp_check; [simpl; by rewrite rp_router0, Ht|].
  apply wp_modify, HQ. split; simpl; rewrite ?rp_router0, ?rp_history0; try done; eauto.
Qed.

(** What [send_response] leaves; [st]: the initiator answered with END_RESP, or will send it. *)
Record response_sent req (st : rstage) l w t w' : Prop := {
  rs_router : router w' = set_response true (router w);
  rs_done : target_done_event w' = target_done_event w;
  rs_process : process w' = process w;
  rs_answer : (∃ ph, st = Answered ∧ m_peq w' = m_peq w ∧
                 history w' = history w ++ [RBw t BEGIN_RESP TLM_ACCEPTED ph]) ∨
              (∃ d, st = Ended ∧ m_peq w' = m_peq w ++ [(t, END_RESP, d)] ∧
                 history w' = history w ++ [RBw t BEGIN_RESP TLM_UPDATED END_RESP]);
  rs_memory : mm_ok (memory w');
  rs_live t' : t' ≠ t → in_use (req, Some (t, Executed)) t' → live (memory w) t' →
    live (memory w') t';
  rs_credit : credit (req, Some (t, st)) l (memory w') (env w');
}.

Lemma wp_send_response `{!Initiator} w t req l (Q : unit → world E → Prop) :
  pipeline_of (history w) = Some (req, Some (t, Executed)) → mm_ok (memory w) →
  live (memory w) t → t ∉ l → credit (req, Some (t, Executed)) (t :: l) (memory w) (env w) →
  (∀ w' st, response_sent req st l w t w' → Q tt w') → wp (send_response t) Q w.
Proof.
  intros Hh Hm Hl Hnot Hc HQ. unfold send_response. apply wp_bind, wp_modify.
  apply wp_bind, wp_call_bw. intros r w1 Hbw.
  destruct (ri_resp t _ (set_router _ w) _ _ _ (t :: l) Hh ltac:(by left) Hm Hc Hbw)
    as [[] Hans]. destruct r as [[status ph] d]. simpl in Hans.
  assert (in_use (req, Some (t, Executed)) t) as Hu by (by right; right).
  assert (live (memory w1) t) as (p & Hp & Hr) by eauto. simpl in *.
  assert (∀ w2 st, memory w2 = memory w1 → env w2 = env w1 →
    router w2 = set_response true (router w) →
    target_done_event w2 = target_done_event w → process w2 = process w →
    (∃ ph, st = Answered ∧ m_peq w2 = m_peq w ∧
       history w2 = history w ++ [RBw t BEGIN_RESP TLM_ACCEPTED ph]) ∨
    (∃ d, st = Ended ∧ m_peq w2 = m_peq w ++ [(t, END_RESP, d)] ∧
          history w2 = history w ++ [RBw t BEGIN_RESP TLM_UPDATED END_RESP]) →
    credit (req, Some (t, st)) (t :: l) (memory w1) (env w1) →
    wp (on_memory (release t)) Q w2) as Hrel.
  { intros w2 st Hmem Henv ? ? ? ? Hc2. apply wp_zoom. rewrite Hmem.
    eapply wp_release; [by apply rp_memory0|exact Hp|done|].
    intros m Hre. pose proof Hre as [_ Hoth _ _ _ Hok]. apply (HQ _ st). split; try done.
    - intros t' Hne Hu' Hl'. unfold live. simpl. rewrite Hoth by done. by eapply rp_live0.
    - simpl. rewrite Henv. by eapply ri_release. }
  apply wp_bind. destruct Hans as [[-> Hc2]|(-> & -> & Hc2)].
  - apply wp_ret. apply (Hrel _ Answered); simpl; try done. left. exists ph.
    by rewrite rp_peq0, rp_history0.
  - apply wp_modify. apply (Hrel _ Ended); simpl; try done. right. eexists.
    by rewrite rp_peq0, rp_history0.
Qed.

(** *** The steps *)

(** Taking an entry out of the queue. *)
Lemma queue_split (q : list (ptr * tlm_phase * Z)) i e ends begins :
  q !! i = Some e → (fst <$> q) ≡ₚ ends ++ begins →
  e.1 :: (fst <$> delete i q) ≡ₚ ends ++ begins.
Proof.
  intros Hi <-. change (fst <$> (e :: delete i q) ≡ₚ fst <$> q). apply fmap_Permutation.
  symmetry. by apply delete_Permutation.
Qed.

(** END_RESP in the queue belongs to the current transaction. *)
Lemma current_ended cur tip rip d pc ends x :
  current_ok cur tip rip d pc ends → x ∈ ends →
  ∃ t, x = (t, END_RESP) ∧ ends = [x] ∧ cur = Some (t, Ended) ∧ tip = Some t ∧ rip = true ∧
       d = false ∧ pc = Waiting.
Proof.
  intros Hc Hx. inversion Hc; subst; try by apply not_elem_of_nil in Hx.
  apply list_elem_of_singleton in Hx as ->. by exists t.
Qed.

Lemma current_answered t tip rip d pc ends :
  current_ok (Some (t, Answered)) tip rip d pc ends →
  tip = Some t ∧ rip = true ∧ d = false ∧ pc = Waiting ∧ ends = [].
Proof. by inversion 1. Qed.
Lemma current_done cur tip rip pc ends :
  current_ok cur tip rip true pc ends →
  ∃ t, cur = Some (t, Accepted) ∧ tip = Some t ∧ rip = false ∧ pc = Waiting ∧ ends = [].
Proof. inversion 1; subst. by eexists. Qed.
Lemma current_executing cur tip rip d t ends :
  current_ok cur tip rip d (Executing t) ends →
  cur = Some (t, Executed) ∧ tip = Some t ∧ rip = false ∧ d = false ∧ ends = [].
Proof. by inversion 1. Qed.
Lemma current_idle cur rip d pc ends :
  current_ok cur None rip d pc ends →
  idle_pipeline cur = true ∧ rip = false ∧ d = false ∧ pc = Waiting ∧ ends = [].
Proof. by inversion 1. Qed.

Lemma wp_range w t p (Q : bool → world E → Prop) :
  gps (st (memory w)) !! t = Some p → Q (in_range (router w) (get_address (attrs p))) w →
  wp (ToMem t) Q w.
Proof.
  intros Hp HQ. apply wp_bind, wp_zoom. eapply wp_gp_at; [exact Hp|].
  apply wp_bind, wp_gets, wp_ret. by destruct w as [? [] ? ? ? ? ? ?].
Qed.

(** A call of the initiator goes to the queue. *)
Definition called w t ph d : world E :=
  set_peq (m_peq w ++ [(t, ph, now w + d)]) (log_call (RFw t ph) w).

Lemma rinv_called w s s' t ph d :
  rinv w s → pipeline_step s (RFw t ph) = Some s' → live (memory w) t → rinv (called w t ph d) s'.
Proof.
  intros [Hb Hh Hn (ends & begins & Hq & Hc & Hr) Hm Hl Hf] Hs' Ht.
  destruct s as [req cur]. split; simpl; try done.
  - by rewrite pipeline_snoc, Hh.
  - destruct ph; try done; simpl in Hs'; case_bool_decide as Hg; try done; simpl in Hs';
      [destruct (in_flight t cur); [done|]|]; injection Hs' as <-; simpl in *; subst.
    + exists ends, [(t, BEGIN_REQ)]. inversion Hr; subst.
      rewrite fmap_app, Hq. split; [by rewrite app_nil_r|]. split; [done|constructor].
    + exists [(t, END_RESP)], begins.
      destruct (current_answered _ _ _ _ _ _ Hc) as (Htip & -> & -> & -> & ->).
      rewrite fmap_app, Hq, Htip in *. split; [simpl; by rewrite Permutation_app_comm|].
      split; [constructor|done].
  - intros t' Hu. destruct ph; try done; simpl in Hs'; case_bool_decide as Hg; try done;
      simpl in Hs'; [destruct (in_flight t cur); [done|]|]; injection Hs' as <-;
      unfold in_use in *; simpl in *; subst.
    + destruct Hu as [[= ->]|Hu]; [done|]. apply Hl. by right.
    + destruct Hu as [Hu|[|]]; try done. apply Hl. by left.
  - intros t' Ht'. destruct ph; try done; simpl in Hs'; case_bool_decide as Hg; try done;
      simpl in Hs'; [destruct (in_flight t cur) eqn:Hfl; [done|]|]; injection Hs' as <-;
      simpl in *; [by injection Ht' as <-|done].
Qed.

Lemma wp_called w t p ph d (Q : tlm_sync_enum * tlm_phase * Z → world E → Prop) :
  gps (st (memory w)) !! t = Some p → in_range (router w) (get_address (attrs p)) = true →
  Q (TLM_ACCEPTED, ph, d) (called w t ph d) → wp (nb_transport_fw t ph d) Q w.
Proof.
  intros Hp Hin HQ. unfold nb_transport_fw. apply wp_bind, wp_modify, wp_bind.
  eapply wp_range; [exact Hp|]. simpl. rewrite Hin. by apply wp_bind, wp_modify, wp_ret.
Qed.

(** A call for an address that is not in the range of the memory stops the run. *)
Lemma stray_called w t p ph d :
  gps (st (memory w)) !! t = Some p → in_range (router w) (get_address (attrs p)) = false →
  nb_transport_fw t ph d w = (Err out_of_range, log_call (RFw t ph) w).
Proof.
  intros Hp Hno. unfold nb_transport_fw. erewrite bind_Ok by done. set (w1 := log_call _ w).
  assert (ToMem t w1 = (Ok false, w1)) as Hm.
  { assert (wp (ToMem t) (λ b w', b = false ∧ w' = w1) w1) as Hwp by (by eapply wp_range).
    destruct (wp_Ok _ _ _ Hwp) as (b & w' & Hrun & -> & ->). exact Hrun. }
  by erewrite bind_Ok by exact Hm.
Qed.

(** The initiator conforms when it sends phase [ph] of [t]: the pipeline allows it, as does its own
    account. *)
Definition conforms w t ph : Prop :=
  (∀ s, pipeline_of (history w) = Some s → credit_of w s →
     ∃ s', pipeline_step s (RFw t ph) = Some s' ∧ credit_of w s') ∧
  live (memory w) t.

(** It may do so if the address is in the range of the memory, too. *)
Definition initiator_may w t ph : Prop :=
  (∀ s, pipeline_of (history w) = Some s → credit_of w s →
     ∃ s', pipeline_step s (RFw t ph) = Some s' ∧ credit_of w s') ∧
  live (memory w) t ∧
  ∀ p, gps (st (memory w)) !! t = Some p → in_range (router w) (get_address (attrs p)) = true.

Lemma wp_nb_transport_fw w s t ph d :
  rwinv w s → initiator_may w t ph →
  wp (nb_transport_fw t ph d) (λ r w', r = (TLM_ACCEPTED, ph, d) ∧ ∃ s', rwinv w' s') w.
Proof.
  intros [Hi Hc] (Hstep & Ht & Hrange).
  destruct (Hstep s (r_history w s Hi) Hc) as (s' & Hs' & Hc').
  pose proof Ht as (p & Hp & _). eapply wp_called; [exact Hp|by apply Hrange|].
  split; [done|]. exists s'. split; [by eapply rinv_called|done].
Qed.

(** A live payload is acquired. *)
Lemma wp_acquire_live w t (Q : unit → world E → Prop) :
  mm_ok (memory w) → live (memory w) t →
  (∀ p, gps (st (memory w)) !! t = Some p →
     let m := Mem (mgr (memory w)) (set_gps (insert t (gp_inc p)) (st (memory w))) in
     mm_ok m → (∀ t', live (memory w) t' → live m t') → Q tt (set_memory m w)) →
  wp (on_store (acquire t)) Q w.
Proof.
  intros Hm (p & Hp & Hr) HQ. apply wp_zoom. eapply wp_acquire; [exact Hp|].
  destruct (live_do (memory w) t gp_inc p) as [Hm' Hl']; try done.
  - right. unfold ref_count. by autorewrite with gp.
  - by autorewrite with gp.
  - by apply (HQ p Hp).
Qed.

(** The references are of transactions that are not the open request, unless that waits. *)
Lemma references_new s t :
  s.1 = Some t → in_flight t s.2 = false → t ∉ references None s.2.
Proof.
  destruct s as [req [[t' []]|]]; simpl; intros -> Hf; try apply not_elem_of_nil;
    apply bool_decide_eq_false in Hf; intros ?%list_elem_of_singleton; by apply Hf.
Qed.

(** The state when END_REQ was sent. *)
Lemma rwinv_end_req cur w w' t :
  end_req_sent cur [t] w t w' →
  pipeline_of (history w) = Some (Some t, cur) → idle_pipeline cur = true →
  (mem_start_addr (router w), mem_size (router w)) = range →
  next_response_pending (router w) = None → response_in_progress (router w) = false →
  m_peq w = [] → process w = Waiting → (∀ t', in_use (Some t, cur) t' → live (memory w) t') →
  rwinv (set_router (set_end_req None) w') (None, Some (t, Accepted)) ∧
  (load (set_router (set_end_req None) w') (None, Some (t, Accepted)) ≤ load w (Some t, cur))%nat.
Proof.
  intros [? ? ? ? (status & ph & Hhist) ? Hlive Hc] Hh Hidle Hb Hn Hrip Hq Hp Hl.
  split; [|unfold load; simpl; rewrite es_peq0, Hq, Hhist, sent_snoc, (idle_load (Some t) cur) by done;
    unfold pipeline_load, sent; simpl; lia]. split; [split|done];
    simpl; rewrite ?es_router0; try done.
  - rewrite Hhist, pipeline_snoc. simpl. rewrite Hh. simpl. by rewrite bool_decide_true, Hidle.
  - exists [], []. rewrite es_peq0, es_process0, bool_decide_true by done. simpl.
    rewrite Hq, Hrip, Hp. split; [done|]. split; constructor.
  - intros t' [|[[= ->]|]]; try done. apply Hlive; [by left|]. apply Hl; by left.
Qed.

Lemma wp_begin_req `{!Initiator} w s t l (Q : unit → world E → Prop) :
  rinv (set_peq ((t, BEGIN_REQ, 0) :: m_peq w) w) s → credit_of w s →
  s.1 = Some t → end_req_pending (router w) = None → (fst <$> m_peq w) ≡ₚ l →
  current_ok s.2 (transaction_in_progress (router w)) (response_in_progress (router w))
    (bool_decide (is_Some (target_done_event w))) (process w) l →
  (∀ w' s', rwinv w' s' → (load w' s' ≤ load w s)%nat → Q tt w') → wp (peq_cb t BEGIN_REQ) Q w.
Proof.
  intros [Hb Hh Hn _ Hm Hl Hf] Hcr Hs He Hq Hc HQ. simpl in *. rewrite He in Hcr.
  apply wp_bind, wp_acquire_live; [done|apply Hl; by left|]. intros p Hp m Hm' Hl'.
  pose proof (ri_acquire _ _ _ _ _ _ Hcr Hs (references_new s t Hs (Hf t Hs)) Hp) as Hcr'.
  fold m in Hcr'. apply wp_bind, wp_gets. simpl. destruct s as [req cur]. simpl in *. subst req.
  destruct (transaction_in_progress (router w)) as [t0|] eqn:Ht.
  - apply wp_modify. apply (HQ _ (Some t, cur)); [split; [|simpl]|done].
    + split; simpl; try done; [|by eauto..].
      exists l, []. rewrite Ht. split; [by rewrite app_nil_r|]. split; [done|]. by constructor.
    + unfold references in *. simpl in *. by rewrite app_nil_r in Hcr'.
  - destruct (current_idle _ _ _ _ _ Hc) as (Hidle & Hrip & Hd & Hpr & ->).
    assert (references None cur = []) as Href by (by destruct cur as [[? []]|]). rewrite Href in Hcr'.
    apply Permutation_nil_r, fmap_nil_inv in Hq.
    eapply (wp_send_end_req (set_memory m w) t cur [t]); [exact Hh|done|by left|done|done|exact Ht|].
    intros w' Hw'. assert (w' = set_router (set_end_req None) w') as ->.
    { pose proof (es_router _ _ _ _ _ Hw') as Hr. simpl in Hr. destruct w' as [[] ? ? ? ? ? ? ?].
      simpl in Hr. injection Hr as -> -> -> -> -> ->. unfold set_router, set_end_req. simpl.
      by rewrite He. }
    destruct (rwinv_end_req cur _ w' t Hw' Hh Hidle) as [Hrw Hload]; try done.
    { intros t' Ht'. by apply Hl', Hl. }
    by eapply HQ; [exact Hrw|].
Qed.

Lemma wp_end_resp `{!Initiator} w s t l (Q : unit → world E → Prop) :
  rinv (set_peq ((t, END_RESP, 0) :: m_peq w) w) s → credit_of w s →
  s.2 = Some (t, Ended) → (fst <$> m_peq w) ≡ₚ l →
  request_ok true s.1 (end_req_pending (router w)) l →
  response_in_progress (router w) = true → target_done_event w = None → process w = Waiting →
  (∀ w' s', rwinv w' s' → (load w' s' ≤ load w s)%nat → Q tt w') → wp (peq_cb t END_RESP) Q w.
Proof.
  intros [Hb Hh Hn _ Hm Hl _] Hcr Hs Hq Hr Hrip Hd Hp HQ. simpl in *.
  destruct s as [req cur]. simpl in *. subst cur.
  apply wp_bind, wp_gets, wp_bind, wp_check; [done|].
  apply wp_bind, wp_modify, wp_bind, wp_modify, wp_bind, wp_gets. simpl. rewrite Hn.
  apply wp_bind, wp_ret, wp_bind, wp_gets. simpl.
  destruct (end_req_pending (router w)) as [r|] eqn:He.
  - inversion Hr; subst. apply Permutation_nil_r, fmap_nil_inv in Hq. apply wp_bind.
    eapply (wp_send_end_req _ r (Some (t, Ended)) [r]); [exact Hh|done|by left|exact Hm|exact Hcr|done|].
    intros w' Hw'. apply wp_modify. destruct (rwinv_end_req _ _ w' r Hw' Hh eq_refl) as [Hrw Hload];
      [done..|]. by eapply HQ; [exact Hrw|].
  - apply wp_ret. eapply (HQ _ (req, Some (t, Ended))); [|done]. split; [|by simpl; rewrite He].
    split; simpl; try done.
    exists [], l. rewrite He, Hd, Hp. split; [done|]. split; [by constructor|].
    inversion Hr; subst; constructor.
Qed.

Lemma lighter_delivered w s i w' s' :
  (i < length (m_peq w))%nat → rwinv w' s' →
  (load w' s' ≤ load (set_peq (delete i (m_peq w)) w) s)%nat → lighter w s tt w'.
Proof.
  intros Hlt Hrw Hle. exists s'. split; [done|].
  destruct (lookup_lt_is_Some_2 _ _ Hlt) as [e He].
  apply delete_Permutation in He. apply Permutation_length in He. unfold load in *.
  simpl in *. lia.
Qed.

Lemma wp_peq_deliver `{!Initiator} w s i :
  rwinv w s → (i < length (m_peq w))%nat → wp (peq_deliver i) (lighter w s) w.
Proof.
  intros [Hi Hcr] Hlt. pose proof Hi as [Hb Hh Hn (ends & begins & Hq & Hc & Hr) Hm Hl Hf].
  destruct (lookup_lt_is_Some_2 _ _ Hlt) as [e He].
  unfold peq_deliver. apply wp_bind, wp_gets, wp_bind. eapply wp_lift_option; [exact He|].
  apply wp_bind, wp_modify. pose proof (queue_split _ _ _ _ _ He Hq) as Hq'.
  destruct e as [x d]. simpl in Hq'. simpl.
  assert (∀ t ph, x = (t, ph) → rinv (set_peq ((t, ph, 0) :: delete i (m_peq w)) w) s) as Hi'.
  { intros t ph ->. split; try done. exists ends, begins. by rewrite <- Hq'. }
  assert (x ∈ ends ++ begins) as Hx by (rewrite <- Hq'; by left).
  apply elem_of_app in Hx as [Hx|Hx].
  - destruct (current_ended _ _ _ _ _ _ _ Hc Hx) as (t & -> & -> & Hcur & Htip & Hrip & Hd & Hp).
    simpl in Hq'. apply Permutation_cons_inv in Hq'. rewrite Htip in Hr.
    apply bool_decide_eq_false, eq_None_not_Some in Hd.
    eapply (wp_end_resp _ s t begins); simpl; eauto using lighter_delivered.
  - inversion Hr as [|r|]; subst; try by apply not_elem_of_nil in Hx.
    apply list_elem_of_singleton in Hx as ->.
    rewrite Permutation_app_comm in Hq'. apply Permutation_cons_inv in Hq'.
    eapply (wp_begin_req _ s r ends); simpl; eauto using lighter_delivered.
Qed.

Lemma wp_execute_begin `{!Initiator} w s :
  rwinv w s → is_Some (target_done_event w) → wp execute_begin (lighter w s) w.
Proof.
  intros [[Hb Hh Hn (ends & begins & Hq & Hc & Hr) Hm Hl Hf] Hcr] Hd.
  destruct s as [req cur]. simpl in *. rewrite bool_decide_true in Hc by done.
  destruct (current_done _ _ _ _ _ Hc) as (t & -> & Htip & Hrip & Hp & ->).
  unfold execute_begin. apply wp_bind, wp_modify, wp_bind, wp_gets. simpl. rewrite Hp.
  apply wp_bind, wp_gets. simpl. apply wp_bind. eapply wp_lift_option; [exact Htip|].
  apply wp_bind. unfold wp, call_mem.
  destruct (mem_b_transport t (sc_ns 10) _) as [d w1] eqn:Hrun.
  destruct (ri_mem t _ (log_call _ (set_done None w)) _ _ _ _ Hm
    ltac:(apply list_elem_of_here) Hcr Hrun) as [[] Hcr1]. simpl in *.
  assert (pipeline_of (history w ++ [RMem t]) = Some (req, Some (t, Executed))) as Hh1.
  { rewrite pipeline_snoc, Hh. simpl. by rewrite bool_decide_true. }
  exists (req, Some (t, Executed)).
  split; [split; [|by simpl; rewrite rp_router0]|unfold load; simpl;
    rewrite rp_peq0, rp_history0, sent_snoc; unfold pipeline_load, sent; simpl; lia].
  split; simpl; rewrite ?rp_router0, ?rp_history0; try done.
  - exists [], begins. rewrite rp_peq0, rp_done0, Htip, Hrip. simpl in *. rewrite Htip in Hr.
    split; [done|]. split; [constructor|done].
  - by apply rp_memory0.
  - intros t' Hu. eapply rp_live0; [exact Hh1|exact Hu|]. apply Hl.
    destruct Hu as [|[|[= ->]]]; [by left|done|by right; left].
Qed.

(** What is in use after BEGIN_RESP was in use before, and is not [t]. *)
Lemma in_use_answered req t st t' :
  st = Answered ∨ st = Ended → req ≠ Some t → in_use (req, Some (t, st)) t' →
  in_use (req, Some (t, Executed)) t' ∧ t' ≠ t.
Proof.
  intros Hst Hreq [Hu'|[[= -> ->]|[= -> ->]]]; try by destruct Hst. simpl in Hu'.
  split; [by left|congruence].
Qed.

Lemma rwinv_answered w w' req t st begins :
  response_sent req st (option_list (end_req_pending (router w))) w t w' →
  pipeline_of (history w) = Some (req, Some (t, Executed)) → req ≠ Some t →
  (mem_start_addr (router w), mem_size (router w)) = range →
  next_response_pending (router w) = None → transaction_in_progress (router w) = Some t →
  target_done_event w = None → (fst <$> m_peq w) ≡ₚ begins →
  request_ok true req (end_req_pending (router w)) begins →
  (∀ t', in_use (req, Some (t, Executed)) t' → live (memory w) t') →
  (∀ t', req = Some t' → in_flight t' (Some (t, Executed)) = false) →
  ∃ s', rwinv (set_process Waiting w') s' ∧
    (load (set_process Waiting w') s' < load w (req, Some (t, Executed)))%nat.
Proof.
  intros [? ? ? Hans ? Hlive Hcr] Hh Hreq Hb Hn Htip Hd Hq Hr Hl Hf.
  assert (st = Answered ∨ st = Ended) as Hst
    by (destruct Hans as [(? & -> & _)|(? & -> & _)]; auto).
  assert (∀ t', in_use (req, Some (t, st)) t' → live (memory w') t') as Hl1.
  { intros t' Hu'. destruct (in_use_answered req t st t' Hst Hreq Hu') as [Hu Hne]. auto. }
  exists (req, Some (t, st)).
  assert (references (end_req_pending (router w)) (Some (t, st)) =
    option_list (end_req_pending (router w))) as Href by (by destruct Hst as [-> | ->]).
  split; [split; [|simpl; rewrite rs_router0; simpl; by rewrite Href]|
    unfold load; simpl; destruct Hans as [(? & -> & -> & ->)|(? & -> & -> & ->)];
    rewrite ?length_app, sent_snoc; unfold pipeline_load, sent; simpl; lia].
  assert (∀ t', req = Some t' → in_flight t' (Some (t, st)) = false) as Hf'.
  { intros t' Ht'. destruct Hst as [-> | ->]; [by apply Hf|done]. }
  destruct Hans as [(ph & -> & Hpeq & Hhist)|(d & -> & Hpeq & Hhist)];
    (split; simpl; rewrite ?rs_router0, ?Hhist; simpl; try done;
      [rewrite pipeline_snoc, Hh; simpl; by rewrite bool_decide_true|]).
  - exists [], begins. rewrite Hpeq, rs_done0, Hd, Htip. simpl.
    split; [done|]. split; [constructor|done].
  - exists [(t, END_RESP)], begins. rewrite Hpeq, rs_done0, Hd, Htip, fmap_app, Hq. simpl.
    split; [by rewrite Permutation_app_comm|]. split; [constructor|done].
Qed.

Lemma wp_execute_end `{!Initiator} w s t :
  rwinv w s → process w = Executing t → wp execute_end (lighter w s) w.
Proof.
  intros [[Hb Hh Hn (ends & begins & Hq & Hc & Hr) Hm Hl Hf] Hcr] Hp.
  destruct s as [req cur]. simpl in *.
  rewrite Hp in Hc. destruct (current_executing _ _ _ _ _ _ Hc) as (-> & Htip & Hrip & Hd & ->).
  assert (in_use (req, Some (t, Executed)) t) as Hu by (by right; right).
  destruct (Hl t Hu) as (p & Hgp & Href).
  destruct (live_do (memory w) t (set_response_status TLM_OK_RESPONSE) p) as [Hm' Hl'];
    [done..|left; unfold ref_count; by autorewrite with gp|by autorewrite with gp|].
  assert (req ≠ Some t) as Hreq.
  { intros ->. specialize (Hf t eq_refl). simpl in Hf. by rewrite bool_decide_true in Hf. }
  apply bool_decide_eq_false, eq_None_not_Some in Hd. rewrite Htip in Hr.
  unfold execute_end. apply wp_bind, wp_gets. rewrite Hp.
  apply wp_bind, wp_zoom. eapply wp_gp_do; [exact Hgp|].
  apply wp_bind, wp_gets. simpl. rewrite Hrip.
  apply wp_bind, wp_bind. eapply wp_lift_option; [exact Htip|].
  eapply (wp_send_response _ t req (option_list (end_req_pending (router w))));
    [exact Hh|done|by apply Hl', Hl| |eapply (ri_status t); [exact Hcr|left|exact Hgp]|].
  { inversion Hr; subst; simpl; try apply not_elem_of_nil. intros ->%list_elem_of_singleton.
    by apply Hreq. }
  intros w1 st Hw1. apply wp_modify. eapply (rwinv_answered (set_memory _ w) w1 _ _ _ begins);
    [exact Hw1|done..| |done].
  intros t' Hu'. by apply Hl', Hl.
Qed.

(** ** The router as a system *)

Inductive raction :=
| RCall (t : ptr) (ph : tlm_phase) (d : Z)  (* the initiator calls [nb_transport_fw] *)
| RDeliver (i : nat)                         (* the kernel delivers an entry of the queue *)
| RBegin                                     (* [target_done_event] is due *)
| REnd.                                      (* the memory's [b_transport] returns *)

Definition run (a : raction) : M (world E) unit :=
  match a with
  | RCall t ph d => nb_transport_fw t ph d;; mret tt
  | RDeliver i => peq_deliver i
  | RBegin => execute_begin
  | REnd => execute_end
  end.

Definition enabled (a : raction) w : Prop :=
  match a with
  | RCall t ph _ => conforms w t ph
  | RDeliver i => (i < length (m_peq w))%nat
  | RBegin => is_Some (target_done_event w)
  | REnd => ∃ t, process w = Executing t
  end.

(** The call is for an address outside the range of the memory. *)
Definition astray (a : raction) w : Prop :=
  ∃ t ph d p, a = RCall t ph d ∧ gps (st (memory w)) !! t = Some p ∧
    in_range (router w) (get_address (attrs p)) = false.

Record initial w : Prop := {
  ri_router : router w = TxnRouter_new range.1 range.2;
  ri_memory : mm_ok (memory w);
  ri_peq : m_peq w = [];
  ri_done : target_done_event w = None;
  ri_process : process w = Waiting;
  ri_history : history w = [];
}.

Inductive reachable : world E → Prop :=
| reach_initial w : initial w → credit (None, None) [] (memory w) (env w) → reachable w
| reach_action w a w' : reachable w → enabled a w → run a w = (Ok tt, w') → reachable w'
| reach_other_side w w' : reachable w → rprivate w w' → rkeeps w w' → reachable w'
| reach_time w n : reachable w →
    reachable (World (router w) (memory w) (m_peq w) (target_done_event w) (process w) n (env w)
                 (history w)).

Lemma initial_rinv w : initial w → rinv w (None, None).
Proof.
  intros [Hr Hm Hq Hd Hp Hh]. split; try done.
  - rewrite Hr. by destruct range.
  - by rewrite Hh.
  - by rewrite Hr.
  - exists [], []. rewrite Hq, Hr, Hd, Hp. split; [done|]. split; by constructor.
  - intros t [|[|]]; done.
Qed.

(** A step of the router on its own. *)
Definition internal (a : raction) : Prop := match a with RCall _ _ _ => False | _ => True end.

Lemma wp_internal `{!Initiator} w s a :
  rwinv w s → internal a → enabled a w → wp (run a) (lighter w s) w.
Proof.
  intros Hi Ha Hen. destruct a; simpl in *; [done|..].
  - by apply wp_peq_deliver.
  - by apply wp_execute_begin.
  - destruct Hen as [t Ht]. by eapply wp_execute_end.
Qed.

Lemma wpe_raction `{!Initiator} w s a :
  rwinv w s → enabled a w →
  wpe (λ e _, astray a w ∧ e = out_of_range) (run a) (λ _ w', ¬ astray a w ∧ ∃ s', rwinv w' s') w.
Proof.
  intros Hi Hen.
  assert (internal a → wp (run a) (lighter w s) w → wpe (λ e _, astray a w ∧ e = out_of_range) (run a)
    (λ _ w', ¬ astray a w ∧ ∃ s', rwinv w' s') w) as Hint.
  { intros Ha Hwp. apply wpe_wp. eapply wp_mono; [exact Hwp|]. intros _ w' (s' & ? & _).
    split; [by intros (t & ph & d & p & -> & _)|by exists s']. }
  destruct a as [t ph d| | |]; [|by apply Hint, wp_internal..].
  destruct Hen as [Hstep Hl]. pose proof Hl as (p & Hp & _).
  destruct (in_range (router w) (get_address (attrs p))) eqn:Hin.
  - apply wpe_wp, wp_bind. eapply wp_mono; [eapply (wp_nb_transport_fw w s t ph d Hi)|].
    { split; [done|]. split; [done|]. intros p' Hp'. by simplify_eq. }
    intros r w' [_ Hw']. apply wp_ret. split; [|done]. intros (t' & ph' & d' & p' & [= <- <- <-] & Hp' & Hno).
    simplify_eq. congruence.
  - apply wpe_bind. unfold wpe at 1. rewrite (stray_called w t p ph d Hp Hin). split; [|done].
    by exists t, ph, d, p.
Qed.

Lemma reachable_rinv `{!Initiator} w : reachable w → ∃ s, rwinv w s.
Proof.
  induction 1 as [w Hw Hc|w a w' _ [s Hi] Hen Hrun|w w' _ [s Hi] Hpr Hk|w n _ [s [[] Hc]]].
  - exists (None, None). split; [by apply initial_rinv|]. by rewrite (ri_router _ Hw).
  - pose proof (wpe_raction w s a Hi Hen) as Hwp. unfold wpe in Hwp. rewrite Hrun in Hwp. apply Hwp.
  - exists s. by eapply rwinv_private.
  - exists s. by split.
Qed.

(** ** Properties *)

(** C10: The router with an initiator that keeps the base protocol - it sends phases in their order, for payloads
    in use, and answers BEGIN_RESP by TLM_ACCEPTED or by END_RESP, never by TLM_COMPLETED: whatever the
    interleaving of its calls, the deliveries of the payload event queue and the thread, no assertion
    is hit and no null pointer is followed; and a fatal report is reached exactly by a call for an
    address outside the range of the memory. *)
Theorem router_safe `{!Initiator} w a :
  reachable w → enabled a w →
  (¬ astray a w ∧ ∃ w', run a w = (Ok tt, w') ∧ reachable w') ∨ (astray a w ∧ fails (run a) out_of_range w).
Proof.
  intros Hr Hen. destruct (reachable_rinv w Hr) as [s Hi].
  destruct (wpe_cases _ _ _ _ (wpe_raction w s a Hi Hen))
    as [([] & w' & Hrun & Hno & _)|(e & w' & Hrun & Ha & ->)].
  - left. split; [done|]. exists w'. split; [done|]. by eapply reach_action.
  - right. split; [done|]. unfold fails. by rewrite Hrun.
Qed.

(** Every transaction goes through the router in order - BEGIN_REQ, END_REQ, one access to memory,
    BEGIN_RESP, END_RESP - and one at a time after END_REQ; so the slot for a second response,
    and the fatal report for a third, are never used. *)
Theorem router_in_order `{!Initiator} w :
  reachable w →
  is_Some (pipeline_of (history w)) ∧ next_response_pending (router w) = None.
Proof.
  intros Hr. destruct (reachable_rinv w Hr) as [s Hi]. split; [|apply Hi].
  exists s. apply Hi.
Qed.

(** No request is stranded: while a request waits for its END_REQ, the router has an entry in its
    queue, or its thread will run, or the initiator owes END_RESP for the transaction before it. *)
Theorem router_never_stuck `{!Initiator} w r cur :
  reachable w → pipeline_of (history w) = Some (Some r, cur) →
  (∃ i, enabled (RDeliver i) w) ∨ enabled RBegin w ∨ enabled REnd w ∨
  ∃ t, cur = Some (t, Answered).
Proof.
  intros Hr Hh. destruct (reachable_rinv w Hr) as [s [[_ Hh' Hn (ends & begins & Hq & Hc & Hrq) _ _ _] _]].
  assert (s = (Some r, cur)) as -> by congruence. simpl in *.
  destruct (m_peq w) as [|e q]; [|left; exists 0%nat; simpl; lia].
  simpl in Hq. apply Permutation_nil_l in Hq. symmetry in Hq.
  apply app_eq_nil in Hq as [-> ->].
  inversion Hrq as [| |? Hbusy]; subst. right.
  destruct (transaction_in_progress (router w)) as [t|] eqn:Htip; [|done].
  inversion Hc; subst.
  - left. by eapply bool_decide_eq_true.
  - right. left. by exists t.
  - right. right. by exists t.
Qed.

(** C40: The address range is a half-open interval when its end fits in 64 bits.  When the end wraps
    around, no address at all is in the range. *)
Theorem in_range_spec r addr :
  u64 (mem_start_addr r) → u64 (mem_size r) → u64 addr →
  (mem_start_addr r + mem_size r < 2 ^ 64 →
     in_range r addr = true ↔ mem_start_addr r ≤ addr < mem_start_addr r + mem_size r) ∧
  (2 ^ 64 ≤ mem_start_addr r + mem_size r → in_range r addr = false).
Proof.
  intros Hs Hn Ha. unfold in_range, u64 in *. split; intros Hlt.
  - rewrite wrap64_small by (split; lia).
    destruct (Z.ltb_spec addr (mem_start_addr r)); [split; [done|lia]|].
    destruct (Z.leb_spec (mem_start_addr r + mem_size r) addr); split; try done; lia.
  - destruct (Z.ltb_spec addr (mem_start_addr r)); [done|].
    assert (wrap64 (mem_start_addr r + mem_size r) = mem_start_addr r + mem_size r - 2 ^ 64) as ->.
    { unfold wrap64. rewrite <- (Z_mod_plus_full _ (-1)). apply Z.mod_small. lia. }
    by rewrite (proj2 (Z.leb_le _ _)) by lia.
Qed.

(** An initiator may answer BEGIN_RESP by TLM_COMPLETED.  A request that came in the meantime is
    then stranded: the router is idle, nothing is scheduled, and END_REQ was not sent. *)
Theorem completed_strands_request w t r p ph d w1 :
  process w = Executing t → transaction_in_progress (router w) = Some t →
  response_in_progress (router w) = false → end_req_pending (router w) = Some r →
  m_peq w = [] → target_done_event w = None → mm_ok (memory w) →
  gps (st (memory w)) !! t = Some p → (0 < ref_count p)%nat →
  let w0 := set_router (set_response true) (set_memory
    (Mem (mgr (memory w)) (set_gps (insert t (set_response_status TLM_OK_RESPONSE p)) (st (memory w)))) w) in
  nb_transport_bw t BEGIN_RESP (sc_ns 10) w0 = ((TLM_COMPLETED, ph, d), w1) → rprivate w0 w1 →
  live (memory w1) t →
  ∃ w', execute_end w = (Ok tt, w') ∧ end_req_pending (router w') = Some r ∧
    transaction_in_progress (router w') = None ∧ m_peq w' = [] ∧ target_done_event w' = None ∧
    process w' = Waiting ∧ history w' = history w ++ [RBw t BEGIN_RESP TLM_COMPLETED ph].
Proof.
  intros Hp Htip Hrip He Hq Hd Hm Hgp Href w0 Hbw [] (p1 & Hp1 & Hr1).
  destruct (live_do (memory w) t (set_response_status TLM_OK_RESPONSE) p) as [Hm' _];
    [done..|left; unfold ref_count; by autorewrite with gp|by autorewrite with gp|].
  assert (wp execute_end (λ _ w', end_req_pending (router w') = Some r ∧
    transaction_in_progress (router w') = None ∧ m_peq w' = [] ∧ target_done_event w' = None ∧
    process w' = Waiting ∧ history w' = history w ++ [RBw t BEGIN_RESP TLM_COMPLETED ph]) w)
    as Hwp.
  { unfold execute_end. apply wp_bind, wp_gets. rewrite Hp.
    apply wp_bind, wp_zoom. eapply wp_gp_do; [exact Hgp|].
    apply wp_bind, wp_gets. simpl. rewrite Hrip. apply wp_bind, wp_bind.
    eapply wp_lift_option; [exact Htip|].
    unfold send_response. apply wp_bind, wp_modify, wp_bind, wp_call_bw. intros a w2 Hbw'.
    fold w0 in Hbw'. rewrite Hbw in Hbw'. injection Hbw' as <- <-.
    apply wp_bind, wp_bind, wp_modify, wp_modify. apply wp_zoom.
    eapply wp_release; [by apply rp_memory0|exact Hp1|done|]. intros m _. apply wp_modify.
    simpl. by rewrite rp_router0, rp_peq0, rp_done0, rp_history0. }
  destruct (wp_Ok _ _ _ Hwp) as ([] & w' & Hrun & Hw'). by exists w'.
Qed.
End router.

(** ** Witnesses *)

(** An initiator that answers everything by TLM_ACCEPTED, and a memory that does nothing. *)
Definition patient : RouterEnv unit := {|
  nb_transport_bw _ ph d w := ((TLM_ACCEPTED, ph, d), w);
  mem_b_transport _ d w := (d, w);
  bus_b_transport _ d w := (d, w);
  bus_transport_dbg _ w := (0, w);
|}.

(** One that completes the transaction on BEGIN_RESP. *)
Definition hasty : RouterEnv unit := {|
  nb_transport_bw _ ph d w := ((TLM_COMPLETED, ph, d), w);
  mem_b_transport _ d w := (d, w);
  bus_b_transport _ d w := (d, w);
  bus_transport_dbg _ w := (0, w);
|}.

Lemma rprivate_refl (w : world unit) : rprivate w w.
Proof. by split. Qed.

(** Neither keeps an account. *)
Definition careless : Client unit := λ _ _ _ _, True.

Lemma patient_initiator : @Initiator _ _ unit patient careless.
Proof.
  split; intros; simpl in *; simplify_eq; try done; (split; [apply rprivate_refl|]); auto.
Qed.

Definition gp5 (address : Z) (refs : nat) : payload :=
  GpAttributes address TLM_READ_COMMAND 0 8 8 0 TLM_INCOMPLETE_RESPONSE true refs None.

(** Two payloads that the initiator holds. *)
Definition router_memory : mem :=
  Mem {| numberOfAllocations := 2; numberOfFrees := 0; freePayloads := [] |}
      (Store {[ 5%positive := gp5 64 1; 6%positive := gp5 128 1 ]} ∅ 10).

Lemma router_memory_ok : mm_ok router_memory.
Proof.
  split; simpl; try done; try constructor; simpl; try done; try set_solver.
  - intros t p. rewrite lookup_insert_Some, lookup_singleton_Some. intuition (subst; lia).
  - intros t p. rewrite lookup_insert_Some, lookup_singleton_Some. by intuition subst.
  - intros t p. rewrite lookup_insert_Some, lookup_singleton_Some. by intuition subst.
Qed.

Definition router0 : world unit :=
  World (TxnRouter_new 0 4096) router_memory [] None Waiting 0 tt [].

Section witnesses.
Local Existing Instance patient.
Local Existing Instance careless.
Local Existing Instance patient_initiator.

Abbreviation routed := (reachable (0, 4096)).

Definition after (a : raction) (w : world unit) : world unit := snd (run a w).

Lemma router_reach_after a w : routed w → enabled a w → fst (run a w) = Ok tt → routed (after a w).
Proof.
  intros Hw Hen Hrun. eapply reach_action; [done..|]. unfold after.
  destruct (run a w) as [r w']. simpl in *. by subst.
Qed.

Lemma router0_reachable : routed router0.
Proof. apply reach_initial; [|done]. split; try done; apply router_memory_ok. Qed.

(** The first request is being answered when the second one comes. *)
Definition router1 : world unit := after (RCall 5 BEGIN_REQ 0) router0.
Definition router2 : world unit := after (RDeliver 0) router1.
Definition router3 : world unit := after (RCall 6 BEGIN_REQ 0) router2.
Definition router4 : world unit := after (RDeliver 0) router3.

Lemma may_request (w : world unit) t p s :
  pipeline_of (history w) = Some s → is_Some (pipeline_step s (RFw t BEGIN_REQ)) →
  gps (st (memory w)) !! t = Some p → (0 <? ref_count p)%nat = true → conforms w t BEGIN_REQ.
Proof.
  intros Hs Hstep Hp Hr. split.
  - intros s' Hs' _. simplify_eq. destruct Hstep as [s2 ?]. by exists s2.
  - exists p. split; [done|]. by apply Nat.ltb_lt.
Qed.

Lemma router2_reachable : routed router2.
Proof.
  apply router_reach_after; [apply router_reach_after; [apply router0_reachable| |vm_compute; reflexivity]| |
    vm_compute; reflexivity].
  - eapply (may_request _ _ (gp5 64 1)); [vm_compute; reflexivity|by eexists|vm_compute; reflexivity..].
  - vm_compute. lia.
Qed.

Lemma router4_reachable : routed router4.
Proof.
  apply router_reach_after; [apply router_reach_after; [apply router2_reachable| |vm_compute; reflexivity]| |
    vm_compute; reflexivity].
  - eapply (may_request _ _ (gp5 128 1)); [vm_compute; reflexivity|by eexists|vm_compute; reflexivity..].
  - vm_compute. lia.
Qed.

(** A request behind the memory's end. *)
Definition router_stray : world unit :=
  World (TxnRouter_new 0 100) router_memory [] None Waiting 0 tt [].

Lemma router_safe_witness :
  (∃ w', run RBegin router4 = (Ok tt, w') ∧ routed w') ∧ fails (run (RCall 6 BEGIN_REQ 0)) out_of_range router_stray.
Proof.
  split.
  - destruct (router_safe (0, 4096) router4 RBegin router4_reachable) as [[_ Hok]|[Ha _]].
    + vm_compute. by eexists.
    + exact Hok.
    + by destruct Ha as (t & ph & d & p & Heq & _).
  - destruct (router_safe (0, 100) router_stray (RCall 6 BEGIN_REQ 0)) as [[Hno _]|[_ Hf]].
    + apply reach_initial; [|done]. split; try done; apply router_memory_ok.
    + eapply (may_request _ _ (gp5 128 1)); [vm_compute; reflexivity|by eexists|vm_compute; reflexivity..].
    + exfalso. apply Hno. exists 6%positive, BEGIN_REQ, 0, (gp5 128 1). by vm_compute.
    + exact Hf.
Defined.

Lemma router_in_order_witness :
  history router4 = [RFw 5 BEGIN_REQ; RBw 5 END_REQ TLM_ACCEPTED END_REQ; RFw 6 BEGIN_REQ] ∧
  is_Some (pipeline_of (history router4)).
Proof. split; [vm_compute; reflexivity|]. apply (router_in_order (0, 4096) router4 router4_reachable). Defined.

Lemma router_never_stuck_witness :
  end_req_pending (router router4) = Some 6%positive ∧
  ((∃ i, enabled (RDeliver i) router4) ∨ enabled RBegin router4 ∨ enabled REnd router4 ∨
   ∃ t, Some (5%positive, Accepted) = Some (t, Answered)).
Proof.
  split; [vm_compute; reflexivity|].
  apply (router_never_stuck (0, 4096) router4 6%positive _ router4_reachable). vm_compute; reflexivity.
Defined.
End witnesses.

Lemma in_range_spec_witness :
  in_range (TxnRouter_new 4096 4096) 8191 = true ∧
  in_range (TxnRouter_new (2 ^ 63) (2 ^ 63)) (2 ^ 63) = false.
Proof.
  split.
  - apply (in_range_spec (TxnRouter_new 4096 4096) 8191); simpl; unfold u64; lia.
  - apply (in_range_spec (TxnRouter_new (2 ^ 63) (2 ^ 63)) (2 ^ 63)); simpl; unfold u64; lia.
Defined.

(** The router of the witness above when memory has answered for the first request. *)
Definition router_executing : world unit :=
  World (set_end_req (Some 6%positive) (set_in_progress (Some 5%positive) (TxnRouter_new 0 4096)))
    router_memory [] None (Executing 5) 0 tt [].

Lemma completed_strands_request_witness :
  ∃ w', @execute_end _ _ unit hasty router_executing = (Ok tt, w') ∧
    end_req_pending (router w') = Some 6%positive ∧ target_done_event w' = None.
Proof.
  destruct (@completed_strands_request _ _ _ unit hasty router_executing 5 6 (gp5 64 1)
    BEGIN_RESP (sc_ns 10) (set_router (set_response true) (set_memory
      (Mem (mgr router_memory) (set_gps (insert 5%positive
        (set_response_status TLM_OK_RESPONSE (gp5 64 1))) (st router_memory))) router_executing)))
    as (w' & Hrun & He & _ & _ & Hd & _); try (vm_compute; reflexivity).
  - apply router_memory_ok.
  - apply rprivate_refl.
  - exists (set_response_status TLM_OK_RESPONSE (gp5 64 1)). split; [reflexivity|vm_compute; lia].
  - by exists w'.
Defined.
