(* ===== verification/System.v ===== *)
(** * The slave port with its routers

    The port and the routers that [bindTxnRouter2Transactor] binds to the sockets of its
    transactor, over one payload memory: a call that the port makes through a socket runs the
    router behind it, and a call of a router runs the port.  What is left outside is gem5 and what
    the routers call - memories and bus.  [SystemProps] has the theorems. *)

From S2P Require Import Prelude StdMap Tlm MemManager BlockingHelper SocketMap Transactor.
From S2P Require Import SlavePort SlaveProtocol SlavePortProps SlavePortSpec TxnRouter TxnRouterProps.

Module System.

(** A router, with its queue, its thread and its history. *)
Record rstate := RState {
  r_router : Router.TxnRouter;
  r_peq : list (ptr * tlm_phase * Z);
  r_done : option Z;
  r_process : Router.thread;
  r_history : list Router.rcall;
}.

(** The routers by socket, the error a router stopped the run with, and the state outside. *)
Record outer {X : Type} := Outer {
  routers : gmap Z rstate;
  failure : option error;
  others : X;
}.
Arguments outer : clear implicits.

Definition set_routers {X} (f : gmap Z rstate → gmap Z rstate) (o : outer X) : outer X :=
  Outer _ (f (routers o)) (failure o) (others o).
Definition set_failure {X} (e : error) (o : outer X) : outer X :=
  Outer _ (routers o) (Some e) (others o).
Definition set_others {X} (x : X) (o : outer X) : outer X :=
  Outer _ (routers o) (failure o) x.

Section system.
Context `{TlmPayload, Gem5Packet} {X : Type}.

Abbreviation pworld := (Port.world (outer X)).
Abbreviation rworld := (Router.world pworld).
Implicit Types (w : pworld) (rw : rworld).

Definition set_env (f : outer X → outer X) w : pworld :=
  Port.World (Port.port w) (Port.memory w) (Port.events w) (Port.next_event w)
    (Port.sc_time_stamp w) (Port.curTick w) (f (Port.env w)) (Port.calls w).

(** The state as router [r] sees it, and back. *)
Definition enter (r : rstate) w : rworld :=
  Router.World (r_router r) (Port.memory w) (r_peq r) (r_done r) (r_process r)
    (Port.sc_time_stamp w) w (r_history r).
Definition state_of rw : rstate :=
  RState (Router.router rw) (Router.m_peq rw) (Router.target_done_event rw) (Router.process rw)
    (Router.history rw).
Definition outside rw : pworld := Port.set_memory (Router.memory rw) (Router.env rw).
Definition leave (k : Z) rw : pworld :=
  set_env (set_routers (insert k (state_of rw))) (outside rw).

(** What is outside the repository: the memory and the bus behind router [k], and gem5. *)
Class Outside := {
  memory_b_transport : Z → ptr → Z → mem → X → Z * (mem * X);
  bus_b_transport : Z → ptr → Z → mem → X → Z * (mem * X);
  bus_transport_dbg : Z → ptr → mem → X → Z * (mem * X);
  gem5_timing_resp : ptr → pworld → bool * pworld;
  gem5_retry : pworld → pworld;
}.
End system.
Arguments Outside {_ _} X.

Abbreviation pworld X := (Port.world (outer X)).
Abbreviation rworld X := (Router.world (pworld X)).

Section functions.
Context `{TlmPayload, Gem5Packet} {X : Type} `{!Outside X}.
Implicit Types (w : pworld X) (rw : rworld X).

(** *** Behind the router *)

(** Code outside that works on the payload memory. *)
Definition out_call {A} (f : mem → X → A * (mem * X)) rw : A * rworld X :=
  let w := Router.env rw in
  let '(a, (m, x)) := f (Router.memory rw) (others (Port.env w)) in
  (a, Router.World (Router.router rw) m (Router.m_peq rw) (Router.target_done_event rw)
        (Router.process rw) (Router.now rw) (set_env (set_others x) w) (Router.history rw)).

(** [tsock->nb_transport_bw] of any router arrives at the port. *)
Definition backward (t : ptr) (ph : tlm_phase) (delay : Z) rw :
    (tlm_sync_enum * tlm_phase * Z) * rworld X :=
  let '(r, w) := Port.nb_transport_bw t ph delay (outside rw) in
  let back w := Router.World (Router.router rw) (Port.memory w) (Router.m_peq rw)
    (Router.target_done_event rw) (Router.process rw) (Router.now rw) w (Router.history rw) in
  match r with
  | Ok answer => (answer, back w)
  | Err e => ((TLM_ACCEPTED, ph, delay), back (set_env (set_failure e) w))
  end.

Definition behind (k : Z) : Router.RouterEnv (pworld X) := {|
  Router.nb_transport_bw := backward;
  Router.mem_b_transport t d := out_call (memory_b_transport k t d);
  Router.bus_b_transport t d := out_call (bus_b_transport k t d);
  Router.bus_transport_dbg t := out_call (bus_transport_dbg k t);
|}.

(** *** Behind the port *)

(** Runs a function of the router that is bound to the socket; an error ends the run. *)
Definition with_router {A} (s : Port.socket_ref) (a : A) (f : Z → M (rworld X) A) w : A * pworld X :=
  match s with
  | Port.MultiSocket k =>
      match routers (Port.env w) !! k with
      | Some r =>
          match f k (enter r w) with
          | (Ok b, rw) => (b, leave k rw)
          | (Err e, rw) => (a, set_env (set_failure e) (leave k rw))
          end
      | None => (a, set_env (set_failure (UNDEFINED "unbound socket")) w)
      end
  | Port.SingleSocket => (a, set_env (set_failure (UNDEFINED "unbound socket")) w)
  end.

#[export] Instance bound : Port.SlaveEnv (outer X) := {
  Port.nb_transport_fw s t ph d :=
    with_router s (TLM_ACCEPTED, ph, d) (λ k, Router.nb_transport_fw t ph d);
  Port.b_transport s t d := with_router s d (λ k, @Router.b_transport _ _ _ (behind k) t d);
  Port.transport_dbg s t := with_router s 0 (λ k, @Router.transport_dbg _ _ _ (behind k) t);
  Port.sendTimingResp := gem5_timing_resp;
  Port.sendRetryReq := gem5_retry;
}.

(** *** Steps *)

(** The kernel delivers an entry of the queue of router [k], wakes its thread, or the memory
    returns to it. *)
Inductive rstep := RDeliver (i : nat) | RBegin | REnd.

Definition router_action (a : rstep) : TxnRouterProps.raction :=
  match a with
  | RDeliver i => TxnRouterProps.RDeliver i
  | RBegin => TxnRouterProps.RBegin
  | REnd => TxnRouterProps.REnd
  end.

(** When it does so. *)
Definition renabled (a : rstep) (r : rstate) : Prop :=
  match a with
  | RDeliver i => (i < length (r_peq r))%nat
  | RBegin => is_Some (r_done r)
  | REnd => ∃ t, r_process r = Router.Executing t
  end.

Inductive saction :=
| PortStep (a : action)
| RouterStep (k : Z) (a : rstep).

Definition router_step (k : Z) (a : rstep) : M (pworld X) unit := λ w,
  match routers (Port.env w) !! k with
  | Some r =>
      let '(res, rw) := @TxnRouterProps.run _ _ _ (behind k) (router_action a) (enter r w) in
      (res, leave k rw)
  | None => (Err (UNDEFINED "unbound socket"), w)
  end.

Definition srun (a : saction) : M (pworld X) unit :=
  match a with
  | PortStep a => SlavePortSpec.run a
  | RouterStep k a => router_step k a
  end.
End functions.
End System.
