(* ===== verification/SystemProps.v ===== *)
(** * Theorems about the port with its routers

    The assumptions on gem5 and on what is behind the routers, the invariant that couples the
    account the port keeps of its transactions with the pipeline of each router, and the proofs
    that the routers are conforming targets of the port and the port is a conforming initiator of
    each router. *)

From S2P Require Import Prelude StdMap Tlm Concrete MemManager BlockingHelper SocketMap Transactor.
From S2P Require Import SlavePort SlaveProtocol SlavePortProps SlavePortSpec TxnRouter TxnRouterProps.
From S2P Require Import System.
Import System.

(** How many routers there are, the start and the size of the memory behind each, and when gem5 takes
    every response. *)
Class Layout (X : Type) := {
  width : Z;
  ranges : Z → Z * Z;
  gem5_willing : X → Prop;
}.

Section memory.
Context `{TlmPayloadLaws, Gem5PacketLaws}.
Implicit Types (m : mem) (t : ptr) (p : payload).

(** ** Changes of the payload memory *)

Definition same_use p p' : Prop :=
  get_extension (attrs p') = get_extension (attrs p) ∧ get_address (attrs p') = get_address (attrs p).

(** The payloads in [T] stay in use; none of them loses a reference. *)
Definition stays (T : ptr → Prop) m m' : Prop :=
  ∀ t p, T t → gps (st m) !! t = Some p → (0 < ref_count p)%nat →
    ∃ p', gps (st m') !! t = Some p' ∧ (0 < ref_count p')%nat ∧ same_use p p'.
Definition sustains (T : ptr → Prop) m m' : Prop :=
  ∀ t p, T t → gps (st m) !! t = Some p → (0 < ref_count p)%nat →
    ∃ p', gps (st m') !! t = Some p' ∧ (ref_count p ≤ ref_count p')%nat ∧ same_use p p'.

(** What a memory or a bus may do to the payload memory. *)
Record touched m m' : Prop := {
  to_ok : mm_ok m → mm_ok m';
  to_payload t p : gps (st m) !! t = Some p →
    ∃ p', gps (st m') !! t = Some p' ∧ ref_count p' = ref_count p ∧ same_use p p';
  to_packet a : is_Some (pkts (st m) !! a) → is_Some (pkts (st m') !! a);
}.

Definition twice m t : Prop := ∃ p, gps (st m) !! t = Some p ∧ (2 ≤ ref_count p)%nat.

Lemma sustains_stays T m m' : sustains T m m' → stays T m m'.
Proof. intros Hs t p Ht Hp Hr. destruct (Hs t p Ht Hp Hr) as (p' & ? & ? & ?). exists p'. auto with lia. Qed.

Lemma sustains_mono (T T' : ptr → Prop) m m' : (∀ t, T' t → T t) → sustains T m m' → sustains T' m m'.
Proof. intros HT Hs t p Ht. eauto. Qed.

Lemma touched_sustains T m m' : touched m m' → sustains T m m'.
Proof.
  intros [_ Hp _] t p _ Ht _. destruct (Hp t p Ht) as (p' & ? & Hr & ?). exists p'. rewrite Hr. auto.
Qed.

Lemma sustains_live T m m' t : sustains T m m' → T t → live m t → live m' t.
Proof. intros Hs Ht (p & Hp & Hr). destruct (Hs t p Ht Hp Hr) as (p' & ? & ? & _). exists p'. auto with lia. Qed.

Lemma sustains_twice T m m' t : sustains T m m' → T t → twice m t → twice m' t.
Proof.
  intros Hs Ht (p & Hp & Hr). destruct (Hs t p Ht Hp) as (p' & ? & ? & _); [lia|].
  exists p'. auto with lia.
Qed.

Lemma sustains_eq (T : ptr → Prop) m m' :
  (∀ t, T t → gps (st m') !! t = gps (st m) !! t) → sustains T m m'.
Proof. intros He t p Ht Hp _. exists p. rewrite He by done. done. Qed.

(** One payload is written. *)
Lemma sustains_write T m t p p' :
  gps (st m) !! t = Some p → (ref_count p ≤ ref_count p')%nat → same_use p p' →
  sustains T m (Mem (mgr m) (set_gps (insert t p') (st m))).
Proof.
  intros Hp Hr Hu t' q _ Hq _. simpl. destruct (decide (t' = t)) as [->|Hne].
  - simplify_eq. exists p'. by rewrite lookup_insert_eq.
  - exists q. by rewrite lookup_insert_ne.
Qed.

Lemma same_use_inc p : same_use p (gp_inc p) ∧ ref_count (gp_inc p) = S (ref_count p).
Proof. unfold same_use, ref_count. by autorewrite with gp. Qed.
Lemma same_use_status v p :
  same_use p (set_response_status v p) ∧ ref_count (set_response_status v p) = ref_count p.
Proof. unfold same_use, ref_count. by autorewrite with gp. Qed.
End memory.

(** ** Coupling

    Where a transaction of socket [k] is for the port decides where it is in the pipeline of the
    router of that socket. *)
Section coupling.
Context `{TlmPayloadLaws, Gem5PacketLaws} {X : Type} `{!Layout X}.
Implicit Types (m : mem) (t : ptr) (k : Z) (G : protocol) (s : pipeline) (o : outer X).

Definition at_stage s (st : mstage) t : Prop :=
  match st with
  | MReq => s.1 = Some t
  | MWait => s.2 = Some (t, Accepted) ∨ s.2 = Some (t, Executed)
  | MResp => s.2 = Some (t, Answered)
  end.

Definition staged k G s : Prop := ∀ t st, G !! t = Some (k, st) ↔ at_stage s st t.

Definition of_socket k G t : Prop := ∃ st, G !! t = Some (k, st).

(** A router without the world around it. *)
Definition alone (r : rstate) m : Router.world unit :=
  Router.World (r_router r) m (r_peq r) (r_done r) (r_process r) 0 tt (r_history r).

Record serves k (r : rstate) G m s : Prop := {
  sv_rinv : rinv (ranges k) (alone r m) s;
  sv_staged : staged k G s;
  sv_twice t : t ∈ references (Router.end_req_pending (r_router r)) s.2 → twice m t;
}.

Definition in_place G m : Prop :=
  ∀ t k st, G !! t = Some (k, st) → 0 ≤ k < width ∧
    ∃ p, gps (MemManager.st m) !! t = Some p ∧ (0 < ref_count p)%nat ∧
         Router.in_range (Router.TxnRouter_new (ranges k).1 (ranges k).2) (get_address (attrs p)) = true.

(** The routers [K] do their part. *)
Record joined (K : Z → Prop) G m o : Prop := {
  jn_failure : failure o = None;
  jn_router k : 0 ≤ k < width → K k → ∃ r s, routers o !! k = Some r ∧ serves k r G m s;
  jn_in_place : in_place G m;
}.

#[export] Instance system_terms : Terms (outer X) := {
  addressable k a := Router.in_range (Router.TxnRouter_new (ranges k).1 (ranges k).2) a = true;
  willing o := gem5_willing (others o);
  coupled := joined (λ _, True);
}.

(** The account of the port, next to router [k]: [l] are the references of the router. *)
Record carried k s (l : list ptr) m (w : pworld X) G : Prop := {
  ca_inv : inv width None (Port.set_memory m w) G;
  ca_joined : joined (λ k', k' ≠ k) G m (Port.env w);
  ca_staged : staged k G s;
  ca_twice t : t ∈ l → of_socket k G t ∧ twice m t;
}.

Definition client k : Client (pworld X) := λ s l m w, ∃ G, carried k s l m w G.

(** *** Pipelines and stages *)

Lemma staged_in_use k G s t : staged k G s → in_use s t → of_socket k G t.
Proof.
  intros Hs [Ht|Ht]; [exists MReq; by apply Hs|exists MWait; by apply Hs].
Qed.

Lemma rinv_references {E} range (w : Router.world E) s t :
  rinv range w s → t ∈ references (Router.end_req_pending (Router.router w)) s.2 → in_use s t.
Proof.
  intros [_ _ _ (ends & begins & _ & _ & Hr) _ _ _] Ht. unfold references in Ht.
  apply elem_of_app in Ht as [Ht|Ht].
  - destruct s as [req [[t' []]|]]; simpl in *; try (by apply not_elem_of_nil in Ht);
      apply list_elem_of_singleton in Ht as ->; unfold in_use; simpl; auto.
  - destruct (Router.end_req_pending (Router.router w)) as [t'|]; [|by apply not_elem_of_nil in Ht].
    apply list_elem_of_singleton in Ht as ->. inversion Hr; subst. by left.
Qed.

(** The invariant of a router does not depend on the world around it, nor on payloads it does
    not use. *)
Lemma rinv_world {E E'} range (w : Router.world E) (w' : Router.world E') s :
  rinv range w s → Router.router w' = Router.router w → Router.m_peq w' = Router.m_peq w →
  Router.target_done_event w' = Router.target_done_event w → Router.process w' = Router.process w →
  Router.history w' = Router.history w → mm_ok (Router.memory w') →
  (∀ t, in_use s t → live (Router.memory w) t → live (Router.memory w') t) →
  rinv range w' s.
Proof.
  intros [] Hr Hq Hd Hp Hh Hm Hl. split; rewrite ?Hr, ?Hq, ?Hd, ?Hp, ?Hh; eauto.
Qed.

Lemma serves_other k r G G' m m' s :
  serves k r G m s → (∀ t st, G' !! t = Some (k, st) ↔ G !! t = Some (k, st)) → mm_ok m' →
  sustains (of_socket k G) m m' → serves k r G' m' s.
Proof.
  intros [Hi Hs Ht] HG Hm Hsu. split.
  - eapply rinv_world; [exact Hi|done..|]. intros t Hu. eapply sustains_live; [exact Hsu|].
    by eapply staged_in_use.
  - intros t st. by rewrite HG.
  - intros t Hin. eapply sustains_twice; [exact Hsu| |by apply Ht].
    eapply staged_in_use; [done|]. by eapply (rinv_references _ (alone r m)).
Qed.

(** Only socket [k] changes. *)
Lemma joined_other (K : Z → Prop) G G' m m' o o' :
  joined K G m o → failure o' = None → (∀ k, K k → routers o' !! k = routers o !! k) →
  (∀ k, K k → ∀ t st, G' !! t = Some (k, st) ↔ G !! t = Some (k, st)) → mm_ok m' →
  sustains (λ t, ∃ k, K k ∧ of_socket k G t) m m' → in_place G' m' → joined K G' m' o'.
Proof.
  intros [Hf Hr _] Hf' Ho HG Hm Hsu Hp. split; [done| |done].
  intros k Hk HK. destruct (Hr k Hk HK) as (r & s & Hrs & Hsv). exists r, s.
  rewrite Ho by done. split; [done|]. eapply serves_other; [exact Hsv|by apply HG|done|].
  eapply sustains_mono; [|exact Hsu]. intros t Ht. by exists k.
Qed.

Lemma in_place_stays G m m' : in_place G m → stays (λ t, is_Some (G !! t)) m m' → in_place G m'.
Proof.
  intros Hp Hs t k st Ht. destruct (Hp t k st Ht) as (Hk & p & Hgp & Hr & Ha). split; [done|].
  destruct (Hs t p ltac:(by eexists) Hgp Hr) as (p' & ? & ? & _ & Haddr). exists p'.
  by rewrite Haddr.
Qed.

(** The stage of one transaction of socket [k] changes. *)
Lemma set_stage_off k t x G k' t' st :
  (∀ k0 st0, x = Some (k0, st0) → k0 = k) → (∀ k0 st0, G !! t = Some (k0, st0) → k0 = k) →
  k' ≠ k → set_stage t x G !! t' = Some (k', st) ↔ G !! t' = Some (k', st).
Proof.
  intros Hx Hg Hk. rewrite set_stage_Some. split.
  - intros [(-> & Hx')|(_ & ?)]; [|done]. by apply Hx in Hx'.
  - intros Ht. right. split; [|done]. intros ->. by apply Hg in Ht.
Qed.

Lemma in_place_set t x G m :
  in_place G m →
  (∀ k st, x = Some (k, st) → 0 ≤ k < width ∧
    ∃ p, gps (MemManager.st m) !! t = Some p ∧ (0 < ref_count p)%nat ∧
         Router.in_range (Router.TxnRouter_new (ranges k).1 (ranges k).2) (get_address (attrs p)) = true) →
  in_place (set_stage t x G) m.
Proof. intros Hp Hx t' k st [(-> & ->)|(_ & Ht)]%set_stage_Some; [by eapply Hx|by eapply Hp]. Qed.

(** What a router reads of the range. *)
Lemma in_range_layout k {E} (w : Router.world E) s a :
  rinv (ranges k) w s →
  Router.in_range (Router.router w) a = Router.in_range (Router.TxnRouter_new (ranges k).1 (ranges k).2) a.
Proof. intros [Hr _ _ _ _ _ _]. rewrite <- Hr. done. Qed.
End coupling.

(** ** The routers are conforming targets *)

Section targets.
Context `{TlmPayloadLaws, Gem5PacketLaws} {X : Type} `{!Layout X, !Outside X}.
Implicit Types (m : mem) (t : ptr) (k : Z) (G : protocol) (s : pipeline) (w : pworld X).

(** What the theorems rely on of gem5 and of what the routers call: the bus completes the debug transports
    that a router sends it. *)
Class Guests : Prop := {
  gu_memory k t d m x r m' x' : memory_b_transport k t d m x = (r, (m', x')) → touched m m';
  gu_bus k t d m x r m' x' : bus_b_transport k t d m x = (r, (m', x')) → touched m m';
  gu_dbg k t m x r m' x' : bus_transport_dbg k t m x = (r, (m', x')) →
    touched m m' ∧ ∀ p p', gps (MemManager.st m) !! t = Some p → gps (MemManager.st m') !! t = Some p' →
      Router.in_range (Router.TxnRouter_new (ranges k).1 (ranges k).2) (get_address (attrs p)) = true →
      get_data_length (attrs p') = r;
  gu_retry w : callback width None w (gem5_retry w);
  gu_resp t e w ok w' :
    held w t e → gem5_timing_resp (Packet e) w = (ok, w') →
    callback width (if ok then Some t else None) w w' ∧
    (gem5_willing (others (Port.env w)) → ok = true ∧ gem5_willing (others (Port.env w')));
}.

Lemma with_router_wp {A} k r a (f : Z → M (rworld X) A) w b w' (P : Prop) :
  with_router (Port.MultiSocket k) a f w = (b, w') → routers (Port.env w) !! k = Some r →
  wp (f k) (λ b' rw, b = b' → w' = leave k rw → P) (enter r w) → P.
Proof.
  unfold with_router, wp. intros Hrun Hr Hwp. rewrite Hr in Hrun.
  destruct (f k (enter r w)) as [[b'|e] rw]; [|done]. injection Hrun as <- <-. by apply Hwp.
Qed.

Lemma serves_enter k r G m s w :
  serves k r G m s → Port.memory w = m → rinv (ranges k) (enter r w) s.
Proof.
  intros [Hi _ _] <-. eapply rinv_world; [exact Hi|done..| |done]. apply (r_memory _ _ _ Hi).
Qed.

(** The port calls the router of a socket. *)
Lemma serves_called k r G G' s s' t ph d w :
  serves k r G (Port.memory w) s → pipeline_step s (Router.RFw t ph) = Some s' →
  live (Port.memory w) t → staged k G' s' →
  (∀ o, references o s'.2 = references o s.2) →
  serves k (state_of (called (enter r w) t ph d)) G' (Port.memory w) s'.
Proof.
  intros Hsv Hstep Hl Hst Href. pose proof (serves_enter _ _ _ _ _ _ Hsv eq_refl) as Hi.
  pose proof (rinv_called _ _ s s' t ph d Hi Hstep Hl) as Hi'. split; [|done|].
  - eapply rinv_world; [exact Hi'|done..| |done]. apply (r_memory _ _ _ Hi).
  - intros t'. simpl. rewrite Href. apply (sv_twice _ _ _ _ _ Hsv).
Qed.

Lemma leave_called k r t ph d w :
  leave k (called (enter r w) t ph d) =
  set_env (set_routers (insert k (state_of (called (enter r w) t ph d)))) w.
Proof. by destruct w. Qed.

(** A call through a socket changes nothing of the port, and no payload. *)
Lemma private_called k r t ph d w extra gone :
  private extra gone w (leave k (called (enter r w) t ph d)).
Proof. by split. Qed.

(** The rest of the system when a call of the port changed a stage of socket [k]. *)
Lemma joined_called k r r' G t x s' w :
  joined (λ _, True) G (Port.memory w) (Port.env w) → mm_ok (Port.memory w) →
  routers (Port.env w) !! k = Some r →
  (∀ k0 st0, x = Some (k0, st0) → k0 = k) → (∀ k0 st0, G !! t = Some (k0, st0) → k0 = k) →
  serves k r' (set_stage t x G) (Port.memory w) s' → in_place (set_stage t x G) (Port.memory w) →
  joined (λ _, True) (set_stage t x G) (Port.memory w) (set_routers (insert k r') (Port.env w)).
Proof.
  intros [Hf Hr Hp] Hm Hrk Hx Hg Hsv Hp'. split; [done| |done].
  intros k' Hk _. simpl. destruct (decide (k' = k)) as [->|Hne].
  - exists r', s'. by rewrite lookup_insert_eq.
  - destruct (Hr k' Hk I) as (r0 & s0 & Hr0 & Hsv0). exists r0, s0.
    rewrite lookup_insert_ne by done. split; [done|].
    eapply serves_other; [exact Hsv0| |done|by apply sustains_eq].
    intros t' st. by eapply set_stage_off.
Qed.

(** BEGIN_REQ on a free socket starts the pipeline of its router. *)
Lemma staged_begin k G s t :
  staged k G s → G !! t = None → channel_free MReq k G = true →
  pipeline_step s (Router.RFw t BEGIN_REQ) = Some (Some t, s.2) ∧
  staged k (set_stage t (Some (k, MReq)) G) (Some t, s.2).
Proof.
  intros Hs Ht Hfree. destruct s as [req cur]. rewrite channel_free_spec in Hfree.
  assert (req = None) as ->.
  { destruct req as [t0|]; [|done]. by destruct (Hfree t0 (proj2 (Hs t0 MReq) eq_refl)). }
  assert (∀ st, G !! t ≠ Some (k, st)) as Hno by (intros; congruence).
  split.
  - simpl. replace (in_flight t cur) with false; [done|].
    destruct cur as [[t' st]|]; [|done]. simpl.
    destruct st; try done; symmetry; apply bool_decide_eq_false; intros <-.
    + apply (Hno MWait), Hs. by left.
    + apply (Hno MWait), Hs. by right.
    + by apply (Hno MResp), Hs.
  - intros t' st. rewrite set_stage_Some. pose proof (Hs t' st) as Hs'. split.
    + intros [(-> & [= <-])|(Hne & Hg)]; [done|]. apply Hs' in Hg. by destruct st.
    + destruct st; simpl in *; [intros [= ->]; by left|..];
        intros Hat%Hs'; right; (split; [|done]); intros ->; congruence.
Qed.

(** END_RESP ends it. *)
Lemma staged_end k G s t :
  staged k G s → G !! t = Some (k, MResp) →
  pipeline_step s (Router.RFw t END_RESP) = Some (s.1, Some (t, Ended)) ∧
  staged k (set_stage t None G) (s.1, Some (t, Ended)).
Proof.
  intros Hs Ht. destruct s as [req cur]. pose proof (proj1 (Hs t MResp) Ht) as Hcur. simpl in Hcur.
  subst cur. split; [simpl; by rewrite bool_decide_true|].
  intros t' st. rewrite set_stage_Some. pose proof (Hs t' st) as Hs'. split.
  - intros [(-> & [=])|(Hne & Hg)]. apply Hs' in Hg. destruct st; simpl in *; [done|..].
    + by destruct Hg.
    + congruence.
  - destruct st; simpl in *; [|by intros [|]|done]. intros Hat%Hs'. right.
    split; [|done]. intros ->. congruence.
Qed.

(** *** The calls *)

Lemma joined_stays G m m' o :
  joined (λ _, True) G m o → mm_ok m' → sustains (λ t, is_Some (G !! t)) m m' →
  joined (λ _, True) G m' o.
Proof.
  intros Hj Hm Hs. eapply joined_other; [exact Hj|apply Hj|done..| |].
  - eapply sustains_mono; [|exact Hs]. intros t (k & _ & st & Ht). by eexists.
  - eapply in_place_stays; [apply Hj|by apply sustains_stays].
Qed.

(** A call of the port that ends at a router, which calls the outside and only notes that. *)
Lemma serves_noted k r G m s c :
  serves k r G m s → pipeline_step s c = Some s →
  serves k (RState (r_router r) (r_peq r) (r_done r) (r_process r) (r_history r ++ [c])) G m s.
Proof.
  intros [[Hb Hh] Hs Ht] Hc. split; [split; try done|done|done].
  simpl in *. by rewrite pipeline_snoc, Hh.
Qed.

Lemma after_outside k r c t w G m x :
  routers (Port.env w) !! k = Some r → (∀ s, pipeline_step s c = Some s) → mm_ok m →
  sustains (λ _, True) (Port.memory w) m →
  (∀ a, is_Some (pkts (MemManager.st (Port.memory w)) !! a) →
        is_Some (pkts (MemManager.st m) !! a)) →
  joined (λ _, True) G (Port.memory w) (Port.env w) →
  let w' := leave k (Router.World (r_router r) m (r_peq r) (r_done r) (r_process r)
    (Port.sc_time_stamp w) (set_env (set_others x) w) (r_history r ++ [c])) in
  private (Some t) None w w' ∧ coupled G (Port.memory w') (Port.env w').
Proof.
  intros Hr Hc Hm Hs Hpk Hj. split.
  - split; try done; simpl.
    + intros t' e _ (p & Hp & Hrc & Hx). destruct (Hs t' p I Hp Hrc) as (p' & Hp' & ? & Hx' & _).
      exists p'. split; [exact Hp'|]. rewrite Hx'. split; [lia|done].
    + intros t' e _ _ _. apply Hpk.
  - eapply (joined_stays _ (Port.memory w)); [|done|eapply sustains_mono; [|exact Hs]; done].
    destruct Hj as [Hf Hrs Hp]. split; [done| |done]. simpl. intros k' Hk _.
    destruct (Hrs k' Hk I) as (r' & s & Hr' & Hsv). destruct (decide (k' = k)) as [->|Hne].
    + simplify_eq. eexists _, s. rewrite lookup_insert_eq. split; [done|]. by apply serves_noted.
    + exists r', s. by rewrite lookup_insert_ne.
Qed.

Section guests.
Context `{!Guests}.

Lemma router_begin k t d w G answer w' :
  offered width w G k t → addressed w k t → channel_free MReq k G = true →
  Port.nb_transport_fw (Port.MultiSocket k) t BEGIN_REQ d w = (answer, w') →
  private (Some t) None w w' ∧ answer = (TLM_ACCEPTED, BEGIN_REQ, d) ∧
  coupled (<[t := (k, MReq)]> G) (Port.memory w') (Port.env w').
Proof.
  intros [_ Hm Hj Hk Ht (a & ph & Hp' & Hr' & _)] (p & Hp & Ha) Hfree Hrun.
  destruct (jn_router _ _ _ _ Hj k Hk I) as (r & s & Hr & Hsv).
  destruct (staged_begin k G s t (sv_staged _ _ _ _ _ Hsv) Ht Hfree) as [Hstep Hst].
  pose proof (serves_enter _ _ _ _ _ _ Hsv eq_refl) as Hi.
  eapply with_router_wp; [exact Hrun|exact Hr|]. eapply wp_called; [exact Hp| |intros -> ->].
  { rewrite (in_range_layout k _ s _ Hi). exact Ha. }
  split; [apply private_called|]. split; [done|]. rewrite leave_called.
  apply (joined_called k r _ G t (Some (k, MReq)) (Some t, s.2) w); try done.
  - by intros k0 st0 [= <- _].
  - intros k0 st0. congruence.
  - eapply serves_called; [exact Hsv|done| |done..]. by exists ph.
  - apply in_place_set; [apply Hj|]. intros k0 st0 [= <- <-]. split; [done|]. exists p.
    split; [done|]. split; [|done]. by simplify_eq.
Qed.

Lemma router_end k t d w G answer w' :
  mm_ok (Port.memory w) → coupled G (Port.memory w) (Port.env w) → G !! t = Some (k, MResp) →
  Port.nb_transport_fw (Port.MultiSocket k) t END_RESP d w = (answer, w') →
  private None None w w' ∧ others (Port.env w') = others (Port.env w) ∧
  coupled (delete t G) (Port.memory w') (Port.env w').
Proof.
  intros Hm Hj Ht Hrun. destruct (jn_in_place _ _ _ _ Hj t k _ Ht) as (Hk & p & Hp & Hrc & Ha).
  destruct (jn_router _ _ _ _ Hj k Hk I) as (r & s & Hr & Hsv).
  destruct (staged_end k G s t (sv_staged _ _ _ _ _ Hsv) Ht) as [Hstep Hst].
  pose proof (serves_enter _ _ _ _ _ _ Hsv eq_refl) as Hi.
  eapply with_router_wp; [exact Hrun|exact Hr|]. eapply wp_called; [exact Hp| |intros -> ->].
  { by rewrite (in_range_layout k _ s _ Hi). }
  split; [apply private_called|]. split; [done|]. rewrite leave_called.
  apply (joined_called k r _ G t None (s.1, Some (t, Ended)) w); try done.
  - intros k0 st0. congruence.
  - eapply serves_called; [exact Hsv|done|by exists p|done|]. intros o.
    pose proof (proj1 (sv_staged _ _ _ _ _ Hsv t MResp) Ht) as Hcur. simpl in Hcur. by rewrite Hcur.
  - by apply in_place_set; [apply Hj|].
Qed.

(** A call of the outside from a router. *)
Lemma wp_out {A} (f : mem → X → A * (mem * X)) c rw (Q : A → rworld X → Prop) :
  (∀ a m x, f (Router.memory rw) (others (Port.env (Router.env rw))) = (a, (m, x)) →
     Q a (Router.World (Router.router rw) m (Router.m_peq rw) (Router.target_done_event rw)
            (Router.process rw) (Router.now rw) (set_env (set_others x) (Router.env rw))
            (Router.history rw ++ [c]))) →
  wp (λ rw, let '(a, rw') := out_call f (Router.log_call c rw) in (Ok a, rw')) Q rw.
Proof.
  intros HQ. unfold wp, out_call. simpl. destruct (f _ _) as [a [m x]] eqn:Hf. by apply HQ.
Qed.

Lemma status_ok m t p :
  mm_ok m → gps (MemManager.st m) !! t = Some p → (0 < ref_count p)%nat →
  let m' := Mem (mgr m) (set_gps (insert t (set_response_status TLM_OK_RESPONSE p)) (MemManager.st m)) in
  mm_ok m' ∧ sustains (λ _, True) m m'.
Proof.
  intros Hm Hp Hr. destruct (same_use_status TLM_OK_RESPONSE p) as [Hu Hrf]. split.
  - eapply mm_ok_write; [done|exact Hp|done|by rewrite Hrf|]. autorewrite with gp. simpl.
    by eapply (ok_mm m Hm).
  - eapply sustains_write; [exact Hp|by rewrite Hrf|done].
Qed.

Lemma sustains_trans T m1 m2 m3 :
  sustains T m1 m2 → sustains T m2 m3 → sustains T m1 m3.
Proof.
  intros H12 H23 t p Ht Hp Hr. destruct (H12 t p Ht Hp Hr) as (p2 & Hp2 & Hr2 & He2 & Ha2).
  destruct (H23 t p2 Ht Hp2) as (p3 & Hp3 & Hr3 & He3 & Ha3); [lia|].
  exists p3. split; [done|]. split; [lia|]. split; congruence.
Qed.

Lemma router_blocking k t d w G r w' :
  offered width w G k t → Port.b_transport (Port.MultiSocket k) t d w = (r, w') →
  private (Some t) None w w' ∧ coupled G (Port.memory w') (Port.env w').
Proof.
  intros [_ Hm Hj Hk _ (a & p & Hp & Hrc & _)] Hrun.
  destruct (jn_router _ _ _ _ Hj k Hk I) as (rs & s & Hr & Hsv).
  eapply with_router_wp; [exact Hrun|exact Hr|]. unfold Router.b_transport.
  apply wp_bind. eapply wp_range; [exact Hp|]. destruct (Router.in_range _ _).
  - apply wp_bind. eapply wp_out. simpl. intros d' m x Hto%gu_memory.
    destruct (to_payload _ _ Hto t p Hp) as (p1 & Hp1 & Hr1 & _).
    apply wp_bind, wp_zoom. eapply wp_gp_do; [exact Hp1|]. apply wp_ret. intros -> ->.
    destruct (status_ok m t p1 (to_ok _ _ Hto Hm) Hp1 ltac:(lia)) as [Hm' Hs'].
    apply (after_outside k rs (Router.RBlock t) t w G); [done|by intros []|done| | |done].
    + eapply sustains_trans; [by apply touched_sustains|exact Hs'].
    + apply (to_packet _ _ Hto).
  - eapply wp_out. simpl. intros d' m x Hto%gu_bus. intros -> ->.
    apply (after_outside k rs _ t w G); [done|by intros []|by apply Hto| | |done].
    + by apply touched_sustains.
    + apply (to_packet _ _ Hto).
Qed.

Lemma router_debug k t w G r w' :
  offered width w G k t → addressed w k t →
  Port.transport_dbg (Port.MultiSocket k) t w = (r, w') →
  private (Some t) None w w' ∧ coupled G (Port.memory w') (Port.env w') ∧
  (∀ p, gps (MemManager.st (Port.memory w')) !! t = Some p → get_data_length (attrs p) = r).
Proof.
  intros [_ Hm Hj Hk _ _] (p & Hp & Ha) Hrun.
  destruct (jn_router _ _ _ _ Hj k Hk I) as (rs & s & Hr & Hsv).
  pose proof (serves_enter _ _ _ _ _ _ Hsv eq_refl) as Hi.
  eapply with_router_wp; [exact Hrun|exact Hr|]. unfold Router.transport_dbg.
  apply wp_bind. eapply wp_range; [exact Hp|]. rewrite (in_range_layout k _ s _ Hi), Ha.
  eapply wp_out. simpl. intros d' m x [Hto Hlen]%gu_dbg. intros -> ->.
  apply Logic.and_assoc. split; [|intros p' Hp'; by apply (Hlen p p')].
  apply (after_outside k rs _ t w G); [done|by intros []|by apply Hto| | |done].
  - by apply touched_sustains.
  - apply (to_packet _ _ Hto).
Qed.

(** *** The instance *)

#[export] Instance routers_conform : Conforming width.
Proof.
  split.
  - intros G m m' o Hj Hm He. eapply joined_stays; [exact Hj|done|by apply sustains_eq].
  - intros k t d w G answer w' Hof Had Hfr Hrun.
    destruct (router_begin k t d w G answer w' Hof Had Hfr Hrun) as (Hp & -> & Hc).
    split; [done|]. split; [done|]. intros G' Hs. simpl in Hs.
    rewrite (of_new _ _ _ _ _ Hof), Hfr in Hs. simpl in Hs. by injection Hs as <-.
  - intros k t d w G r w' _ Hm Hj Ht Hrun.
    destruct (router_end k t d w G r w' Hm Hj Ht Hrun) as (Hp & Ho & Hc).
    split; [done|]. split; [|done]. simpl. by rewrite Ho.
  - apply gu_retry.
  - intros t e w ok w' Hh Hrun. by eapply gu_resp.
  - intros k t d w G r w'. apply router_blocking.
  - intros k t w G r w'. apply router_debug.
Qed.
End guests.
End targets.

(** ** The port is a conforming initiator *)

Section initiator.
Context `{TlmPayloadLaws, Gem5PacketLaws} {X : Type} `{!Layout X, !Outside X}.
Implicit Types (m : mem) (t : ptr) (k : Z) (G : protocol) (s : pipeline) (w : pworld X) (rw : rworld X).

Lemma set_memory_same w : Port.set_memory (Port.memory w) w = w.
Proof. by destruct w. Qed.

(** The invariant of the port does not depend on the state outside. *)
Lemma inv_set_env N cur w G f : inv N cur w G → inv N cur (set_env f w) G.
Proof. by intros []. Qed.

Lemma inv_stays N w G m :
  inv N None w G → mm_ok m → stays (λ t, is_Some (G !! t)) (Port.memory w) m →
  (∀ a, is_Some (pkts (MemManager.st (Port.memory w)) !! a) → is_Some (pkts (MemManager.st m) !! a)) →
  inv N None (Port.set_memory m w) G.
Proof.
  intros Hi Hm Hs Hp. apply (inv_private N None w G None None); [done| |done]. split; try done; simpl.
  - intros t e [Htr|[=]] (p & Hgp & Hr & He). rewrite (inv_tracked _ _ _ _ _ Hi) in Htr.
    destruct (Hs t p Htr Hgp Hr) as (p' & ? & ? & He' & _). exists p'. by rewrite He'.
  - intros t e _ _ _. apply Hp.
Qed.

(** A change of memory and of the pipeline that the port does not notice. *)
Lemma carried_memory k s s' l l' m m' w G :
  carried k s l m w G → mm_ok m' → stays (λ t, is_Some (G !! t)) m m' →
  sustains (λ t, ∃ k', k' ≠ k ∧ of_socket k' G t) m m' →
  (∀ a, is_Some (pkts (MemManager.st m) !! a) → is_Some (pkts (MemManager.st m') !! a)) →
  staged k G s' → (∀ t, t ∈ l' → of_socket k G t ∧ twice m' t) →
  carried k s' l' m' w G.
Proof.
  intros [Hi Hj _ _] Hm Hst Hsu Hp Hs' Hl. split; [| |done|done].
  - change (Port.set_memory m' w) with (Port.set_memory m' (Port.set_memory m w)).
    by apply inv_stays.
  - eapply joined_other; [exact Hj|apply Hj|done..|]. eapply in_place_stays; [apply Hj|done].
Qed.

Lemma carried_others k s l m w G x :
  carried k s l m w G → carried k s l m (set_env (set_others x) w) G.
Proof.
  intros [Hi [Hf Hr Hp] Hs Hl]. split; [| |done|done].
  - by apply (inv_set_env _ _ (Port.set_memory m w)).
  - by split.
Qed.

(** A phase that the router sends. *)
Lemma backward_run t ph d rw :
  ∃ w', notified (Port.log_call (Port.CallBw t ph d) (outside rw)) t ph w' ∧
    backward t ph d rw = ((TLM_ACCEPTED, ph, d),
      Router.World (Router.router rw) (Port.memory w') (Router.m_peq rw)
        (Router.target_done_event rw) (Router.process rw) (Router.now rw) w' (Router.history rw)).
Proof.
  destruct (wp_Ok _ _ _ (wp_backward (outside rw) t ph d
    (λ r w', r = (TLM_ACCEPTED, ph, d) ∧ notified _ t ph w') (λ w' Hn, conj eq_refl Hn)))
    as (r & w' & Hrun & -> & Hn).
  exists w'. split; [exact Hn|]. unfold backward. by rewrite Hrun.
Qed.

Lemma rprivate_backward t ph d rw w' :
  notified (Port.log_call (Port.CallBw t ph d) (outside rw)) t ph w' →
  rprivate rw (Router.World (Router.router rw) (Port.memory w') (Router.m_peq rw)
    (Router.target_done_event rw) (Router.process rw) (Router.now rw) w' (Router.history rw)).
Proof. intros Hn. pose proof (nt_memory _ _ _ _ Hn) as Hm. simpl in Hm. by split; simpl; rewrite ?Hm. Qed.

Lemma carried_backward k s s' l m w G t ph d st st' w' :
  carried k s l m w G → G !! t = Some (k, st) →
  mon_step G (Port.CallBw t ph d) = Some (set_stage t (Some (k, st')) G) →
  staged k (set_stage t (Some (k, st')) G) s' →
  notified (Port.log_call (Port.CallBw t ph d) (Port.set_memory m w)) t ph w' →
  carried k s' l (Port.memory w') w' (set_stage t (Some (k, st')) G).
Proof.
  intros [Hi Hj _ Hl] Ht Hstep Hs Hn. pose proof Hn as [_ Hm _ He _ _ _ _ _]. simpl in Hm, He.
  rewrite Hm. split; [| |done|].
  - rewrite <- Hm, set_memory_same. by eapply inv_backward.
  - rewrite He. eapply (joined_other _ _ _ m); [exact Hj|apply Hj|done| | |by apply sustains_eq|].
    + intros k' Hk' t' st0. eapply set_stage_off; [|intros; by simplify_eq|done].
      by intros k0 st1 [= <- _].
    + apply Hi.
    + apply in_place_set; [apply Hj|]. intros k0 st0 [= <- _].
      by apply (jn_in_place _ _ _ _ Hj t k st).
  - intros t' Hin. destruct (Hl t' Hin) as [[st0 Ht'] Htw]. split; [|done].
    destruct (decide (t' = t)) as [->|Hne]; [exists st'|exists st0]; apply set_stage_Some; auto.
Qed.

(** *** The laws of an initiator *)

(** END_REQ. *)
Lemma port_end_req k t cur l m w G d w' :
  carried k (Some t, cur) l m w G → idle_pipeline cur = true →
  notified (Port.log_call (Port.CallBw t END_REQ d) (Port.set_memory m w)) t END_REQ w' →
  ∃ G', carried k (None, Some (t, Accepted)) l (Port.memory w') w' G'.
Proof.
  intros Hc Hidle Hn. pose proof (ca_staged _ _ _ _ _ _ Hc) as Hs.
  assert (G !! t = Some (k, MReq)) as Ht by (by apply Hs).
  eexists. eapply (carried_backward k _ _ l m w G t END_REQ d MReq MWait); [done..| | |done].
  - simpl. by rewrite Ht.
  - intros t' st. rewrite set_stage_Some. pose proof (Hs t' st) as Hs'. split.
    + intros [(-> & [= <-])|(Hne & Hg)]; [by left|]. apply Hs' in Hg.
      destruct cur as [[t0 []]|]; destruct st; simpl in *; try done; try congruence; by destruct Hg.
    + destruct st; simpl; [done|intros [[= ->]|[=]]; by left|done].
Qed.

(** BEGIN_RESP. *)
Lemma port_begin_resp k t req l m w G d w' :
  carried k (req, Some (t, Executed)) l m w G →
  notified (Port.log_call (Port.CallBw t BEGIN_RESP d) (Port.set_memory m w)) t BEGIN_RESP w' →
  ∃ G', carried k (req, Some (t, Answered)) l (Port.memory w') w' G'.
Proof.
  intros Hc Hn. pose proof (ca_staged _ _ _ _ _ _ Hc) as Hs.
  assert (G !! t = Some (k, MWait)) as Ht by (apply Hs; by right).
  assert (channel_free MResp k G = true) as Hfree.
  { apply channel_free_intro. intros t' Ht'%Hs. done. }
  eexists. eapply (carried_backward k _ _ l m w G t BEGIN_RESP d MWait MResp); [done..| | |done].
  - simpl. by rewrite Ht, Hfree.
  - intros t' st. rewrite set_stage_Some. pose proof (Hs t' st) as Hs'. split.
    + intros [(-> & [= <-])|(Hne & Hg)]; [done|]. apply Hs' in Hg.
      destruct st; simpl in *; [done|destruct Hg; congruence|done].
    + destruct st; simpl in *; [intros Hr; right|by intros [|]|intros [= ->]; by left].
      split; [|by apply Hs']. intros ->. apply Hs' in Hr. congruence.
Qed.

(** Every other change keeps all payloads in use. *)
Lemma carried_sustains k s s' l l' m m' w G :
  carried k s l m w G → mm_ok m' → sustains (λ _, True) m m' →
  (∀ a, is_Some (pkts (MemManager.st m) !! a) → is_Some (pkts (MemManager.st m') !! a)) →
  staged k G s' → (∀ t, t ∈ l' → of_socket k G t ∧ (t ∈ l ∨ twice m' t)) →
  carried k s' l' m' w G.
Proof.
  intros Hc Hm Hs Hp Hst Hl. eapply carried_memory; [exact Hc|done| | |done..|].
  - apply sustains_stays. eapply sustains_mono; [|exact Hs]. done.
  - eapply sustains_mono; [|exact Hs]. done.
  - intros t Hin. destruct (Hl t Hin) as [Ho [Hin'|Htw]]; [|done]. split; [done|].
    eapply sustains_twice; [exact Hs|done|]. by apply (ca_twice _ _ _ _ _ _ Hc).
Qed.

Lemma port_acquire k t s l m w G p :
  carried k s l m w G → s.1 = Some t → gps (MemManager.st m) !! t = Some p →
  carried k s (l ++ [t]) (Mem (mgr m) (set_gps (insert t (gp_inc p)) (MemManager.st m))) w G.
Proof.
  intros Hc Hs Hp. pose proof (i_mem _ _ _ _ (ca_inv _ _ _ _ _ _ Hc)) as Hm. simpl in Hm.
  assert (G !! t = Some (k, MReq)) as Ht by (by apply (ca_staged _ _ _ _ _ _ Hc)).
  destruct (jn_in_place _ _ _ _ (ca_joined _ _ _ _ _ _ Hc) t k _ Ht) as (_ & p0 & Hp0 & Hr & _).
  simplify_eq. destruct (same_use_inc p) as [Hu Hrf].
  destruct (live_do m t gp_inc p Hm Hp Hr) as [Hm' _]; [by right|by autorewrite with gp|].
  eapply carried_sustains; [exact Hc|done| |done|apply (ca_staged _ _ _ _ _ _ Hc)|].
  - eapply sustains_write; [exact Hp|lia|done].
  - intros t' [Hin|Hin]%elem_of_app.
    + split; [by apply (ca_twice _ _ _ _ _ _ Hc)|by left].
    + apply list_elem_of_singleton in Hin as ->. split; [by exists MReq|]. right.
      exists (gp_inc p). simpl. rewrite lookup_insert_eq. split; [done|lia].
Qed.

Lemma port_release k t s l m w G p m' :
  carried k s (t :: l) m w G → t ∉ l → gps (MemManager.st m) !! t = Some p → released m t p m' →
  carried k s l m' w G.
Proof.
  intros Hc Hnot Hp [(p' & Hp' & Hr' & Hu) Hoth Hpk _ _ Hok].
  destruct (ca_twice _ _ _ _ _ _ Hc t ltac:(by left)) as [[st Ht] (p0 & Hp0 & Hr)].
  simplify_eq. destruct (Hu ltac:(lia)) as (He & Ha & _).
  eapply carried_memory; [exact Hc|done| | |by rewrite Hpk|apply (ca_staged _ _ _ _ _ _ Hc)|].
  - intros t' q _ Hq Hqr. destruct (decide (t' = t)) as [->|Hne].
    + simplify_eq. exists p'. split; [done|]. split; [lia|by split].
    + exists q. by rewrite Hoth.
  - apply sustains_eq. intros t' (k' & Hk & st' & Ht'). apply Hoth. intros ->. congruence.
  - intros t' Hin. destruct (ca_twice _ _ _ _ _ _ Hc t' ltac:(by right)) as [Ho (q & Hq & Hqr)].
    split; [done|]. exists q. rewrite Hoth; [done|]. by intros ->.
Qed.

Context `{!Guests}.

Lemma port_memory k t d m w x r m' s l G rest :
  carried k s l m w G → memory_b_transport k t d m (others (Port.env w)) = (r, (m', x)) →
  s = (rest, Some (t, Accepted)) →
  carried k (rest, Some (t, Executed)) l m' (set_env (set_others x) w) G ∧ touched m m'.
Proof.
  intros Hc Hto%gu_memory ->. split; [|done]. apply carried_others.
  pose proof (i_mem _ _ _ _ (ca_inv _ _ _ _ _ _ Hc)) as Hm. simpl in Hm.
  pose proof (ca_staged _ _ _ _ _ _ Hc) as Hs.
  eapply carried_sustains; [exact Hc|by apply Hto|by apply touched_sustains|apply (to_packet _ _ Hto)| |].
  - intros t' st. rewrite (Hs t' st). destruct st; simpl; intuition congruence.
  - intros t' Hin. split; [by apply (ca_twice _ _ _ _ _ _ Hc)|by left].
Qed.

Lemma port_initiates k : @Initiator _ _ _ (behind k) (client k).
Proof.
  split.
  - intros t d rw r rw' cur l _ Hidle Hin Hm [G Hc] Hrun.
    destruct (backward_run t END_REQ d rw) as (w' & Hn & Heq).
    simpl in Hrun. rewrite Heq in Hrun. injection Hrun as <- <-.
    split; [by eapply rprivate_backward|]. by eapply port_end_req.
  - intros t d rw r rw' req l _ Hin Hm [G Hc] Hrun.
    destruct (backward_run t BEGIN_RESP d rw) as (w' & Hn & Heq).
    simpl in Hrun. rewrite Heq in Hrun. injection Hrun as <- <-.
    split; [by eapply rprivate_backward|]. left. split; [done|]. by eapply port_begin_resp.
  - intros t d rw r rw' req l Hm Hin [G Hc] Hrun. revert Hrun. simpl. unfold out_call.
    destruct (memory_b_transport _ _ _ _ _) as [a [m x]] eqn:Hmem. intros [= <- <-].
    destruct (port_memory _ _ _ _ _ _ _ _ _ _ _ _ Hc Hmem eq_refl) as [Hc' Hto].
    split; [|by exists G]. split; try done; simpl; [apply (to_ok _ _ Hto)|].
    intros s t' _ _. by eapply (sustains_live (λ _, True)); [apply touched_sustains|].
  - intros t s l m w p [G Hc] Hs _ Hp. exists G. by apply port_acquire.
  - intros t s l m w p v [G Hc] Hin Hp. exists G.
    pose proof (i_mem _ _ _ _ (ca_inv _ _ _ _ _ _ Hc)) as Hm. simpl in Hm.
    destruct (ca_twice _ _ _ _ _ _ Hc t Hin) as [_ (p0 & Hp0 & Hr)]. simplify_eq.
    destruct (same_use_status v p) as [Hu Hrf].
    eapply carried_sustains; [exact Hc| | |done|apply (ca_staged _ _ _ _ _ _ Hc)|].
    + eapply mm_ok_write; [done|exact Hp|lia|lia|]. autorewrite with gp. by eapply (ok_mm m Hm).
    + eapply sustains_write; [exact Hp|lia|done].
    + intros t' Hin'. split; [by apply (ca_twice _ _ _ _ _ _ Hc)|by left].
  - intros t s l m w p m' [G Hc] Hnot Hp Hre. exists G. by eapply port_release.
Qed.

(** ** A step of a router in the system *)

(** The account of the port, split off for router [k], and put back. *)
Lemma winv_carried k r s w G :
  0 ≤ k < width → winv width None w G → routers (Port.env w) !! k = Some r →
  serves k r G (Port.memory w) s →
  carried k s (references (Router.end_req_pending (r_router r)) s.2) (Port.memory w) w G.
Proof.
  intros Hk [Hi [Hf Hr Hp]] Hrk Hsv. split.
  - by rewrite set_memory_same.
  - split; [done| |done]. intros k' Hk' _. by apply Hr.
  - apply Hsv.
  - intros t Hin. split; [|by apply (sv_twice _ _ _ _ _ Hsv)].
    eapply staged_in_use; [apply Hsv|]. eapply (rinv_references _ (alone r (Port.memory w)));
      [apply Hsv|exact Hin].
Qed.

Lemma carried_winv k s rw G :
  rinv (ranges k) rw s →
  carried k s (references (Router.end_req_pending (Router.router rw)) s.2) (Router.memory rw)
    (Router.env rw) G →
  winv width None (leave k rw) G.
Proof.
  intros Hi [Hpi [Hf Hr Hp] Hs Ht]. split; [by apply inv_set_env|]. split; [done| |done].
  intros k' Hk' _. destruct (decide (k' = k)) as [->|Hne].
  - exists (state_of rw), s. simpl. rewrite lookup_insert_eq. split; [done|]. split; [|done|].
    + eapply rinv_world; [exact Hi|done..| |done]. apply (r_memory _ _ _ Hi).
    + intros t Hin. by apply Ht.
  - destruct (Hr k' Hk' Hne) as (r & s' & Hr' & Hsv). exists r, s'. simpl.
    by rewrite lookup_insert_ne.
Qed.

(** What a router still has to do: the entries of its queue, and what its pipeline leads to. *)
Definition rload (r : rstate) : nat :=
  (length (r_peq r) + match pipeline_of (r_history r) with Some s => pipeline_load s | None => 0 end)%nat.

Lemma rload_load {E} range (rw : Router.world E) s :
  rinv range rw s → load rw s = (rload (RState (Router.router rw) (Router.m_peq rw) (Router.target_done_event rw)
    (Router.process rw) (Router.history rw)) + sent (Router.history rw))%nat.
Proof. intros Hi. unfold load, rload. simpl. by rewrite (TxnRouterProps.r_history _ _ _ Hi). Qed.

(** A step keeps the invariant, and costs the router more than the phases it sends. *)
Lemma wp_router_step k r a w G :
  0 ≤ k < width → winv width None w G → routers (Port.env w) !! k = Some r →
  renabled a r →
  wp (router_step k a) (λ _ w', ∃ G' rw, winv width None w' G' ∧ w' = leave k rw ∧
    snd (@TxnRouterProps.run _ _ _ (behind k) (router_action a) (enter r w)) = rw ∧
    (rload (state_of rw) + sent (Router.history rw) < rload r + sent (r_history r))%nat) w.
Proof.
  intros Hk Hi Hr Hen. destruct (jn_router _ _ _ _ (v_coupled _ _ _ _ Hi) k Hk I)
    as (r' & s & Hr' & Hsv). simplify_eq.
  pose proof (port_initiates k) as Hinit.
  assert (@rwinv _ _ _ (client k) (ranges k) (enter r w) s) as Hrw.
  { split; [by eapply serves_enter|]. exists G. by apply winv_carried. }
  assert (@TxnRouterProps.enabled _ _ _ (client k) (router_action a) (enter r w)) as Hen'
    by (by destruct a).
  assert (internal (router_action a)) as Ha by (by destruct a).
  pose proof (@wp_internal _ _ _ _ (behind k) (client k) (ranges k) Hinit (enter r w) s
    (router_action a) Hrw Ha Hen') as Hwp.
  unfold wp, router_step in *. rewrite Hr.
  destruct (TxnRouterProps.run (router_action a) (enter r w)) as [[[]|e] rw]; [|done].
  destruct Hwp as (s' & [Hi' [G' Hc']] & Hload). exists G', rw.
  split; [by eapply carried_winv|]. split; [done|]. split; [done|].
  by rewrite (rload_load _ rw s' Hi'), (rload_load _ _ s (rv_inv _ _ _ Hrw)) in Hload.
Qed.
End initiator.
