(* ===== verification/SystemSpec.v ===== *)
(** * What the slave port and its routers promise together

    The closed system of a port, the routers of its sockets, gem5 and the memories: every run of it,
    in any interleaving of gem5's requests, events, queue deliveries and threads, and the theorems
    about them. *)

From S2P Require Import Prelude StdMap Tlm Concrete MemManager BlockingHelper SocketMap Transactor.
From S2P Require Import SlavePort SlaveProtocol SlavePortProps SlavePortSpec TxnRouter TxnRouterProps.
From S2P Require Import System SystemProps.
Import System.

(** ** Runs *)

Section runs.
Context `{TlmPayloadLaws, Gem5PacketLaws} {X : Type} `{!Layout X, !Outside X}.
Implicit Types (w : pworld X) (t : ptr) (k : Z) (a : saction).

(** The calls of [nb_transport_bw] are those of the routers. *)
Definition own (act : action) : Prop :=
  match act with ABackward _ _ _ => False | _ => True end.

Definition senabled a w : Prop :=
  match a with
  | PortStep act => own act ∧ SlavePortSpec.enabled width act w
  | RouterStep k x => 0 ≤ k < width ∧ ∃ r, routers (Port.env w) !! k = Some r ∧ renabled x r
  end.

Definition rstate_new (range : Z * Z) : rstate :=
  RState (Router.TxnRouter_new range.1 range.2) [] None Router.Waiting [].

Record sinitial w : Prop := {
  si_port : SlavePortSpec.initial width w;
  si_failure : failure (Port.env w) = None;
  si_routers k : 0 ≤ k < width → routers (Port.env w) !! k = Some (rstate_new (ranges k));
}.

(** gem5 works on its own state and on packets. *)
Record gem5_change w w' : Prop := {
  gc_private : private None None w w';
  gc_payloads : gps (MemManager.st (Port.memory w')) = gps (MemManager.st (Port.memory w));
  gc_routers : routers (Port.env w') = routers (Port.env w);
  gc_failure : failure (Port.env w') = failure (Port.env w);
}.

Inductive sreachable : pworld X → Prop :=
| sreach_initial w : sinitial w → sreachable w
| sreach_step w a w' : sreachable w → senabled a w → srun a w = (Ok tt, w') → sreachable w'
| sreach_gem5 w w' : sreachable w → gem5_change w w' → sreachable w'
| sreach_time w tick sc : sreachable w → sreachable (set_time tick sc w).

Lemma initial_joined w : sinitial w → joined (λ _, True) ∅ (Port.memory w) (Port.env w).
Proof.
  intros [Hp Hf Hr]. split; [done| |by intros t k st]. intros k Hk _.
  exists (rstate_new (ranges k)), (None, None). split; [by apply Hr|]. split.
  - apply initial_rinv. split; try done; apply Hp.
  - intros t st. rewrite lookup_empty. split; [done|]. by destruct st; [|intros []|].
  - by intros t ?%not_elem_of_nil.
Qed.

Section guests.
Context `{!Guests}.

(** gem5 asks for refused responses and refuses one again. *)
Definition refuses a w : Prop := a = PortStep ARespRetry ∧ ¬ gem5_willing (others (Port.env w)).

Lemma wpe_saction w G a :
  winv width None w G → senabled a w →
  wpe (λ e _, refuses a w ∧ e = SC_ASSERT "!need_retry") (srun a) (λ _ w', ∃ G', winv width None w' G') w.
Proof.
  intros Hi. destruct a as [act|k x]; simpl.
  - intros [_ Hen]. eapply wpe_mono; [exact (wpe_action width w G act Hi Hen)|..].
    + by intros e w' [-> [-> Hno]].
    + by intros [] w' [? _].
  - intros (Hk & r & Hr & Hen). apply wpe_wp. eapply wp_mono; [by eapply wp_router_step|].
    intros _ w' (G' & _ & ? & _). by exists G'.
Qed.

(** A request of gem5 that is for no address of the memory behind the router of its socket. *)
Definition stray w (a : ptr) (pkt : packet) : Prop :=
  caught_up w ∧ pkts (MemManager.st (Port.memory w)) !! a = Some pkt ∧ cacheResponding pkt = false ∧
  (isRead pkt || isWrite pkt) = true ∧ 0 ≤ socket_of w pkt < width ∧ ¬ addressable (socket_of w pkt) (getAddr pkt).

(** The router behind socket [k] stops the run. *)
Lemma wp_stray_call w G t k delay (Q : bool → pworld X → Prop) addr :
  winv width None w G → offered width w G k t → at_address w t addr → ¬ addressable k addr →
  (∀ w', failure (Port.env w') = Some Router.out_of_range → Q true w') →
  wp (s ← Port.bound_socket k; answer ← Port.call_fw s t BEGIN_REQ delay;
      Port.after_begin_req k t answer;; mret true) Q w.
Proof.
  intros [Hi Hj] [_ _ _ Hk _ _] (p & Hp & Hadr) Hno HQ. pose proof (i_config _ _ _ _ Hi) as Hc.
  apply wp_bind. eapply wp_bound_socket; [exact Hc|exact Hk|]. apply wp_bind, wp_call_fw. intros answer w1 Hrun.
  destruct (jn_router _ _ _ _ Hj k Hk I) as (r & s & Hr & Hsv). simpl in Hrun. rewrite Hr in Hrun.
  assert (Router.in_range (r_router r) addr = false) as Hin.
  { rewrite <- (not_true_iff_false _). intros Hin. apply Hno. simpl.
    by rewrite <- (in_range_layout k (alone r (Port.memory w)) s addr (sv_rinv _ _ _ _ _ Hsv)). }
  rewrite (stray_called (enter r w) t p BEGIN_REQ delay Hp) in Hrun by (simpl; by rewrite Hadr).
  injection Hrun as <- <-. apply wp_bind. unfold Port.after_begin_req.
  apply wp_bind, wp_check; [by rewrite bool_decide_true|]. apply wp_bind, wp_gets. simpl.
  rewrite (c_cache _ _ Hc), andb_false_r. apply wp_zoom. simpl.
  eapply Helper.wp_updateBlockingMap; [apply (c_helper _ _ Hc)|lia|by intros; apply (c_helper _ _ Hc)|].
  by apply wp_ret, HQ.
Qed.

Lemma wp_stray w G (a : ptr) pkt :
  winv width None w G → stray w a pkt →
  wp (srun (PortStep (ARequest a))) (λ _ w',
    failure (Port.env w') = match Helper.slot Helper.Request (helper w) (socket_of w pkt) with
                            | Some _ => None
                            | None => Some Router.out_of_range
                            end) w.
Proof.
  intros Hi (Hcu & Ha & Hcr & Hrw & Hk & Hno). simpl. apply wp_bind.
  eapply (wp_recvTimingReq_cases width None w G a pkt); [done..|]. cbv zeta.
  destruct (Helper.slot Helper.Request (helper w) (socket_of w pkt)) as [t|] eqn:Hs.
  - intros _. apply wp_ret. simpl. apply (jn_failure _ _ _ _ (v_coupled _ _ _ _ Hi)).
  - eapply (wp_send_begin_req_call width); [exact Hi|exact Ha|done..|].
    intros w2 t Hi2 _ Hof _ _ _ _ _ Hat. eapply wp_stray_call; [exact Hi2|exact Hof|exact Hat|exact Hno|].
    intros w' Hf. by apply wp_ret.
Qed.

Lemma gem5_winv w w' G : winv width None w G → gem5_change w w' → winv width None w' G.
Proof.
  intros [Hi [Hf Hr Hp]] [Hpr Hg Hrs Hfl].
  assert (inv width None w' G) as Hi' by (by eapply inv_private).
  split; [done|]. split; [congruence| |].
  - intros k Hk _. destruct (Hr k Hk I) as (r & s & Hrk & Hsv). exists r, s.
    rewrite Hrs. split; [done|]. eapply serves_other; [exact Hsv|done|apply Hi'|].
    apply sustains_eq. intros t _. by rewrite Hg.
  - eapply in_place_stays; [exact Hp|]. apply sustains_stays, sustains_eq. intros t _. by rewrite Hg.
Qed.

Lemma sreachable_inv w : sreachable w → ∃ G, winv width None w G.
Proof.
  induction 1 as [w Hw|w a w' _ [G Hi] Hen Hrun|w w' _ [G Hi] Hg|w tick sc _ [G Hi]].
  - exists ∅. split; [by apply initial_inv, si_port|by apply initial_joined].
  - pose proof (wpe_saction w G a Hi Hen) as Hwp. unfold wpe in Hwp. by rewrite Hrun in Hwp.
  - exists G. by eapply gem5_winv.
  - exists G. by apply winv_set_time.
Qed.

(** ** Properties *)

(** C3: The port and the routers together, in which gem5 acts at SystemC's time and sends the packets that
    the port is made for, and the memories are as [Guests] says.  In every state reached while the requests
    were for the memory behind the router of their socket and gem5 took the events of each transaction in the
    order of their notification: every step that gem5, the event queue of the port, the queue of a router or
    its thread can take so, whatever the interleaving, runs without an error on either side and leads to
    such a state; but when gem5 asks for refused responses and refuses one again, the port's assertion
    fails.  A request outside its router's memory stops the run with the router's fatal report, unless its
    socket is taken: then it is refused.  And an event taken out of order is BEGIN_RESP before END_REQ, after
    which END_REQ fails an assertion. *)
Theorem system_safe w :
  sreachable w →
  (∀ a, senabled a w →
     (∃ w', srun a w = (Ok tt, w') ∧ failure (Port.env w') = None ∧ sreachable w') ∨
     (refuses a w ∧ fails (srun a) (SC_ASSERT "!need_retry") w)) ∧
  (∀ (a : ptr) pkt, stray w a pkt → ∃ w', srun (PortStep (ARequest a)) w = (Ok tt, w') ∧
     failure (Port.env w') = match Helper.slot Helper.Request (helper w) (socket_of w pkt) with
                             | Some _ => None
                             | None => Some Router.out_of_range
                             end) ∧
  (∀ pe t ph, caught_up w → scheduled w pe t ph →
     senabled (PortStep (AEvent pe)) w ∨ overtakes (AEvent pe) w).
Proof.
  intros Hr. destruct (sreachable_inv w Hr) as [G Hi]. split; [|split].
  - intros a Hen. destruct (wpe_cases _ _ _ _ (wpe_saction w G a Hi Hen))
      as [([] & w' & Hrun & G' & Hi')|(e & w' & Hrun & Href & ->)].
    + left. exists w'. split; [done|]. split; [apply (v_coupled _ _ _ _ Hi')|]. by eapply sreach_step.
    + right. split; [done|]. unfold fails. by rewrite Hrun.
  - intros a pkt Hst. destruct (wp_Ok _ _ _ (wp_stray w G a pkt Hi Hst)) as ([] & w' & Hrun & Hf). by exists w'.
  - intros pe t ph Hcu Hs.
    destruct (enabled_or_overtakes width w G (AEvent pe) Hi) as [Hen|Hov]; [split; eauto|by left|by right].
Qed.

(** C6: The account that the port's calls give of its transactions and the pipeline of each router
    always agree: a transaction holds the request channel of its socket exactly while its router
    owes END_REQ, waits for a response exactly while the router has it at the memory, and holds
    the response channel exactly while the router waits for END_RESP; and while the router works
    on it, its payload has a reference of the port and one of the router. *)
Theorem system_agrees w :
  sreachable w →
  ∃ G, monitor (Port.calls w) = Some G ∧
    ∀ k, 0 ≤ k < width → ∃ r s, routers (Port.env w) !! k = Some r ∧
      pipeline_of (r_history r) = Some s ∧ staged k G s ∧
      ∀ t, s.2 = Some (t, Accepted) ∨ s.2 = Some (t, Executed) → twice (Port.memory w) t.
Proof.
  intros Hr. destruct (sreachable_inv w Hr) as [G [Hi Hj]]. exists G. split; [apply Hi|].
  intros k Hk. destruct (jn_router _ _ _ _ Hj k Hk I) as (r & s & Hrk & [Hs Hst Htw]).
  exists r, s. split; [done|]. split; [apply Hs|]. split; [done|].
  intros t Ht. apply Htw. unfold references. apply elem_of_app. left.
  by destruct Ht as [-> | ->]; left.
Qed.

(** The state once gem5 has caught up with SystemC. *)
Definition catch_up w : pworld X := set_time (Port.sc_time_stamp w) (Port.sc_time_stamp w) w.

(** The first scheduled event of a transaction. *)
Lemma pending_event w t pe ph l :
  pending w t ((pe, ph) :: l) → first_event w pe t ph.
Proof.
  intros [Hs Hl]. split; [apply Hl; by left|]. intros pe' ph' Hsch%Hl.
  apply elem_of_cons in Hsch as [[= -> ->]|Hin]; [done|].
  inversion Hs as [|x l0 _ Hall]; subst. rewrite Forall_forall in Hall.
  apply Hall in Hin. simpl in Hin. lia.
Qed.

(** A step that neither gem5 nor the initiator starts: an event of the port, an entry of a router's
    queue, or its thread. *)
Definition due a : Prop := match a with PortStep (AEvent _) | RouterStep _ _ => True | _ => False end.

Definition something_due w : Prop := ∃ a, due a ∧ senabled a (catch_up w).

(** The response of a transaction is scheduled, or gem5 refused it. *)
Lemma response_waits w G t k :
  winv width None w G → G !! t = Some (k, MResp) →
  something_due w ∨ Helper.slot Helper.Response (helper w) k = Some t.
Proof.
  intros Hi Ht. destruct (i_stage _ _ _ _ Hi t k MResp Ht) as (l & Hl & Hf). simpl in Hf.
  destruct l as [|[pe ph] l].
  - right. eapply bool_decide_eq_true. unfold holding in Hf. simpl in Hf. by inversion Hf.
  - left. exists (PortStep (AEvent pe)). split; [done|]. split; [done|]. split; [done|].
    exists t, ph. apply (pending_event w t pe ph l Hl).
Qed.

(** While a transaction is in progress something is due, or its socket has a response to send. *)
Lemma due_or_response w G t k st :
  winv width None w G → G !! t = Some (k, st) →
  something_due w ∨ ∃ t', G !! t' = Some (k, MResp).
Proof.
  intros Hi Ht.
  destruct (jn_router _ _ _ _ (v_coupled _ _ _ _ Hi) k (i_socket _ _ _ _ Hi t k st Ht) I)
    as (r & s & Hrk & Hsv).
  assert (∀ x, renabled x r → something_due w) as Hstep.
  { intros x Hx. exists (RouterStep k x). split; [done|]. split; [by eapply i_socket; [apply Hi|]|]. by exists r. }
  destruct (sv_rinv _ _ _ _ _ Hsv) as [_ Hh Hn (ends & begins & Hq & Hc & Hrq) _ _ _]. simpl in *.
  destruct (r_peq r) as [|e q] eqn:Hpeq; [|left; apply (Hstep (RDeliver 0)); simpl; rewrite Hpeq; simpl; lia].
  simpl in Hq. apply Permutation_nil_l in Hq. symmetry in Hq. apply app_eq_nil in Hq as [-> ->].
  destruct (is_Some_dec (r_done r)) as [Hd|Hd]; [left; by apply (Hstep RBegin)|].
  destruct (r_process r) as [|t0] eqn:Hp; [|left; apply (Hstep REnd); simpl; rewrite Hp; by eexists].
  rewrite bool_decide_false in Hc by done.
  pose proof (sv_staged _ _ _ _ _ Hsv) as Hs.
  right.
  pose proof (proj1 (Hs t st) Ht) as Hat.
  destruct s as [req cur]. simpl in *.
  destruct (Router.transaction_in_progress (r_router r)) as [t'|].
  - exists t'. apply Hs. by inversion Hc.
  - exfalso. apply current_idle in Hc as [Hidle _].
    destruct st; simpl in Hat; subst; [by inversion Hrq|by destruct Hat; subst|done].
Qed.

(** Something is due, or gem5 refused a response of the socket. *)
Lemma due_or_refused w G t k st :
  winv width None w G → G !! t = Some (k, st) →
  something_due w ∨
  ∃ t', Helper.slot Helper.Response (helper w) k = Some t' ∧ G !! t' = Some (k, MResp).
Proof.
  intros Hi Ht. destruct (due_or_response w G t k st Hi Ht) as [?|[t' Ht']]; [by left|].
  destruct (response_waits w G t' k Hi Ht') as [?|?]; [by left|right; by exists t'].
Qed.

(** C7: No deadlock: while a transaction is in progress, some step can be taken once gem5 has caught up
    with SystemC - an event of the port, or a queue entry or the thread of a router - unless gem5
    refused a response on the same socket and has not asked for it since. *)
Theorem system_never_stuck w G t k st :
  sreachable w → monitor (Port.calls w) = Some G → G !! t = Some (k, st) →
  something_due w ∨
  ∃ t', Helper.slot Helper.Response (helper w) k = Some t' ∧ G !! t' = Some (k, MResp).
Proof.
  intros Hr HG Ht. destruct (sreachable_inv w Hr) as [G' Hi].
  pose proof (i_monitor _ _ _ _ Hi) as HG'. assert (G' = G) as -> by congruence. clear HG'.
  by eapply due_or_refused.
Qed.

End guests.
End runs.

(** ** Witnesses *)

Section witnesses.
(** Memories and a bus that answer at once; the state outside says whether gem5 takes responses. *)
#[local] Instance still : Outside bool := {
  memory_b_transport _ _ d m x := (d, (m, x));
  bus_b_transport _ _ d m x := (d, (m, x));
  bus_transport_dbg _ t m x :=
    (match gps (MemManager.st m) !! t with Some p => get_data_length p | None => 0 end, (m, x));
  gem5_timing_resp _ w := (others (Port.env w), w);
  gem5_retry w := w;
}.

(** Two routers with a memory of 4096 bytes behind each. *)
#[local] Instance pair : Layout bool := {
  width := 2;
  ranges _ := (0, 4096);
  gem5_willing b := b = true;
}.

Lemma touched_refl m : touched m m.
Proof. split; [done| |done]. intros t p Ht. by exists p. Qed.

#[local] Instance still_guests : Guests.
Proof.
  split; intros; simpl in *; simplify_eq; try apply touched_refl.
  - split; [apply touched_refl|]. intros p p' _ Hp _. by rewrite Hp.
  - constructor.
  - split; [|done]. constructor.
Qed.

(** Two routers behind the sockets of a port that waits for its first request. *)
Definition system_unbound : pworld bool :=
  Port.World (Port.set_sockets (Sockets.registered cpus2) (Port.SCSlavePort_new (-7) None)) memory2 ∅
    1 0 0 (Outer _ {[ 0 := rstate_new (0, 4096); 1 := rstate_new (0, 4096) ]} None true) [].
Definition system0 : pworld bool :=
  snd (Port.bindToTransactor_Multi transactor2 system_unbound).

Lemma system0_initial : sinitial system0.
Proof.
  split; [|by vm_compute|].
  - unfold system0. destruct (bind_makes_ready cpus2 transactor2 system_unbound)
      as (w' & -> & Hw' & _); try done.
    split; try done; [by eexists _, _|apply memory2_ok].
  - intros k Hk. assert (k = 0 ∨ k = 1) as [-> | ->] by (simpl in Hk; lia); vm_compute; reflexivity.
Qed.

Definition step_of (a : saction) (w : pworld bool) : pworld bool := snd (srun a w).

Lemma system_after a w :
  sreachable w → senabled a w → fst (srun a w) = Ok tt → sreachable (step_of a w).
Proof.
  intros Hw Hen Hrun. eapply sreach_step; [done..|]. unfold step_of.
  destruct (srun a w) as [r w']. simpl in *. by subst.
Qed.

Lemma request_enabled a (w : pworld bool) pkt :
  caught_up w → pkts (MemManager.st (Port.memory w)) !! a = Some pkt →
  negb (cacheResponding pkt) && (isRead pkt || isWrite pkt) && (0 <=? socket_of w pkt) &&
    (socket_of w pkt <? 2) &&
    Router.in_range (Router.TxnRouter_new 0 4096) (getAddr pkt) = true →
  senabled (PortStep (ARequest a)) w.
Proof.
  intros Hc Ha Hg. split; [done|]. split; [done|]. exists pkt. split; [done|].
  apply andb_prop in Hg as [[[[Hs Hr]%andb_prop Hl]%andb_prop Hu]%andb_prop Hin].
  apply negb_true_iff in Hs. apply Z.leb_le in Hl. apply Z.ltb_lt in Hu. by repeat split.
Qed.

(** A request goes to router 0, a second one waits, the router answers END_REQ and its thread
    goes to memory. *)
Definition system1 : pworld bool := step_of (PortStep (ARequest 1)) system0.
Definition system2 : pworld bool := step_of (PortStep (ARequest 2)) system1.
Definition system3 : pworld bool := step_of (RouterStep 0 (RDeliver 0)) system2.
Definition system4 : pworld bool := step_of (RouterStep 0 RBegin) system3.

Lemma system2_reachable : sreachable system2.
Proof.
  apply system_after; [apply system_after| |vm_compute; reflexivity].
  - apply sreach_initial, system0_initial.
  - apply (request_enabled _ _ (read_request 5 64 8)); vm_compute; reflexivity.
  - vm_compute; reflexivity.
  - apply (request_enabled _ _ (read_request 5 128 8)); vm_compute; reflexivity.
Qed.

Lemma delivered_enabled (w : pworld bool) k x r :
  0 ≤ k < 2 → routers (Port.env w) !! k = Some r → renabled x r → senabled (RouterStep k x) w.
Proof. intros Hk Hr Hx. split; [done|]. by exists r. Qed.

Lemma system4_reachable : sreachable system4.
Proof.
  apply system_after; [apply system_after; [apply system2_reachable| |]| |].
  - eapply delivered_enabled; [lia|vm_compute; reflexivity|simpl; lia].
  - vm_compute; reflexivity.
  - eapply delivered_enabled; [lia|vm_compute; reflexivity|by eexists].
  - vm_compute; reflexivity.
Qed.

Lemma system_safe_witness :
  ∃ w', srun (RouterStep 0 REnd) system4 = (Ok tt, w') ∧ failure (Port.env w') = None.
Proof.
  destruct (system_safe system4 system4_reachable) as [Hstep _].
  destruct (Hstep (RouterStep 0 REnd)) as [(w' & Hrun & Hf & _)|[[Ha _] _]].
  - eapply delivered_enabled; [lia|vm_compute; reflexivity|by eexists].
  - exists w'. split; [exact Hrun|exact Hf].
  - discriminate Ha.
Defined.

Lemma system_agrees_witness :
  ∃ G r, monitor (Port.calls system4) = Some G ∧ routers (Port.env system4) !! 0 = Some r ∧
    G !! payload1 = Some (0, MWait) ∧ r_process r = Router.Executing payload1.
Proof.
  destruct (system_agrees system4 system4_reachable) as (G & HG & Hall).
  destruct (Hall 0 ltac:(simpl; lia)) as (r & s & Hr & Hs & Hst & _).
  exists G, r. split; [exact HG|]. split; [exact Hr|].
  vm_compute in Hr. injection Hr as <-. split; [|reflexivity].
  apply Hst. right. vm_compute in Hs. by injection Hs as <-.
Defined.

Lemma system_never_stuck_witness :
  monitor (Port.calls system2) = Some {[payload1 := (0, MReq)]} ∧
  (something_due system2 ∨
   ∃ t', Helper.slot Helper.Response (helper system2) 0 = Some t').
Proof.
  assert (monitor (Port.calls system2) = Some {[payload1 := (0, MReq)]}) as HG
    by (vm_compute; reflexivity).
  split; [done|].
  destruct (system_never_stuck system2 {[payload1 := (0, MReq)]} payload1 0 MReq system2_reachable HG)
    as [Ha|(t' & Ht' & _)]; [by apply lookup_singleton_eq|by left|right; by exists t'].
Defined.

(** From the request to the response: once every event, entry and thread has run, the calls of the
    port and of the router. *)
Definition system_done : pworld bool :=
  foldl (λ w a, step_of a w) system4
    [RouterStep 0 REnd; PortStep (AEvent 1); PortStep (AEvent 2); RouterStep 0 (RDeliver 0)].

Example read_runs_through :
  Port.calls system_done =
    [Port.CallFw (Port.MultiSocket 0) payload1 BEGIN_REQ 0 (TLM_ACCEPTED, BEGIN_REQ, 0);
     Port.CallBw payload1 END_REQ (Router.sc_ns 10); Port.CallBw payload1 BEGIN_RESP (Router.sc_ns 10);
     Port.CallSendRetryReq; Port.CallSendTimingResp 1 true;
     Port.CallFw (Port.MultiSocket 0) payload1 END_RESP 0 (TLM_ACCEPTED, END_RESP, 0)] ∧
  monitor (Port.calls system_done) = Some ∅ ∧ freePayloads (mgr (Port.memory system_done)) = [payload1].
Proof. vm_compute. done. Qed.
End witnesses.
