(* ===== verification/SystemLive.v ===== *)
(** * Every request is answered

    What remains to be done in the system of the port and its routers, and that every step that gem5
    does not start makes it less: left alone, the system comes to rest, and at rest no transaction
    and no retry is open. *)

From S2P Require Import Prelude StdMap Tlm Concrete MemManager BlockingHelper SocketMap Transactor.
From S2P Require Import SlavePort SlaveProtocol SlavePortProps SlavePortSpec TxnRouter TxnRouterProps.
From S2P Require Import System SystemProps SystemSpec.
Import System.

Section live.
Context `{TlmPayloadLaws, Gem5PacketLaws} {X : Type} `{!Layout X, !Outside X}.
Implicit Types (w : pworld X) (rw : rworld X) (t : ptr) (k : Z) (a : saction) (r : rstate).

(** gem5 does not touch what is scheduled, and keeps taking responses. *)
Record calm w w' : Prop := {
  cm_events : Port.events w' = Port.events w;
  cm_routers : routers (Port.env w') = routers (Port.env w);
  cm_willing : gem5_willing (others (Port.env w)) → gem5_willing (others (Port.env w'));
}.

(** gem5 sends no requests of its own accord, and the memories leave it alone. *)
Class Quiet : Prop := {
  qu_retry w : calm w (gem5_retry w);
  qu_resp t w : calm w (snd (gem5_timing_resp t w));
  qu_memory k t d m x d' m' x' :
    memory_b_transport k t d m x = (d', (m', x')) → gem5_willing x → gem5_willing x';
}.

(** ** What a step of a router does to the port *)

(** The port gets at most one event for each phase. *)
Record sends rw rw' : Prop := {
  sd_routers : routers (Port.env (Router.env rw')) = routers (Port.env (Router.env rw));
  sd_events : (size (Port.events (Router.env rw')) + sent (Router.history rw) ≤
               size (Port.events (Router.env rw)) + sent (Router.history rw'))%nat;
  sd_willing : gem5_willing (others (Port.env (Router.env rw))) →
               gem5_willing (others (Port.env (Router.env rw')));
}.

#[local] Instance sends_preorder : PreOrder sends.
Proof.
  split; [by split|]. intros rw1 rw2 rw3 [Hr1 He1 Hw1] [Hr2 He2 Hw2].
  split; [congruence|lia|auto].
Qed.

Lemma notified_size w t ph w' :
  notified w t ph w' → (size (Port.events w') ≤ S (size (Port.events w)))%nat.
Proof.
  intros Hn. destruct (nt_new _ _ _ _ Hn) as (d & Hd).
  assert (Port.events w' = <[Port.next_event w :=
    {| Port.pe_t := Some (t, ph); Port.pe_when := Some d |}]> (Port.events w)) as ->.
  { apply map_eq. intros pe. rewrite lookup_insert. case_decide as He; [by subst|].
    by apply (nt_events _ _ _ _ Hn). }
  rewrite map_size_insert. destruct (Port.events w !! Port.next_event w); unfold id; lia.
Qed.

Context `{!Quiet}.

Lemma sends_call_bw k t ph d : follows sends (@Router.call_bw _ _ _ (behind k) t ph d).
Proof.
  intros rw. unfold Router.call_bw. simpl.
  destruct (backward_run t ph d rw) as (w' & Hn & ->). simpl.
  pose proof (notified_size _ _ _ _ Hn) as Hsz. pose proof (nt_env _ _ _ _ Hn) as He. simpl in *.
  split; simpl; [by rewrite He|rewrite sent_snoc; change (sent [_]) with 1%nat; lia|by rewrite He].
Qed.

Lemma sends_call_mem k c t d :
  sent [c] = 0%nat → follows sends (@Router.call_mem _ _ _ (behind k) c t d).
Proof.
  intros Hc rw. unfold Router.call_mem. simpl. unfold out_call. simpl.
  destruct (memory_b_transport _ _ _ _ _) as [r [m x]] eqn:Hm. split; simpl; [done| |].
  - rewrite sent_snoc. lia.
  - by eapply qu_memory.
Qed.

Ltac sends_step :=
  lazymatch goal with
  | |- follows _ (Router.call_bw _ _ _) => apply sends_call_bw
  | |- follows _ (Router.call_mem _ _ _) => by apply sends_call_mem
  | |- follows _ _ => follows_step
  | |- _ => intros; split; simpl; [done|lia|done]
  end.

Lemma sends_end_req k t : follows sends (@Router.send_end_req _ _ _ (behind k) t).
Proof. unfold Router.send_end_req, Router.done_notify. repeat sends_step. Qed.

Lemma sends_response k t : follows sends (@Router.send_response _ _ _ (behind k) t).
Proof. unfold Router.send_response, Router.peq_notify. repeat sends_step. Qed.

Lemma sends_peq_cb k t ph : follows sends (@Router.peq_cb _ _ _ (behind k) t ph).
Proof.
  unfold Router.peq_cb.
  repeat lazymatch goal with
         | |- follows _ (Router.send_end_req _) => apply sends_end_req
         | |- follows _ (Router.send_response _) => apply sends_response
         | |- _ => sends_step
         end.
Qed.

Lemma sends_run k (x : rstep) :
  follows sends (@TxnRouterProps.run _ _ _ (behind k) (router_action x)).
Proof.
  destruct x; simpl.
  - unfold Router.peq_deliver. repeat sends_step. apply sends_peq_cb.
  - unfold Router.execute_begin. repeat sends_step.
  - unfold Router.execute_end. repeat sends_step. apply sends_response.
Qed.

(** ** What the port does to the routers *)

(** A router that gets END_RESP has less to do. *)
Definition advanced r r' : Prop :=
  r' = r ∨ (∃ l, r_history r' = r_history r ++ l) ∧
           (is_Some (pipeline_of (r_history r')) → (rload r' < rload r)%nat).

Lemma pipeline_prefix l l' : is_Some (pipeline_of (l ++ l')) → is_Some (pipeline_of l).
Proof.
  induction l' as [|c l' IH] using rev_ind; [by rewrite app_nil_r|].
  rewrite app_assoc, pipeline_snoc. intros [s Hs]. apply IH.
  destruct (pipeline_of (l ++ l')) as [s'|]; [by exists s'|done].
Qed.

Lemma advanced_trans r1 r2 r3 : advanced r1 r2 → advanced r2 r3 → advanced r1 r3.
Proof.
  intros [->|[[l1 H12] Hl1]]; [done|]. intros [->|[[l2 H23] Hl2]]; right; [by eauto|].
  split; [exists (l1 ++ l2); by rewrite H23, H12, app_assoc|]. intros Hs.
  etrans; [by apply Hl2|]. apply Hl1. rewrite H23 in Hs. by eapply pipeline_prefix.
Qed.

Record only_ends w w' : Prop := {
  oe_events : Port.events w' = Port.events w;
  oe_routers k : option_Forall2 advanced (routers (Port.env w) !! k) (routers (Port.env w') !! k);
  oe_willing : gem5_willing (others (Port.env w)) → gem5_willing (others (Port.env w'));
}.

Lemma option_advanced (o : option rstate) : option_Forall2 advanced o o.
Proof. destruct o; constructor. by left. Qed.

#[local] Instance only_ends_preorder : PreOrder only_ends.
Proof.
  split.
  - intros w. split; [done| |done]. intros k. apply option_advanced.
  - intros w1 w2 w3 [He1 Hr1 Hw1] [He2 Hr2 Hw2]. split; [congruence| |auto].
    intros k. specialize (Hr1 k). specialize (Hr2 k).
    destruct Hr1; inversion Hr2; subst; constructor. by eapply advanced_trans.
Qed.

(** A change that does not touch events and the state outside. *)
Lemma only_ends_same w w' :
  Port.events w' = Port.events w → Port.env w' = Port.env w → only_ends w w'.
Proof. intros He Hv. split; [done| |by rewrite Hv]. intros k. rewrite Hv. apply option_advanced. Qed.

Lemma only_ends_calm w w' : calm w w' → only_ends w w'.
Proof. intros [He Hr Hw]. split; [done| |done]. intros k. rewrite Hr. apply option_advanced. Qed.

(** A call of a router, whatever comes of it. *)
Lemma nb_transport_fw_leaves t ph d rw :
  let rw' := snd (Router.nb_transport_fw t ph d rw) in
  Router.history rw' = Router.history rw ++ [Router.RFw t ph] ∧
  (length (Router.m_peq rw') ≤ S (length (Router.m_peq rw)))%nat ∧ Router.env rw' = Router.env rw.
Proof.
  unfold Router.nb_transport_fw, Router.ToMem, zoom, gp_at, mbind, M_bind. cbn.
  destruct (gps _ !! t) as [p|]; cbn; [|split; [done|split; [lia|done]]].
  destruct (Router.in_range _ _); cbn; [|split; [done|split; [lia|done]]].
  rewrite length_app. simpl. split; [done|split; [lia|done]].
Qed.

Lemma end_resp_advances r t d w :
  advanced r (state_of (snd (Router.nb_transport_fw t END_RESP d (enter r w)))).
Proof.
  destruct (nb_transport_fw_leaves t END_RESP d (enter r w)) as (Hh & Hq & _). simpl in Hh, Hq.
  right. split; [by eexists|]. unfold rload. simpl. rewrite Hh, pipeline_snoc.
  destruct (pipeline_of (r_history r)) as [[req cur]|]; simpl; [|by intros []].
  case_bool_decide as Hc; simpl; [|by intros []]. subst cur. intros _.
  unfold pipeline_load. simpl. destruct req; lia.
Qed.

(** Events and others stay; router [k] goes on from [r] to [r']. *)
Lemma only_ends_router k r r' w w' :
  routers (Port.env w) !! k = Some r → advanced r r' → Port.events w' = Port.events w →
  routers (Port.env w') = <[k := r']> (routers (Port.env w)) →
  others (Port.env w') = others (Port.env w) → only_ends w w'.
Proof.
  intros Hr Ha He Hrs Ho. split; [done| |by rewrite Ho]. intros k'. rewrite Hrs.
  destruct (decide (k' = k)) as [->|Hne].
  - rewrite lookup_insert_eq, Hr. by constructor.
  - rewrite lookup_insert_ne by done. apply option_advanced.
Qed.

Lemma only_ends_call_fw s t d : follows only_ends (Port.call_fw s t END_RESP d).
Proof.
  intros w. unfold Port.call_fw. simpl. unfold with_router.
  destruct s as [|k]; simpl; [by apply only_ends_calm; split|].
  destruct (routers (Port.env w) !! k) as [r|] eqn:Hr; simpl;
    [|by apply only_ends_calm; split].
  pose proof (end_resp_advances r t d w) as Hadv.
  destruct (nb_transport_fw_leaves t END_RESP d (enter r w)) as (_ & _ & He).
  destruct (Router.nb_transport_fw t END_RESP d (enter r w)) as [[a|e] rw]; simpl in *;
    (eapply only_ends_router; [exact Hr|exact Hadv|by simpl; rewrite He..]).
Qed.

Lemma only_ends_sendTimingResp (a : ptr) : follows only_ends (Port.call_sendTimingResp a).
Proof.
  intros w. unfold Port.call_sendTimingResp. simpl. pose proof (qu_resp a w) as Hq.
  destruct (gem5_timing_resp a w) as [ok w']. simpl in *.
  etrans; [by apply only_ends_calm|]. by apply only_ends_same.
Qed.

Lemma only_ends_sendRetryReq : follows only_ends Port.call_sendRetryReq.
Proof.
  intros w. unfold Port.call_sendRetryReq. simpl. etrans; [|by apply only_ends_calm, qu_retry].
  by apply only_ends_same.
Qed.

Ltac only_ends_step :=
  lazymatch goal with
  | |- follows _ (Port.call_fw _ _ _ _) => apply only_ends_call_fw
  | |- follows _ (Port.call_sendTimingResp _) => apply only_ends_sendTimingResp
  | |- follows _ Port.call_sendRetryReq => apply only_ends_sendRetryReq
  | |- follows _ _ => follows_step
  | |- _ => intros; by apply only_ends_same
  end.

Lemma only_ends_send_end_resp t k : follows only_ends (Port.send_end_resp t k).
Proof. unfold Port.send_end_resp, Port.bound_socket. repeat only_ends_step. Qed.

Lemma only_ends_unblock t : follows only_ends (Port.pec_unblock t).
Proof. unfold Port.pec_unblock, Port.core_of, getCoreID. repeat only_ends_step. Qed.

Lemma only_ends_response t : follows only_ends (Port.pec_response t).
Proof.
  unfold Port.pec_response, Port.CAUGHT_UP, getCoreID.
  repeat lazymatch goal with
         | |- follows _ (Port.send_end_resp _ _) => apply only_ends_send_end_resp
         | |- _ => only_ends_step
         end.
Qed.

Lemma only_ends_retry t : follows only_ends (Port.retry_response t).
Proof.
  unfold Port.retry_response, getCoreID.
  repeat lazymatch goal with
         | |- follows _ (Port.send_end_resp _ _) => apply only_ends_send_end_resp
         | |- _ => only_ends_step
         end.
Qed.

Lemma only_ends_loop fuel response : follows only_ends (Port.resp_retry_loop fuel response).
Proof.
  revert response. induction fuel as [|fuel IH]; intros response; simpl; [repeat only_ends_step|].
  unfold Port.core_of, getCoreID.
  repeat lazymatch goal with
         | |- follows _ (Port.retry_response _) => apply only_ends_retry
         | |- follows _ (Port.resp_retry_loop _ _) => apply IH
         | |- _ => only_ends_step
         end.
Qed.

Lemma only_ends_recvRespRetry : follows only_ends Port.recvRespRetry.
Proof.
  unfold Port.recvRespRetry, Port.CAUGHT_UP.
  repeat lazymatch goal with
         | |- follows _ (Port.resp_retry_loop _ _) => apply only_ends_loop
         | |- _ => only_ends_step
         end.
Qed.
(** Everything but event [pe]. *)
Definition but pe w w' : Prop :=
  only_ends (Port.set_events (delete pe) w) (Port.set_events (delete pe) w').

#[local] Instance but_preorder pe : PreOrder (but pe).
Proof. unfold but. split; intros w; [reflexivity|]. intros w2 w3 H12 H23. by etrans. Qed.

Lemma only_ends_but pe w w' : only_ends w w' → but pe w w'.
Proof. intros [He Hr Hw]. split; [simpl; by rewrite He|exact Hr|exact Hw]. Qed.

Ltac but_step :=
  lazymatch goal with
  | |- follows _ (Port.pec_unblock _) => eapply follows_mono; [apply only_ends_but|apply only_ends_unblock]
  | |- follows _ (Port.pec_response _) => eapply follows_mono; [apply only_ends_but|apply only_ends_response]
  | |- follows _ _ => follows_step
  | |- _ => intros; by apply only_ends_but, only_ends_same
  end.

Lemma but_pec pe t ph : follows (but pe) (Port.pec pe t ph).
Proof.
  unfold Port.pec, Port.delete_event. repeat but_step. intros w.
  apply only_ends_same; [|done]. simpl. apply delete_delete_eq.
Qed.

Lemma pec_deletes pe t ph w w' : Port.pec pe t ph w = (Ok tt, w') → Port.events w' !! pe = None.
Proof.
  unfold Port.pec, mbind, M_bind. intros Hrun. repeat (case_match; simplify_eq/=).
  all: injection Hrun as <-; apply lookup_delete_eq.
Qed.

Lemma process_leaves pe t ph w w' :
  scheduled w pe t ph → Port.process pe w = (Ok tt, w') →
  only_ends (Port.set_events (delete pe) w) w'.
Proof.
  intros (d & Hpe). unfold Port.process, mbind, M_bind. simpl. rewrite Hpe. simpl.
  set (w0 := Port.set_events _ w). intros Hrun. pose proof (pec_deletes _ _ _ _ _ Hrun) as Hno.
  pose proof (but_pec pe t ph w0) as Hb. rewrite Hrun in Hb. destruct Hb as [He Hr Hw]. simpl in *.
  split; [|exact Hr|exact Hw]. simpl. rewrite delete_insert_eq in He.
  by rewrite delete_id in He.
Qed.

(** ** What remains to be done *)

Definition rload_at w k : nat := match routers (Port.env w) !! k with Some r => rload r | None => 0 end.

Definition work w : nat := (sum_list_with (rload_at w) (seqZ 0 width) + size (Port.events w))%nat.

Lemma rload_ends w w' G' k :
  only_ends w w' → winv width None w' G' → 0 ≤ k < width → (rload_at w' k ≤ rload_at w k)%nat.
Proof.
  intros [_ Hr _] Hi Hk. specialize (Hr k). unfold rload_at.
  destruct (jn_router _ _ _ _ (v_coupled _ _ _ _ Hi) k Hk I) as (r' & s & Hr' & Hsv).
  rewrite Hr' in Hr |- *. inversion Hr as [r ? Ha|]; subst. destruct Ha as [->|[_ Hlt]]; [done|].
  apply Nat.lt_le_incl, Hlt. exists s. apply (sv_rinv _ _ _ _ _ Hsv).
Qed.

Lemma in_sockets k : k ∈ seqZ 0 width ↔ 0 ≤ k < width.
Proof. rewrite elem_of_seqZ. lia. Qed.

Lemma work_ends w w' G' :
  only_ends w w' → winv width None w' G' → (work w' ≤ work w)%nat.
Proof.
  intros Ho Hi. unfold work. rewrite (oe_events _ _ Ho). apply Nat.add_le_mono_r, sum_le.
  intros k Hk%in_sockets. by eapply rload_ends.
Qed.
(** ** The steps that come by themselves *)

(** A response that gem5 refused. *)
Definition refused w : Prop := ∃ k t, Helper.slot Helper.Response (helper w) k = Some t.

(** gem5 asks again for a response it refused; it starts nothing else. *)
Definition by_itself a w : Prop :=
  due a ∨ a = PortStep ARespRetry ∧ refused w.

Lemma work_set_time tick sc w : work (set_time tick sc w) = work w.
Proof. done. Qed.

Context `{!Guests}.

Lemma router_step_work k (x : rstep) w G r :
  0 ≤ k < width → winv width None w G → routers (Port.env w) !! k = Some r → renabled x r →
  gem5_willing (others (Port.env w)) →
  wp (router_step k x) (λ _ w', ∃ G', winv width None w' G' ∧ (work w' < work w)%nat ∧
    gem5_willing (others (Port.env w'))) w.
Proof.
  intros Hk Hi Hr Hen Hwill. eapply wp_mono; [by eapply wp_router_step|].
  intros _ w' (G' & rw & Hi' & -> & <- & Hlt). exists G'. split; [done|].
  destruct (sends_run k x (enter r w)) as [Hrs He Hwl].
  set (rw := snd _) in *. split; [|by apply Hwl]. unfold work.
  pose proof (sum_update (rload_at (leave k rw)) (rload_at w) (seqZ 0 width) k
    (NoDup_seqZ _ _) (proj2 (in_sockets k) Hk)) as Hsum.
  assert (rload_at (leave k rw) k = rload (state_of rw)) as Hk1.
  { unfold rload_at, leave. simpl. by rewrite lookup_insert_eq. }
  assert (rload_at w k = rload r) as Hk2 by (unfold rload_at; by rewrite Hr).
  rewrite Hk1, Hk2 in Hsum. simpl in *.
  assert (sum_list_with (rload_at (leave k rw)) (seqZ 0 width) + rload r =
          sum_list_with (rload_at w) (seqZ 0 width) + rload (state_of rw))%nat as Hs.
  { apply Hsum. intros k' Hne. unfold rload_at, leave. simpl.
    by rewrite lookup_insert_ne, Hrs by done. }
  lia.
Qed.

Lemma event_work w G pe t ph :
  winv width None w G → caught_up w → first_event w pe t ph →
  gem5_willing (others (Port.env w)) →
  wp (Port.process pe) (λ _ w', ∃ G', winv width None w' G' ∧ (work w' < work w)%nat ∧
    gem5_willing (others (Port.env w'))) w.
Proof.
  intros Hi Hcu Hf Hwill. pose proof (wp_process width w G pe t ph
    (λ _ w', ∃ G', winv width None w' G') Hi Hf Hcu (λ w' G' Hi' _ _, ex_intro _ G' Hi')) as Hwp.
  unfold wp in *. destruct (Port.process pe w) as [[[]|e] w'] eqn:Hrun; [|done].
  destruct Hwp as [G' Hi']. exists G'. split; [done|]. destruct Hf as [Hs _].
  pose proof (process_leaves _ _ _ _ _ Hs Hrun) as Ho. split; [|by apply (oe_willing _ _ Ho)].
  eapply Nat.le_lt_trans; [by eapply work_ends|]. unfold work. simpl. apply Nat.add_lt_mono_l.
  destruct Hs as (d & Hpe). rewrite map_size_delete, Hpe. simpl.
  assert (size (Port.events w) ≠ 0%nat); [|lia]. eapply map_size_ne_0_lookup_2. by eexists.
Qed.

(** The socket of a refused response. *)
Lemma refused_stage w G k t :
  winv width None w G → Helper.slot Helper.Response (helper w) k = Some t →
  G !! t = Some (k, MResp) ∧ ∀ pe ph, ¬ scheduled w pe t ph.
Proof.
  intros Hi Hslot. destruct (i_slot _ _ _ _ Hi _ _ _ Hslot) as [s Ht].
  destruct (i_stage _ _ _ _ Hi t k s Ht) as (l & [_ Hl] & Hsh). simpl in Hsh.
  unfold holding in Hsh. rewrite (bool_decide_true (Helper.slot Helper.Response _ _ = _)) in Hsh by done.
  destruct l as [|[pe ph] l]; [|by inversion Hsh]. inversion Hsh; subst. split; [done|].
  by intros pe ph ?%Hl%not_elem_of_nil.
Qed.

(** A transaction that waits for END_RESP and is in no slot has an event. *)
Lemma response_event w G k t :
  winv width None w G → G !! t = Some (k, MResp) →
  Helper.slot Helper.Response (helper w) k = None → ∃ pe ph, scheduled w pe t ph.
Proof.
  intros Hi Ht Hslot. destruct (i_stage _ _ _ _ Hi t k MResp Ht) as (l & [_ Hl] & Hsh). simpl in Hsh.
  unfold holding in Hsh. rewrite Hslot in Hsh.
  destruct l as [|[pe ph] l]; [by inversion Hsh|]. exists pe, ph. apply Hl. by left.
Qed.

(** Its router moves when the port has sent the response. *)
Lemma refused_moves w w' G G' k t :
  winv width None w G → winv width None w' G' → only_ends w w' →
  Helper.slot Helper.Response (helper w) k = Some t →
  Helper.slot Helper.Response (helper w') k = None →
  0 ≤ k < width ∧ (rload_at w' k < rload_at w k)%nat.
Proof.
  intros Hi Hi' Ho Hs Hs'. destruct (refused_stage w G k t Hi Hs) as [Ht Hno].
  pose proof (i_socket _ _ _ _ Hi t k _ Ht) as Hk. split; [done|].
  destruct (jn_router _ _ _ _ (v_coupled _ _ _ _ Hi) k Hk I) as (r & s & Hr & Hsv).
  destruct (jn_router _ _ _ _ (v_coupled _ _ _ _ Hi') k Hk I) as (r' & s' & Hr' & Hsv').
  pose proof (oe_routers _ _ Ho k) as Hadv. unfold rload_at. rewrite Hr, Hr' in *.
  pose proof (TxnRouterProps.r_history _ _ _ (sv_rinv _ _ _ _ _ Hsv)) as Hh.
  pose proof (TxnRouterProps.r_history _ _ _ (sv_rinv _ _ _ _ _ Hsv')) as Hh'. simpl in Hh, Hh'.
  inversion Hadv as [? ? [->|[_ Hlt]]|]; subst; [exfalso|apply Hlt; by exists s'].
  assert (s' = s) as -> by congruence.
  assert (G' !! t = Some (k, MResp)) as Ht'.
  { apply (sv_staged _ _ _ _ _ Hsv'). by apply (sv_staged _ _ _ _ _ Hsv). }
  destruct (response_event w' G' k t Hi' Ht' Hs') as (pe & ph & d & Hd).
  apply (Hno pe ph). exists d. by rewrite <- (oe_events _ _ Ho).
Qed.

Lemma retry_work w G :
  winv width None w G → caught_up w → gem5_willing (others (Port.env w)) → refused w →
  wp Port.recvRespRetry (λ _ w', ∃ G', winv width None w' G' ∧ (work w' < work w)%nat ∧
    gem5_willing (others (Port.env w'))) w.
Proof.
  intros Hi Hcu Hwill (k & t & Hslot).
  pose proof (wp_recvRespRetry width w G (λ _ w', ∃ G', winv width None w' G' ∧
    ∀ k, Helper.slot Helper.Response (helper w') k = None) Hi Hcu Hwill
    (λ w' G' Hi' _ Hn, ex_intro _ G' (conj Hi' Hn))) as Hwp.
  pose proof (only_ends_recvRespRetry w) as Ho.
  unfold wp in *. destruct (Port.recvRespRetry w) as [[[]|e] w'] eqn:Hrun; [|done]. simpl in Ho.
  destruct Hwp as (G' & Hi' & Hnone). exists G'. split; [done|].
  split; [|by apply (oe_willing _ _ Ho)].
  destruct (refused_moves w w' G G' k t Hi Hi' Ho Hslot (Hnone k)) as [Hk Hlt].
  unfold work. rewrite (oe_events _ _ Ho). apply Nat.add_lt_mono_r.
  eapply sum_lt; [|by apply in_sockets|exact Hlt].
  intros k' Hk'%in_sockets. by eapply rload_ends.
Qed.

(** A step that comes by itself, with the times of gem5 and SystemC at which it comes. *)
Definition tstep w w' : Prop :=
  ∃ tick sc a, by_itself a (set_time tick sc w) ∧ senabled a (set_time tick sc w) ∧
    srun a (set_time tick sc w) = (Ok tt, w').

Lemma wp_by_itself w G a :
  winv width None w G → by_itself a w → senabled a w → gem5_willing (others (Port.env w)) →
  wp (srun a) (λ _ w', ∃ G', winv width None w' G' ∧ (work w' < work w)%nat ∧
    gem5_willing (others (Port.env w'))) w.
Proof.
  intros Hi [Hd|[-> Href]] Hen Hw.
  - destruct a as [[]|k x]; try done; simpl.
    + destruct Hen as (_ & Hcu & t & ph & Hf). by eapply event_work.
    + destruct Hen as (Hk & r & Hr & Hx). by eapply router_step_work.
  - destruct Hen as (_ & Hcu). by eapply retry_work.
Qed.

Lemma tstep_work w w' G :
  winv width None w G → gem5_willing (others (Port.env w)) → tstep w w' →
  ∃ G', winv width None w' G' ∧ (work w' < work w)%nat ∧ gem5_willing (others (Port.env w')).
Proof.
  intros Hi Hw (tick & sc & a & Hself & Hen & Hrun).
  pose proof (wp_by_itself (set_time tick sc w) G a (winv_set_time _ _ _ _ _ _ Hi) Hself Hen Hw) as Hwp.
  unfold wp in Hwp. by rewrite Hrun in Hwp.
Qed.

Lemma nsteps_work n w w' G :
  winv width None w G → gem5_willing (others (Port.env w)) → nsteps tstep n w w' →
  ∃ G', winv width None w' G' ∧ (n + work w' ≤ work w)%nat ∧ gem5_willing (others (Port.env w')).
Proof.
  intros Hi Hw Hn. revert G Hi Hw. induction Hn as [w|n w1 w2 w3 Hs _ IH]; intros G Hi Hw.
  - by exists G.
  - destruct (tstep_work w1 w2 G Hi Hw Hs) as (G2 & Hi2 & Hlt & Hw2).
    destruct (IH G2 Hi2 Hw2) as (G3 & Hi3 & Hle & Hw3). exists G3. split; [done|]. split; [lia|done].
Qed.

(** At rest nothing is open. *)
Lemma at_rest w G :
  winv width None w G → gem5_willing (others (Port.env w)) → (∀ w', ¬ tstep w w') →
  G = ∅ ∧ ∀ k, Helper.retry (helper w) k = false.
Proof.
  intros Hi Hw Hrest.
  assert (∀ a, by_itself a (catch_up w) → ¬ senabled a (catch_up w)) as Hno.
  { intros a Ha Hen.
    destruct (wp_Ok _ _ _ (wp_by_itself (catch_up w) G a (winv_set_time _ _ _ _ _ _ Hi) Ha Hen Hw))
      as ([] & w' & Hrun & _). apply (Hrest w'). by eexists _, _, a. }
  assert (G = ∅) as HG.
  { apply map_empty. intros t. destruct (G !! t) as [[k st]|] eqn:Ht; [exfalso|done].
    destruct (due_or_refused w G t k st Hi Ht) as [(a & Ha & Hen)|(t' & Hs & _)].
    - by apply (Hno a); [left|].
    - apply (Hno (PortStep ARespRetry)); [right; split; [done|by exists k, t']|]. by split. }
  split; [done|]. intros k. apply not_true_iff_false. intros Hk.
  destruct (i_retry _ _ _ _ Hi k Hk) as [t Hs]. destruct (i_slot _ _ _ _ Hi _ _ _ Hs) as [s Ht].
  by rewrite HG, lookup_empty in Ht.
Qed.

(** ** Property *)

(** C4: Every transaction ends.  From any reachable state, once gem5 sends nothing more and takes
    responses, the events of the port, the queues and threads of the routers and the retries of
    refused responses run for at most [work w] steps, in whatever order; and where no such step is
    left, every transaction that was begun has had its END_RESP, and no retry is owed. *)
Theorem system_drains w n w' :
  sreachable w → gem5_willing (others (Port.env w)) → nsteps tstep n w w' →
  (n ≤ work w)%nat ∧
  ((∀ w'', ¬ tstep w' w'') →
   monitor (Port.calls w') = Some ∅ ∧ ∀ k, Helper.retry (helper w') k = false).
Proof.
  intros Hr Hw Hn. destruct (sreachable_inv w Hr) as [G Hi].
  destruct (nsteps_work n w w' G Hi Hw Hn) as (G' & Hi' & Hle & Hw'). split; [lia|].
  intros Hrest. destruct (at_rest w' G' Hi' Hw' Hrest) as [-> Hk]. split; [apply Hi'|done].
Qed.
End live.

(** ** Witness *)

Section witness.
#[local] Existing Instance still.
#[local] Existing Instance pair.
#[local] Existing Instance still_guests.

#[local] Instance still_quiet : Quiet.
Proof. split; [by split|by split|]. intros k t d m x d' m' x' [= <- <- <-]. done. Qed.

Lemma set_time_same (w : pworld bool) : set_time (Port.curTick w) (Port.sc_time_stamp w) w = w.
Proof. by destruct w. Qed.

Lemma tstep_of a (w : pworld bool) :
  due a → senabled a w → fst (srun a w) = Ok tt → tstep w (step_of a w).
Proof.
  intros Ha Hen Hrun. exists (Port.curTick w), (Port.sc_time_stamp w), a. rewrite set_time_same.
  split; [by left|]. split; [done|]. unfold step_of. destruct (srun a w) as [r w']. simpl in *. by subst.
Qed.

(** The states between the memory's answer and the end. *)
Definition system5 : pworld bool := step_of (RouterStep 0 REnd) system4.
Definition system6 : pworld bool := step_of (PortStep (AEvent 1)) system5.
Definition system7 : pworld bool := step_of (PortStep (AEvent 2)) system6.

Lemma event_enabled (w : pworld bool) pe t ph :
  caught_up w → first_event w pe t ph → senabled (PortStep (AEvent pe)) w.
Proof. intros Hc Hf. split; [done|]. split; [done|]. by exists t, ph. Qed.

Lemma system7_event : first_event system6 2 payload1 BEGIN_RESP.
Proof.
  split; [eexists; vm_compute; reflexivity|]. intros pe ph (d & Hd).
  assert (Port.events system6 = {[ 2%positive :=
    {| Port.pe_t := Some (payload1, BEGIN_RESP); Port.pe_when := Some (Router.sc_ns 10) |} ]}) as He
    by (vm_compute; reflexivity).
  rewrite He in Hd. by apply lookup_singleton_Some in Hd as [<- _].
Qed.

Lemma system_runs : nsteps tstep 4 system4 system_done.
Proof.
  apply (nsteps_l _ _ _ system5); [|apply (nsteps_l _ _ _ system6);
    [|apply (nsteps_l _ _ _ system7); [|apply nsteps_once]]].
  - apply tstep_of; [done| |vm_compute; reflexivity].
    eapply delivered_enabled; [lia|vm_compute; reflexivity|by eexists].
  - apply tstep_of; [done| |vm_compute; reflexivity].
    apply (event_enabled _ _ payload1 END_REQ); [vm_compute; reflexivity|].
    split; [eexists; vm_compute; reflexivity|intros; lia].
  - apply tstep_of; [done| |vm_compute; reflexivity].
    apply (event_enabled _ _ payload1 BEGIN_RESP); [vm_compute; reflexivity|apply system7_event].
  - apply tstep_of; [done| |vm_compute; reflexivity].
    eapply delivered_enabled; [lia|vm_compute; reflexivity|simpl; lia].
Qed.

(** The four steps are all there are. *)
Lemma system_done_reachable : sreachable system_done.
Proof.
  assert (∀ n w w', sreachable w → nsteps tstep n w w' → sreachable w') as Hsteps.
  { intros n w w' Hw Hn. induction Hn as [|n w1 w2 w3 (tick & sc & a & _ & Hen & Hrun) _ IH]; [done|].
    apply IH. apply (sreach_step (set_time tick sc w1) a); [by apply sreach_time|exact Hen|exact Hrun]. }
  eapply Hsteps; [apply system4_reachable|apply system_runs].
Qed.

Lemma system_done_empty G : winv 2 None system_done G → G = ∅.
Proof.
  intros Hi. pose proof (i_monitor _ _ _ _ Hi) as HG.
  assert (monitor (Port.calls system_done) = Some ∅) as HG' by (vm_compute; reflexivity).
  congruence.
Qed.

(** No step is left where nothing is in progress and the routers are idle. *)
Lemma idle_rests (w w' : pworld bool) :
  winv 2 None w ∅ →
  (∀ k r, 0 ≤ k < 2 → routers (Port.env w) !! k = Some r →
     r_peq r = [] ∧ r_done r = None ∧ r_process r = Router.Waiting) → ¬ tstep w w'.
Proof.
  intros Hi Hidle (tick & sc & a & Ha & Hen & _). destruct Ha as [Ha|[-> (k & t & Hs)]].
  - destruct a as [[]|k x]; try done.
    + destruct Hen as (_ & _ & t & ph & Hf & _).
      destruct (i_events _ _ _ _ Hi _ _ _ Hf) as [y Ht]. by rewrite lookup_empty in Ht.
    + destruct Hen as (Hk & r & Hr & Hx). destruct (Hidle k r Hk Hr) as (Hq & Hd & Hp).
      destruct x; simpl in Hx; rewrite ?Hq, ?Hd, ?Hp in Hx; simpl in Hx; [lia|..]; by destruct Hx.
  - destruct (i_slot _ _ _ _ Hi _ _ _ Hs) as [st Ht]. by rewrite lookup_empty in Ht.
Qed.

Lemma system_done_rests (w' : pworld bool) : ¬ tstep system_done w'.
Proof.
  destruct (sreachable_inv _ system_done_reachable) as [G Hi].
  pose proof (system_done_empty G Hi) as HG. rewrite HG in Hi. apply (idle_rests _ _ Hi).
  intros k r Hk Hr. assert (k = 0 ∨ k = 1) as [Hk'|Hk'] by lia; rewrite Hk' in Hr;
    vm_compute in Hr; injection Hr as <-; repeat split.
Qed.

Lemma system_drains_witness :
  work system4 = 7%nat ∧ (4 ≤ work system4)%nat ∧ monitor (Port.calls system_done) = Some ∅.
Proof.
  destruct (system_drains system4 4 system_done system4_reachable eq_refl system_runs) as [Hle Hend].
  split; [vm_compute; reflexivity|]. split; [exact Hle|]. apply Hend. exact system_done_rests.
Defined.
End witness.
