(* ===== verification/SystemService.v ===== *)
(** * Every request is served once, in order

    What the port begins on a socket, what the memory behind its router is called for, what the router
    answers and what the port ends are one sequence of transactions, each a prefix of the one before. *)

From S2P Require Import Prelude StdMap Tlm Concrete MemManager BlockingHelper SocketMap Transactor.
From S2P Require Import SlavePort SlaveProtocol SlavePortProps SlavePortSpec TxnRouter TxnRouterProps.
From S2P Require Import System SystemProps SystemSpec SystemLive.
Import System.

(** ** The sequences *)

(** The transactions that the port has begun, and ended, on socket [k]. *)
Definition begun (k : Z) : list Port.call → list ptr := omap (λ c,
  match c with
  | Port.CallFw (Port.MultiSocket k') t BEGIN_REQ _ _ => if decide (k' = k) then Some t else None
  | _ => None
  end).
Definition ended (k : Z) : list Port.call → list ptr := omap (λ c,
  match c with
  | Port.CallFw (Port.MultiSocket k') t END_RESP _ _ => if decide (k' = k) then Some t else None
  | _ => None
  end).

(** Those that a router was sent, called its memory for, answered, and was told the end of. *)
Definition received : list Router.rcall → list ptr :=
  omap (λ c, match c with Router.RFw t BEGIN_REQ => Some t | _ => None end).
Definition executed : list Router.rcall → list ptr :=
  omap (λ c, match c with Router.RMem t => Some t | _ => None end).
Definition answered : list Router.rcall → list ptr :=
  omap (λ c, match c with Router.RBw t BEGIN_RESP _ _ => Some t | _ => None end).
Definition finished : list Router.rcall → list ptr :=
  omap (λ c, match c with Router.RFw t END_RESP => Some t | _ => None end).

(** BEGIN_RESP is always answered by TLM_ACCEPTED. *)
Definition accepting : list Router.rcall → Prop :=
  Forall (λ c, match c with Router.RBw _ BEGIN_RESP st _ => st = TLM_ACCEPTED | _ => True end).

(** The transactions between two of these places. *)
Definition waiting (s : pipeline) : list ptr :=
  match s.2 with Some (t, Accepted) => [t] | _ => [] end ++ option_list s.1.
Definition executing (s : pipeline) : list ptr :=
  match s.2 with Some (t, Executed) => [t] | _ => [] end.
Definition answering (s : pipeline) : list ptr :=
  match s.2 with Some (t, Answered) => [t] | _ => [] end.

Record in_sequence (h : list Router.rcall) (s : pipeline) : Prop := {
  sq_executed : received h = executed h ++ waiting s;
  sq_answered : executed h = answered h ++ executing s;
  sq_finished : answered h = finished h ++ answering s;
}.

Lemma when_Some {A} b (o : option A) x : Prelude.when b o = Some x ↔ b = true ∧ o = Some x.
Proof. destruct b; simpl; split; [done|by intros []|done|by intros []]. Qed.

(** A pipeline is first in, first out. *)
Lemma in_sequence_step h s c s' :
  in_sequence h s → pipeline_step s c = Some s' → accepting [c] → in_sequence (h ++ [c]) s'.
Proof.
  destruct s as [req cur]. intros [H1 H2 H3] Hs Hc. inversion Hc as [|x l Ha _]; subst.
  split; unfold received, executed, answered, finished in *; rewrite !omap_app, ?H1, ?H2, ?H3;
    clear Hc H1 H2 H3.
  all: destruct c as [t ph|t ph st ph'|t|t|t|t]; [destruct ph|destruct ph|..]; simpl in *; try done.
  all: try (apply when_Some in Hs as [Hb Hs]; repeat rewrite ?andb_true_iff, ?bool_decide_eq_true in Hb);
    destruct_and?; subst; simpl in *; try done.
  all: try (destruct cur as [[? []]|]; simpl in * ); simplify_eq;
    unfold waiting, executing, answering; simpl; rewrite ?app_nil_r, <- ?app_assoc; done.
Qed.

Lemma pipeline_in_sequence h s : pipeline_of h = Some s → accepting h → in_sequence h s.
Proof.
  revert s. induction h as [|c h IH] using rev_ind; intros s; [by intros [= <-]|].
  rewrite pipeline_snoc. intros Hs [Ha Hc]%Forall_app.
  destruct (pipeline_of h) as [s0|]; [|done]. by eapply in_sequence_step; [apply IH| |].
Qed.

(** ** Calls sent are calls received *)

Section service.
Context `{TlmPayloadLaws, Gem5PacketLaws} {X : Type} `{!Layout X, !Outside X}.
Implicit Types (w : pworld X) (rw : rworld X) (t : ptr) (k : Z) (r : rstate).

(** The router behind a socket was sent what the port sent through it. *)
Definition paired w : Prop :=
  ∀ k r, 0 ≤ k < width → routers (Port.env w) !! k = Some r →
    received (r_history r) = begun k (Port.calls w) ∧ finished (r_history r) = ended k (Port.calls w) ∧
    accepting (r_history r).

Definition pairs w w' : Prop := paired w → paired w'.

#[local] Instance pairs_preorder : PreOrder pairs.
Proof. split; unfold pairs; red; auto. Qed.

Lemma pairs_same w w' : Port.env w' = Port.env w → Port.calls w' = Port.calls w → pairs w w'.
Proof. unfold pairs, paired. by intros -> ->. Qed.

(** A call of the port that is not in the sequences. *)
Lemma pairs_log w c :
  (∀ k, begun k [c] = [] ∧ ended k [c] = []) → pairs w (Port.log_call c w).
Proof.
  intros Hc Hp k r Hk Hr. destruct (Hp k r Hk Hr) as (Hb & He & Ha). destruct (Hc k) as [Hcb Hce].
  unfold begun, ended in *. simpl. by rewrite !omap_app, Hcb, Hce, !app_nil_r.
Qed.

(** What a router does besides: to its history, and to the port. *)
Record beside rw rw' : Prop := {
  bs_routers : routers (Port.env (Router.env rw')) = routers (Port.env (Router.env rw));
  bs_calls k : begun k (Port.calls (Router.env rw')) = begun k (Port.calls (Router.env rw)) ∧
               ended k (Port.calls (Router.env rw')) = ended k (Port.calls (Router.env rw));
  bs_history : ∃ l, Router.history rw' = Router.history rw ++ l ∧
    received l = [] ∧ finished l = [] ∧ accepting l;
}.

#[local] Instance beside_preorder : PreOrder beside.
Proof.
  split.
  - intros rw. split; [done|done|]. exists []. rewrite app_nil_r. repeat split; constructor.
  - intros rw1 rw2 rw3 [Hr1 Hc1 (l1 & Hl1 & Hb1 & Hf1 & Ha1)] [Hr2 Hc2 (l2 & Hl2 & Hb2 & Hf2 & Ha2)].
    split; [congruence|intros k; destruct (Hc1 k), (Hc2 k); split; congruence|].
    exists (l1 ++ l2). split; [by rewrite Hl2, Hl1, app_assoc|]. unfold received, finished, accepting in *.
    rewrite !omap_app, Hb1, Hb2, Hf1, Hf2, Forall_app. done.
Qed.

Lemma beside_same rw rw' :
  routers (Port.env (Router.env rw')) = routers (Port.env (Router.env rw)) →
  Port.calls (Router.env rw') = Port.calls (Router.env rw) →
  Router.history rw' = Router.history rw → beside rw rw'.
Proof.
  intros Hr Hc Hh. split; [done|by intros k; rewrite Hc|]. exists []. rewrite app_nil_r.
  split; [done|]. repeat split; constructor.
Qed.

Lemma beside_log rw c :
  received [c] = [] → finished [c] = [] → accepting [c] → beside rw (Router.log_call c rw).
Proof. intros. split; [done|done|]. by exists [c]. Qed.

Lemma beside_call_bw k t ph d : follows beside (@Router.call_bw _ _ _ (behind k) t ph d).
Proof.
  intros rw. unfold Router.call_bw. simpl.
  destruct (backward_run t ph d rw) as (w' & Hn & ->). simpl.
  pose proof (nt_env _ _ _ _ Hn) as He. pose proof (nt_calls _ _ _ _ Hn) as Hc. simpl in *.
  split; simpl; [by rewrite He| |].
  - intros k'. rewrite Hc. unfold begun, ended. rewrite !omap_app. simpl. by rewrite !app_nil_r.
  - eexists. split; [done|]. split; [done|]. split; [done|]. repeat constructor. by destruct ph.
Qed.

Lemma beside_out {A} (f : mem → X → A * (mem * X)) rw : beside rw (out_call f rw).2.
Proof. unfold out_call. destruct (f _ _) as [a [m x]]. by apply beside_same. Qed.

Lemma beside_call_mem k c t d :
  received [c] = [] → finished [c] = [] → accepting [c] →
  follows beside (@Router.call_mem _ _ _ (behind k) c t d).
Proof.
  intros Hc1 Hc2 Hc3 rw. unfold Router.call_mem. simpl.
  pose proof (beside_out (memory_b_transport k t d) (Router.log_call c rw)) as Hb.
  destruct (out_call _ _) as [d' rw']. simpl in *. etrans; [by apply beside_log|exact Hb].
Qed.

Lemma beside_call_bus k t d : follows beside (@Router.call_bus _ _ _ (behind k) t d).
Proof.
  intros rw. unfold Router.call_bus. simpl.
  pose proof (beside_out (bus_b_transport k t d) (Router.log_call (Router.RBus t) rw)) as Hb.
  destruct (out_call _ _) as [d' rw']. simpl in *. etrans; [|exact Hb]. apply beside_log; repeat constructor.
Qed.

Lemma beside_call_dbg k t : follows beside (@Router.call_dbg _ _ _ (behind k) t).
Proof.
  intros rw. unfold Router.call_dbg. simpl.
  pose proof (beside_out (bus_transport_dbg k t) (Router.log_call (Router.RDbg t) rw)) as Hb.
  destruct (out_call _ _) as [d' rw']. simpl in *. etrans; [|exact Hb]. apply beside_log; repeat constructor.
Qed.

Ltac beside_step :=
  lazymatch goal with
  | |- follows _ (Router.call_bw _ _ _) => apply beside_call_bw
  | |- follows _ (Router.call_mem _ _ _) => apply beside_call_mem; [done|done|repeat constructor]
  | |- follows _ (Router.call_bus _ _) => apply beside_call_bus
  | |- follows _ (Router.call_dbg _) => apply beside_call_dbg
  | |- follows _ (Router.send_end_req _) => unfold Router.send_end_req, Router.done_notify
  | |- follows _ (Router.send_response _) => unfold Router.send_response, Router.peq_notify
  | |- follows _ (Router.ToMem _) => unfold Router.ToMem
  | |- follows _ (Router.peq_cb _ _) => unfold Router.peq_cb
  | |- follows _ _ => follows_step
  | |- _ => intros; by apply beside_same
  end.

Lemma beside_run k (x : rstep) : follows beside (@TxnRouterProps.run _ _ _ (behind k) (router_action x)).
Proof.
  destruct x; simpl; unfold Router.peq_deliver, Router.execute_begin, Router.execute_end;
    repeat beside_step.
Qed.

Lemma beside_blocking k t d : follows beside (@Router.b_transport _ _ _ (behind k) t d).
Proof. unfold Router.b_transport. repeat beside_step. Qed.

Lemma beside_debug k t : follows beside (@Router.transport_dbg _ _ _ (behind k) t).
Proof. unfold Router.transport_dbg. repeat beside_step. Qed.

(** Router [k] goes on from [r] to [rw]. *)
Lemma pairs_leave k r w rw :
  routers (Port.env w) !! k = Some r → beside (enter r w) rw → pairs w (leave k rw).
Proof.
  intros Hr [Hrs Hc (l & Hl & Hb & Hf & Ha)] Hp k' r' Hk Hr'. simpl in *. rewrite Hrs in Hr'.
  destruct (Hc k') as [-> ->].
  apply lookup_insert_Some in Hr' as [[<- <-]|[_ Hr']]; [|by apply Hp]. simpl.
  destruct (Hp k r Hk Hr) as (Hb' & He' & Ha'). unfold received, finished, accepting in *.
  rewrite Hl, !omap_app, Hb, Hf, !app_nil_r, Forall_app. done.
Qed.

Lemma pairs_failure e w : pairs w (set_env (set_failure e) w).
Proof. by intros Hp k r Hk Hr; apply Hp. Qed.

Lemma pairs_with_router {A} s (a : A) (f : Z → M (rworld X) A) w :
  (∀ k, follows beside (f k)) → pairs w (snd (with_router s a f w)).
Proof.
  intros Hf. unfold with_router. destruct s as [|k]; [apply pairs_failure|].
  destruct (routers (Port.env w) !! k) as [r|] eqn:Hr; [|apply pairs_failure].
  specialize (Hf k (enter r w)). destruct (f k (enter r w)) as [[b|e] rw]; simpl in *.
  - by eapply pairs_leave.
  - etrans; [by eapply pairs_leave|apply pairs_failure].
Qed.
(** *** The port *)

Lemma pairs_call_fw s t ph d : follows pairs (Port.call_fw s t ph d).
Proof.
  intros w. unfold Port.call_fw. simpl. unfold with_router.
  destruct s as [|k]; simpl; [etrans; [apply pairs_failure|apply pairs_log; by destruct ph]|].
  destruct (routers (Port.env w) !! k) as [r|] eqn:Hr; simpl.
  2: { intros Hp k' r' Hk Hr'. simpl in *. destruct (Hp k' r' Hk Hr') as (Hb & He & Ha). rewrite Hb, He.
       unfold begun, ended. rewrite !omap_app. simpl.
       destruct ph; simpl; rewrite ?app_nil_r; try done; rewrite decide_False, app_nil_r by congruence; done. }
  destruct (nb_transport_fw_leaves t ph d (enter r w)) as (Hh & _ & He).
  set (rs := state_of (snd (Router.nb_transport_fw t ph d (enter r w)))) in *.
  assert (∀ w', routers (Port.env w') = <[k := rs]> (routers (Port.env w)) → Port.calls w' = Port.calls w →
    ∀ a, pairs w (Port.log_call (Port.CallFw (Port.MultiSocket k) t ph d a) w')) as Hdone.
  { intros w' Hrs Hc a Hp k' r' Hk Hr'. simpl in *. rewrite Hrs in Hr'. rewrite Hc.
    unfold begun, ended. rewrite !omap_app. simpl.
    apply lookup_insert_Some in Hr' as [[<- <-]|[Hne Hr']].
    - destruct (Hp k r Hk Hr) as (Hb & He' & Ha). simpl. rewrite Hh. simpl.
      unfold received, finished, begun, ended, accepting in *. rewrite !omap_app, Hb, He', Forall_app.
      split; [|split; [|split; [done|repeat constructor]]]; destruct ph; simpl; by rewrite ?decide_True by done.
    - destruct (Hp k' r' Hk Hr') as (Hb & He' & Ha). rewrite Hb, He'.
      destruct ph; simpl; rewrite ?app_nil_r; try done; rewrite decide_False, app_nil_r by congruence; done. }
  destruct (Router.nb_transport_fw t ph d (enter r w)) as [[b|e] rw]; simpl in *;
    (apply Hdone; [by simpl; rewrite He|simpl; by rewrite He]).
Qed.

Lemma pairs_call_b s t d : follows pairs (Port.call_b s t d).
Proof.
  intros w. unfold Port.call_b. simpl.
  pose proof (pairs_with_router s d (λ k, @Router.b_transport _ _ _ (behind k) t d) w
    (λ k, beside_blocking k t d)) as Hp.
  destruct (with_router _ _ _ _) as [d' w']. simpl in *. etrans; [exact Hp|]. by apply pairs_log.
Qed.

Lemma pairs_call_dbg s t : follows pairs (Port.call_dbg s t).
Proof.
  intros w. unfold Port.call_dbg. simpl.
  pose proof (pairs_with_router s 0 (λ k, @Router.transport_dbg _ _ _ (behind k) t) w
    (λ k, beside_debug k t)) as Hp.
  destruct (with_router _ _ _ _) as [d' w']. simpl in *. etrans; [exact Hp|]. by apply pairs_log.
Qed.

Ltac pairs_step :=
  lazymatch goal with
  | |- follows _ (Port.call_fw _ _ _ _) => apply pairs_call_fw
  | |- follows _ (Port.call_b _ _ _) => apply pairs_call_b
  | |- follows _ (Port.call_dbg _ _) => apply pairs_call_dbg
  | |- follows _ (Port.bound_socket _) => unfold Port.bound_socket
  | |- follows _ (Port.packet2payload _ _) => unfold Port.packet2payload
  | |- follows _ (Port.attach_extension _ _ _) => unfold Port.attach_extension
  | |- follows _ (Port.after_begin_req _ _ _) => unfold Port.after_begin_req
  | |- follows _ (Port.send_begin_req _ _) => unfold Port.send_begin_req
  | |- follows _ (Port.notify _ _ _ _) => unfold Port.notify
  | |- follows _ (Port.getSocketId _) => unfold Port.getSocketId
  | |- follows _ Port.CAUGHT_UP => unfold Port.CAUGHT_UP
  | |- follows _ Port.new_PayloadEvent => intros ?; by apply pairs_same
  | |- follows _ _ => follows_step
  | |- _ => intros; by apply pairs_same
  end.

Lemma pairs_recvTimingReq a : follows pairs (Port.recvTimingReq a).
Proof. unfold Port.recvTimingReq. repeat pairs_step. Qed.

Lemma pairs_recvAtomic a : follows pairs (Port.recvAtomic a).
Proof. unfold Port.recvAtomic. repeat pairs_step. Qed.

Lemma pairs_recvFunctional a : follows pairs (Port.recvFunctional a).
Proof. unfold Port.recvFunctional. repeat pairs_step. Qed.

(** gem5, when it is called: it works on its own state, and may send requests. *)
Inductive visit : pworld X → pworld X → Prop :=
| vi_done w : visit w w
| vi_gem5 w w' w'' :
    Port.calls w' = Port.calls w → routers (Port.env w') = routers (Port.env w) → visit w' w'' → visit w w''
| vi_request w a w'' : visit (snd (Port.recvTimingReq a w)) w'' → visit w w''.

Class Visits : Prop := {
  vs_retry w : visit w (gem5_retry w);
  vs_resp a w : visit w (snd (gem5_timing_resp a w));
}.

Lemma pairs_visit w w' : visit w w' → pairs w w'.
Proof.
  induction 1 as [w|w w' w'' Hc Hr _ IH|w a w'' _ IH]; [done|..].
  - etrans; [|exact IH]. unfold pairs, paired. by rewrite Hc, Hr.
  - etrans; [apply pairs_recvTimingReq|exact IH].
Qed.

Context `{!Visits}.

Lemma pairs_sendTimingResp a : follows pairs (Port.call_sendTimingResp a).
Proof.
  intros w. unfold Port.call_sendTimingResp. simpl. pose proof (vs_resp a w) as Hv.
  destruct (gem5_timing_resp a w) as [ok w']. simpl in *. etrans; [by apply pairs_visit|]. by apply pairs_log.
Qed.

Lemma pairs_sendRetryReq : follows pairs Port.call_sendRetryReq.
Proof.
  intros w. unfold Port.call_sendRetryReq. simpl. etrans; [by apply (pairs_log w Port.CallSendRetryReq)|].
  apply pairs_visit, vs_retry.
Qed.

Ltac pairs_call :=
  lazymatch goal with
  | |- follows _ (Port.call_sendTimingResp _) => apply pairs_sendTimingResp
  | |- follows _ Port.call_sendRetryReq => apply pairs_sendRetryReq
  | |- follows _ (Port.send_end_resp _ _) => unfold Port.send_end_resp
  | |- follows _ (Port.pec_unblock _) => unfold Port.pec_unblock
  | |- follows _ (Port.pec_response _) => unfold Port.pec_response
  | |- follows _ (Port.retry_response _) => unfold Port.retry_response
  | |- follows _ (Port.core_of _) => unfold Port.core_of
  | |- follows _ (getCoreID _) => unfold getCoreID
  | |- _ => pairs_step
  end.

Lemma pairs_process pe : follows pairs (Port.process pe).
Proof. unfold Port.process, Port.pec, Port.delete_event. repeat pairs_call. Qed.

Lemma pairs_loop fuel response : follows pairs (Port.resp_retry_loop fuel response).
Proof.
  revert response. induction fuel as [|fuel IH]; intros response; simpl; repeat pairs_call; apply IH.
Qed.

Lemma pairs_recvRespRetry : follows pairs Port.recvRespRetry.
Proof. unfold Port.recvRespRetry. repeat pairs_call; apply pairs_loop. Qed.

Lemma pairs_nb_transport_bw t ph d : follows pairs (Port.nb_transport_bw t ph d).
Proof. unfold Port.nb_transport_bw. repeat pairs_call. intros w. by apply pairs_log. Qed.

(** ** Runs *)

Lemma pairs_router_step k x : follows pairs (router_step k x).
Proof.
  intros w. unfold router_step. destruct (routers (Port.env w) !! k) as [r|] eqn:Hr; [|done].
  pose proof (beside_run k x (enter r w)) as Hb.
  destruct (TxnRouterProps.run _ _) as [res rw]. simpl in *. by eapply pairs_leave.
Qed.

Lemma pairs_srun act : follows pairs (srun act).
Proof.
  destruct act as [[a|a|a|pe|t ph d|]|k x]; simpl.
  - follows_step; [apply pairs_recvTimingReq|apply follows_ret; apply _].
  - follows_step; [apply pairs_recvAtomic|apply follows_ret; apply _].
  - apply pairs_recvFunctional.
  - apply pairs_process.
  - follows_step; [apply pairs_nb_transport_bw|apply follows_ret; apply _].
  - apply pairs_recvRespRetry.
  - apply pairs_router_step.
Qed.

Lemma sreachable_paired w : sreachable w → paired w.
Proof.
  induction 1 as [w [Hp _ Hr]|w act w' _ IH _ Hrun|w w' _ IH [Hpr _ Hr _]|w tick sc _ IH].
  - intros k r Hk Hrk. rewrite (Hr k Hk) in Hrk. injection Hrk as <-.
    rewrite (in_calls _ _ Hp). split; [done|split; [done|constructor]].
  - pose proof (pairs_srun act w) as Hs. rewrite Hrun in Hs. by apply Hs.
  - unfold paired. by rewrite Hr, (pr_calls _ _ _ _ Hpr).
  - exact IH.
Qed.

Lemma nothing_staged k s :
  staged k ∅ s → waiting s = [] ∧ executing s = [] ∧ answering s = [].
Proof.
  intros Hs. unfold waiting, executing, answering. destruct s as [[t|] cur].
  { by assert ((∅ : protocol) !! t = Some (k, MReq)) as Ht by by apply Hs. }
  destruct cur as [[t []]|]; [..|done|done].
  - by assert ((∅ : protocol) !! t = Some (k, MWait)) as Ht by (apply Hs; by left).
  - by assert ((∅ : protocol) !! t = Some (k, MWait)) as Ht by (apply Hs; by right).
  - by assert ((∅ : protocol) !! t = Some (k, MResp)) as Ht by by apply Hs.
Qed.

Lemma pipeline_lengths s :
  (length (waiting s) ≤ 2)%nat ∧ (length (executing s ++ answering s) ≤ 1)%nat.
Proof. destruct s as [[] [[? []]|]]; simpl; split; unfold waiting; simpl; lia. Qed.

Context `{!Guests}.

(** C5: The transactions that the port has begun on a socket, those the memory behind its router was called
    for, those the router has answered, and those the port has ended are one sequence, each a prefix
    of the one before: the memory is called exactly once for each transaction, after it was begun,
    and each is answered exactly once, after that call, in the order in which they were begun; at
    most two wait for the memory, and at most one is at the memory or answered and not ended.
    Where no transaction is in progress, all that were begun have been served and ended. *)
Theorem system_serves_in_order w k :
  sreachable w → 0 ≤ k < width →
  ∃ r s, routers (Port.env w) !! k = Some r ∧ pipeline_of (r_history r) = Some s ∧
    let h := r_history r in
    begun k (Port.calls w) = executed h ++ waiting s ∧
    executed h = answered h ++ executing s ∧
    answered h = ended k (Port.calls w) ++ answering s ∧
    (length (waiting s) ≤ 2)%nat ∧ (length (executing s ++ answering s) ≤ 1)%nat ∧
    (monitor (Port.calls w) = Some ∅ →
       begun k (Port.calls w) = executed h ∧ executed h = ended k (Port.calls w)).
Proof.
  intros Hr Hk. destruct (sreachable_inv w Hr) as [G [Hi Hj]].
  destruct (jn_router _ _ _ _ Hj k Hk I) as (r & s & Hrk & [Hs Hst _]). exists r, s.
  destruct (sreachable_paired w Hr k r Hk Hrk) as (<- & <- & Ha).
  pose proof (TxnRouterProps.r_history _ _ _ Hs) as Hh. simpl in Hh.
  destruct (pipeline_in_sequence _ s Hh Ha) as [He Hw Hf]. destruct (pipeline_lengths s).
  do 7 (split; [done|]). intros HG.
  assert (G = ∅) as -> by (pose proof (i_monitor _ _ _ _ Hi); congruence).
  destruct (nothing_staged k s Hst) as (Hn1 & Hn2 & Hn3).
  rewrite Hn1, app_nil_r in He. rewrite Hn2, app_nil_r in Hw. rewrite Hn3, app_nil_r in Hf.
  split; congruence.
Qed.
End service.

Section witness.
#[local] Existing Instance still.
#[local] Existing Instance pair.
#[local] Existing Instance still_guests.

#[local] Instance still_visits : Visits.
Proof. by split; intros; constructor. Qed.

(** One transaction, from the request to the end of the response. *)
Lemma system_serves_in_order_witness :
  monitor (Port.calls system_done) = Some ∅ ∧ begun 0 (Port.calls system_done) = [payload1] ∧
  ∃ r, routers (Port.env system_done) !! 0 = Some r ∧ executed (r_history r) = [payload1] ∧
       ended 0 (Port.calls system_done) = [payload1].
Proof.
  assert (monitor (Port.calls system_done) = Some ∅) as HG by (vm_compute; reflexivity).
  assert (begun 0 (Port.calls system_done) = [payload1]) as Hb by (vm_compute; reflexivity).
  destruct (system_serves_in_order system_done 0 system_done_reachable)
    as (r & s & Hr & _ & _ & _ & _ & _ & _ & Hall).
  { split; [apply Z.le_refl|reflexivity]. }
  destruct (Hall HG) as [He Hd]. split; [exact HG|]. split; [exact Hb|].
  exists r. rewrite <- Hd, <- He. split; [exact Hr|]. split; exact Hb.
Defined.
End witness.
