(* ===== verification/SimpleBus.v ===== *)
(** * SimpleBus: simple_bus.h

    The bus that decodes an address to one of its targets, for blocking and debug transports. *)

From S2P Require Import Prelude Tlm Concrete TxnRouter.

Module Bus.

(** [struct PortMapping]: both ends belong to the range. *)
Record PortMapping := { start : Z; end_ : Z }.

Definition PortMapping_new (start end_ : Z) : outcome PortMapping :=
  if start <=? end_ then Ok {| start := start; end_ := end_ |} else Err (ASSERT "end >= start").

Definition contains (addr : Z) (m : PortMapping) : bool :=
  (start m <=? addr) && (addr <=? end_ m).

Definition global_to_local (addr : Z) (m : PortMapping) : Z := wrap64 (addr - start m).

(** [struct SimpleBus]: [ports] has an entry for each of the [NR_OF_TARGETS] targets, a null pointer
    being [None]. *)
Record SimpleBus := { NR_OF_INITIATORS : Z; ports : list (option PortMapping) }.

(** The loop of [decode] from target [i] on. *)
Fixpoint decode_loop (i : Z) (ports : list (option PortMapping)) (addr : Z) : outcome Z :=
  match ports with
  | [] => Ok (-1)
  | None :: _ => Err (UNDEFINED "ports[i]")
  | Some m :: ports' => if contains addr m then Ok i else decode_loop (i + 1) ports' addr
  end.
Definition decode (b : SimpleBus) (addr : Z) : outcome Z := decode_loop 0 (ports b) addr.

Section bus.
Context `{TlmPayload, Gem5Packet} {E : Type}.

(** The bus, the payloads, what is behind its sockets, and the targets called. *)
Record world := World { bus : SimpleBus; mem : store; env : E; called : list (Z * ptr) }.

Definition set_mem (s : store) (w : world) : world := World (bus w) s (env w) (called w).
Definition log_call (i : Z) (t : ptr) (w : world) : world :=
  World (bus w) (mem w) (env w) (called w ++ [(i, t)]).

Class BusEnv := {
  target_b_transport : Z → ptr → Z → world → Z * world;
  target_transport_dbg : Z → ptr → world → Z * world;
}.
End bus.
Arguments world {_ _} E.
Arguments BusEnv {_ _} E.

Abbreviation on_store c := (zoom mem set_mem c).

Section functions.
Context `{TlmPayload, Gem5Packet} {E : Type} `{!BusEnv E}.

Definition lift_outcome {A} (o : outcome A) : M (world E) A :=
  match o with Ok a => mret a | Err e => fail e end.

Definition transport (t : ptr) (delay : Z) : M (world E) Z :=
  p ← on_store (gp_at t);
  b ← gets bus;
  id ← lift_outcome (decode b (get_address (attrs p)));
  if id <? 0
  then on_store (gp_do t (set_response_status TLM_ADDRESS_ERROR_RESPONSE));; mret delay
  else λ w, let '(d, w') := target_b_transport id t delay (log_call id t w) in (Ok d, w').

Definition transport_dbg (t : ptr) : M (world E) Z :=
  p ← on_store (gp_at t);
  b ← gets bus;
  id ← lift_outcome (decode b (get_address (attrs p)));
  if id <? 0
  then on_store (gp_do t (set_response_status TLM_ADDRESS_ERROR_RESPONSE));; mret 0
  else λ w, let '(n, w') := target_transport_dbg id t (log_call id t w) in (Ok n, w').

(** ** Properties *)

(** The target of an address: the first one whose range has it. *)
Definition first_target (maps : list PortMapping) (addr : Z) (i : nat) : Prop :=
  (∃ m, maps !! i = Some m ∧ start m ≤ addr ≤ end_ m) ∧
  ∀ j m, (j < i)%nat → maps !! j = Some m → ¬ (start m ≤ addr ≤ end_ m).

Lemma contains_spec addr m : contains addr m = true ↔ start m ≤ addr ≤ end_ m.
Proof. unfold contains. rewrite andb_true_iff, !Z.leb_le. lia. Qed.

Lemma decode_loop_spec maps addr k :
  (∃ i, first_target maps addr i ∧ decode_loop k (Some <$> maps) addr = Ok (k + Z.of_nat i)) ∨
  (Forall (λ m, ¬ (start m ≤ addr ≤ end_ m)) maps ∧ decode_loop k (Some <$> maps) addr = Ok (-1)).
Proof.
  revert k. induction maps as [|m maps IH]; intros k; csimpl; [by right|].
  destruct (contains addr m) eqn:Hc.
  - apply contains_spec in Hc. left. exists 0%nat. split; [|f_equal; lia].
    split; [by exists m|]. intros j m' Hj. lia.
  - assert (¬ (start m ≤ addr ≤ end_ m)) as Hn by (rewrite <- contains_spec, Hc; done).
    destruct (IH (k + 1)) as [(i & [Hi Hless] & Hd)|[Hall Hd]].
    + left. exists (S i). split; [|rewrite Hd; f_equal; lia]. split; [done|].
      intros [|j] m' Hj; simpl; [by intros [= <-]|]. apply Hless. lia.
    + right. split; [by constructor|done].
Qed.

(** Both transports begin with the decoding, which finds the first target or -1. *)
Lemma decoded (maps : list PortMapping) w t p :
  ports (bus w) = Some <$> maps → gps (mem w) !! t = Some p →
  let addr := get_address (attrs p) in
  ∃ id, (∀ (A : Type) (K : Z → M (world E) A),
    (p ← on_store (gp_at t); b ← gets bus; id ← lift_outcome (decode b (get_address (attrs p))); K id) w =
    K id w) ∧
    ((∃ i, first_target maps addr i ∧ id = Z.of_nat i) ∨
     (Forall (λ m, ¬ (start m ≤ addr ≤ end_ m)) maps ∧ id = -1)).
Proof.
  intros Hports Hp addr. assert (set_mem (mem w) w = w) as Hw by by destruct w.
  assert (∀ id, decode_loop 0 (Some <$> maps) addr = Ok id → ∀ (A : Type) (K : Z → M (world E) A),
    (p ← on_store (gp_at t); b ← gets bus; id ← lift_outcome (decode b (get_address (attrs p))); K id) w =
    K id w) as Hrun.
  { intros id Hid A K. unfold zoom, gp_at, mbind, M_bind, gets. simpl. rewrite Hp, Hw. unfold decode.
    rewrite Hports. fold addr. by rewrite Hid. }
  destruct (decode_loop_spec maps addr 0) as [(i & Hi & Hd)|[Hall Hd]].
  - exists (Z.of_nat i). split; [by apply Hrun|]. left. by exists i.
  - exists (-1). split; [by apply Hrun|]. by right.
Qed.

Definition address_error t p w : world E :=
  set_mem (set_gps (insert t (set_response_status TLM_ADDRESS_ERROR_RESPONSE p)) (mem w)) w.

Lemma status_written t p w :
  gps (mem w) !! t = Some p →
  on_store (gp_do t (set_response_status TLM_ADDRESS_ERROR_RESPONSE)) w = (Ok tt, address_error t p w).
Proof. intros Hp. unfold zoom, gp_do, gp_at, mbind, M_bind, mret, M_ret, modify. simpl. by rewrite Hp. Qed.

Lemma to_target {A} (i : nat) (a b : M (world E) A) : (if Z.of_nat i <? 0 then a else b) = b.
Proof. by rewrite (proj2 (Z.ltb_ge (Z.of_nat i) 0)) by lia. Qed.

Lemma to_nobody {A} (a b : M (world E) A) : (if -1 <? 0 then a else b) = a.
Proof. done. Qed.

(** A transaction goes to the first target whose range has its address, and to no other; without
    such a target it ends with an address error and nothing is called. *)
Theorem bus_routes (maps : list PortMapping) w t p d :
  ports (bus w) = Some <$> maps → gps (mem w) !! t = Some p →
  let addr := get_address (attrs p) in
  (∃ i, first_target maps addr i ∧
     transport t d w =
       (let '(d', w') := target_b_transport (Z.of_nat i) t d (log_call (Z.of_nat i) t w) in (Ok d', w')) ∧
     transport_dbg t w =
       (let '(n, w') := target_transport_dbg (Z.of_nat i) t (log_call (Z.of_nat i) t w) in (Ok n, w')))
  ∨
  (Forall (λ m, ¬ (start m ≤ addr ≤ end_ m)) maps ∧
   transport t d w = (Ok d, address_error t p w) ∧ transport_dbg t w = (Ok 0, address_error t p w)).
Proof.
  intros Hports Hp addr. destruct (decoded maps w t p Hports Hp) as (id & Hrun & Hid).
  unfold transport, transport_dbg. rewrite !Hrun.
  destruct Hid as [(i & Hi & ->)|[Hall ->]]; [left|right].
  - exists i. by rewrite !to_target.
  - split; [done|]. simpl. unfold mbind, M_bind, mret, M_ret. by rewrite (status_written t p w Hp).
Qed.

(** Within the memory's range the router sends debug transports to the bus.  The bus that
    [createSimpleBus] makes for the same memory, given its last address, accepts exactly these. *)
Theorem router_agrees_with_bus r addr m :
  u64 (Router.mem_start_addr r) → u64 addr → 0 < Router.mem_size r →
  Router.mem_start_addr r + Router.mem_size r < 2 ^ 64 →
  PortMapping_new (Router.mem_start_addr r) (Router.mem_start_addr r + Router.mem_size r - 1) = Ok m →
  decode {| NR_OF_INITIATORS := 2; ports := [Some m] |} addr =
    Ok (if Router.in_range r addr then 0 else -1).
Proof.
  intros Hs Ha Hsz Hlt Hm. unfold PortMapping_new in Hm.
  rewrite (proj2 (Z.leb_le _ _)) in Hm by lia. injection Hm as <-.
  unfold decode. simpl. unfold contains, Router.in_range. simpl. unfold u64 in *.
  rewrite wrap64_small by (split; lia).
  destruct (Z.ltb_spec addr (Router.mem_start_addr r));
    destruct (Z.leb_spec (Router.mem_start_addr r) addr); try lia; [done|].
  destruct (Z.leb_spec (Router.mem_start_addr r + Router.mem_size r) addr);
    destruct (Z.leb_spec addr (Router.mem_start_addr r + Router.mem_size r - 1)); try lia; done.
Qed.
End functions.

(** ** Witnesses *)

#[local] Instance no_target : BusEnv unit := {
  target_b_transport _ _ d w := (d + 1, w);
  target_transport_dbg _ _ w := (4, w);
}.

Definition two_maps : list PortMapping := [{| start := 0; end_ := 99 |}; {| start := 50; end_ := 199 |}].
Definition gp_addr (a : Z) : payload :=
  GpAttributes a TLM_READ_COMMAND 0 4 4 0 TLM_INCOMPLETE_RESPONSE true 1 None.
Definition bus_world (a : Z) : world unit :=
  World {| NR_OF_INITIATORS := 2; ports := Some <$> two_maps |}
    (Store {[ 1%positive := gp_addr a ]} ∅ 5) tt [].

Lemma bus_routes_witness :
  called (snd (transport 1 0 (bus_world 60))) = [(0, 1%positive)] ∧
  (∃ i, first_target two_maps 60 i ∧ transport_dbg 1 (bus_world 60) = (Ok 4, log_call (Z.of_nat i) 1 (bus_world 60))).
Proof.
  split; [reflexivity|].
  destruct (bus_routes two_maps (bus_world 60) 1 (gp_addr 60) 0)
    as [(i & Hi & _ & Hd)|[Hall _]]; [reflexivity|reflexivity|by exists i|].
  inversion Hall as [|m l Hm _]; subst. simpl in Hm. lia.
Defined.

Lemma router_agrees_with_bus_witness :
  decode {| NR_OF_INITIATORS := 2; ports := [Some {| start := 4096; end_ := 8191 |}] |} 8191 = Ok 0.
Proof.
  rewrite (router_agrees_with_bus (Router.TxnRouter_new 4096 4096) 8191); simpl; try done;
    unfold u64; lia.
Defined.
End Bus.
