(* ===== verification/SystemAccess.v ===== *)
(** * Blocking and functional accesses of the system

    What an atomic request of gem5 does from the slave port to the memory or the bus behind a router,
    and what becomes of it when the bus is the one of [SimpleBus] and no target has the address; and what
    a functional request does there. *)

From S2P Require Import Prelude StdMap Tlm Concrete MemManager BlockingHelper SocketMap Transactor.
From S2P Require Import SlavePort SlaveProtocol SlavePortProps SlavePortSpec TxnRouter TxnRouterProps.
From S2P Require Import System SystemProps SystemSpec SimpleBus.
Import System.

Section access.
Context `{TlmPayloadLaws, Gem5PacketLaws} {X : Type} `{!Layout X, !Outside X}.
Implicit Types (w : pworld X) (rw : rworld X) (t a : ptr) (k : Z) (r : rstate) (m : mem) (x : X).

(** Whether the memory behind router [k] has address [addr], what then gets a blocking access, and
    how the router notes the call. *)
Definition inside k (addr : Z) : bool :=
  Router.in_range (Router.TxnRouter_new (ranges k).1 (ranges k).2) addr.

Definition blocking_target k (addr : Z) : ptr → Z → mem → X → Z * (mem * X) :=
  if inside k addr then memory_b_transport k else bus_b_transport k.

Definition blocking_note k (addr : Z) t : Router.rcall :=
  if inside k addr then Router.RBlock t else Router.RBus t.

(** The router gives what comes back from the memory an OK status. *)
Definition marked (b : bool) t m : mem :=
  if b then Mem (mgr m) (set_gps (alter (set_response_status TLM_OK_RESPONSE) t) (MemManager.st m)) else m.

Definition noting r (c : Router.rcall) : rstate :=
  RState (r_router r) (r_peq r) (r_done r) (r_process r) (r_history r ++ [c]).

(** The system after the call: [m] is the memory and [x] the outside. *)
Definition reached k r (c : Router.rcall) m x w : pworld X :=
  Port.set_memory m (set_env (λ o, set_others x (set_routers (insert k (noting r c)) o)) w).

Lemma alter_insert {A} (f : A → A) (g : gmap ptr A) t p : g !! t = Some p → alter f t g = <[t := f p]> g.
Proof.
  intros Hp. apply map_eq. intros t'. destruct (decide (t' = t)) as [->|Hne].
  - by rewrite lookup_alter_eq, lookup_insert_eq, Hp.
  - by rewrite lookup_alter_ne, lookup_insert_ne.
Qed.

Context `{!Guests}.

(** One blocking call through a socket reaches one target of its router. *)
Lemma wp_blocking k t d w G s r p (Q : Z → pworld X → Prop) :
  routers (Port.env w) !! k = Some r → serves k r G (Port.memory w) s →
  gps (MemManager.st (Port.memory w)) !! t = Some p →
  let addr := get_address (attrs p) in
  (∀ d' m x p', blocking_target k addr t d (Port.memory w) (others (Port.env w)) = (d', (m, x)) →
     touched (Port.memory w) m → gps (MemManager.st m) !! t = Some p' → ref_count p' = ref_count p →
     Q d' (Port.log_call (Port.CallB (Port.MultiSocket k) t)
             (reached k r (blocking_note k addr t) (marked (inside k addr) t m) x w))) →
  wp (Port.call_b (Port.MultiSocket k) t d) Q w.
Proof.
  intros Hr Hsv Hp addr HQ. unfold wp, Port.call_b.
  destruct (Port.b_transport (Port.MultiSocket k) t d w) as [d' w'] eqn:Hrun.
  pose proof (serves_enter _ _ _ _ _ _ Hsv eq_refl) as Hi.
  eapply with_router_wp; [exact Hrun|exact Hr|]. unfold Router.b_transport.
  apply wp_bind. eapply wp_range; [exact Hp|]. fold addr. rewrite (in_range_layout k _ s _ Hi).
  fold (inside k addr). unfold blocking_target, blocking_note, marked in HQ. destruct (inside k addr).
  - apply wp_bind. eapply wp_out. simpl. intros d1 m x Hm. pose proof (gu_memory _ _ _ _ _ _ _ _ Hm) as Hto.
    destruct (to_payload _ _ Hto t p Hp) as (p1 & Hp1 & Hr1 & _).
    apply wp_bind, wp_zoom. eapply wp_gp_do; [exact Hp1|]. apply wp_ret. intros -> ->.
    specialize (HQ d1 m x p1 Hm Hto Hp1 Hr1). unfold set_gps in *.
    rewrite (alter_insert _ _ t p1 Hp1) in HQ. exact HQ.
  - eapply wp_out. simpl. intros d1 m x Hm. pose proof (gu_bus _ _ _ _ _ _ _ _ Hm) as Hto.
    destruct (to_payload _ _ Hto t p Hp) as (p1 & Hp1 & Hr1 & _). intros -> ->.
    exact (HQ d1 m x p1 Hm Hto Hp1 Hr1).
Qed.
(** What becomes of the packet. *)
Definition answer (pkt : packet) : packet := if needsResponse pkt then makeResponse pkt else pkt.

(** What an access for packet [a] leaves: [m] is the memory the target leaves, [x] the outside, [c] the
    note of router [k]. *)
Record after_access k t a (c : Router.rcall) m x w w' : Prop := {
  aa_port : Port.port w' = Port.port w ∧ Port.events w' = Port.events w;
  aa_calls : Port.calls w' = Port.calls w ++ [Port.CallB (Port.MultiSocket k) t];
  aa_router : ∃ r, routers (Port.env w) !! k = Some r ∧
    routers (Port.env w') = <[k := noting r c]> (routers (Port.env w));
  aa_others : others (Port.env w') = x;
  aa_packet : ∃ pkt, pkts (MemManager.st m) !! a = Some pkt ∧
    pkts (MemManager.st (Port.memory w')) =
      <[a := answer pkt]> (pkts (MemManager.st m));
  aa_payload : t ∈ freePayloads (mgr (Port.memory w'));
  aa_payloads t' : t' ≠ t →
    gps (MemManager.st (Port.memory w')) !! t' = gps (MemManager.st m) !! t';
}.

Lemma marked_facts b t m p :
  mm_ok m → gps (MemManager.st m) !! t = Some p → (0 < ref_count p)%nat →
  mm_ok (marked b t m) ∧ pkts (MemManager.st (marked b t m)) = pkts (MemManager.st m) ∧
  (∃ p', gps (MemManager.st (marked b t m)) !! t = Some p' ∧ ref_count p' = ref_count p) ∧
  (∀ t', t' ≠ t → gps (MemManager.st (marked b t m)) !! t' = gps (MemManager.st m) !! t').
Proof.
  intros Hok Hp Hr. destruct b; simpl; [|by split; [|split; [|split; [exists p|]]]].
  destruct (status_ok m t p Hok Hp Hr) as [Hm _]. unfold set_gps in *.
  rewrite (alter_insert _ _ t p Hp). split; [done|]. split; [done|]. split.
  - rewrite lookup_insert_eq. eexists. split; [done|]. by apply same_use_status.
  - intros t' Hne. by rewrite lookup_insert_ne.
Qed.

(** The packet becomes a response, and the payload goes back to the pool. *)
Lemma wp_access_end w t a d p pkt (Q : Z → pworld X → Prop) :
  mm_ok (Port.memory w) → gps (MemManager.st (Port.memory w)) !! t = Some p → ref_count p = 1%nat →
  pkts (MemManager.st (Port.memory w)) !! a = Some pkt →
  (∀ m, pkts (MemManager.st m) = <[a := answer pkt]> (pkts (MemManager.st (Port.memory w))) →
     t ∈ freePayloads (mgr m) →
     (∀ t', t' ≠ t → gps (MemManager.st m) !! t' = gps (MemManager.st (Port.memory w)) !! t') →
     Q d (Port.set_memory m w)) →
  wp (pkt' ← Port.on_mem_store (pkt_at a);
      (if needsResponse pkt' then Port.on_mem_store (pkt_do a makeResponse) else mret tt);;
      Port.on_memory (release t);; mret d) Q w.
Proof.
  intros Hok Hp Hr Ha HQ. assert (∀ m w', w' = Port.set_memory m w → mm_ok m →
    gps (MemManager.st m) = gps (MemManager.st (Port.memory w)) →
    pkts (MemManager.st m) = <[a := answer pkt]> (pkts (MemManager.st (Port.memory w))) →
    wp (Port.on_memory (release t);; mret d) Q w') as Hrel.
  { intros m w' -> Hm Hg Hpk. apply wp_bind, wp_zoom.
    eapply wp_release; [exact Hm|simpl; rewrite Hg; exact Hp|rewrite Hr; lia|].
    intros m' [_ Hoth Hpk' _ Hpool _]. apply wp_ret. simpl in *. apply HQ.
    - by rewrite Hpk', Hpk.
    - rewrite Hpool, Hr. apply elem_of_app. right. by left.
    - intros t' Hne. by rewrite Hoth, Hg. }
  apply wp_bind. eapply wp_packet; [exact Ha|]. unfold answer in *. apply wp_bind.
  destruct (needsResponse pkt).
  - eapply wp_packet_do; [exact Ha|]. eapply Hrel; [done| |done|done].
    apply mm_ok_write_packet; [exact Hok|by eexists].
  - apply wp_ret. apply (Hrel (Port.memory w)); [by destruct w|done|done|by rewrite insert_id].
Qed.

(** Making the payload is part of the access. *)
Lemma after_access_made k t a c m x m0 w w' :
  after_access k t a c m x (Port.set_memory m0 w) w' → after_access k t a c m x w w'.
Proof. intros []. by split. Qed.

(** The access itself. *)
Lemma wp_access w G s a t k r p (Q : Z → pworld X → Prop) :
  routers (Port.env w) !! k = Some r → serves k r G (Port.memory w) s →
  gps (MemManager.st (Port.memory w)) !! t = Some p → ref_count p = 1%nat →
  has_packet w a → mm_ok (Port.memory w) → 0 ≤ k < width → configured width (Port.port w) →
  let addr := get_address (attrs p) in
  (∀ d m x w', blocking_target k addr t 0 (Port.memory w) (others (Port.env w)) = (d, (m, x)) →
     after_access k t a (blocking_note k addr t) m x w w' → Q d w') →
  wp (d ← (s ← Port.bound_socket k; Port.call_b s t 0);
      pkt' ← Port.on_mem_store (pkt_at a);
      (if needsResponse pkt' then Port.on_mem_store (pkt_do a makeResponse) else mret tt);;
      Port.on_memory (release t);; mret d) Q w.
Proof.
  intros Hr Hsv Hp Hrf Ha Hok Hk Hc addr HQ. do 2 apply wp_bind. apply (wp_bound_socket width); [done..|].
  eapply wp_blocking; [exact Hr|exact Hsv|exact Hp|]. fold addr. intros d m x p' Hrun Hto Hp' Hrf'.
  destruct (to_packet _ _ Hto a Ha) as [pkt Hpkt]. assert (0 < ref_count p')%nat as Hrp by lia.
  destruct (marked_facts (inside k addr) t m p' (to_ok _ _ Hto Hok) Hp' Hrp)
    as (Hmm & Hmp & (p2 & Hp2 & Hrf2) & Hmo).
  eapply (wp_access_end _ t a d p2 pkt); simpl; [exact Hmm|exact Hp2|congruence|by rewrite Hmp|].
  intros m' Hpk Hpool Hoth. eapply HQ; [exact Hrun|]. rewrite Hmp in Hpk. split; simpl; try done.
  - by exists r.
  - by exists pkt.
  - intros t' Hne. by rewrite Hoth, Hmo.
Qed.

(** Requests that gem5 sends as atomic accesses: reads, and writes that do not invalidate. *)
Definition atomic_packet (pkt : packet) a w : Prop :=
  pkts (MemManager.st (Port.memory w)) !! a = Some pkt ∧ cacheResponding pkt = false ∧
  isSwapReq pkt = false ∧ (isRead pkt || isWrite pkt && negb (isInvalidate pkt)) = true.

Definition atomic_socket (pkt : packet) w : Z :=
  Sockets.getSocketId false (requestorId pkt) (Port.sockets (Port.port w)).

Lemma wp_atomic w a pkt (Q : Z → pworld X → Prop) :
  sreachable w → caught_up w → atomic_packet pkt a w →
  let k := atomic_socket pkt w in
  (∀ t m d m' x w', made w pkt (Some {| Packet := a; coreId := Some k |}) t m →
    blocking_target k (getAddr pkt) t 0 m (others (Port.env w)) = (d, (m', x)) →
    after_access k t a (blocking_note k (getAddr pkt) t) m' x w w' → Q d w') →
  wp (Port.recvAtomic a) Q w.
Proof.
  intros Hr Hcu (Ha & Hcr & Hsw & Hrw) k HQ. destruct (sreachable_inv w Hr) as [G Hi].
  assert ((isRead pkt || isWrite pkt) = true) as Hrw' by (destruct (isRead pkt), (isWrite pkt); done).
  pose proof (i_config _ _ _ _ Hi) as Hc. assert (0 ≤ k < width) as Hk by apply Hc.
  unfold Port.recvAtomic, Port.CAUGHT_UP.
  do 2 apply wp_bind. apply wp_gets, wp_check; [by apply Z.eqb_eq|].
  apply wp_bind. eapply wp_packet; [exact Ha|].
  apply wp_bind, wp_check; [by rewrite Hcr|]. apply wp_bind, wp_check; [done|].
  eapply wp_new_payload; [apply Hi|exact Ha|exact Hrw'|]. intros t m Hm.
  apply wp_bind, wp_gets. simpl. rewrite (c_cache width _ Hc). fold (atomic_socket pkt w); fold k.
  apply wp_bind. eapply wp_attach; [exact Hm|]. clear m Hm. intros m Hm.
  destruct (winv_made width _ _ _ _ _ _ _ Hi Hm) as [_ Hj].
  destruct (jn_router _ _ _ _ Hj k Hk I) as (r & s & Hrk & Hsv).
  destruct (ma_gp _ _ _ _ _ Hm) as (p0 & p & Hp & Hrf & _ & Hpo & _).
  pose proof (po_address _ _ _ Hpo) as Hadr.
  pose proof (wp_access (Port.set_memory m w) G s a t k r p) as Hend. simpl in Hend. rewrite Hadr in Hend.
  rewrite Hsw. destruct (isRead pkt); [|destruct (isInvalidate pkt); [by rewrite andb_false_r in Hrw|];
    simpl in Hrw'; rewrite Hrw'].
  all: apply Hend; [done|done|done|done| |apply Hm|done|done|].
  1, 3: unfold has_packet; simpl; rewrite (ma_pkts _ _ _ _ _ Hm); by eexists.
  all: intros d m' x w' Hrun Haf; apply (HQ t m d m' x w' Hm Hrun); by apply after_access_made in Haf.
Qed.

(** C13: An atomic request of gem5 is one blocking call: a new payload with the request's address, length,
    data, command and extension goes through the socket of the requestor to the memory behind its
    router, if the address is in the range, and to the bus otherwise, and to nothing else; the
    result is the delay of that call, the packet is made a response if it needs one, and the
    payload is back in the pool, while the state of the port stays as it was. *)
Theorem atomic_access w a pkt :
  sreachable w → caught_up w → atomic_packet pkt a w →
  let k := atomic_socket pkt w in
  ∃ t m d m' x w', made w pkt (Some {| Packet := a; coreId := Some k |}) t m ∧
    blocking_target k (getAddr pkt) t 0 m (others (Port.env w)) = (d, (m', x)) ∧
    Port.recvAtomic a w = (Ok d, w') ∧
    after_access k t a (blocking_note k (getAddr pkt) t) m' x w w'.
Proof.
  intros Hr Hcu Ha k.
  destruct (wp_Ok _ _ _ (wp_atomic w a pkt (λ d w', ∃ t m m' x,
    made w pkt (Some {| Packet := a; coreId := Some k |}) t m ∧
    blocking_target k (getAddr pkt) t 0 m (others (Port.env w)) = (d, (m', x)) ∧
    after_access k t a (blocking_note k (getAddr pkt) t) m' x w w') Hr Hcu Ha
    ltac:(intros t m d m' x w' Hm Hrun Haf; by exists t, m, m', x)))
    as (d & w' & Hrun & t & m & m' & x & Hm & Ht & Haf).
  by exists t, m, d, m', x, w'.
Qed.

(** ** Behind the routers, the bus *)

(** Whoever sets the response status of a payload touches nothing else. *)
Lemma mm_ok_status v m t p :
  mm_ok m → gps (MemManager.st m) !! t = Some p →
  mm_ok (Mem (mgr m) (set_gps (insert t (set_response_status v p)) (MemManager.st m))).
Proof.
  intros [Hwf Hnd Hpool Hun Hmm Hc Hf] Hp. destruct (same_use_status v p) as [_ Hr].
  split; simpl; try done.
  - destruct Hwf as [Hw1 Hw2]. split; simpl; [|done]. intros t' q [[<- _]|[_ ?]]%lookup_insert_Some; eauto.
  - intros t' Hin. destruct (Hpool t' Hin) as (q & Hq & Hi1 & Hi2 & Hi3).
    destruct (decide (t' = t)) as [->|Hne]; [|exists q; by rewrite lookup_insert_ne].
    simplify_eq. eexists. rewrite lookup_insert_eq. split; [done|]. split; [by rewrite Hr|].
    autorewrite with gp. split; done.
  - intros t' q [[<- <-]|[_ ?]]%lookup_insert_Some; [rewrite Hr; by apply Hun|by eapply Hun].
  - intros t' q [[<- <-]|[_ ?]]%lookup_insert_Some; [|by eapply Hmm]. autorewrite with gp. by eapply Hmm.
  - by rewrite map_size_insert_Some by by eexists.
Qed.

Lemma touched_status v m t p :
  gps (MemManager.st m) !! t = Some p →
  touched m (Mem (mgr m) (set_gps (insert t (set_response_status v p)) (MemManager.st m))).
Proof.
  intros Hp. split; simpl; [by intros; apply mm_ok_status| |done]. intros t' q Hq.
  destruct (decide (t' = t)) as [->|Hne]; [|exists q; by rewrite lookup_insert_ne].
  simplify_eq. eexists. rewrite lookup_insert_eq. split; [done|].
  destruct (same_use_status v p). by split.
Qed.

(** A transport of bus [b] as a call of the routers. *)
Definition through_bus {A} `{!Bus.BusEnv X} (b : Bus.SimpleBus) (f : M (Bus.world X) A) (a : A) m x :
    A * (mem * X) :=
  match f (Bus.World b (MemManager.st m) x []) with
  | (Ok a', bw) => (a', (Mem (mgr m) (Bus.mem bw), Bus.env bw))
  | (Err _, _) => (a, (m, x))
  end.

Context `{!Bus.BusEnv X} (b : Bus.SimpleBus).
Hypothesis on_bus : ∀ k t d m x, bus_b_transport k t d m x = through_bus b (Bus.transport t d) d m x.

Definition response_status t m (v : tlm_response_status) : Prop :=
  ∃ p, gps (MemManager.st m) !! t = Some p ∧ get_response_status (attrs p) = v.

(** What the call of the bus is, for a payload [p] at address [addr]. *)
Lemma bus_called (maps : list Bus.PortMapping) k t p m x d m' x' :
  Bus.ports b = Some <$> maps → gps (MemManager.st m) !! t = Some p →
  bus_b_transport k t 0 m x = (d, (m', x')) →
  let addr := get_address (attrs p) in
  (∃ i bw, Bus.first_target maps addr i ∧
     Bus.target_b_transport (Z.of_nat i) t 0
       (Bus.log_call (Z.of_nat i) t (Bus.World b (MemManager.st m) x [])) = (d, bw) ∧
     m' = Mem (mgr m) (Bus.mem bw) ∧ x' = Bus.env bw) ∨
  (Forall (λ e, ¬ (Bus.start e ≤ addr ≤ Bus.end_ e)) maps ∧ d = 0 ∧ x' = x ∧
     pkts (MemManager.st m') = pkts (MemManager.st m) ∧ response_status t m' TLM_ADDRESS_ERROR_RESPONSE).
Proof.
  intros Hb Hp Hrun addr. rewrite on_bus in Hrun. unfold through_bus, Bus.transport in Hrun.
  set (bw := Bus.World b (MemManager.st m) x []) in *.
  destruct (Bus.decoded maps bw t p Hb Hp) as (id & Hdec & Hid). rewrite Hdec in Hrun.
  destruct Hid as [(i & Hi & ->)|[Hall ->]]; [left|right].
  - rewrite Bus.to_target in Hrun. exists i.
    destruct (Bus.target_b_transport _ _ _ _) as [d1 bw1]. simplify_eq. by exists bw1.
  - simpl in Hrun. unfold mbind, M_bind, mret, M_ret in Hrun.
    rewrite (Bus.status_written t p bw Hp) in Hrun. simplify_eq. do 4 (split; [done|]).
    eexists. split; [apply lookup_insert_eq|]. by autorewrite with gp.
Qed.

(** C14: An atomic request outside the range of the memory, on the bus: it goes to the first target that
    has the address; an address that no target has is reported by the response status alone, which
    the port does not look at, so the request is answered like one that was served: the delay is
    0, the packet becomes a response, and no other packet and nothing outside changes. *)
Theorem bus_access w a pkt (maps : list Bus.PortMapping) :
  sreachable w → caught_up w → atomic_packet pkt a w →
  Bus.ports b = Some <$> maps →
  let k := atomic_socket pkt w in let addr := getAddr pkt in
  inside k addr = false →
  ∃ t m d m' x w', made w pkt (Some {| Packet := a; coreId := Some k |}) t m ∧
    Port.recvAtomic a w = (Ok d, w') ∧ after_access k t a (Router.RBus t) m' x w w' ∧
    ((∃ i bw, Bus.first_target maps addr i ∧
        Bus.target_b_transport (Z.of_nat i) t 0
          (Bus.log_call (Z.of_nat i) t (Bus.World b (MemManager.st m) (others (Port.env w)) [])) = (d, bw) ∧
        m' = Mem (mgr m) (Bus.mem bw) ∧ x = Bus.env bw) ∨
     (Forall (λ e, ¬ (Bus.start e ≤ addr ≤ Bus.end_ e)) maps ∧ d = 0 ∧ x = others (Port.env w) ∧
        response_status t m' TLM_ADDRESS_ERROR_RESPONSE ∧
        pkts (MemManager.st (Port.memory w')) =
          <[a := answer pkt]> (pkts (MemManager.st (Port.memory w))))).
Proof.
  intros Hr Hcu Ha Hb k addr Hout.
  enough (wp (Port.recvAtomic a) (λ d w', ∃ t m m' x,
    made w pkt (Some {| Packet := a; coreId := Some k |}) t m ∧
    bus_b_transport k t 0 m (others (Port.env w)) = (d, (m', x)) ∧
    after_access k t a (Router.RBus t) m' x w w') w) as Hwp.
  { destruct (wp_Ok _ _ _ Hwp) as (d & w' & Hrun & t & m & m' & x & Hm & Ht & Haf).
    exists t, m, d, m', x, w'. split; [done|split; [done|split; [done|]]].
    destruct (ma_gp _ _ _ _ _ Hm) as (p0 & p & Hp & _ & _ & Hpo & _).
    pose proof (bus_called maps k t p m _ d m' x Hb Hp Ht) as Hbus. simpl in Hbus.
    rewrite (po_address _ _ _ Hpo) in Hbus. destruct Hbus as [Hi|(Hall & Hd & Hx & Hpk & Hst)]; [by left|right].
    do 4 (split; [done|]). destruct (aa_packet _ _ _ _ _ _ _ _ Haf) as (pkt' & Hpkt & ->).
    rewrite Hpk, (ma_pkts _ _ _ _ _ Hm) in *. destruct Ha as [Ha _]. by simplify_eq. }
  apply (wp_atomic w a pkt _ Hr Hcu Ha). fold k. unfold blocking_target, blocking_note, addr in *.
  rewrite Hout. intros t m d m' x w' Hm Hrun Haf. by exists t, m, m', x.
Qed.

(** ** Functional accesses *)

(** What a functional access leaves; [m] is the memory the bus leaves, [x] the outside. *)
Record after_debug k t n m x w w' : Prop := {
  ad_port : Port.port w' = Port.port w ∧ Port.events w' = Port.events w;
  ad_calls : Port.calls w' = Port.calls w ++ [Port.CallDbg (Port.MultiSocket k) t n];
  ad_router : ∃ r, routers (Port.env w) !! k = Some r ∧
    routers (Port.env w') = <[k := noting r (Router.RDbg t)]> (routers (Port.env w));
  ad_others : others (Port.env w') = x;
  ad_packets : pkts (MemManager.st (Port.memory w')) = pkts (MemManager.st m);
  ad_payload : t ∈ freePayloads (mgr (Port.memory w'));
  ad_payloads t' : t' ≠ t →
    gps (MemManager.st (Port.memory w')) !! t' = gps (MemManager.st m) !! t';
}.

(** One debug call through a socket reaches the bus. *)
Lemma wp_debug k t w G s r p (Q : Z → pworld X → Prop) :
  routers (Port.env w) !! k = Some r → serves k r G (Port.memory w) s →
  gps (MemManager.st (Port.memory w)) !! t = Some p → inside k (get_address (attrs p)) = true →
  (∀ n m x p', bus_transport_dbg k t (Port.memory w) (others (Port.env w)) = (n, (m, x)) →
     touched (Port.memory w) m → gps (MemManager.st m) !! t = Some p' → ref_count p' = ref_count p →
     get_data_length (attrs p') = n →
     Q n (Port.log_call (Port.CallDbg (Port.MultiSocket k) t n) (reached k r (Router.RDbg t) m x w))) →
  wp (Port.call_dbg (Port.MultiSocket k) t) Q w.
Proof.
  intros Hr Hsv Hp Hin HQ. unfold wp, Port.call_dbg.
  destruct (Port.transport_dbg (Port.MultiSocket k) t w) as [n w'] eqn:Hrun.
  pose proof (serves_enter _ _ _ _ _ _ Hsv eq_refl) as Hi.
  eapply with_router_wp; [exact Hrun|exact Hr|]. unfold Router.transport_dbg.
  apply wp_bind. eapply wp_range; [exact Hp|]. rewrite (in_range_layout k _ s _ Hi).
  fold (inside k (get_address (attrs p))). rewrite Hin.
  eapply wp_out. simpl. intros n1 m x Hm. pose proof (gu_dbg _ _ _ _ _ _ _ Hm) as [Hto Hlen].
  destruct (to_payload _ _ Hto t p Hp) as (p1 & Hp1 & Hr1 & _). intros -> ->.
  exact (HQ n1 m x p1 Hm Hto Hp1 Hr1 (Hlen p p1 Hp Hp1 Hin)).
Qed.

Definition functional_request (pkt : packet) a w : Prop :=
  pkts (MemManager.st (Port.memory w)) !! a = Some pkt ∧ (isRead pkt || isWrite pkt) = true.

Lemma wp_functional w a pkt (Q : unit → pworld X → Prop) :
  sreachable w → functional_request pkt a w →
  let k := atomic_socket pkt w in
  inside k (getAddr pkt) = true →
  (∀ t m n m' x w', made w pkt (Some {| Packet := a; coreId := Some k |}) t m →
    bus_transport_dbg k t m (others (Port.env w)) = (n, (m', x)) →
    (∃ p', gps (MemManager.st m') !! t = Some p' ∧ get_data_length (attrs p') = n) → after_debug k t n m' x w w' → Q tt w') →
  wp (Port.recvFunctional a) Q w.
Proof.
  intros Hr (Ha & Hrw) k Hin HQ. destruct (sreachable_inv w Hr) as [G Hi].
  pose proof (i_config _ _ _ _ Hi) as Hc. assert (0 ≤ k < width) as Hk by apply Hc.
  unfold Port.recvFunctional. eapply wp_new_payload; [apply Hi|exact Ha|exact Hrw|]. intros t m Hm.
  apply wp_bind. eapply wp_packet; [simpl; rewrite (ma_pkts _ _ _ _ _ Hm); exact Ha|].
  apply wp_bind, wp_gets. simpl. rewrite (c_cache width _ Hc). fold (atomic_socket pkt w); fold k.
  apply wp_bind. eapply wp_attach; [exact Hm|]. clear m Hm. intros m Hm.
  destruct (winv_made width _ _ _ _ _ _ _ Hi Hm) as [_ Hj].
  destruct (jn_router _ _ _ _ Hj k Hk I) as (r & s & Hrk & Hsv).
  destruct (ma_gp _ _ _ _ _ Hm) as (p0 & p & Hp & Hrf & _ & Hpo & _).
  apply wp_bind. apply (wp_bound_socket width); [done..|]. apply wp_bind.
  eapply (wp_debug k t (Port.set_memory m w)); [exact Hrk|exact Hsv|exact Hp|by rewrite (po_address _ _ _ Hpo)|].
  intros n m' x p' Hrun Hto Hp' Hrf' Hlen. apply wp_bind. eapply wp_payload; [exact Hp'|].
  apply wp_bind, wp_check; [by apply Z.eqb_eq|]. apply wp_zoom.
  eapply wp_release; [apply (to_ok _ _ Hto), Hm|exact Hp'|lia|].
  intros m2 [_ Hoth Hpk _ Hpool _]. apply (HQ t m n m' x _ Hm Hrun); [by exists p'|]. simpl in *.
  split; simpl; try done; [by exists r|]. rewrite Hpool, Hrf', Hrf. apply elem_of_app. right. by left.
Qed.

Hypothesis on_bus_dbg : ∀ k t m x, bus_transport_dbg k t m x = through_bus b (Bus.transport_dbg t) 0 m x.

(** What the debug call of the bus is. *)
Lemma bus_debugged (maps : list Bus.PortMapping) k t p m x n m' x' :
  Bus.ports b = Some <$> maps → gps (MemManager.st m) !! t = Some p →
  bus_transport_dbg k t m x = (n, (m', x')) →
  let addr := get_address (attrs p) in
  (∃ i bw, Bus.first_target maps addr i ∧
     Bus.target_transport_dbg (Z.of_nat i) t
       (Bus.log_call (Z.of_nat i) t (Bus.World b (MemManager.st m) x [])) = (n, bw) ∧
     m' = Mem (mgr m) (Bus.mem bw) ∧ x' = Bus.env bw) ∨
  (n = 0 ∧ ∃ p', gps (MemManager.st m') !! t = Some p' ∧
     get_data_length (attrs p') = get_data_length (attrs p)).
Proof.
  intros Hb Hp Hrun addr. rewrite on_bus_dbg in Hrun. unfold through_bus, Bus.transport_dbg in Hrun.
  set (bw := Bus.World b (MemManager.st m) x []) in *.
  destruct (Bus.decoded maps bw t p Hb Hp) as (id & Hdec & Hid). rewrite Hdec in Hrun.
  destruct Hid as [(i & Hi & ->)|[_ ->]]; [left|right].
  - rewrite Bus.to_target in Hrun. exists i.
    destruct (Bus.target_transport_dbg _ _ _) as [n1 bw1]. simplify_eq. by exists bw1.
  - simpl in Hrun. unfold mbind, M_bind, mret, M_ret in Hrun.
    rewrite (Bus.status_written t p bw Hp) in Hrun. simplify_eq. split; [done|].
    eexists. split; [apply lookup_insert_eq|]. by autorewrite with gp.
Qed.

(** C15: A functional request of gem5 in the range of the memory is one debug transport on the bus: a payload
    with its address, length, data, command and extension goes through the socket of the requestor to the
    first target that has the address and to no other, which reports as many bytes as the payload
    names; the payload is back in the pool, and the port and gem5's packets stay as they were. *)
Theorem functional_access w a pkt (maps : list Bus.PortMapping) :
  sreachable w → functional_request pkt a w → Bus.ports b = Some <$> maps → wrap32 (getSize pkt) ≠ 0 →
  let k := atomic_socket pkt w in let addr := getAddr pkt in
  inside k addr = true →
  ∃ t m i n bw w', made w pkt (Some {| Packet := a; coreId := Some k |}) t m ∧
    Bus.first_target maps addr i ∧
    Bus.target_transport_dbg (Z.of_nat i) t
      (Bus.log_call (Z.of_nat i) t (Bus.World b (MemManager.st m) (others (Port.env w)) [])) = (n, bw) ∧
    (∃ p, gps (Bus.mem bw) !! t = Some p ∧ get_data_length (attrs p) = n) ∧
    Port.recvFunctional a w = (Ok tt, w') ∧
    after_debug k t n (Mem (mgr m) (Bus.mem bw)) (Bus.env bw) w w'.
Proof.
  intros Hr Ha Hb Hsz k addr Hin.
  assert (wp (Port.recvFunctional a) (λ _ w', ∃ t m n m' x,
    made w pkt (Some {| Packet := a; coreId := Some k |}) t m ∧
    bus_transport_dbg k t m (others (Port.env w)) = (n, (m', x)) ∧
    (∃ p, gps (MemManager.st m') !! t = Some p ∧ get_data_length (attrs p) = n) ∧
    after_debug k t n m' x w w') w) as Hwp.
  { apply (wp_functional w a pkt _ Hr Ha Hin). intros t m n m' x w' Hm Hrun Hl Haf.
    by exists t, m, n, m', x. }
  destruct (wp_Ok _ _ _ Hwp) as ([] & w' & Hrun & t & m & n & m' & x & Hm & Ht & (p' & Hp' & Hl) & Haf).
  destruct (ma_gp _ _ _ _ _ Hm) as (p0 & p & Hp & _ & _ & Hpo & _).
  pose proof (bus_debugged maps k t p m _ n m' x Hb Hp Ht) as Hbus. simpl in Hbus.
  rewrite (po_address _ _ _ Hpo), (po_length _ _ _ Hpo) in Hbus.
  destruct Hbus as [(i & bw & Hi & Hn & -> & ->)|(-> & p1 & Hp1 & Hl1)]; [|exfalso; simplify_eq; congruence].
  exists t, m, i, n, bw, w'. do 3 (split; [done|]). split; [by exists p'|done].
Qed.
End access.

(** ** Witnesses *)

Section witness.
#[local] Existing Instance still.

(** A memory of 100 bytes behind each router; a bus with a target for it, and one from 4096 on. *)
#[local] Instance near : Layout bool := {
  width := 2;
  ranges _ := (0, 100);
  gem5_willing b := b = true;
}.

#[local] Instance line : Bus.BusEnv bool := {
  Bus.target_b_transport _ _ d w := (d + 7, w);
  Bus.target_transport_dbg _ t w :=
    (match gps (Bus.mem w) !! t with Some p => get_data_length (attrs p) | None => 0 end, w);
}.

Definition line_maps : list Bus.PortMapping := [{| Bus.start := 0; Bus.end_ := 99 |}; {| Bus.start := 4096; Bus.end_ := 8191 |}].
Definition line_bus : Bus.SimpleBus := {| Bus.NR_OF_INITIATORS := 2; Bus.ports := Some <$> line_maps |}.

#[local] Instance on_line : Outside bool := {
  memory_b_transport _ _ d m x := (d + 5, (m, x));
  bus_b_transport _ t d m x := through_bus line_bus (Bus.transport t d) d m x;
  bus_transport_dbg _ t m x := through_bus line_bus (Bus.transport_dbg t) 0 m x;
  gem5_timing_resp _ w := (others (Port.env w), w);
  gem5_retry w := w;
}.

Lemma line_touched t d m (x : bool) r m' x' :
  through_bus line_bus (Bus.transport t d) d m x = (r, (m', x')) → touched m m'.
Proof.
  unfold through_bus. set (bw := Bus.World line_bus (MemManager.st m) x []).
  destruct (gps (MemManager.st m) !! t) as [p|] eqn:Hp.
  - destruct (Bus.decoded line_maps bw t p eq_refl Hp) as (id & Hdec & Hid).
    unfold Bus.transport. rewrite Hdec. destruct Hid as [(i & _ & ->)|[_ ->]].
    + rewrite Bus.to_target. intros [= <- <- <-]. destruct m. apply touched_refl.
    + rewrite Bus.to_nobody. unfold mbind, M_bind, mret, M_ret. rewrite (Bus.status_written t p bw Hp).
      intros [= <- <- <-].
      exact (touched_status TLM_ADDRESS_ERROR_RESPONSE m t p Hp).
  - assert (gp_at t (Bus.mem bw) = (Err (UNDEFINED "payload"), Bus.mem bw)) as Hgp
      by (unfold gp_at; change (Bus.mem bw) with (MemManager.st m); by rewrite Hp).
    unfold Bus.transport, mbind, M_bind, zoom. rewrite Hgp. intros [= <- <- <-]. apply touched_refl.
Qed.

Lemma line_debugged k t m (x : bool) r m' x' :
  through_bus line_bus (Bus.transport_dbg t) 0 m x = (r, (m', x')) →
  touched m m' ∧ ∀ p p', gps (MemManager.st m) !! t = Some p → gps (MemManager.st m') !! t = Some p' →
    Router.in_range (Router.TxnRouter_new (ranges k).1 (ranges k).2) (get_address (attrs p)) = true →
    get_data_length (attrs p') = r.
Proof.
  unfold through_bus. set (bw := Bus.World line_bus (MemManager.st m) x []).
  destruct (gps (MemManager.st m) !! t) as [p|] eqn:Hp.
  - destruct (Bus.decoded line_maps bw t p eq_refl Hp) as (id & Hdec & Hid).
    unfold Bus.transport_dbg. rewrite Hdec. destruct Hid as [(i & _ & ->)|[Hall ->]].
    + rewrite Bus.to_target. intros Hrun.
      unfold Bus.target_transport_dbg, line in Hrun.
      change (gps (Bus.mem (Bus.log_call (Z.of_nat i) t bw))) with (gps (MemManager.st m)) in Hrun.
      rewrite Hp in Hrun. injection Hrun as <- <- <-.
      destruct m. split; [apply touched_refl|]. simpl in *. intros p1 p2 [= <-] Hp2 _. congruence.
    + rewrite Bus.to_nobody. unfold mbind, M_bind, mret, M_ret. rewrite (Bus.status_written t p bw Hp).
      intros [= <- <- <-]. split; [exact (touched_status TLM_ADDRESS_ERROR_RESPONSE m t p Hp)|].
      intros p1 p2 [= <-] _ Hin. exfalso. inversion Hall as [|e l He _]; subst. apply He.
      unfold Router.in_range in Hin. simpl in *. destruct (Z.ltb_spec (get_address p) 0); [done|].
      destruct (Z.leb_spec (wrap64 (0 + 100)) (get_address p)); [done|].
      change (wrap64 (0 + 100)) with 100 in *. lia.
  - assert (gp_at t (Bus.mem bw) = (Err (UNDEFINED "payload"), Bus.mem bw)) as Hgp
      by (unfold gp_at; change (Bus.mem bw) with (MemManager.st m); by rewrite Hp).
    unfold Bus.transport_dbg, mbind, M_bind, zoom. rewrite Hgp. intros [= <- <- <-].
    split; [apply touched_refl|]. intros p1 p2. by rewrite Hp.
Qed.

#[local] Instance on_line_guests : Guests.
Proof.
  split.
  - intros k t d m x r m' x' [= <- <- <-]. apply touched_refl.
  - intros k t d m x r m' x' Hb. exact (line_touched t d m x r m' x' Hb).
  - intros k t m x r m' x' Hd. exact (line_debugged k t m x r m' x' Hd).
  - constructor.
  - intros t e w ok w' _ [= <- <-]. split; [constructor|]. done.
Qed.

Definition near_unbound : pworld bool :=
  Port.World (Port.set_sockets (Sockets.registered cpus2) (Port.SCSlavePort_new (-7) None)) memory2 ∅
    1 0 0 (Outer _ {[ 0 := rstate_new (0, 100); 1 := rstate_new (0, 100) ]} None true) [].
Definition near0 : pworld bool := snd (Port.bindToTransactor_Multi transactor2 near_unbound).

Lemma near0_initial : sinitial near0.
Proof.
  split; [|by vm_compute|].
  - unfold near0. destruct (bind_makes_ready cpus2 transactor2 near_unbound)
      as (w' & -> & Hw' & _); try done.
    split; try done; [by eexists _, _|apply memory2_ok].
  - intros k Hk. assert (k = 0 ∨ k = 1) as [-> | ->] by (simpl in Hk; lia); vm_compute; reflexivity.
Qed.

Lemma near0_packet a pkt :
  pkts (MemManager.st (Port.memory near0)) !! a = Some pkt →
  negb (cacheResponding pkt) && negb (isSwapReq pkt) &&
    (isRead pkt || isWrite pkt && negb (isInvalidate pkt)) = true →
  atomic_packet pkt a near0.
Proof.
  intros Ha [[Hc%negb_true_iff Hs%negb_true_iff]%andb_prop Hr]%andb_prop. by repeat split.
Qed.

(** A read at 64 is one call of the memory, which takes 5. *)
Lemma atomic_access_witness :
  ∃ t w', Port.recvAtomic 1 near0 = (Ok 5, w') ∧ Port.calls w' = [Port.CallB (Port.MultiSocket 0) t] ∧
    ∃ r, routers (Port.env w') !! 0 = Some r ∧ r_history r = [Router.RBlock t].
Proof.
  destruct (atomic_access near0 1 (read_request 5 64 8))
    as (t & m & d & m' & x & w' & _ & Hrun & Hw & [_ Hc Hr _ _ _ _]).
  - exact (sreach_initial _ near0_initial).
  - vm_compute; reflexivity.
  - apply near0_packet; vm_compute; reflexivity.
  - exists t, w'. simpl in Hrun. injection Hrun as <- _ _. split; [exact Hw|]. split; [exact Hc|].
    destruct Hr as (r & Hr0 & Hr1). rewrite Hr1. eexists. split; [apply lookup_insert_eq|].
    vm_compute in Hr0. injection Hr0 as <-. reflexivity.
Defined.

(** A read at 128 is for the bus, which has no target there; gem5 gets a response. *)
Lemma bus_access_witness :
  ∃ w' pkt, Port.recvAtomic 2 near0 = (Ok 0, w') ∧
    pkts (MemManager.st (Port.memory w')) !! 2%positive = Some pkt ∧ isResponse pkt = true.
Proof.
  assert (∀ k t d m (x : bool), bus_b_transport k t d m x = through_bus line_bus (Bus.transport t d) d m x)
    as Hbus by (intros; reflexivity).
  destruct (bus_access line_bus Hbus near0 2 (read_request 5 128 8) line_maps)
    as (t & m & d & m' & x & w' & _ & Hw & _ & Hcase).
  - exact (sreach_initial _ near0_initial).
  - vm_compute; reflexivity.
  - apply near0_packet; vm_compute; reflexivity.
  - reflexivity.
  - vm_compute; reflexivity.
  - destruct Hcase as [(i & bw & [(e & He & Hin) _] & _)|(_ & Hd & _ & _ & Hpk)].
    + destruct i as [|[|i]]; [injection He as <-; simpl in Hin; lia..|destruct i; discriminate He].
    + subst d. exists w', (answer (read_request 5 128 8)). split; [exact Hw|]. rewrite Hpk.
      split; [apply lookup_insert_eq|reflexivity].
Defined.

(** A functional read at 64 goes to target 0 of the bus, which reports 8 bytes. *)
Lemma functional_access_witness :
  ∃ t w', Port.recvFunctional 1 near0 = (Ok tt, w') ∧
    Port.calls w' = [Port.CallDbg (Port.MultiSocket 0) t 8] ∧
    ∃ r, routers (Port.env w') !! 0 = Some r ∧ r_history r = [Router.RDbg t].
Proof.
  assert (∀ k t m (x : bool), bus_transport_dbg k t m x = through_bus line_bus (Bus.transport_dbg t) 0 m x)
    as Hbus by (intros; reflexivity).
  destruct (functional_access line_bus Hbus near0 1 (read_request 5 64 8) line_maps)
    as (t & m & i & n & bw & w' & Hm & _ & _ & _ & Hw & [_ Hc Hr _ _ _ _]).
  - exact (sreach_initial _ near0_initial).
  - split; vm_compute; reflexivity.
  - reflexivity.
  - vm_compute. discriminate.
  - vm_compute. reflexivity.
  - assert (n = 8) as ->.
    { assert (Port.calls (snd (Port.recvFunctional 1 near0)) = [Port.CallDbg (Port.MultiSocket 0) 10 8]) as Hv
        by (vm_compute; reflexivity). rewrite Hw in Hv. simpl in Hv. rewrite Hc in Hv. by injection Hv. }
    exists t, w'. split; [exact Hw|]. split; [exact Hc|].
    destruct Hr as (r & Hr0 & Hr1). rewrite Hr1. eexists. split; [apply lookup_insert_eq|].
    vm_compute in Hr0. injection Hr0 as <-. reflexivity.
Defined.
End witness.
