(* ===== verification/EventLoop.v ===== *)
(** * The event loop: sc_module.cc

    The module that runs gem5's event queue inside SystemC: it advances gem5's time to SystemC's,
    services the events that are due, and waits for the next one.  The file starts with the
    interface the other components use - gem5 can be caught up with SystemC - and its laws; the
    module's [catchup] is shown to implement it. *)

From S2P Require Import Prelude.

(** ** The interface *)

(** A state with the two clocks, in which gem5 can be caught up with SystemC and the event loop can
    be told of new events. *)
Class TimeKeeper (W : Type) := {
  gem5_tick : W → Z;
  systemc_time : W → Z;
  no_event_missed : W → Prop;
  tk_catchup : M W unit;
  tk_notify : M W unit;
}.

(** What its clients rely on; [R] relates states that differ in what catching up may change. *)
Class TimeKeeperLaws (W : Type) `{TimeKeeper W} (R : W → W → Prop) : Prop := {
  catchup_ok w : gem5_tick w ≤ systemc_time w → no_event_missed w →
    wp tk_catchup (λ _ w', gem5_tick w' = systemc_time w' ∧ R w w') w;
  notify_ok w : wp tk_notify (λ _ w', R w w') w;
}.

Module EventLoop.

(** [class Module]; [wait_exit_time] and [exitEvent] are not initialised by the constructor. *)
Record Module := {
  wait_exit_time : Z;
  in_simulate : bool;
  exitEvent : option positive;
}.

Definition Module_new (uninit_time : Z) (uninit_event : option positive) : Module :=
  {| wait_exit_time := uninit_time; in_simulate := false; exitEvent := uninit_event |}.

Definition set_wait_exit_time (t : Z) (m : Module) : Module :=
  {| wait_exit_time := t; in_simulate := in_simulate m; exitEvent := exitEvent m |}.
Definition set_in_simulate (b : bool) (m : Module) : Module :=
  {| wait_exit_time := wait_exit_time m; in_simulate := b; exitEvent := exitEvent m |}.
Definition set_exitEvent (e : option positive) (m : Module) : Module :=
  {| wait_exit_time := wait_exit_time m; in_simulate := in_simulate m; exitEvent := e |}.

(** The module's three [sc_event]s: the time of a pending notification. *)
Record sc_events := {
  externalSchedulingEvent : option Z;
  eventLoopExitEvent : option Z;
  eventLoopEnterEvent : option Z;
}.

Definition set_external (e : option Z) (s : sc_events) : sc_events :=
  {| externalSchedulingEvent := e; eventLoopExitEvent := eventLoopExitEvent s;
     eventLoopEnterEvent := eventLoopEnterEvent s |}.
Definition set_exit (e : option Z) (s : sc_events) : sc_events :=
  {| externalSchedulingEvent := externalSchedulingEvent s; eventLoopExitEvent := e;
     eventLoopEnterEvent := eventLoopEnterEvent s |}.
Definition set_enter (e : option Z) (s : sc_events) : sc_events :=
  {| externalSchedulingEvent := externalSchedulingEvent s;
     eventLoopExitEvent := eventLoopExitEvent s; eventLoopEnterEvent := e |}.

(** A timed notification keeps the earlier of two times. *)
Definition earlier (pending : option Z) (t : Z) : option Z :=
  Some match pending with Some p => Z.min p t | None => t end.

(** gem5's global flags. *)
Record async_flags := {
  async_event : bool;
  async_statdump : bool;
  async_statreset : bool;
  async_exit : bool;
  async_io : bool;
  async_exception : bool;
}.

Definition set_async_event (b : bool) (a : async_flags) : async_flags :=
  {| async_event := b; async_statdump := async_statdump a; async_statreset := async_statreset a;
     async_exit := async_exit a; async_io := async_io a; async_exception := async_exception a |}.
Definition set_async_stats (d r : bool) (a : async_flags) : async_flags :=
  {| async_event := async_event a; async_statdump := d; async_statreset := r;
     async_exit := async_exit a; async_io := async_io a; async_exception := async_exception a |}.
Definition set_async_exit (b : bool) (a : async_flags) : async_flags :=
  {| async_event := async_event a; async_statdump := async_statdump a;
     async_statreset := async_statreset a; async_exit := b; async_io := async_io a;
     async_exception := async_exception a |}.
Definition set_async_io (b : bool) (a : async_flags) : async_flags :=
  {| async_event := async_event a; async_statdump := async_statdump a;
     async_statreset := async_statreset a; async_exit := async_exit a; async_io := b;
     async_exception := async_exception a |}.

Section event_loop.
Context {E : Type}.

(** gem5's queue of events is part of [gem5]. *)
Record world := World {
  module : Module;
  sc : sc_events;
  async : async_flags;
  curTick : Z;
  sc_time_stamp : Z;
  gem5 : E;
}.

Definition set_module (f : Module → Module) (w : world) : world :=
  World (f (module w)) (sc w) (async w) (curTick w) (sc_time_stamp w) (gem5 w).
Definition set_sc (f : sc_events → sc_events) (w : world) : world :=
  World (module w) (f (sc w)) (async w) (curTick w) (sc_time_stamp w) (gem5 w).
Definition set_async (f : async_flags → async_flags) (w : world) : world :=
  World (module w) (sc w) (f (async w)) (curTick w) (sc_time_stamp w) (gem5 w).
Definition set_curTick (t : Z) (w : world) : world :=
  World (module w) (sc w) (async w) t (sc_time_stamp w) (gem5 w).
Definition set_gem5 (g : E) (w : world) : world :=
  World (module w) (sc w) (async w) (curTick w) (sc_time_stamp w) g.

(** What the module calls of gem5.  [nextTick] is [None] when the queue is empty; servicing an
    event runs gem5, which may change everything. *)
Class Gem5Queue := {
  nextTick : E → option Z;
  MaxTick : Z;
  serviceOne : world → option positive * world;
  schedStatEvent : bool → bool → world → world;
  exitSimLoop : world → world;
  pollQueue_service : world → world;
  GlobalSimLoopExitEvent : Z → world → positive * world;
  globalEvent : positive → world → option positive;
  is_GlobalSimLoopExitEvent : positive → world → bool;
  deschedule_delete : positive → world → world;
}.

Definition run_gem5 (f : world → world) : M world unit := λ w, (Ok tt, f w).

(** [Module::notify], [SCEventQueue::wakeup] *)
Definition notify (time_from_now : Z) : M world unit :=
  modify (λ w, set_sc (λ s, set_external
    (earlier (externalSchedulingEvent s) (sc_time_stamp w + time_from_now)) s) w).
Definition wakeup (when : Z) : M world unit := notify 0.

(** [setTickFrequency]: a tick is a picosecond. *)
Definition setTickFrequency : Z := 1000000000000.
End event_loop.
Arguments world : clear implicits.
Arguments Gem5Queue E : clear implicits.

Section functions.
Context {E : Type} `{!Gem5Queue E}.
Abbreviation ME := (M (world E)).

(** [Module::setupEventQueues], on the queues gem5 has already. *)
Definition setupEventQueues (queues : list string) : outcome (list string) :=
  match queues with
  | [] => Ok ["events"%string]
  | _ => Err (GEM5_FATAL "setupEventQueues must be called before any gem5 event queues are set up")
  end.

Definition catchup : ME unit :=
  systemc_time ← gets sc_time_stamp;
  gem5_time ← gets curTick;
  check (gem5_time <=? systemc_time) (GEM5_FATAL "gem5 time must lag SystemC time");;
  modify (set_curTick systemc_time);;
  next ← gets (λ w, nextTick (gem5 w));
  match next with
  | None => mret tt
  | Some next_event_time => check (gem5_time <=? next_event_time) (GEM5_FATAL "Missed an event")
  end.

Definition serviceAsyncEvent : ME unit :=
  a ← gets async;
  check (async_event a) (ASSERT "gem5::async_event");;
  catchup;;
  modify (set_async (set_async_event false));;
  a ← gets async;
  (if async_statdump a || async_statreset a
   then
     run_gem5 (schedStatEvent (async_statdump a) (async_statreset a));;
     modify (set_async (set_async_stats false false))
   else mret tt);;
  a ← gets async;
  (if async_exit a
   then modify (set_async (set_async_exit false));; run_gem5 exitSimLoop
   else mret tt);;
  a ← gets async;
  (if async_io a
   then modify (set_async (set_async_io false));; run_gem5 pollQueue_service
   else mret tt);;
  a ← gets async;
  check (negb (async_exception a)) (GEM5_FATAL "received gem5::async_exception").

(** The loop of [eventLoop], one iteration for each event serviced. *)
Fixpoint event_loop (fuel : nat) : ME unit :=
  match fuel with
  | O => fail NO_FUEL
  | S fuel' =>
      next ← gets (λ w, nextTick (gem5 w));
      match next with
      | None => fail (GEM5_FATAL "Ran out of events without seeing exit event")
      | Some next_event_time =>
          catchup;;
          gem5_time ← gets curTick;
          now ← gets sc_time_stamp;
          early ← gets (λ w, now <? wait_exit_time (module w));
          (if (early : bool) then modify (set_module (set_wait_exit_time now)) else mret tt);;
          if gem5_time <? next_event_time
          then
            let wait_period := next_event_time - gem5_time in
            modify (set_module (set_wait_exit_time (wrap64 (gem5_time + wait_period))));;
            modify (λ w, set_sc (λ s, set_enter
              (earlier (eventLoopEnterEvent s) (sc_time_stamp w + wait_period)) s) w)
          else if next_event_time <? gem5_time
          then fail (GEM5_FATAL "Missed an event")
          else
            e ← (λ w, let '(e, w') := serviceOne w in (Ok e, w'));
            modify (set_module (set_exitEvent e));;
            match e with
            | Some _ =>
                modify (λ w, set_sc (λ s, set_exit
                  (earlier (eventLoopExitEvent s) (sc_time_stamp w)) s) w)
            | None => event_loop fuel'
            end
      end
  end.

Definition eventLoop (fuel : nat) : ME unit :=
  b ← gets (λ w, in_simulate (module w));
  check b (GEM5_FATAL "event loop entered while outside simulate");;
  a ← gets async;
  (if async_event a then serviceAsyncEvent else mret tt);;
  event_loop fuel.

Definition serviceExternalEvent (fuel : nat) : ME unit :=
  a ← gets async;
  (if async_event a then serviceAsyncEvent else mret tt);;
  w ← get;
  if in_simulate (module w) && match nextTick (gem5 w) with Some _ => true | None => false end
  then eventLoop fuel
  else mret tt.

(** [simulate] up to its [wait]: the limit, and the limit event.  [exitEvent] is null then, so the
    thread always waits. *)
Definition simulate_limit (num_cycles tick : Z) : Z :=
  if num_cycles <? wrap64 (MaxTick - tick) then wrap64 (tick + num_cycles) else MaxTick.

Definition simulate_begin (num_cycles : Z) : ME positive :=
  tick ← gets curTick;
  limit_event ← (λ w, let '(e, w') := GlobalSimLoopExitEvent (simulate_limit num_cycles tick) w in
                      (Ok e, w'));
  modify (set_module (set_exitEvent None));;
  modify (set_sc (λ s, set_exit None (set_external None s)));;
  modify (set_module (set_in_simulate true));;
  modify (λ w, set_sc (λ s, set_enter (earlier (eventLoopEnterEvent s) (sc_time_stamp w)) s) w);;
  mret limit_event.

(** The rest of [simulate], once [eventLoopExitEvent] has woken it. *)
Definition simulate_end (limit_event : positive) : ME positive :=
  modify (set_sc (set_enter None));;
  modify (set_module (set_in_simulate false));;
  e ← gets (λ w, exitEvent (module w));
  e ← lift_option e (UNDEFINED "exitEvent->globalEvent()");
  global_event ← gets (globalEvent e);
  g ← lift_option global_event (ASSERT "global_event != NULL");
  exit ← gets (is_GlobalSimLoopExitEvent g);
  check exit (ASSERT "global_exit_event != NULL");;
  (if (g =? limit_event)%positive then mret tt else run_gem5 (deschedule_delete limit_event));;
  mret g.

(** ** Properties *)

Implicit Types (w : world E).

Definition event_missed w : Prop :=
  ∃ n, nextTick (gem5 w) = Some n ∧ n < curTick w.

(** [catchup] brings gem5 to SystemC's time, changing nothing else, exactly when gem5 does not lead
    SystemC and has no event in its past. *)
Lemma catchup_spec w :
  (curTick w ≤ sc_time_stamp w → ¬ event_missed w →
   catchup w = (Ok tt, set_curTick (sc_time_stamp w) w)) ∧
  (sc_time_stamp w < curTick w →
   catchup w = (Err (GEM5_FATAL "gem5 time must lag SystemC time"), w)) ∧
  (curTick w ≤ sc_time_stamp w → event_missed w →
   fails catchup (GEM5_FATAL "Missed an event") w).
Proof.
  unfold catchup, mbind, M_bind, gets, modify, check, fails. simpl. split; [|split].
  - intros Hle Hno. rewrite (proj2 (Z.leb_le _ _)) by done. simpl.
    destruct (nextTick (gem5 w)) as [n|] eqn:Hn; [|done].
    rewrite (proj2 (Z.leb_le _ _)); [done|].
    destruct (Z.le_gt_cases (curTick w) n); [done|]. destruct Hno. exists n. split; [done|lia].
  - intros Hlt. by rewrite (proj2 (Z.leb_gt _ _)).
  - intros Hle (n & Hn & Hlt). rewrite (proj2 (Z.leb_le _ _)) by done. simpl. rewrite Hn.
    by rewrite (proj2 (Z.leb_gt _ _)).
Qed.

Lemma wp_catchup w (Q : unit → world E → Prop) :
  curTick w ≤ sc_time_stamp w → ¬ event_missed w → Q tt (set_curTick (sc_time_stamp w) w) →
  wp catchup Q w.
Proof. intros H1 H2 HQ. eapply wp_of_Ok; [by apply catchup_spec|done]. Qed.

#[export] Instance time_keeper : TimeKeeper (world E) := {
  gem5_tick := curTick;
  systemc_time := sc_time_stamp;
  no_event_missed w := ¬ event_missed w;
  tk_catchup := catchup;
  tk_notify := notify 0;
}.

(** What catching up and notifying leave alone. *)
Definition same_module w w' : Prop :=
  module w' = module w ∧ async w' = async w ∧ gem5 w' = gem5 w ∧
  sc_time_stamp w' = sc_time_stamp w.

#[export] Instance time_keeper_laws : TimeKeeperLaws (world E) same_module.
Proof.
  split.
  - intros w H1 H2. by apply wp_catchup.
  - intros w. by apply wp_modify.
Qed.

(** A state the loop may be entered in: in [simulate], gem5 does not lead, and no event is due
    before SystemC's time. *)
Record may_loop w : Prop := {
  ml_simulate : in_simulate (module w) = true;
  ml_async : async_event (async w) = false;
  ml_lag : curTick w ≤ sc_time_stamp w;
  ml_future n : nextTick (gem5 w) = Some n → sc_time_stamp w ≤ n;
}.

(** Where the loop stops: an exit event was serviced and [simulate] will be woken at once; or no
    event is due, and the loop will be entered again no later than the next event. *)
Definition loop_done w : Prop :=
  curTick w = sc_time_stamp w ∧
  ((is_Some (exitEvent (module w)) ∧
    ∃ t, eventLoopExitEvent (sc w) = Some t ∧ t ≤ sc_time_stamp w) ∨
   ∃ n t, nextTick (gem5 w) = Some n ∧ sc_time_stamp w < n ∧
     eventLoopEnterEvent (sc w) = Some t ∧ t ≤ n).

(** What is relied on of the events due now: servicing one keeps the loop's condition, takes no
    simulated time, and lowers a measure (there are finitely many at one time). *)
Definition services (mu : world E → nat) : Prop :=
  ∀ w e w', may_loop w → curTick w = sc_time_stamp w →
    nextTick (gem5 w) = Some (sc_time_stamp w) → serviceOne w = (e, w') →
    curTick w' = sc_time_stamp w' ∧
    (e = None → may_loop w' ∧ is_Some (nextTick (gem5 w')) ∧ (mu w' < mu w)%nat).

(** The loop under an invariant [I]: the events due now are serviced one after the other; then it
    waits for the next, or an exit event ends it, or the queue runs empty. *)
Lemma wpe_loop (Er : error → world E → Prop) (I : world E → Prop) (mu : world E → nat) fuel w
    (Q : unit → world E → Prop) :
  (∀ w, I w → curTick w ≤ sc_time_stamp w ∧ ∀ n, nextTick (gem5 w) = Some n → sc_time_stamp w ≤ n) →
  (∀ w, I w → nextTick (gem5 w) = None →
     Er (GEM5_FATAL "Ran out of events without seeing exit event") w) →
  (∀ w, I w → I (set_curTick (sc_time_stamp w) w) ∧ mu (set_curTick (sc_time_stamp w) w) = mu w) →
  (∀ w t, I w → I (set_module (set_wait_exit_time t) w) ∧
     mu (set_module (set_wait_exit_time t) w) = mu w) →
  (∀ w w', I w → curTick w = sc_time_stamp w → nextTick (gem5 w) = Some (sc_time_stamp w) →
     serviceOne w = (None, w') →
     I (set_module (set_exitEvent None) w') ∧ (mu (set_module (set_exitEvent None) w') < mu w)%nat) →
  (∀ w n, I w → curTick w = sc_time_stamp w → nextTick (gem5 w) = Some n → sc_time_stamp w < n →
     Q tt (set_sc (λ s, set_enter (earlier (eventLoopEnterEvent s) n) s) w)) →
  (∀ w x w', I w → curTick w = sc_time_stamp w → nextTick (gem5 w) = Some (sc_time_stamp w) →
     serviceOne w = (Some x, w') →
     Q tt (set_sc (λ s, set_exit (earlier (eventLoopExitEvent s) (sc_time_stamp w')) s)
             (set_module (set_exitEvent (Some x)) w'))) →
  I w → (mu w < fuel)%nat → wpe Er (event_loop fuel) Q w.
Proof.
  intros Hlag Hempty Hc Hm Hs Hwait Hexit. revert w. induction fuel as [|fuel IH]; intros w Hi Hf; [lia|].
  simpl. destruct (Hlag w Hi) as (Hle & Hfut). destruct (Hc w Hi) as [Hi1 Hmu1].
  apply wpe_step, wp_gets. destruct (nextTick (gem5 w)) as [n|] eqn:Hnext; [|by apply wpe_fail, Hempty].
  specialize (Hfut n eq_refl). apply wpe_step, wp_catchup; [done| |].
  { intros (n' & Hn' & Hlt). assert (n' = n) by congruence. lia. }
  apply wpe_step, wp_gets, wpe_step, wp_gets, wpe_step, wp_gets. simpl. set (w1 := set_curTick _ w) in *.
  assert (∀ w2, I w2 → curTick w2 = sc_time_stamp w2 → sc_time_stamp w2 = sc_time_stamp w →
    nextTick (gem5 w2) = Some n → mu w2 = mu w →
    wpe Er (if sc_time_stamp w <? n
        then modify (set_module (set_wait_exit_time (wrap64 (sc_time_stamp w + (n - sc_time_stamp w)))));;
             modify (λ w3, set_sc (λ s, set_enter
               (earlier (eventLoopEnterEvent s) (sc_time_stamp w3 + (n - sc_time_stamp w))) s) w3)
        else if n <? sc_time_stamp w then fail (GEM5_FATAL "Missed an event")
        else e ← (λ w, let '(e, w') := serviceOne w in (Ok e, w'));
             modify (set_module (set_exitEvent e));;
             match e with
             | Some _ => modify (λ w3, set_sc (λ s, set_exit
                 (earlier (eventLoopExitEvent s) (sc_time_stamp w3)) s) w3)
             | None => event_loop fuel
             end) Q w2) as Hrest.
  { intros w2 Hi2 Hcu2 Hst2 Hn2 Hmu2. destruct (Z.ltb_spec (sc_time_stamp w) n).
    - apply wpe_step, wp_modify, wpe_modify. simpl.
      replace (sc_time_stamp w2 + (n - sc_time_stamp w)) with n by lia.
      apply Hwait; [by apply Hm|done|done|simpl; lia].
    - rewrite (proj2 (Z.ltb_ge n _)) by done. apply wpe_bind. unfold wpe at 1.
      assert (nextTick (gem5 w2) = Some (sc_time_stamp w2)) as Hdue by (rewrite Hn2; f_equal; lia).
      destruct (serviceOne w2) as [[x|] w3] eqn:Hrun; apply wpe_step, wp_modify.
      + by apply wpe_modify, (Hexit w2 x w3).
      + destruct (Hs w2 w3 Hi2 Hcu2 Hdue Hrun) as [Hi3 Hmu3]. apply IH; [done|lia]. }
  apply wpe_step. destruct (sc_time_stamp w <? wait_exit_time (module w)).
  - destruct (Hm w1 (sc_time_stamp w) Hi1) as [Hi2 Hmu2]. apply wp_modify, Hrest; try done. lia.
  - by apply wp_ret, Hrest.
Qed.

(** C26: The event loop ends.  It services every event due at the current time, and stops because of an
    exit event or to wait for an event in the future, for which it is scheduled in time. *)
Theorem eventLoop_done mu fuel w :
  services mu → (∀ w t, mu (set_curTick t w) = mu w) → (∀ w f, mu (set_module f w) = mu w) →
  may_loop w → is_Some (nextTick (gem5 w)) → (mu w < fuel)%nat →
  ∃ w', eventLoop fuel w = (Ok tt, w') ∧ loop_done w'.
Proof.
  intros Hs H1 H2 Hml Hn Hf.
  assert (wp (eventLoop fuel) (λ _ w', loop_done w') w) as Hwp.
  { unfold eventLoop. apply wp_bind, wp_gets, wp_bind, wp_check; [by rewrite ml_simulate|].
    apply wp_bind, wp_gets. rewrite ml_async by done. apply wp_bind, wp_ret.
    apply (wpe_loop (λ _ _, False) (λ w, may_loop w ∧ is_Some (nextTick (gem5 w))) mu); try done.
    - intros w1 [[_ _ Hlag Hfut] _]. by split.
    - intros w1 [_ [n Hn1]] Hnone. congruence.
    - intros w1 [[] ?]. by rewrite H1.
    - intros w1 t [[] ?]. by rewrite H2.
    - intros w1 w2 [Hl1 _] Hcu Hn1 Hrun. destruct (Hs w1 None w2 Hl1 Hcu Hn1 Hrun) as [_ Hl2].
      destruct (Hl2 eq_refl) as ([] & ? & ?). by rewrite H2.
    - intros w1 n [_ _] Hcu Hn1 Hlt. split; [done|]. right. exists n. eexists.
      do 3 (split; [done|]). simpl. destruct (eventLoopEnterEvent _); lia.
    - intros w1 x w2 [Hl1 _] Hcu Hn1 Hrun. destruct (Hs w1 (Some x) w2 Hl1 Hcu Hn1 Hrun) as [Hcu2 _].
      split; [done|]. left. split; [by eexists|]. eexists. split; [done|]. simpl.
      destruct (eventLoopExitEvent _); lia. }
  destruct (wp_Ok _ _ _ Hwp) as ([] & w' & Hrun & Hd). by exists w'.
Qed.

(** The check of [catchup] compares the next event with gem5's old time.  An event between that
    time and SystemC's passes it, although gem5's time is then past the event; the event loop
    reports it. *)
Theorem catchup_overtakes w n :
  curTick w ≤ n → n < sc_time_stamp w → nextTick (gem5 w) = Some n →
  in_simulate (module w) = true → async_event (async w) = false →
  (∃ w', catchup w = (Ok tt, w') ∧ n < curTick w') ∧
  ∀ fuel, fails (eventLoop (S fuel)) (GEM5_FATAL "Missed an event") w.
Proof.
  intros H1 H2 Hn Hs Ha. destruct (catchup_spec w) as (Hok & _).
  assert (catchup w = (Ok tt, set_curTick (sc_time_stamp w) w)) as Hc.
  { apply Hok; [lia|]. intros (n' & Hn' & Hlt). assert (n' = n) by congruence. lia. }
  split; [eexists; split; [exact Hc|done]|].
  intros fuel. unfold eventLoop. eapply fails_bind_Ok; [done|]. rewrite Hs.
  eapply fails_bind_Ok; [done|]. eapply fails_bind_Ok; [done|]. rewrite Ha.
  eapply fails_bind_Ok; [done|]. simpl. eapply fails_bind_Ok; [done|]. rewrite Hn.
  eapply fails_bind_Ok; [exact Hc|]. do 3 (eapply fails_bind_Ok; [done|]). simpl.
  destruct (sc_time_stamp w <? wait_exit_time (module w)); (eapply fails_bind_Ok; [done|]);
    by rewrite (proj2 (Z.ltb_ge _ _)), (proj2 (Z.ltb_lt _ _)) by lia.
Qed.

Lemma simulate_limit_min num tick :
  MaxTick = 2 ^ 64 - 1 → u64 num → u64 tick → simulate_limit num tick = Z.min (tick + num) MaxTick.
Proof.
  intros Hm Hn Ht. unfold simulate_limit, u64 in *. rewrite Hm.
  rewrite (wrap64_small (2 ^ 64 - 1 - tick)) by (split; lia).
  destruct (Z.ltb_spec num (2 ^ 64 - 1 - tick)); [|lia]. rewrite wrap64_small by (split; lia). lia.
Qed.

(** [simulate] schedules its limit event [num] ticks from now, or at the largest tick where the sum
    would pass it, never in the past; and it starts the event loop in the current SystemC time. *)
Theorem simulate_begins num w :
  MaxTick = 2 ^ 64 - 1 → u64 num → u64 (curTick w) →
  let limit := Z.min (curTick w + num) MaxTick in
  let '(e, w1) := GlobalSimLoopExitEvent limit w in
  ∃ w', simulate_begin num w = (Ok e, w') ∧ curTick w ≤ limit ∧
    in_simulate (module w') = true ∧ exitEvent (module w') = None ∧
    eventLoopExitEvent (sc w') = None ∧
    ∃ t, eventLoopEnterEvent (sc w') = Some t ∧ t ≤ sc_time_stamp w'.
Proof.
  intros Hm Hn Ht limit. destruct (GlobalSimLoopExitEvent limit w) as [e w1] eqn:Hg.
  unfold simulate_begin, mbind, M_bind, gets, modify, mret, M_ret.
  rewrite simulate_limit_min by done. fold limit. rewrite Hg. eexists. split; [done|].
  split; [unfold limit, u64 in *; lia|]. simpl. do 3 (split; [done|]). eexists. split; [done|].
  destruct (eventLoopEnterEvent _); lia.
Qed.
End functions.

(** ** Witnesses *)

(** A queue that has [n] more events after one at [t], and then four every 1000 ticks. *)
Definition periodic : Gem5Queue (Z * nat) := {|
  nextTick e := Some e.1;
  MaxTick := 2 ^ 64 - 1;
  serviceOne w := (None,
    World (module w) (sc w) (async w) (curTick w) (sc_time_stamp w)
      match gem5 w with (t, S n) => (t, n) | (t, O) => (t + 1000, 3%nat) end);
  schedStatEvent _ _ w := w;
  exitSimLoop w := w;
  pollQueue_service w := w;
  GlobalSimLoopExitEvent _ w := (1%positive, w);
  globalEvent e _ := Some e;
  is_GlobalSimLoopExitEvent _ _ := true;
  deschedule_delete _ w := w;
|}.

Definition no_async : async_flags :=
  {| async_event := false; async_statdump := false; async_statreset := false; async_exit := false;
     async_io := false; async_exception := false |}.
Definition quiet : sc_events :=
  {| externalSchedulingEvent := None; eventLoopExitEvent := None; eventLoopEnterEvent := None |}.
Definition world_at (tick time next : Z) : world (Z * nat) :=
  World {| wait_exit_time := 0; in_simulate := true; exitEvent := None |} quiet no_async tick time
    (next, 3%nat).

(** The events that are still due now. *)
Definition due (w : world (Z * nat)) : nat :=
  if (gem5 w).1 =? sc_time_stamp w then S (gem5 w).2 else 0.

Section witnesses.
Local Existing Instance periodic.

Lemma periodic_services : services due.
Proof.
  intros w e w' [Hs Ha Hl Hf] Hcu Hn Hrun. simpl in *. injection Hrun as <- <-. simpl.
  injection Hn as Hn. split; [done|]. intros _. destruct (gem5 w) as [t n] eqn:Hg. simpl in *.
  unfold due. rewrite Hg. simpl. rewrite Hn, Z.eqb_refl.
  destruct n as [|n]; simpl.
  - rewrite (proj2 (Z.eqb_neq (sc_time_stamp w + 1000) _)) by lia.
    split; [|split; [by eexists|lia]]. split; simpl; try done. intros m [= <-]. lia.
  - rewrite Z.eqb_refl. split; [|split; [by eexists|lia]]. split; simpl; try done.
    intros m [= <-]. lia.
Qed.

Lemma eventLoop_done_witness :
  ∃ w', eventLoop 5 (world_at 90 100 100) = (Ok tt, w') ∧ loop_done w'.
Proof.
  apply (eventLoop_done due 5 (world_at 90 100 100) periodic_services); try done.
  - split; simpl; [done..|lia|]. intros n [= <-]. lia.
  - vm_compute. lia.
Defined.

Lemma catchup_spec_witness : catchup (world_at 90 100 95) = (Ok tt, world_at 100 100 95).
Proof.
  apply (catchup_spec (world_at 90 100 95)); simpl; [lia|]. intros (n & [= <-] & Hn).
  simpl in Hn. lia.
Defined.

Lemma catchup_overtakes_witness :
  fails (eventLoop 5) (GEM5_FATAL "Missed an event") (world_at 90 100 95).
Proof. apply (catchup_overtakes (world_at 90 100 95) 95); simpl; (done || lia). Defined.

Lemma simulate_begins_witness :
  ∃ w', simulate_begin (2 ^ 64 - 1) (world_at 90 100 200) = (Ok 1%positive, w') ∧
    eventLoopEnterEvent (sc w') = Some 100.
Proof.
  destruct (simulate_begins (2 ^ 64 - 1) (world_at 90 100 200)) as (w' & Hrun & _);
    [done|split; lia|split; simpl; lia|]. exists w'. split; [done|].
  injection Hrun as <-. reflexivity.
Defined.
End witnesses.
End EventLoop.
