(* ===== verification/EventLoopSpec.v ===== *)
(** * What the event loop promises

    The closed system of the event loop module, the thread in [simulate], the SystemC kernel, gem5 and
    the processes that call gem5: every run of it, those that fail included, and the theorems about them. *)

From S2P Require Import Prelude EventLoop.
Import EventLoop.

(** ** Assumptions about gem5 *)

Section spec.
Context {E : Type} `{!Gem5Queue E}.
Implicit Types (w : world E) (x e : positive).

(** The global event of [x] ends the simulation. *)
Definition exits x w : Prop := ∃ g, globalEvent x w = Some g ∧ is_GlobalSimLoopExitEvent g w = true.

(** [scheduled e t g]: the global event [e] is in the queue, at [t]; [due t g] bounds the events that are
    serviced at [t]; [sound g]: what gem5 keeps true of its own state while it is called in time. *)
Class Gem5Schedule := {
  scheduled : positive → Z → E → Prop;
  due : Z → E → nat;
  sound : E → Prop;
}.

Context `{!Gem5Schedule}.

(** gem5 works on its queue: it takes no simulated time, schedules nothing in the past, and may wake the
    module up. *)
Record works w w' : Prop := {
  wk_module : module w' = module w;
  wk_async : async w' = async w;
  wk_tick : curTick w' = curTick w;
  wk_time : sc_time_stamp w' = sc_time_stamp w;
  wk_sc : sc w' = sc w ∨
    sc w' = set_external (earlier (externalSchedulingEvent (sc w)) (sc_time_stamp w)) (sc w);
  wk_next n : nextTick (gem5 w') = Some n →
    curTick w ≤ n ∨ ∃ n0, nextTick (gem5 w) = Some n0 ∧ n0 ≤ n;
  wk_sound : sound (gem5 w) → sound (gem5 w');
}.

(** It only adds to the queue. *)
Definition stirs w w' : Prop :=
  works w w' ∧ (∀ e t, scheduled e t (gem5 w) → scheduled e t (gem5 w')) ∧
  (∀ x, exits x w → exits x w') ∧ (is_Some (nextTick (gem5 w)) → is_Some (nextTick (gem5 w'))).

Class Gem5Laws : Prop := {
  gl_max : MaxTick = 2 ^ 64 - 1;
  gl_next e t g : scheduled e t g → ∃ n, nextTick g = Some n ∧ n ≤ t;
  gl_local w w' : gem5 w' = gem5 w → (∀ x, globalEvent x w' = globalEvent x w) ∧
    ∀ g, is_GlobalSimLoopExitEvent g w' = is_GlobalSimLoopExitEvent g w;
  gl_limit t w e w' : sound (gem5 w) → curTick w ≤ t → GlobalSimLoopExitEvent t w = (e, w') →
    works w w' ∧ scheduled e t (gem5 w');
  gl_event w w' : sound (gem5 w) → curTick w = sc_time_stamp w → nextTick (gem5 w) = Some (curTick w) →
    serviceOne w = (None, w') →
    works w w' ∧ (∀ e t, scheduled e t (gem5 w) → scheduled e t (gem5 w')) ∧
    (due (curTick w) (gem5 w') < due (curTick w) (gem5 w))%nat;
  gl_exit w x w' : sound (gem5 w) → curTick w = sc_time_stamp w → nextTick (gem5 w) = Some (curTick w) →
    serviceOne w = (Some x, w') → works w w' ∧ exits x w';
  gl_stats d r w : sound (gem5 w) → stirs w (schedStatEvent d r w);
  gl_interrupt w : sound (gem5 w) → stirs w (exitSimLoop w);
  gl_poll w : sound (gem5 w) → stirs w (pollQueue_service w);
  gl_deschedule e w : sound (gem5 w) → works w (deschedule_delete e w);
}.

(** A gem5 that never runs out of events. *)
Class Gem5Busy : Prop := {
  gb_service w o w' : sound (gem5 w) → curTick w = sc_time_stamp w → nextTick (gem5 w) = Some (curTick w) →
    serviceOne w = (o, w') → is_Some (nextTick (gem5 w'));
}.

(** ** Runs *)

(** The module, and the local variables of the thread while it is in [simulate]: its limit event, and
    the time of that event. *)
Record system := System {
  loop : world E;
  limit : option (positive * Z);
}.

Definition set_loop (w : world E) (s : system) : system := System w (limit s).
Definition set_limit (l : option (positive * Z)) (s : system) : system := System (loop s) l.

Abbreviation on_loop c := (zoom loop set_loop c).

(** The thread calls [simulate]; the kernel runs the methods of the events [eventLoopEnterEvent] and
    [externalSchedulingEvent]; it resumes the thread; another process calls gem5, which does [f]; a
    process puts an event into gem5's queue, as [PayloadEvent::notify] does, without catching up;
    time passes; a signal arrives. *)
Inductive eaction :=
| EBegin (num_cycles : Z)
| EEnter (fuel : nat)
| EExternal (fuel : nat)
| EReturn
| EVisit (f : world E → world E)
| ESchedule (f : world E → world E)
| ETime (t : Z)
| ESignal (a : async_flags).

Definition erun (act : eaction) : M system unit :=
  match act with
  | EBegin num =>
      tick ← gets (λ s, curTick (loop s));
      e ← on_loop (simulate_begin num);
      modify (set_limit (Some (e, simulate_limit num tick)))
  | EEnter fuel => on_loop (modify (set_sc (set_enter None));; eventLoop fuel)
  | EExternal fuel => on_loop (modify (set_sc (set_external None));; serviceExternalEvent fuel)
  | EReturn =>
      l ← gets limit;
      l ← lift_option l (UNDEFINED "limit_event");
      on_loop (modify (set_sc (set_exit None)));;
      _ ← on_loop (simulate_end l.1);
      modify (set_limit None)
  | EVisit f => on_loop (catchup;; run_gem5 f;; notify 0)
  | ESchedule f => on_loop (wakeup 0;; run_gem5 f)
  | ETime t => modify (λ s, let w := loop s in
      set_loop (World (module w) (sc w) (async w) (curTick w) t (gem5 w)) s)
  | ESignal a => on_loop (modify (set_async (λ _, a));; wakeup 0)
  end.

(** Some notification of the module is pending for time [t]. *)
Definition notified (t : Z) (s : sc_events) : Prop :=
  externalSchedulingEvent s = Some t ∨ eventLoopExitEvent s = Some t ∨ eventLoopEnterEvent s = Some t.

(** A notification whose time has come. *)
Definition due_now (o : option Z) w : Prop := ∃ t, o = Some t ∧ t ≤ sc_time_stamp w.

(** Enough fuel for the events due now, asynchronous ones included. *)
Definition enough (fuel : nat) w : Prop :=
  (due (sc_time_stamp w) (gem5 w) < fuel)%nat ∧
  ∀ w', serviceAsyncEvent w = (Ok tt, w') → (due (sc_time_stamp w') (gem5 w') < fuel)%nat.

(** Without asynchronous events a bound on the events due now is enough fuel. *)
Lemma enough_quiet fuel w :
  async_event (async w) = false → (due (sc_time_stamp w) (gem5 w) < fuel)%nat → enough fuel w.
Proof.
  intros Ha Hf. split; [done|]. intros w' Hrun. exfalso.
  unfold serviceAsyncEvent, mbind, M_bind, gets, check in Hrun. simpl in Hrun. by rewrite Ha in Hrun.
Qed.

(** What is put into the queue is no earlier than SystemC's time, which gem5 may lag. *)
Definition posts w w' : Prop :=
  stirs w w' ∧ ∀ n, nextTick (gem5 w') = Some n →
    sc_time_stamp w ≤ n ∨ ∃ n0, nextTick (gem5 w) = Some n0 ∧ n0 ≤ n.

(** The states in which these calls find gem5. *)
Definition caught w : world E := set_curTick (sc_time_stamp w) w.
Definition woken w : world E := snd (wakeup 0 w).

(** When a step may be taken.  [simulate] is called when gem5's time is SystemC's and no event was missed;
    the kernel runs a method or the thread when its notification is due, and lets no notification pass;
    while [simulate] runs processes may call gem5, put events into its queue for SystemC's time or later,
    and raise signals. *)
Definition eenabled (act : eaction) s : Prop :=
  let w := loop s in
  match act with
  | EBegin num => limit s = None ∧ u64 num ∧ u64 (curTick w) ∧ curTick w = sc_time_stamp w ∧
      (∀ n, nextTick (gem5 w) = Some n → sc_time_stamp w ≤ n)
  | EEnter fuel => due_now (eventLoopEnterEvent (sc w)) w ∧ enough fuel (set_sc (set_enter None) w)
  | EExternal fuel => due_now (externalSchedulingEvent (sc w)) w ∧ enough fuel (set_sc (set_external None) w)
  | EReturn => is_Some (limit s) ∧ due_now (eventLoopExitEvent (sc w)) w
  | EVisit f => is_Some (limit s) ∧ stirs (caught w) (f (caught w))
  | ESchedule f => is_Some (limit s) ∧ posts (woken w) (f (woken w))
  | ETime t => sc_time_stamp w ≤ t ∧ ∀ p, notified p (sc w) → t ≤ p
  | ESignal a => is_Some (limit s)
  end.

(** Before [simulate] is called, with gem5 set up. *)
Record einitial s : Prop := {
  es_limit : limit s = None;
  es_simulate : in_simulate (module (loop s)) = false;
  es_enter : eventLoopEnterEvent (sc (loop s)) = None;
  es_async : async_event (async (loop s)) = false;
  es_lag : curTick (loop s) ≤ sc_time_stamp (loop s);
  es_sound : sound (gem5 (loop s));
}.

Inductive ereachable : system → Prop :=
| ereach_initial s : einitial s → ereachable s
| ereach_step s act s' : ereachable s → eenabled act s → erun act s = (Ok tt, s') → ereachable s'.

Definition step_of (act : eaction) (s : system) : system := snd (erun act s).

Lemma system_step act (s : system) :
  ereachable s → eenabled act s → fst (erun act s) = Ok tt → ereachable (step_of act s).
Proof.
  intros Hs Hen Hrun. eapply ereach_step; [done..|]. unfold step_of.
  destruct (erun act s) as [r s']. simpl in *. by subst.
Qed.

Lemma enter_reachable s fuel :
  ereachable s → due_now (eventLoopEnterEvent (sc (loop s))) (loop s) →
  async_event (async (loop s)) = false →
  (due (sc_time_stamp (loop s)) (gem5 (loop s)) < fuel)%nat → fst (erun (EEnter fuel) s) = Ok tt →
  ereachable (step_of (EEnter fuel) s).
Proof.
  intros Hs Hdue Ha Hf Hrun. apply system_step; [done| |done]. split; [done|]. by apply enough_quiet.
Qed.

Lemma time_reachable t s :
  ereachable s → sc_time_stamp (loop s) ≤ t → eventLoopEnterEvent (sc (loop s)) = Some t →
  externalSchedulingEvent (sc (loop s)) = None → eventLoopExitEvent (sc (loop s)) = None →
  ereachable (step_of (ETime t) s).
Proof.
  intros Hs Ht H1 H2 H3. apply system_step; [done| |done]. split; [done|].
  unfold notified. rewrite H1, H2, H3. intros p [?|[?|[= ->]]]; done.
Qed.

(** *** How a step ends *)

(** Every step succeeds, but in three cases, in which it fails.  A signal's exception is serviced; *)
Definition raises (act : eaction) s : Prop :=
  match act with
  | EEnter _ | EExternal _ => async_event (async (loop s)) = true ∧ async_exception (async (loop s)) = true
  | _ => False
  end.

(** the thread is resumed after an event that was serviced since overwrote the exit event; *)
Definition loses (act : eaction) s : Prop :=
  match act with EReturn => exitEvent (module (loop s)) = None | _ => False end.

(** or the loop is entered once more before the thread is resumed, and the queue runs empty. *)
Definition dries (act : eaction) s s' : Prop :=
  match act with
  | EEnter _ | EExternal _ =>
      is_Some (eventLoopExitEvent (sc (loop s))) ∧ nextTick (gem5 (loop s')) = None
  | _ => False
  end.

(** The steps that can overwrite the exit event: a new [simulate], and the loop when an event is due at once
    or asynchronous events are pending. *)
Definition overwrites (act : eaction) s : Prop :=
  match act with
  | EBegin _ => True
  | EEnter _ | EExternal _ => async_event (async (loop s)) = true ∨
      nextTick (gem5 (loop s)) = Some (sc_time_stamp (loop s))
  | _ => False
  end.

(** The outcome of [act] in [s]: after a step that succeeds the state is in [R]. *)
Definition ends (R : system → Prop) (act : eaction) s (o : outcome unit * system) : Prop :=
  match o with
  | (Ok _, s') => R s' ∧ ¬ raises act s ∧ ¬ loses act s ∧
      (exitEvent (module (loop s)) ≠ None → exitEvent (module (loop s')) = None → overwrites act s)
  | (Err e, s') =>
      raises act s ∧ e = GEM5_FATAL "received gem5::async_exception" ∨
      loses act s ∧ e = UNDEFINED "exitEvent->globalEvent()" ∨
      dries act s s' ∧ e = GEM5_FATAL "Ran out of events without seeing exit event"
  end.

Lemma ends_mono (R R' : system → Prop) act s :
  ends R act s (erun act s) → (∀ s', erun act s = (Ok tt, s') → R s' → R' s') → ends R' act s (erun act s).
Proof. intros Hr HR. destruct (erun act s) as [[[]|e] s']; simpl in *; [|done]. destruct Hr. auto. Qed.

(** Where none of the three cases applies the step succeeds. *)
Lemma ends_well R act s :
  ends R act s (erun act s) → match act with EEnter _ | EExternal _ | EReturn => False | _ => True end →
  ∃ s', erun act s = (Ok tt, s') ∧ R s'.
Proof.
  intros Hr Hact. destruct (erun act s) as [[[]|e] s']; [exists s'; by destruct Hr|].
  exfalso. destruct act; try done; by destruct Hr as [[[] _]|[[[] _]|[[] _]]].
Qed.

Context `{!Gem5Laws}.

Lemma gl_exits x w w' : gem5 w' = gem5 w → exits x w → exits x w'.
Proof. intros Hg (g & Hx & He). destruct (gl_local w w' Hg) as [Hx' He']. exists g. by rewrite Hx', He'. Qed.

(** ** Invariant *)

(** No exit event was serviced yet, and the limit event is queued. *)
Record running (l : positive * Z) w : Prop := {
  rn_exit : exitEvent (module w) = None;
  rn_notified : eventLoopExitEvent (sc w) = None;
  rn_limit : scheduled l.1 l.2 (gem5 w);
}.

(** An exit event was serviced, and the thread is to be resumed now; what the module has as exit event ends
    the simulation, if it was not overwritten. *)
Record over (l : positive * Z) w : Prop := {
  ov_exit x : exitEvent (module w) = Some x → exits x w;
  ov_notified : due_now (eventLoopExitEvent (sc w)) w;
  ov_tick : curTick w = sc_time_stamp w;
  ov_limit : sc_time_stamp w ≤ l.2;
  ov_busy : Gem5Busy → is_Some (nextTick (gem5 w));
}.

(** While [simulate] runs, one of its methods maybe. *)
Record looping (l : positive * Z) w : Prop := {
  lp_lag : curTick w ≤ sc_time_stamp w;
  lp_simulate : in_simulate (module w) = true;
  lp_next n : nextTick (gem5 w) = Some n → sc_time_stamp w ≤ n;
  lp_sound : sound (gem5 w);
  lp_phase : running l w ∨ over l w;
}.

(** No method runs: the module will be woken up in time for gem5's next event, if not for the exit event,
    and at once for asynchronous events. *)
Record simulating (l : positive * Z) w : Prop := {
  sm_looping : looping l w;
  sm_woken : over l w ∨ ∀ n, nextTick (gem5 w) = Some n → ∃ t, t ≤ n ∧
    (eventLoopEnterEvent (sc w) = Some t ∨ externalSchedulingEvent (sc w) = Some t);
  sm_async : async_event (async w) = true →
    due_now (externalSchedulingEvent (sc w)) w ∨ running l w ∧ due_now (eventLoopEnterEvent (sc w)) w;
}.

(** Outside [simulate]. *)
Record idle w : Prop := {
  id_simulate : in_simulate (module w) = false;
  id_enter : eventLoopEnterEvent (sc w) = None;
  id_async : async_event (async w) = true → due_now (externalSchedulingEvent (sc w)) w ∧
    ∀ n, nextTick (gem5 w) = Some n → sc_time_stamp w ≤ n;
}.

Record einv s : Prop := {
  ev_lag : curTick (loop s) ≤ sc_time_stamp (loop s);
  ev_sound : sound (gem5 (loop s));
  ev_phase : match limit s with None => idle (loop s) | Some l => simulating l (loop s) end;
}.

Lemma running_not_over l w : running l w → over l w → False.
Proof. intros Hr Ho. destruct (ov_notified _ _ Ho) as (t & Ht & _). by rewrite (rn_notified _ _ Hr) in Ht. Qed.

(** *** What the phases depend on *)

Lemma running_next l w : running l w → ∃ n, nextTick (gem5 w) = Some n ∧ n ≤ l.2.
Proof. intros Hr. exact (gl_next _ _ _ (rn_limit _ _ Hr)). Qed.

(** gem5 lags SystemC and has missed nothing. *)
Lemma looping_time l w : looping l w → curTick w ≤ sc_time_stamp w ∧ ¬ event_missed w.
Proof.
  intros Hl. pose proof (lp_lag _ _ Hl). split; [done|]. intros (n & Hn & Hlt).
  pose proof (lp_next _ _ Hl n Hn). lia.
Qed.

Lemma simulating_time l w : simulating l w → curTick w ≤ sc_time_stamp w ∧ ¬ event_missed w.
Proof. intros [Hl _ _]. by apply (looping_time l). Qed.

(** Changes of the module and of the kernel. *)
Lemma over_same l w w' :
  over l w → (∀ x, exitEvent (module w') = Some x → exitEvent (module w) = Some x) →
  eventLoopExitEvent (sc w') = eventLoopExitEvent (sc w) → curTick w' = sc_time_stamp w' →
  sc_time_stamp w' = sc_time_stamp w → gem5 w' = gem5 w → over l w'.
Proof.
  intros [Hx Hn Ht Hlim Hb] Hm Hs Ht' Hst Hg. split; unfold due_now; rewrite ?Hs, ?Hst, ?Hg; try done.
  - intros x Hx'%Hm%Hx. by eapply gl_exits.
  - by rewrite <- Hst.
Qed.

Lemma looping_same l w w' :
  looping l w → exitEvent (module w') = exitEvent (module w) →
  in_simulate (module w') = in_simulate (module w) → eventLoopExitEvent (sc w') = eventLoopExitEvent (sc w) →
  curTick w' = curTick w ∨ curTick w' = sc_time_stamp w → sc_time_stamp w' = sc_time_stamp w →
  gem5 w' = gem5 w → looping l w'.
Proof.
  intros [Hlag Hs Hn Hso Hph] Hx Hsim Hc Ht Hst Hg.
  assert (curTick w' ≤ sc_time_stamp w') as Hlag' by (rewrite Hst; destruct Ht as [-> | ->]; lia).
  split; rewrite ?Hsim, ?Hst, ?Hg; try done; [by rewrite <- Hst|].
  destruct Hph as [[Hx' Hnt Hlim]|Ho]; [left; by split; rewrite ?Hx, ?Hc, ?Hg|right].
  apply (over_same l w); [done|by intros x; rewrite Hx|done| |done..].
  rewrite Hst. destruct Ht as [-> | ->]; [by apply (ov_tick l)|done].
Qed.

Lemma looping_sc l w f :
  looping l w → eventLoopExitEvent (f (sc w)) = eventLoopExitEvent (sc w) → looping l (set_sc f w).
Proof. intros Hl Hf. apply (looping_same l w); [done..|by left|done|done]. Qed.

Lemma looping_caught l w : looping l w → looping l (caught w).
Proof. intros Hl. apply (looping_same l w); [done..|by right|done|done]. Qed.

Lemma looping_async l w f : looping l w → looping l (set_async f w).
Proof. intros Hl. apply (looping_same l w); [done..|by left|done|done]. Qed.

(** gem5 works, [exitEvent] is as it was or was overwritten. *)
Lemma works_sc w w' :
  works w w' → eventLoopExitEvent (sc w') = eventLoopExitEvent (sc w) ∧
    eventLoopEnterEvent (sc w') = eventLoopEnterEvent (sc w).
Proof. intros Hw. by destruct (wk_sc _ _ Hw) as [-> | ->]. Qed.

Lemma works_due w w' :
  works w w' → due_now (externalSchedulingEvent (sc w)) w → due_now (externalSchedulingEvent (sc w')) w'.
Proof.
  intros Hw (t & Ht & Hle). unfold due_now. rewrite (wk_time _ _ Hw).
  destruct (wk_sc _ _ Hw) as [-> | ->]; [by exists t|]. simpl. rewrite Ht. eexists. split; [done|]. simpl. lia.
Qed.

Lemma looping_works l w w' :
  looping l w → works w w' → (∀ n, nextTick (gem5 w') = Some n → sc_time_stamp w ≤ n) →
  (∀ e t, scheduled e t (gem5 w) → scheduled e t (gem5 w')) → (∀ x, exits x w → exits x w') →
  (Gem5Busy → is_Some (nextTick (gem5 w)) → is_Some (nextTick (gem5 w'))) → looping l w'.
Proof.
  intros [Hlag Hs Hn Hso Hph] Hw Hnext Hsch Hx Hb. pose proof (works_sc w w' Hw) as [He _].
  destruct Hw as [Hm Ha Ht Hst Hsc _ Hok]. split; rewrite ?Hm, ?Ht, ?Hst; try done; [by apply Hok|].
  destruct Hph as [[Hex Hnt Hlim]|[Hex Hnt Htk Hlim Hbs]]; [left|right];
    split; unfold due_now; rewrite ?Hm, ?He, ?Ht, ?Hst; auto.
Qed.

(** No event comes into the past of a gem5 that was caught up. *)
Lemma works_next l w w' :
  looping l w → curTick w = sc_time_stamp w → works w w' →
  ∀ n, nextTick (gem5 w') = Some n → sc_time_stamp w ≤ n.
Proof.
  intros Hl Hcu Hw n Hn'. destruct (wk_next _ _ Hw n Hn') as [?|(n0 & Hn0 & ?)]; [lia|].
  pose proof (lp_next _ _ Hl n0 Hn0). lia.
Qed.

Lemma looping_stirs l w w' : looping l w → curTick w = sc_time_stamp w → stirs w w' → looping l w'.
Proof.
  intros Hl Hcu (Hw & Hsch & Hx & Hb). apply (looping_works l w); [done..| |done|done|by intros _].
  by apply (works_next l).
Qed.

(** A process puts an event into the queue. *)
Lemma looping_posts l w w' : looping l w → posts w w' → looping l w'.
Proof.
  intros Hl ((Hw & Hsch & Hx & Hb) & Hnext). apply (looping_works l w); [done..| |done|done|by intros _].
  intros n Hn'. destruct (Hnext n Hn') as [?|(n0 & Hn0 & ?)]; [done|].
  pose proof (lp_next _ _ Hl n0 Hn0). lia.
Qed.

(** An event was serviced, which is not an exit event: [exitEvent] is null. *)
Lemma looping_event l w w' :
  looping l w → curTick w = sc_time_stamp w → nextTick (gem5 w) = Some (sc_time_stamp w) →
  serviceOne w = (None, w') → looping l (set_module (set_exitEvent None) w').
Proof.
  intros Hl Hcu Hn Hrun. rewrite <- Hcu in Hn. pose proof (lp_sound _ _ Hl) as Hso.
  destruct (gl_event w w' Hso Hcu Hn Hrun) as (Hw & Hsch & _).
  pose proof (works_sc w w' Hw) as [He _]. pose proof (works_next l w w' Hl Hcu Hw) as Hnx.
  destruct Hl as [Hlag Hs Hnext _ Hph], Hw as [Hm Ha Ht Hst Hsc _ Hok].
  split; simpl; rewrite ?Hm, ?Ht, ?Hst; try done; [by apply Hok|].
  destruct Hph as [[Hex Hnt Hlim]|[Hex Hnt Htk Hlim Hbs]]; [left|right];
    split; unfold due_now; simpl; rewrite ?He, ?Ht, ?Hst; auto; [done|].
  intros Hbusy. exact (gb_service w None w' Hso Hcu Hn Hrun).
Qed.

(** An exit event was serviced: the simulation is over. *)
Lemma looping_exit l w x w' :
  looping l w → curTick w = sc_time_stamp w → nextTick (gem5 w) = Some (sc_time_stamp w) →
  serviceOne w = (Some x, w') → async_event (async w) = false →
  simulating l (set_sc (λ s, set_exit (earlier (eventLoopExitEvent s) (sc_time_stamp w')) s)
    (set_module (set_exitEvent (Some x)) w')).
Proof.
  intros Hl Hcu Hn Hrun Has. pose proof Hn as Hn1. rewrite <- Hcu in Hn1. pose proof (lp_sound _ _ Hl) as Hso.
  destruct (gl_exit w x w' Hso Hcu Hn1 Hrun) as (Hw & Hx).
  pose proof (works_next l w w' Hl Hcu Hw) as Hnx.
  assert (sc_time_stamp w ≤ l.2) as Hlim.
  { destruct (lp_phase _ _ Hl) as [Hr|Ho]; [|apply Ho].
    destruct (running_next l w Hr) as (n & Hn2 & ?). assert (n = sc_time_stamp w) by congruence. lia. }
  destruct Hw as [Hm Ha Ht Hst Hsc _ Hok]. destruct Hl as [Hlag Hs _ _ _].
  set (w2 := set_sc _ _). assert (over l w2) as Ho.
  { split; simpl; rewrite ?Ht, ?Hst; try done.
    - intros y [= <-]. by apply (gl_exits x w').
    - eexists. split; [done|]. simpl. destruct (eventLoopExitEvent (sc w')); lia.
    - intros Hbusy. exact (gb_service w (Some x) w' Hso Hcu Hn1 Hrun). }
  split; [|by left|simpl; by rewrite Ha, Has].
  split; simpl; rewrite ?Hm, ?Ht, ?Hst; try done; [by apply Hok|by right].
Qed.

(** The module was notified. *)
Lemma looping_notified l w :
  looping l w → due_now (externalSchedulingEvent (sc w)) w → simulating l w.
Proof.
  intros Hl Hd. split; [done| |by left]. right. intros n Hn%(lp_next _ _ Hl). destruct Hd as (t & Ht & Hle).
  exists t. split; [lia|by right].
Qed.

Lemma looping_woken l w : looping l w → simulating l (woken w).
Proof.
  intros Hl. apply looping_notified; [by apply looping_sc|]. eexists. split; [done|]. simpl.
  destruct (externalSchedulingEvent (sc w)); lia.
Qed.

(** *** The loop *)

(** The error of a loop that finds the queue empty, entered in [w]. *)
Definition dry w (e : error) w' : Prop :=
  e = GEM5_FATAL "Ran out of events without seeing exit event" ∧
  is_Some (eventLoopExitEvent (sc w)) ∧ nextTick (gem5 w') = None.

Lemma looping_dry l w w1 :
  looping l w1 → eventLoopExitEvent (sc w1) = eventLoopExitEvent (sc w) → nextTick (gem5 w1) = None →
  dry w (GEM5_FATAL "Ran out of events without seeing exit event") w1.
Proof.
  intros Hl He Hn. split; [done|]. split; [|done]. rewrite <- He. destruct (lp_phase _ _ Hl) as [Hr|Ho].
  - destruct (running_next l w1 Hr) as (n & Hn' & _). congruence.
  - destruct (ov_notified _ _ Ho) as (t & -> & _). by eexists.
Qed.

Lemma looping_waits l w n :
  looping l w → async_event (async w) = false → nextTick (gem5 w) = Some n →
  simulating l (set_sc (λ s, set_enter (earlier (eventLoopEnterEvent s) n) s) w).
Proof.
  intros Hl Ha Hn. split; [by apply looping_sc| |simpl; by rewrite Ha]. right. simpl. intros n' Hn'.
  assert (n' = n) as -> by congruence. eexists. split; [|by left]. destruct (eventLoopEnterEvent (sc w)); lia.
Qed.

Lemma wpe_event_loop fuel l w :
  looping l w → async_event (async w) = false → (due (sc_time_stamp w) (gem5 w) < fuel)%nat →
  wpe (dry w) (event_loop fuel) (λ _ w', simulating l w') w.
Proof.
  intros Hl Ha Hf.
  apply (wpe_loop _ (λ w1, looping l w1 ∧ async_event (async w1) = false ∧
      eventLoopExitEvent (sc w1) = eventLoopExitEvent (sc w)) (λ w, due (sc_time_stamp w) (gem5 w))); try done.
  - intros w1 (Hl1 & _). split; [apply Hl1|]. by apply (lp_next l).
  - intros w1 (Hl1 & _ & He1) Hn. by apply (looping_dry l).
  - intros w1 (Hl1 & ? & ?). split; [|done]. split; [by apply looping_caught|done].
  - intros w1 t (Hl1 & ? & ?). split; [|done]. split; [|done].
    apply (looping_same l w1); [done..|by left|done|done].
  - intros w1 w2 (Hl1 & Ha1 & He1) Hcu Hn Hrun. pose proof (looping_event l w1 w2 Hl1 Hcu Hn Hrun) as Hl2.
    rewrite <- Hcu in Hn. destruct (gl_event w1 w2 (lp_sound _ _ Hl1) Hcu Hn Hrun) as (Hw & _ & Hdue).
    destruct (works_sc w1 w2 Hw) as [He _].
    simpl. rewrite (wk_time _ _ Hw), <- Hcu, (wk_async _ _ Hw), He. done.
  - intros w1 n (Hl1 & Ha1 & _) _ Hn _. by apply looping_waits.
  - intros w1 x w2 (Hl1 & Ha1 & _) Hcu Hn Hrun. by apply (looping_exit l w1).
Qed.

(** If no event is due, the loop only waits. *)
Lemma wpe_event_loop_waits fuel l w :
  looping l w → nextTick (gem5 w) ≠ Some (sc_time_stamp w) → (0 < fuel)%nat →
  wpe (λ _ _, True) (event_loop fuel) (λ _ w', exitEvent (module w') = exitEvent (module w)) w.
Proof.
  intros Hl Hn Hf.
  apply (wpe_loop _ (λ w1, looping l w1 ∧ exitEvent (module w1) = exitEvent (module w) ∧
      nextTick (gem5 w1) ≠ Some (sc_time_stamp w1)) (λ _, 0%nat)); try done.
  - intros w1 (Hl1 & _). split; [apply Hl1|]. by apply (lp_next l).
  - intros w1 (Hl1 & ? & ?). split; [|done]. split; [by apply looping_caught|done].
  - intros w1 t (Hl1 & ? & ?). split; [|done]. split; [|done].
    apply (looping_same l w1); [done..|by left|done|done].
  - by intros w1 w2 (_ & _ & Hno) _ Hn1.
  - by intros w1 n (_ & Hx & _) _ _ _.
  - by intros w1 x w2 (_ & _ & Hno) _ Hn1.
Qed.

(** *** Asynchronous events *)

Lemma wp_run_gem5 f w (Q : unit → world E → Prop) : Q tt (f w) → wp (run_gem5 f) Q w.
Proof. done. Qed.

(** The error of a signal's exception, with [a] the flags that were set. *)
Definition raised (a : async_flags) (e : error) (_ : world E) : Prop :=
  e = GEM5_FATAL "received gem5::async_exception" ∧ async_event a = true ∧ async_exception a = true.

(** A state [I] that lasts while gem5 stirs and flags are reset lasts while asynchronous events are
    serviced. *)
Lemma wpe_serviceAsyncEvent (I : world E → Prop) w (Q : unit → world E → Prop) :
  curTick w ≤ sc_time_stamp w → ¬ event_missed w → async_event (async w) = true → I (caught w) →
  (∀ w f, I w → I (set_async f w)) →
  (∀ w w', I w → curTick w = sc_time_stamp w → stirs w w' → I w') → (∀ w, I w → sound (gem5 w)) →
  (∀ w', I w' → curTick w' = sc_time_stamp w' → async_event (async w') = false →
     async_exception (async w) = false → Q tt w') →
  wpe (raised (async w)) serviceAsyncEvent Q w.
Proof.
  intros Hlag Hmiss Ha HI Hflag Hstir Hso HQ. unfold serviceAsyncEvent.
  apply wpe_step, wp_gets, wpe_step, wp_check; [done|]. apply wpe_step, wp_catchup; [done..|].
  apply wpe_step, wp_modify.
  set (S w' := I w' ∧ curTick w' = sc_time_stamp w' ∧ async_event (async w') = false ∧
    async_exception (async w') = async_exception (async w)).
  assert (S (set_async (set_async_event false) (set_curTick (sc_time_stamp w) w))) as Hw1.
  { split; [|done]. by apply (Hflag (caught w)). }
  revert Hw1. generalize (set_async (set_async_event false) (set_curTick (sc_time_stamp w) w)). intros w1 Hw1.
  assert (∀ w2 w3, S w2 → (sound (gem5 w2) → stirs w2 w3) → S w3) as Hst.
  { intros w2 w3 (HI2 & Ht2 & Ha2 & Hx2) Hs. specialize (Hs (Hso w2 HI2)). pose proof Hs as [Hw _].
    split; [by apply (Hstir w2)|]. by rewrite (wk_tick _ _ Hw), (wk_time _ _ Hw), (wk_async _ _ Hw). }
  assert (∀ w2 f, S w2 → async_event (f (async w2)) = async_event (async w2) →
    async_exception (f (async w2)) = async_exception (async w2) → S (set_async f w2)) as Hfl.
  { intros w2 f (HI2 & Ht2 & Ha2 & Hx2) Hf1 Hf2. split; [by apply Hflag|]. simpl. by rewrite Hf1, Hf2. }
  assert (∀ (b : bool) (m : M (world E) unit) w2 (P : unit → world E → Prop), S w2 →
    (∀ P' : unit → world E → Prop, (∀ w3, S w3 → P' tt w3) → wp m P' w2) →
    (∀ w3, S w3 → P tt w3) → wp (if b then m else mret tt) P w2) as Hif.
  { intros b m w2 P Hw2 Hm HP. destruct b; [by apply Hm|by apply wp_ret, HP]. }
  apply wpe_step, wp_gets, wpe_step, (Hif _ _ w1); [done|..].
  { intros P HP. apply wp_bind, wp_run_gem5, wp_modify, HP. apply Hfl; [|done..].
    eapply Hst; [exact Hw1|]. apply gl_stats. }
  intros w2 Hw2. apply wpe_step, wp_gets, wpe_step, (Hif _ _ w2); [done|..].
  { intros P HP. apply wp_bind, wp_modify, wp_run_gem5, HP. eapply Hst; [|apply gl_interrupt]. by apply Hfl. }
  intros w3 Hw3. apply wpe_step, wp_gets, wpe_step, (Hif _ _ w3); [done|..].
  { intros P HP. apply wp_bind, wp_modify, wp_run_gem5, HP. eapply Hst; [|apply gl_poll]. by apply Hfl. }
  intros w4 (HI4 & Ht4 & Ha4 & Hx4). apply wpe_step, wp_gets, wpe_check; rewrite Hx4.
  - intros Hb. split; [done|]. split; [done|]. by apply negb_false_iff.
  - intros Hb. apply HQ; [done..|]. by apply negb_true_iff.
Qed.

(** Asynchronous events are serviced, if there are any. *)
Lemma wpe_async l fuel w (Q : unit → world E → Prop) :
  looping l w → enough fuel w →
  (∀ w', looping l w' → async_event (async w') = false → (due (sc_time_stamp w') (gem5 w') < fuel)%nat →
     eventLoopExitEvent (sc w') = eventLoopExitEvent (sc w) →
     (async_event (async w) = true → async_exception (async w) = false) →
     (async_event (async w) = false → w' = w) → Q tt w') →
  wpe (raised (async w)) (if async_event (async w) then serviceAsyncEvent else mret tt) Q w.
Proof.
  intros Hl [Hf Hfa] HQ. destruct (async_event (async w)) eqn:Ha; [|by apply wpe_ret, HQ].
  destruct (looping_time l w Hl) as [Hlag Hmiss].
  assert (wpe (raised (async w)) serviceAsyncEvent (λ _ w', looping l w' ∧
    async_event (async w') = false ∧ eventLoopExitEvent (sc w') = eventLoopExitEvent (sc w) ∧
    async_exception (async w) = false) w) as Hwp.
  { apply (wpe_serviceAsyncEvent (λ w', looping l w' ∧
      eventLoopExitEvent (sc w') = eventLoopExitEvent (sc w))); try done.
    - split; [by apply looping_caught|done].
    - intros w1 f [Hl1 He1]. split; [by apply looping_async|done].
    - intros w1 w2 [Hl1 He1] Hcu Hst. split; [by apply (looping_stirs l w1)|].
      by rewrite (proj1 (works_sc w1 w2 (proj1 Hst))).
    - intros w1 [Hl1 _]. apply Hl1.
    - intros w1 [Hl1 He1] _ Ha1 Hx1. done. }
  unfold wpe in *. destruct (serviceAsyncEvent w) as [[[]|e] w'] eqn:Hrun; [|done].
  destruct Hwp as (Hl' & Ha' & He' & Hx'). apply HQ; try done. by apply Hfa.
Qed.

(** *** The methods *)

(** What may go wrong in a method that starts in [w], and what holds if it does not. *)
Definition trouble w (e : error) w' : Prop := raised (async w) e w' ∨ dry w e w'.

Definition method_done l w w' : Prop :=
  simulating l w' ∧ (async_event (async w) = true → async_exception (async w) = false) ∧
  (async_event (async w) = false → nextTick (gem5 w) ≠ Some (sc_time_stamp w) →
   exitEvent (module w') = exitEvent (module w)).

Lemma wpe_and {A} (E1 E2 : error → world E → Prop) (m : M (world E) A) (P Q : A → world E → Prop) w :
  wpe E1 m P w → wpe E2 m Q w → wpe E1 m (λ a w', P a w' ∧ Q a w') w.
Proof. unfold wpe. destruct (m w) as [[a|e] w']; eauto. Qed.

Lemma wpe_eventLoop l fuel w :
  looping l w → enough fuel w → wpe (trouble w) (eventLoop fuel) (λ _ w', method_done l w w') w.
Proof.
  intros Hl Hf. unfold eventLoop. apply wpe_step, wp_gets, wpe_step, wp_check; [apply Hl|].
  apply wpe_step, wp_gets, wpe_bind. eapply wpe_mono; [eapply (wpe_async l fuel w); [done|done|]| |by intros ? ? Hq; exact Hq].
  2: { intros e w' He. by left. }
  intros w1 Hl1 Ha1 Hf1 He1 Hx Hsame.
  pose proof (wpe_event_loop fuel l w1 Hl1 Ha1 Hf1) as Hloop.
  destruct (decide (async_event (async w) = false ∧ nextTick (gem5 w) ≠ Some (sc_time_stamp w))) as [[Ha Hn]|Hno].
  - specialize (Hsame Ha) as ->.
    pose proof (wpe_event_loop_waits fuel l w Hl Hn ltac:(lia)) as Hwait.
    eapply wpe_mono; [exact (wpe_and _ _ _ _ _ _ Hloop Hwait)| |].
    + intros e w' Hd. by right.
    + intros [] w' [Hs Hkeep]. by split; [|split].
  - eapply wpe_mono; [exact Hloop| |].
    + intros e w' (-> & Hs & Hd). right. by rewrite He1 in Hs.
    + intros [] w' Hs. split; [done|]. split; [done|]. intros. by destruct Hno.
Qed.

Lemma wpe_serviceExternalEvent l fuel w :
  looping l w → enough fuel w → wpe (trouble w) (serviceExternalEvent fuel) (λ _ w', method_done l w w') w.
Proof.
  intros Hl Hf. unfold serviceExternalEvent. apply wpe_step, wp_gets, wpe_bind.
  eapply wpe_mono; [eapply (wpe_async l fuel w); [done|done|]| |by intros ? ? Hq; exact Hq].
  2: { intros e w' He. by left. }
  intros w1 Hl1 Ha1 Hf1 He1 Hx Hsame. apply wpe_bind. unfold wpe at 1, get. rewrite (lp_simulate _ _ Hl1). simpl.
  destruct (nextTick (gem5 w1)) as [n|] eqn:Hn.
  - eapply wpe_mono; [apply (wpe_eventLoop l fuel w1 Hl1), enough_quiet; done|..].
    + intros e w' [(_ & Hr & _)|(-> & Hs & Hd)]; [congruence|right]. by rewrite He1 in Hs.
    + intros [] w' (Hs & _ & Hkeep). split; [done|]. split; [done|]. intros Ha Hno. rewrite (Hsame Ha) in Hkeep.
      by apply Hkeep.
  - apply wpe_ret. split; [|split; [done|by intros Ha _; rewrite (Hsame Ha)]].
    assert (over l w1) as Ho.
    { destruct (lp_phase _ _ Hl1) as [Hr|Ho]; [|done]. destruct (running_next l w1 Hr) as (n & Hn' & _). congruence. }
    split; [done|by left|by rewrite Ha1].
Qed.

(** Outside [simulate] only asynchronous events are serviced. *)
Lemma wpe_external_idle fuel w :
  in_simulate (module w) = false → eventLoopEnterEvent (sc w) = None →
  (async_event (async w) = true → ∀ n, nextTick (gem5 w) = Some n → sc_time_stamp w ≤ n) →
  curTick w ≤ sc_time_stamp w → sound (gem5 w) →
  wpe (raised (async w)) (serviceExternalEvent fuel)
    (λ _ w', (idle w' ∧ curTick w' ≤ sc_time_stamp w' ∧ sound (gem5 w')) ∧
       exitEvent (module w') = exitEvent (module w) ∧
       (async_event (async w) = true → async_exception (async w) = false)) w.
Proof.
  intros Hsim Hent Hn Hlag Hso. unfold serviceExternalEvent. apply wpe_step, wp_gets, wpe_bind.
  set (quiet w' := module w' = module w ∧ eventLoopEnterEvent (sc w') = None ∧ sound (gem5 w')).
  assert (∀ w', quiet w' → async_event (async w') = false → curTick w' ≤ sc_time_stamp w' →
    (async_event (async w) = true → async_exception (async w) = false) →
    wpe (raised (async w)) (w ← get; if in_simulate (module w) &&
        match nextTick (gem5 w) with Some _ => true | None => false end then eventLoop fuel else mret tt)
      (λ _ w', (idle w' ∧ curTick w' ≤ sc_time_stamp w' ∧ sound (gem5 w')) ∧
       exitEvent (module w') = exitEvent (module w) ∧
       (async_event (async w) = true → async_exception (async w) = false)) w') as Hrest.
  { intros w' (Hs & He & Hso') Ha Hl Hx. apply wpe_bind. unfold wpe at 1, get. rewrite Hs, Hsim. apply wpe_ret.
    split; [|by rewrite Hs]. split; [|done]. split; [by rewrite Hs|done|]. by rewrite Ha. }
  assert (quiet w) as Hq by done.
  destruct (async_event (async w)) eqn:Ha; [|by apply wpe_ret, Hrest].
  apply (wpe_serviceAsyncEvent quiet); try done.
  - intros (n & Hn' & Hlt). specialize (Hn eq_refl n Hn'). lia.
  - intros w1 w2 (Hs & He & Hso1) _ (Hw & _). destruct (works_sc w1 w2 Hw) as [_ He']. split; [|split].
    + by rewrite (wk_module _ _ Hw), Hs.
    + by rewrite He'.
    + by apply (wk_sound _ _ Hw).
  - by intros w1 (_ & _ & ?).
  - intros w1 Hq1 Hcu Ha1 Hx. apply Hrest; try done. lia.
Qed.

(** *** Calls *)

Lemma wp_visit l f w :
  simulating l w → stirs (caught w) (f (caught w)) →
  wp (catchup;; run_gem5 f;; notify 0)
    (λ _ w', simulating l w' ∧ exitEvent (module w') = exitEvent (module w)) w.
Proof.
  intros Hsim Hf. destruct (simulating_time l w Hsim) as [Hlag Hmiss].
  apply wp_bind, wp_catchup; [done..|]. apply wp_bind, wp_run_gem5, wp_modify.
  change (set_curTick _ w) with (caught w). set (w1 := caught w) in *.
  split; [|simpl; by rewrite (wk_module _ _ (proj1 Hf))].
  apply looping_woken, (looping_stirs l w1); [|done|exact Hf]. apply looping_caught, Hsim.
Qed.

Lemma wp_schedule l f w :
  simulating l w → posts (woken w) (f (woken w)) →
  wp (wakeup 0;; run_gem5 f) (λ _ w', simulating l w' ∧ exitEvent (module w') = exitEvent (module w)) w.
Proof.
  intros Hsim Hf. apply wp_bind, wp_modify, wp_run_gem5. change (set_sc _ w) with (woken w).
  pose proof (looping_woken l w (sm_looping _ _ Hsim)) as Hs1. destruct Hf as [Hst Hnext].
  split; [|by rewrite (wk_module _ _ (proj1 Hst))]. apply looping_notified.
  - apply (looping_posts l (woken w)); [apply Hs1|by split].
  - apply (works_due (woken w)); [apply Hst|]. eexists. split; [done|]. simpl.
    destruct (externalSchedulingEvent (sc w)); lia.
Qed.

(** [simulate] is called. *)
Lemma wp_simulate_begin num w (Q : positive → world E → Prop) :
  u64 num → u64 (curTick w) → curTick w = sc_time_stamp w → sound (gem5 w) →
  (∀ n, nextTick (gem5 w) = Some n → sc_time_stamp w ≤ n) →
  (∀ e w', simulating (e, simulate_limit num (curTick w)) w' → Q e w') →
  wp (simulate_begin num) Q w.
Proof.
  intros Hnum Htick Hcu Hso Hn HQ. unfold simulate_begin. apply wp_bind, wp_gets, wp_bind.
  set (t := simulate_limit num (curTick w)) in *.
  assert (curTick w ≤ t) as Ht.
  { unfold t. rewrite simulate_limit_min by (done || apply gl_max). rewrite gl_max. unfold u64 in *. lia. }
  unfold wp at 1. destruct (GlobalSimLoopExitEvent t w) as [e w1] eqn:Hrun.
  destruct (gl_limit t w e w1 Hso Ht Hrun) as [[Hm Has Htk Hst Hsc Hnx Hok] Hsch].
  do 4 (apply wp_bind, wp_modify). apply wp_ret, HQ.
  assert (∀ n, nextTick (gem5 w1) = Some n → sc_time_stamp w ≤ n) as Hn1.
  { intros n Hn'. destruct (Hnx n Hn') as [?|(n0 & Hn0 & ?)]; [lia|]. apply Hn in Hn0. lia. }
  set (w2 := set_sc _ _).
  assert (running (e, t) w2) as Hr by done.
  assert (∃ t0, eventLoopEnterEvent (sc w2) = Some t0 ∧ t0 ≤ sc_time_stamp w2) as (t0 & Ht0 & Hle).
  { eexists. split; [done|]. simpl. destruct (eventLoopEnterEvent (sc w1)); lia. }
  simpl in Hle. split.
  - split; simpl; rewrite ?Htk, ?Hst; try done; [lia|by apply Hok|by left].
  - right. intros n Hn'%Hn1. exists t0. split; [lia|by left].
  - right. split; [done|by exists t0].
Qed.

(** The thread is resumed: it finds the exit event, and returns its global event. *)
Lemma wp_simulate_end e x w (Q : positive → world E → Prop) :
  exitEvent (module w) = Some x → exits x w → curTick w = sc_time_stamp w → sound (gem5 w) →
  (∀ n, nextTick (gem5 w) = Some n → sc_time_stamp w ≤ n) →
  (∀ g w', globalEvent x w = Some g → is_GlobalSimLoopExitEvent g w = true →
     curTick w' ≤ sc_time_stamp w' → sound (gem5 w') → async w' = async w →
     (due_now (externalSchedulingEvent (sc w)) w → due_now (externalSchedulingEvent (sc w')) w') →
     (∀ n, nextTick (gem5 w') = Some n → sc_time_stamp w' ≤ n) → in_simulate (module w') = false →
     eventLoopEnterEvent (sc w') = None → exitEvent (module w') = Some x → Q g w') →
  wp (simulate_end e) Q w.
Proof.
  intros Hx (g & Hg & Hexit) Hcu Hso Hn HQ. unfold simulate_end.
  do 2 (apply wp_bind, wp_modify). apply wp_bind, wp_gets, wp_bind. eapply wp_lift_option; [exact Hx|].
  set (w1 := set_module (set_in_simulate false) (set_sc (set_enter None) w)).
  destruct (gl_local w w1 eq_refl) as [Hglob His].
  apply wp_bind, wp_gets, wp_bind. eapply wp_lift_option; [by rewrite Hglob|].
  apply wp_bind, wp_gets, wp_bind, wp_check; [by rewrite His|].
  apply wp_bind. destruct (g =? e)%positive.
  - apply wp_ret, wp_ret. apply (HQ g); try done; simpl; lia.
  - apply wp_run_gem5, wp_ret. pose proof (gl_deschedule e w1 Hso) as Hw.
    destruct (works_sc _ _ Hw) as [_ He].
    apply (HQ g); rewrite ?(wk_tick _ _ Hw), ?(wk_time _ _ Hw), ?(wk_async _ _ Hw), ?(wk_module _ _ Hw), ?He;
      try done; [simpl; lia|by apply (wk_sound _ _ Hw)|by apply (works_due w1)|].
    intros n Hn'. simpl. destruct (wk_next _ _ Hw n Hn') as [?|(n0 & Hn0 & ?)]; [simpl in *; lia|].
    specialize (Hn n0 Hn0). lia.
Qed.

(** ** Steps *)

Lemma initial_einv s : einitial s → einv s.
Proof. intros [Hl Hs He Ha Hlag Hso]. split; [done..|]. rewrite Hl. split; [done..|]. by rewrite Ha. Qed.

Lemma wp_on_loop {A} (c : M (world E) A) s (Q : A → system → Prop) :
  wp c (λ a w', Q a (System w' (limit s))) (loop s) → wp (on_loop c) Q s.
Proof. intros Hc. by apply wp_zoom. Qed.

Lemma simulating_einv l w : simulating l w → einv (System w (Some l)).
Proof. intros Hs. pose proof (sm_looping _ _ Hs) as []. by split. Qed.

Lemma einv_simulating s l : einv s → limit s = Some l → simulating l (loop s).
Proof. intros [Hlag Hso Hph] Hl. by rewrite Hl in Hph. Qed.

(** Time passes up to the next notification. *)
Lemma time_einv t s :
  einv s → sc_time_stamp (loop s) ≤ t → (∀ p, notified p (sc (loop s)) → t ≤ p) →
  let w := loop s in einv (set_loop (World (module w) (sc w) (async w) (curTick w) t (gem5 w)) s).
Proof.
  destruct s as [w lim]. unfold notified. simpl. intros [Hlag Hso Hph] Ht Hp. simpl in *.
  assert (∀ o, due_now o w → due_now o (World (module w) (sc w) (async w) (curTick w) t (gem5 w))) as Hmono.
  { intros o (t0 & Ht0 & Hle). exists t0. simpl. split; [done|lia]. }
  split; [simpl; lia|done|]. simpl. destruct lim as [l|].
  2: { destruct Hph as [Hs He Ha]. split; [done|done|]. simpl. intros Has. destruct (Ha Has) as [Hd Hn].
       split; [by apply Hmono|]. intros n Hn'%Hn. destruct Hd as (t0 & Ht0 & Hle). assert (t ≤ t0) by auto.
       simpl in *. lia. }
  destruct (decide (t = sc_time_stamp w)) as [->|Hne]; [by destruct w|].
  assert (¬ over l w) as Hno.
  { intros Ho. destruct (ov_notified _ _ Ho) as (t0 & Ht0 & Hle). assert (t ≤ t0) by auto. lia. }
  destruct Hph as [[_ Hs Hn _ Hphase] [?|Hwk] Ha]; [done|]. destruct Hphase as [Hr|?]; [|done].
  set (w' := World _ _ _ _ _ _). assert (running l w') as Hr' by (by destruct Hr).
  split; [split; simpl; try done; [lia| |by left]|by right|].
  - intros n Hn'. destruct (Hwk n Hn') as (t0 & ? & [?|?]); transitivity t0; auto.
  - simpl. intros Has. destruct (Ha Has) as [?|[? ?]]; [left|right; split]; by auto.
Qed.

(** From the outcome of a method to that of its step. *)
Lemma method_ends act l w (c : M (world E) unit) f :
  match act with EEnter _ | EExternal _ => True | _ => False end → erun act = on_loop (modify (set_sc f);; c) →
  eventLoopExitEvent (f (sc w)) = eventLoopExitEvent (sc w) →
  wpe (trouble (set_sc f w)) c (λ _ w', method_done l (set_sc f w) w') (set_sc f w) →
  ends einv act (System w (Some l)) (erun act (System w (Some l))).
Proof.
  intros Hact -> Hf Hc. unfold zoom, mbind, M_bind, modify. simpl. unfold wpe in Hc.
  destruct (c (set_sc f w)) as [[[]|e] w']; simpl.
  - destruct Hc as (Hs & Hx & Hkeep). split; [by apply simulating_einv|].
    assert (exitEvent (module w) ≠ None → exitEvent (module w') = None →
      async_event (async w) = true ∨ nextTick (gem5 w) = Some (sc_time_stamp w)) as Hover.
    { intros Hno Hnone. destruct (async_event (async w)) eqn:Ha; [by left|right].
      destruct (decide (nextTick (gem5 w) = Some (sc_time_stamp w))); [done|]. simpl in Hkeep.
      rewrite <- (Hkeep Ha) in Hno by done. done. }
    assert (¬ (async_event (async w) = true ∧ async_exception (async w) = true)) as Hra.
    { intros [Ha Hr]. specialize (Hx Ha). simpl in Hx. congruence. }
    destruct act; try done; (split; [exact Hra|]; split; [by intros []|exact Hover]).
  - destruct Hc as [(-> & Ha & Hr)|(-> & Hs & Hn)].
    + left. by destruct act.
    + right. right. simpl in Hs. rewrite Hf in Hs. by destruct act.
Qed.

Lemma ends_ok R act s :
  ¬ raises act s → ¬ loses act s →
  wp (erun act) (λ _ s', R s' ∧ (exitEvent (module (loop s')) = exitEvent (module (loop s)) ∨ overwrites act s)) s →
  ends R act s (erun act s).
Proof.
  intros Hr Hl Hwp. unfold wp in Hwp. destruct (erun act s) as [[[]|e] s']; [|done].
  destruct Hwp as [HR Hx]. do 3 (split; [done|]). intros Hno Hnone. destruct Hx as [Hx|]; [congruence|done].
Qed.

(** The thread is resumed. *)
Lemma return_ends s :
  einv s → eenabled EReturn s → ends einv EReturn s (erun EReturn s).
Proof.
  destruct s as [w lim]. intros [Hlag Hso Hph] ([l Hl] & Hdue). simpl in *. subst lim.
  destruct (exitEvent (module w)) as [x|] eqn:Hx.
  2: { unfold ends. simpl. unfold zoom, simulate_end, mbind, M_bind, gets, lift_option, modify. simpl.
       rewrite Hx. simpl. auto. }
  pose proof (sm_looping _ _ Hph) as Hlp.
  assert (over l w) as Ho.
  { destruct (lp_phase _ _ Hlp) as [Hr|Ho]; [|done]. rewrite (rn_exit _ _ Hr) in Hx. done. }
  apply ends_ok; [by intros []|simpl; congruence|]. apply wp_bind, wp_gets, wp_bind. eapply wp_lift_option; [done|].
  apply wp_bind, wp_on_loop, wp_modify, wp_bind, wp_on_loop.
  apply (wp_simulate_end l.1 x); simpl; [done|by apply (gl_exits x w), (ov_exit _ _ Ho)|apply Ho|done| |].
  { exact (lp_next _ _ Hlp). }
  intros g w' _ _ Hlag' Hso' Ha' Hdue' Hn' Hs' He' Hx'. apply wp_modify. split; [|left; simpl; by rewrite Hx, Hx'].
  split; [done|done|]. split; [done|done|]. simpl. rewrite Ha'. intros Ha. split; [|done].
  destruct (sm_async _ _ Hph Ha) as [Hd|[Hr _]]; [by apply Hdue'|by destruct (running_not_over l w)].
Qed.

(** The methods. *)
Lemma method_step s act :
  einv s → eenabled act s → match act with EEnter _ | EExternal _ => True | _ => False end →
  ends einv act s (erun act s).
Proof.
  destruct s as [w [l|]]; intros [Hlag Hso Hph] Hen Hact; simpl in *.
  - pose proof (sm_looping _ _ Hph) as Hl. destruct act as [|fuel|fuel| | | | |]; try done; destruct Hen as [_ Hf].
    + eapply (method_ends _ l w); [done|reflexivity|done|]. apply wpe_eventLoop; [by apply looping_sc|done].
    + eapply (method_ends _ l w); [done|reflexivity|done|].
      apply wpe_serviceExternalEvent; [by apply looping_sc|done].
  - destruct Hph as [Hs He Ha]. destruct act as [|fuel|fuel| | | | |]; try done; destruct Hen as [Hd Hf].
    + destruct Hd as (t & Ht & _). simpl in Ht. by rewrite He in Ht.
    + pose proof (wpe_external_idle fuel (set_sc (set_external None) w) Hs He (λ Ha', proj2 (Ha Ha')) Hlag Hso) as Hwp.
      unfold wpe in Hwp. unfold ends. simpl. unfold zoom, mbind, M_bind, modify. simpl.
      destruct (serviceExternalEvent fuel _) as [[[]|e] w'] eqn:Hrun; simpl.
      * destruct Hwp as ((Hi & Hlag' & Hso') & Hkeep & Hx). split; [by split|].
        split; [intros [Ha' Hr]; specialize (Hx Ha'); simpl in *; congruence|]. split; [by intros []|]. intros Hno Hnone. simpl in Hkeep.
        congruence.
      * left. by destruct Hwp as (-> & Ha' & Hr).
Qed.

(** Every step ends as described, and keeps the invariant if it succeeds. *)
Lemma step_ends s act : einv s → eenabled act s → ends einv act s (erun act s).
Proof.
  intros Hi Hen. destruct act as [num|fuel|fuel| |f|f|t|a]; [|by apply method_step..|by apply return_ends| | | |].
  all: destruct s as [w lim]; pose proof Hi as [Hlag Hso Hph]; simpl in Hlag, Hso, Hph, Hen; apply ends_ok;
    try by intros [].
  - destruct Hen as (-> & Hnum & Htick & Hcu & Hn). apply wp_bind, wp_gets, wp_bind, wp_on_loop.
    eapply wp_simulate_begin; [done..|]. intros e w' Hsim. apply wp_modify. split; [by apply simulating_einv|by right].
  - destruct Hen as ([l ->] & Hf). apply wp_on_loop.
    eapply wp_mono; [by apply (wp_visit l)|]. intros [] w' [Hs Hx]. split; [by apply simulating_einv|by left].
  - destruct Hen as ([l ->] & Hf). apply wp_on_loop.
    eapply wp_mono; [by apply (wp_schedule l)|]. intros [] w' [Hs Hx]. split; [by apply simulating_einv|by left].
  - destruct Hen as [Ht Hp]. apply wp_modify. split; [|by left].
    by apply (time_einv t (System w lim)).
  - destruct Hen as [l ->]. apply wp_on_loop, wp_bind, wp_modify, wp_modify. split; [|by left].
    apply simulating_einv, (looping_woken l (set_async (λ _, a) w)), looping_async, Hph.
Qed.

Lemma ereachable_inv s : ereachable s → einv s.
Proof.
  induction 1 as [s Hs|s act s' _ Hi Hen Hrun]; [by apply initial_einv|].
  pose proof (step_ends s act Hi Hen) as He. rewrite Hrun in He. apply He.
Qed.

Lemma reachable_ends s act : ereachable s → eenabled act s → ends ereachable act s (erun act s).
Proof.
  intros Hr Hen. apply (ends_mono einv); [by apply step_ends; [apply ereachable_inv|]|].
  intros s' Hrun _. by eapply ereach_step.
Qed.


(** *** Calls that the loop does not notice *)

(** gem5 changes, but its queue does not. *)
Record undisturbed w w' : Prop := {
  ud_module : module w' = module w;
  ud_sc : sc w' = sc w;
  ud_async : async w' = async w;
  ud_tick : curTick w' = curTick w;
  ud_time : sc_time_stamp w' = sc_time_stamp w;
  ud_next : nextTick (gem5 w') = nextTick (gem5 w);
  ud_scheduled e n : scheduled e n (gem5 w) → scheduled e n (gem5 w');
  ud_exits x : exits x w → exits x w';
  ud_sound : sound (gem5 w) → sound (gem5 w');
}.

#[export] Instance undisturbed_preorder : PreOrder undisturbed.
Proof. split; [by intros w|]. intros w1 w2 w3 [] []. split; [congruence..|auto|auto|auto]. Qed.

Lemma undisturbed_stirs w w' : undisturbed w w' → stirs w w'.
Proof.
  intros [Hm Hc Ha Ht Hst Hn Hsch Hx Hso]. split; [|split; [done|split; [done|by rewrite Hn]]].
  split; try done; [by left|]. intros n Hn'. right. exists n. split; [congruence|lia].
Qed.

Lemma due_undisturbed w w' o : undisturbed w w' → due_now o w → due_now o w'.
Proof. intros Hu. unfold due_now. by rewrite (ud_time _ _ Hu). Qed.

Lemma einv_undisturbed s w : einv s → undisturbed (loop s) w → einv (set_loop w s).
Proof.
  intros [Hlag Hso Hph] Hu. pose proof (due_undisturbed _ _ (externalSchedulingEvent (sc (loop s))) Hu) as Hext.
  pose proof (due_undisturbed _ _ (eventLoopEnterEvent (sc (loop s))) Hu) as Hent.
  destruct Hu as [Hm Hc Ha Ht Hst Hn Hsch Hx Hsd].
  split; simpl; rewrite ?Ht, ?Hst; [done|auto|]. destruct (limit s) as [l|].
  2: { destruct Hph as [Hs He Has]. split; rewrite ?Hm, ?Hc, ?Ha, ?Hn, ?Hst; try done. intros [??]%Has. auto. }
  destruct Hph as [[Hlag' Hs Hnx Hso' Hphase] Hwk Has].
  assert (running l (loop s) → running l w) as Hrun
    by (intros []; split; rewrite ?Hm, ?Hc; auto).
  assert (over l (loop s) → over l w) as Hov.
  { intros []. split; unfold due_now; rewrite ?Hm, ?Hc, ?Ht, ?Hst, ?Hn; try done. auto. }
  split; [split|..]; rewrite ?Hm, ?Hc, ?Ha, ?Ht, ?Hst, ?Hn; auto.
  - destruct Hphase; auto.
  - destruct Hwk; auto.
  - intros [?|[??]]%Has; auto.
Qed.

(** ** Properties *)

(** C19: How the steps of the event loop's closed system end.  Whenever the kernel runs one of the module's
    methods, resumes the thread in [simulate], lets time pass, or runs another process that calls gem5, puts
    an event into its queue or raises a signal, the step succeeds, the fuel being enough, and leads to a
    reachable state; but in exactly three cases it fails: the method services a signal's exception, which is
    reported as fatal; the thread is resumed after the exit event was overwritten, and uses a null pointer;
    or a method runs after the exit event, before the thread, and finds or leaves the queue empty, which
    is reported as fatal.  Only a method that finds an event due at that time, or asynchronous events,
    overwrites the exit event. *)
Theorem event_loop_safe s act :
  ereachable s → eenabled act s → ends ereachable act s (erun act s).
Proof. apply reachable_ends. Qed.

(** C20: While [simulate] runs, whoever calls gem5 finds what catching up relies on - gem5 does not lead
    SystemC and has missed no event - and neither gem5's next event nor the limit is ever passed.  There
    is a next event until an exit event was serviced, and after it, too, if gem5 always has one. *)
Theorem event_loop_on_time s l :
  ereachable s → limit s = Some l →
  gem5_tick (loop s) ≤ systemc_time (loop s) ∧ no_event_missed (loop s) ∧
  systemc_time (loop s) ≤ l.2 ∧
  (∀ n, nextTick (gem5 (loop s)) = Some n → systemc_time (loop s) ≤ n) ∧
  (eventLoopExitEvent (sc (loop s)) = None ∨ Gem5Busy →
   ∃ n, nextTick (gem5 (loop s)) = Some n ∧ systemc_time (loop s) ≤ n).
Proof.
  intros Hr Hl. pose proof (einv_simulating s l (ereachable_inv s Hr) Hl) as Hs.
  destruct (simulating_time l _ Hs) as [Hlag Hmiss]. destruct Hs as [[_ _ Hn _ Hph] _ _].
  split; [done|]. split; [done|]. assert (∀ n, nextTick (gem5 (loop s)) = Some n →
    ∃ n', nextTick (gem5 (loop s)) = Some n' ∧ systemc_time (loop s) ≤ n') as Hnext by eauto.
  simpl in *. destruct Hph as [Hrun|Ho].
  - destruct (running_next l _ Hrun) as (n & Hn' & Hlim). split; [specialize (Hn n Hn'); lia|]. eauto.
  - split; [apply Ho|]. split; [done|]. destruct (ov_notified _ _ Ho) as (t & Ht & _). intros [?|Hb]; [congruence|].
    destruct (ov_busy _ _ Ho Hb) as [n Hn']. eauto.
Qed.

Definition at_time (t : Z) s : system :=
  let w := loop s in System (World (module w) (sc w) (async w) (curTick w) t (gem5 w)) (limit s).

(** A step of the module itself. *)
Definition internal (act : eaction) : Prop :=
  match act with EEnter _ | EExternal _ | EReturn => True | _ => False end.

Lemma enough_fuel w : ∃ fuel, enough fuel w.
Proof.
  destruct (serviceAsyncEvent w) as [r w'] eqn:Hrun.
  exists (S (due (sc_time_stamp w) (gem5 w) + due (sc_time_stamp w') (gem5 w')))%nat.
  split; [lia|]. intros w2 Hrun2. assert (w2 = w') as -> by congruence. lia.
Qed.

Lemma due_internal s t :
  is_Some (limit s) →
  (∃ p, p ≤ t ∧ notified p (sc (loop s))) →
  ∃ act, internal act ∧ eenabled act (at_time t s).
Proof.
  intros Hl (p & Hp & [He|[He|He]]).
  - destruct (enough_fuel (set_sc (set_external None) (loop (at_time t s)))) as [fuel Hf].
    exists (EExternal fuel). split; [done|]. split; [by exists p|done].
  - exists EReturn. split; [done|]. split; [done|by exists p].
  - destruct (enough_fuel (set_sc (set_enter None) (loop (at_time t s)))) as [fuel Hf].
    exists (EEnter fuel). split; [done|]. split; [by exists p|done].
Qed.

(** The earliest of the pending notifications. *)
Lemma earliest (l : list (option Z)) :
  (∀ q, ¬ Some q ∈ l) ∨ ∃ t, Some t ∈ l ∧ ∀ q, Some q ∈ l → t ≤ q.
Proof.
  induction l as [|[a|] l IH]; [left; by intros q ?%not_elem_of_nil|right|].
  - destruct IH as [Hno|(t & Ht & Hmin)].
    + exists a. split; [by left|]. intros q [[= ->]|Hq]%elem_of_cons; [done|by apply Hno in Hq].
    + destruct (Z.le_gt_cases a t).
      * exists a. split; [by left|]. intros q [[= ->]|Hq%Hmin]%elem_of_cons; lia.
      * exists t. split; [by right|]. intros q [[= ->]|Hq%Hmin]%elem_of_cons; lia.
  - destruct IH as [Hno|(t & Ht & Hmin)].
    + left. intros q [[=]|Hq]%elem_of_cons. by apply Hno in Hq.
    + right. exists t. split; [by right|]. intros q [[=]|Hq]%elem_of_cons. by apply Hmin.
Qed.

Lemma earliest_notification p c :
  notified p c → ∃ t, notified t c ∧ ∀ q, notified q c → t ≤ q.
Proof.
  assert (∀ q, notified q c ↔
    Some q ∈ [externalSchedulingEvent c; eventLoopExitEvent c; eventLoopEnterEvent c]) as Hin.
  { intros q. unfold notified. rewrite !elem_of_cons, elem_of_nil. intuition congruence. }
  intros Hp%Hin. destruct (earliest [externalSchedulingEvent c; eventLoopExitEvent c; eventLoopEnterEvent c])
    as [Hno|(t & Ht & Hmin)]; [by apply Hno in Hp|].
  exists t. split; [by apply Hin|]. intros q Hq%Hin. by apply Hmin.
Qed.

(** C25: [simulate] does not hang: until it returns, the kernel can run a step of the module now or at a later
    time that SystemC may advance to, which is not beyond the limit. *)
Theorem event_loop_never_stuck s l :
  ereachable s → limit s = Some l →
  ∃ t act, (t = sc_time_stamp (loop s) ∨ eenabled (ETime t) s ∧ t ≤ l.2) ∧
    internal act ∧ eenabled act (at_time t s).
Proof.
  intros Hr Hl. pose proof (ereachable_inv s Hr) as Hi. set (w := loop s).
  assert (∃ p, p ≤ Z.max (sc_time_stamp w) l.2 ∧ notified p (sc w)) as (p & Hp & Hpend).
  { destruct (einv_simulating s l Hi Hl) as [Hlp Hwk _].
    assert (over l w → ∃ p, p ≤ Z.max (sc_time_stamp w) l.2 ∧ notified p (sc w)) as Hover.
    { intros Ho. destruct (ov_notified _ _ Ho) as (p & Hp & Hle). exists p. split; [lia|]. unfold notified. auto. }
    destruct (lp_phase _ _ Hlp) as [Hrun|Ho]; [|by apply Hover]. destruct Hwk as [Ho|Hwk]; [by apply Hover|].
    destruct (running_next l w Hrun) as (n & Hn & Hlim). destruct (Hwk n Hn) as (p & Hp & Hor).
    exists p. split; [lia|]. unfold notified. destruct Hor; auto. }
  destruct (earliest_notification p _ Hpend) as (t & Ht & Hmin). specialize (Hmin p Hpend) as Htp.
  destruct (Z.le_gt_cases t (sc_time_stamp w)).
  - destruct (due_internal s (sc_time_stamp w)) as (act & Hact & Hen); [by eexists|by exists t|].
    exists (sc_time_stamp w), act. split; [by left|done].
  - destruct (due_internal s t) as (act & Hact & Hen); [by eexists|by exists t|].
    exists t, act. split; [|done]. right. split; [|lia]. split; [fold w; lia|].
    exact Hmin.
Qed.

(** [simulate] returns the global event of the exit event that the loop serviced, if that was not
    overwritten, no later than its limit, and leaves the module outside the simulation. *)
Theorem simulate_returns s l x :
  ereachable s → limit s = Some l → due_now (eventLoopExitEvent (sc (loop s))) (loop s) →
  exitEvent (module (loop s)) = Some x →
  let w := set_sc (set_exit None) (loop s) in
  ∃ g w', simulate_end l.1 w = (Ok g, w') ∧ globalEvent x w = Some g ∧
    is_GlobalSimLoopExitEvent g w = true ∧
    in_simulate (module w') = false ∧ eventLoopEnterEvent (sc w') = None ∧ sc_time_stamp w ≤ l.2.
Proof.
  intros Hr Hl Hdue Hx w. pose proof (ereachable_inv s Hr) as Hi.
  pose proof (sm_looping _ _ (einv_simulating s l Hi Hl)) as Hlp.
  destruct (lp_phase _ _ Hlp) as [Hrun|Ho]; [rewrite (rn_exit _ _ Hrun) in Hx; done|].
  assert (wp (simulate_end l.1) (λ g w', globalEvent x w = Some g ∧
    is_GlobalSimLoopExitEvent g w = true ∧ in_simulate (module w') = false ∧
    eventLoopEnterEvent (sc w') = None) w) as Hwp.
  { apply (wp_simulate_end l.1 x); [done|by apply (gl_exits x (loop s)), Ho|apply Ho|apply Hlp|apply Hlp|].
    intros g w' Hg Hge _ _ _ _ _ Hsim Hen _. done. }
  destruct (wp_Ok _ _ _ Hwp) as (g & w' & Hrun & Hg & Hge & Hsim & Hen).
  exists g, w'. do 5 (split; [done|]). apply Ho.
Qed.
End spec.

(** C38: The thread of [simulate] is resumed in the next delta cycle after the exit event.  If the module is
    woken up before it, for an event that is due at the same time, the loop overwrites [exitEvent], and
    the thread dereferences a null pointer. *)
Theorem exit_event_lost {E} `{!Gem5Queue E} (w w1 : world E) x n e :
  exitEvent (module w) = Some x → in_simulate (module w) = true → async_event (async w) = false →
  curTick w = sc_time_stamp w → nextTick (gem5 w) = Some (sc_time_stamp w) →
  serviceOne w = (None, w1) → curTick w1 = sc_time_stamp w1 →
  nextTick (gem5 w1) = Some n → sc_time_stamp w1 < n →
  wait_exit_time (module w) ≤ sc_time_stamp w →
  ∃ w2, serviceExternalEvent 2 w = (Ok tt, w2) ∧
    fails (simulate_end e) (UNDEFINED "exitEvent->globalEvent()") w2.
Proof.
  intros Hx Hs Ha Hcu Hn Hrun Hcu1 Hn1 Hlt Hwt.
  assert (wp (serviceExternalEvent 2) (λ _ w2, exitEvent (module w2) = None) w) as Hwp.
  2: { destruct (wp_Ok _ _ _ Hwp) as ([] & w2 & Hrun2 & Hx2). exists w2. split; [done|].
       unfold simulate_end. do 3 (eapply fails_bind_Ok; [done|]). simpl. rewrite Hx2. done. }
  unfold serviceExternalEvent, eventLoop. apply wp_bind, wp_gets, wp_bind. rewrite Ha. apply wp_ret, wp_bind.
  unfold wp at 1, get. rewrite Hs, Hn. simpl. apply wp_bind, wp_gets. rewrite Hs.
  apply wp_bind, wp_check; [done|]. apply wp_bind, wp_gets, wp_bind. rewrite Ha. apply wp_ret.
  assert (∀ w, curTick w = sc_time_stamp w → nextTick (gem5 w) = Some (sc_time_stamp w) → ¬ event_missed w)
    as Hmiss by (intros w' ? ? (n' & ? & ?); assert (n' = sc_time_stamp w') by congruence; lia).
  unfold event_loop. apply wp_bind, wp_gets. rewrite Hn. apply wp_bind, wp_catchup; [lia|by apply Hmiss|].
  replace (set_curTick (sc_time_stamp w) w) with w by (rewrite <- Hcu; by destruct w).
  do 2 apply wp_bind, wp_gets. apply wp_bind, wp_gets, wp_bind. rewrite (proj2 (Z.ltb_ge _ _)) by done.
  apply wp_ret. rewrite Hcu, Z.ltb_irrefl. apply wp_bind. unfold wp at 1. rewrite Hrun.
  apply wp_bind, wp_modify. set (w1' := set_module _ w1). apply wp_bind, wp_gets.
  change (gem5 w1') with (gem5 w1). rewrite Hn1. apply wp_bind, wp_catchup.
  { change (curTick w1 ≤ sc_time_stamp w1). lia. }
  { intros (n' & Hn' & Hlt'). simpl in *. assert (n' = n) by congruence. lia. }
  do 2 apply wp_bind, wp_gets. apply wp_bind, wp_gets, wp_bind. simpl.
  destruct (sc_time_stamp w1 <? wait_exit_time (module w1));
    [apply wp_modify|apply wp_ret]; rewrite (proj2 (Z.ltb_lt _ _)) by (simpl; done);
    apply wp_bind, wp_modify, wp_modify; done.
Qed.

(** ** Holding more of gem5

    gem5 may keep more true of its own state than the loop needs of it. *)

Section kept.
Context {E : Type} `{!Gem5Queue E, !Gem5Schedule (E := E)} (P : E → Prop).
Implicit Types (w : world E).

(** [P] stays true whatever the loop has gem5 do. *)
Class Kept : Prop := {
  kt_service w e w' : sound (gem5 w) → curTick w = sc_time_stamp w → serviceOne w = (e, w') →
    P (gem5 w) → P (gem5 w');
  kt_limit t w e w' : GlobalSimLoopExitEvent t w = (e, w') → P (gem5 w) → P (gem5 w');
  kt_stats d r w : P (gem5 w) → P (gem5 (schedStatEvent d r w));
  kt_interrupt w : P (gem5 w) → P (gem5 (exitSimLoop w));
  kt_poll w : P (gem5 w) → P (gem5 (pollQueue_service w));
  kt_deschedule e w : P (gem5 w) → P (gem5 (deschedule_delete e w));
}.

Definition and_sound : Gem5Schedule (E := E) := {|
  scheduled := scheduled;
  due := due;
  sound g := sound g ∧ P g;
|}.

Lemma works_and w w' : works w w' → (P (gem5 w) → P (gem5 w')) → @works _ _ and_sound w w'.
Proof. intros [] Hs. split; try done. intros []. split; auto. Qed.

Lemma stirs_and w w' : stirs w w' → (P (gem5 w) → P (gem5 w')) → @stirs _ _ and_sound w w'.
Proof. intros [Hw Hrest] Hs. split; [by apply works_and|exact Hrest]. Qed.

Context `{!Kept, !Gem5Laws (E := E)}.

Lemma and_sound_laws : @Gem5Laws _ _ and_sound.
Proof.
  assert (∀ g : E, @sound _ and_sound g → sound g ∧ P g) as Hsound by done.
  split.
  - apply gl_max.
  - intros e t g. pose proof (gl_next e t g) as Hn. exact Hn.
  - intros w w'. exact (gl_local w w').
  - intros t w e w' [Hs _]%Hsound Ht Hrun. destruct (gl_limit t w e w' Hs Ht Hrun) as [Hw Hl].
    split; [apply works_and; [exact Hw|by eapply kt_limit]|exact Hl].
  - intros w w' [Hs _]%Hsound Hcu Hn Hrun. destruct (gl_event w w' Hs Hcu Hn Hrun) as (Hw & Hl).
    split; [apply works_and; [exact Hw|by eapply kt_service]|exact Hl].
  - intros w x w' [Hs _]%Hsound Hcu Hn Hrun. destruct (gl_exit w x w' Hs Hcu Hn Hrun) as (Hw & Hl).
    split; [apply works_and; [exact Hw|by eapply kt_service]|exact Hl].
  - intros d r w [Hs _]%Hsound. apply stirs_and; [by apply gl_stats|apply kt_stats].
  - intros w [Hs _]%Hsound. apply stirs_and; [by apply gl_interrupt|apply kt_interrupt].
  - intros w [Hs _]%Hsound. apply stirs_and; [by apply gl_poll|apply kt_poll].
  - intros e w [Hs _]%Hsound. apply works_and; [by apply gl_deschedule|apply kt_deschedule].
Qed.
End kept.

(** ** Witnesses *)

(** A gem5 with a CPU that has an event every 1000 ticks, at which it does [work] to what gem5 holds
    besides, and with the limit of [simulate]. *)
Record clockwork (P : Type) := Clockwork { held : P; cpu : Z; exit_at : option Z }.
Arguments Clockwork {P} _ _ _.
Arguments held {P} _.
Arguments cpu {P} _.
Arguments exit_at {P} _.

Section clockwork.
Context {P : Type} (work : world (clockwork P) → P).
Implicit Types (w : world (clockwork P)) (g : clockwork P).

Definition hold (p : P) g : clockwork P := Clockwork p (cpu g) (exit_at g).

Definition clock_service w : option positive * clockwork P :=
  let g := gem5 w in
  let go l := (None, Clockwork (work w) (cpu g + 1000) l) in
  match exit_at g with
  | Some t => if t <? cpu g then (Some 1%positive, Clockwork (held g) (cpu g) None) else go (Some t)
  | None => go None
  end.

#[local] Instance ticking : Gem5Queue (clockwork P) := {
  nextTick g := Some match exit_at g with Some t => Z.min (cpu g) t | None => cpu g end;
  MaxTick := 2 ^ 64 - 1;
  serviceOne w := let '(x, g) := clock_service w in (x, set_gem5 g w);
  schedStatEvent _ _ w := w;
  exitSimLoop w := w;
  pollQueue_service w := w;
  GlobalSimLoopExitEvent t w := (1%positive, set_gem5 (Clockwork (held (gem5 w)) (cpu (gem5 w)) (Some t)) w);
  globalEvent e _ := Some e;
  is_GlobalSimLoopExitEvent _ _ := true;
  deschedule_delete _ w := set_gem5 (Clockwork (held (gem5 w)) (cpu (gem5 w)) None) w;
}.

#[local] Instance ticking_schedule : Gem5Schedule := {
  scheduled e t g := exit_at g = Some t;
  due t g := if cpu g =? t then 1%nat else 0%nat;
  sound _ := True;
}.

Lemma clock_works w g :
  (∀ n, nextTick g = Some n → curTick w ≤ n ∨ ∃ n0, nextTick (gem5 w) = Some n0 ∧ n0 ≤ n) →
  works w (set_gem5 g w).
Proof. intros Hn. split; try done. by left. Qed.

Lemma clock_refl w : works w w.
Proof. split; try done; [by left|]. intros n Hn. right. by exists n. Qed.

(** What is held does not matter to the queue. *)
Lemma clock_hold p w : works w (set_gem5 (hold p (gem5 w)) w).
Proof. apply clock_works. intros n Hn. right. by exists n. Qed.

(** An event of the CPU. *)
Lemma clock_event w p l :
  cpu (gem5 w) = curTick w → exit_at (gem5 w) = l → (∀ t, l = Some t → curTick w ≤ t) →
  let w' := set_gem5 (Clockwork p (cpu (gem5 w) + 1000) l) w in
  works w w' ∧ (∀ (e : positive) t, scheduled e t (gem5 w) → scheduled e t (gem5 w')) ∧
  (due (curTick w) (gem5 w') < due (curTick w) (gem5 w))%nat.
Proof.
  intros Hc Hl Ht w'. split; [|split].
  - apply clock_works. simpl. intros n [= <-]. left. destruct l as [t|]; [specialize (Ht t eq_refl)|]; lia.
  - intros e t. simpl. congruence.
  - simpl. rewrite Hc, Z.eqb_refl. destruct (Z.eqb_spec (curTick w + 1000) (curTick w)); lia.
Qed.

#[local] Instance ticking_laws : Gem5Laws.
Proof.
  split; try done.
  - intros e t g Hg. simpl in *. rewrite Hg. eexists. split; [done|lia].
  - intros t w e w' _ Ht [= <- <-]. split; [|done]. apply clock_works. simpl. intros n [= <-].
    destruct (Z.le_gt_cases (cpu (gem5 w)) t); [right|left; lia].
    eexists. split; [done|]. destruct (exit_at (gem5 w)); lia.
  - intros w w' _ _ Hn Hrun. simpl in Hn, Hrun. unfold clock_service in Hrun. injection Hn as Hn.
    destruct (exit_at (gem5 w)) as [t|] eqn:Hx.
    + destruct (Z.ltb_spec t (cpu (gem5 w))); [done|]. injection Hrun as <-.
      refine (clock_event w _ (Some t) _ Hx _); [lia|]. intros t' [= <-]. lia.
    + injection Hrun as <-. by refine (clock_event w _ None Hn Hx _).
  - intros w x w' _ _ Hn Hrun. simpl in Hn, Hrun. unfold clock_service in Hrun. injection Hn as Hn.
    destruct (exit_at (gem5 w)) as [t|] eqn:Hx; [|done].
    destruct (Z.ltb_spec t (cpu (gem5 w))); [|done]. injection Hrun as <- <-.
    split; [apply clock_works; simpl; intros n [= <-]; left; lia|by eexists].
  - intros d r w _. split; [apply clock_refl|done].
  - intros w _. split; [apply clock_refl|done].
  - intros w _. split; [apply clock_refl|done].
  - intros e w _. apply clock_works. simpl. intros n [= <-]. right. eexists. split; [done|].
    destruct (exit_at (gem5 w)); lia.
Qed.

(** Before [simulate], with the CPU's first event at [t]. *)
Definition clock_start (p : P) (t : Z) : system (E := clockwork P) :=
  System (World (Module_new 0 None) quiet no_async 0 0 (Clockwork p t None)) None.
End clockwork.

#[local] Instance idle_ticking : Gem5Queue (clockwork unit) := ticking (λ _, tt).
#[local] Instance idle_schedule : Gem5Schedule := ticking_schedule (P := unit).
#[local] Instance idle_laws : Gem5Laws := ticking_laws (λ _, tt).

(** [simulate] for 1200 ticks: an event at 500, the limit at 1200. *)
Definition clock0 : system (E := clockwork unit) := clock_start tt 500.
Definition clock1 := step_of (EBegin 1200) clock0.
Definition clock2 := step_of (EEnter 2) clock1.
Definition clock3 := step_of (EEnter 2) (step_of (ETime 500) clock2).
Definition clock4 := step_of (EEnter 2) (step_of (ETime 1200) clock3).

Lemma clock2_reachable : ereachable clock2.
Proof.
  apply enter_reachable; [|by exists 0|reflexivity|vm_compute; lia|reflexivity].
  apply system_step; [by apply ereach_initial| |reflexivity].
  split; [done|]. split; [split; lia|]. split; [split; simpl; lia|]. split; [done|].
  intros n [= <-]. simpl. lia.
Qed.

Lemma clock3_reachable : ereachable clock3.
Proof.
  apply enter_reachable; [|by exists 500|reflexivity|vm_compute; lia|reflexivity].
  apply time_reachable; [apply clock2_reachable|vm_compute; discriminate|reflexivity..].
Qed.

Lemma clock4_reachable : ereachable clock4.
Proof.
  apply enter_reachable; [|by exists 1200|reflexivity|vm_compute; lia|reflexivity].
  apply time_reachable; [apply clock3_reachable|vm_compute; discriminate|reflexivity..].
Qed.

(** After the limit event at 1200, and before the thread, a process schedules an event for the CPU at once, and
    the kernel runs the method that this wakes up. *)
Definition hurry (w : world (clockwork unit)) : world (clockwork unit) :=
  set_gem5 (Clockwork tt (sc_time_stamp w) (exit_at (gem5 w))) w.
Definition clock_hurried := step_of (EExternal 2) (step_of (ESchedule hurry) clock4).

Lemma hurry_posts (w : world (clockwork unit)) :
  curTick w = sc_time_stamp w → exit_at (gem5 w) = None → posts w (hurry w).
Proof.
  intros Hcu Hx. assert (∀ n, nextTick (gem5 (hurry w)) = Some n → sc_time_stamp w ≤ n) as Hn.
  { simpl. rewrite Hx. intros n [= <-]. done. }
  split; [|intros n Hn'; left; by apply Hn]. split; [|done]. split; try done; [by left|].
  intros n Hn'%Hn. left. lia.
Qed.

Lemma clock_hurried_reachable : ereachable clock_hurried.
Proof.
  apply system_step; [apply system_step; [apply clock4_reachable| |reflexivity]| |reflexivity].
  - split; [exists (1%positive, 1200); vm_compute; reflexivity|]. apply hurry_posts; vm_compute; reflexivity.
  - split; [exists 1200; split; [vm_compute; reflexivity|vm_compute; discriminate]|].
    apply enough_quiet; [vm_compute; reflexivity|vm_compute; lia].
Qed.

(** The thread returns from [simulate]; or it is resumed too late. *)
Lemma event_loop_safe_witness :
  ends ereachable EReturn clock4 (erun EReturn clock4) ∧ fst (erun EReturn clock4) = Ok tt ∧
  ends ereachable EReturn clock_hurried (erun EReturn clock_hurried) ∧
  fst (erun EReturn clock_hurried) = Err (UNDEFINED "exitEvent->globalEvent()").
Proof.
  split; [|split; [vm_compute; reflexivity|split; [|vm_compute; reflexivity]]].
  - apply (event_loop_safe clock4 EReturn clock4_reachable).
    split; [exists (1%positive, 1200); vm_compute; reflexivity|]. exists 1200.
    split; [vm_compute; reflexivity|vm_compute; discriminate].
  - apply (event_loop_safe clock_hurried EReturn clock_hurried_reachable).
    split; [exists (1%positive, 1200); vm_compute; reflexivity|]. exists 1200.
    split; [vm_compute; reflexivity|vm_compute; discriminate].
Defined.

(** At 200, with gem5 still at 0, a process puts an event for 300 into the queue. *)
Definition post (w : world (clockwork unit)) : world (clockwork unit) :=
  set_gem5 (Clockwork tt (Z.min (cpu (gem5 w)) (sc_time_stamp w + 100)) (exit_at (gem5 w))) w.
Definition clock_lag : system (E := clockwork unit) := step_of (ETime 200) clock2.
Definition clock_posted : system (E := clockwork unit) := step_of (ESchedule post) clock_lag.

Lemma post_posts (w : world (clockwork unit)) : curTick w ≤ sc_time_stamp w → posts w (post w).
Proof.
  intros Hlag. assert (∀ n, nextTick (gem5 (post w)) = Some n →
    sc_time_stamp w ≤ n ∨ ∃ n0, nextTick (gem5 w) = Some n0 ∧ n0 ≤ n) as Hn.
  { simpl. intros n [= <-]. destruct (Z.le_gt_cases (cpu (gem5 w)) (sc_time_stamp w + 100)).
    - right. eexists. split; [done|]. destruct (exit_at (gem5 w)); lia.
    - destruct (exit_at (gem5 w)) as [t|]; [|left; lia].
      destruct (Z.le_gt_cases (sc_time_stamp w) t); [left; lia|]. right. eexists. split; [done|]. lia. }
  split; [|exact Hn]. split; [|done]. split; try done; [by left|].
  intros n Hn'. destruct (Hn n Hn') as [?|?]; [left; lia|by right].
Qed.

Lemma clock_posted_reachable : ereachable clock_posted.
Proof.
  apply system_step; [| |reflexivity].
  - apply system_step; [apply clock2_reachable| |reflexivity]. split; [vm_compute; discriminate|].
    intros p [Hp|[Hp|Hp]]; vm_compute in Hp; [done|done|]. injection Hp as <-. lia.
  - split; [by eexists|]. by apply post_posts.
Qed.

Lemma event_loop_on_time_witness :
  gem5_tick (loop clock_posted) = 0 ∧ systemc_time (loop clock_posted) = 200 ∧
  no_event_missed (loop clock_posted) ∧
  ∃ n, nextTick (gem5 (loop clock_posted)) = Some n ∧ 200 ≤ n.
Proof.
  destruct (event_loop_on_time clock_posted (1%positive, 1200) clock_posted_reachable ltac:(reflexivity))
    as (_ & Hm & _ & _ & Hn).
  split; [reflexivity|]. split; [reflexivity|]. split; [exact Hm|apply Hn; left; reflexivity].
Defined.

Lemma event_loop_never_stuck_witness :
  ∃ t act, (t = sc_time_stamp (loop clock3) ∨ eenabled (ETime t) clock3 ∧ t ≤ 1200) ∧
    internal act ∧ eenabled act (at_time t clock3).
Proof.
  exact (event_loop_never_stuck clock3 (1%positive, 1200) clock3_reachable ltac:(reflexivity)).
Defined.

Lemma simulate_returns_witness :
  ∃ g w', simulate_end 1 (set_sc (set_exit None) (loop clock4)) = (Ok g, w') ∧
    in_simulate (module w') = false.
Proof.
  destruct (simulate_returns clock4 (1%positive, 1200) 1 clock4_reachable ltac:(reflexivity))
    as (g & w' & Hrun & _ & _ & Hs & _).
  - exists 1200. split; [reflexivity|vm_compute; discriminate].
  - vm_compute. reflexivity.
  - exists g, w'. split; [exact Hrun|exact Hs].
Defined.

(** The limit event was serviced; then another process schedules an event for the CPU at once. *)
Definition woken_again : world (clockwork unit) :=
  let w := loop clock4 in
  set_gem5 (Clockwork tt 1200 None) w.

Lemma exit_event_lost_witness :
  ∃ w2, serviceExternalEvent 2 woken_again = (Ok tt, w2) ∧
    fails (simulate_end 1) (UNDEFINED "exitEvent->globalEvent()") w2.
Proof.
  apply (exit_event_lost woken_again (snd (serviceOne woken_again)) 1 2200 1).
  all: match goal with |- (_ ≤ _)%Z => vm_compute; discriminate | _ => vm_compute; reflexivity end.
Defined.
