(* ===== verification/SystemOnTime.v ===== *)
(** * The slave port in the gem5 that the event loop runs

    The port asserts that gem5's time is SystemC's whenever gem5 calls it; the event loop sees to that.
    Here gem5 is anything that holds a slave port with its routers and calls it only while it services
    an event, and the two closed systems are put together. *)

From S2P Require Import Prelude StdMap Tlm Concrete MemManager BlockingHelper SocketMap Transactor.
From S2P Require Import SlavePort SlaveProtocol SlavePortProps SlavePortSpec TxnRouter TxnRouterProps.
From S2P Require Import System SystemProps SystemSpec EventLoop EventLoopSpec.
Import System.

Section on_time.
Context `{TlmPayloadLaws, Gem5PacketLaws} {X : Type} `{!Layout X, !Outside X}.
Context {E : Type} `{!EventLoop.Gem5Queue E}.
Implicit Types (p : pworld X) (w : EventLoop.world E) (a : action) (g : E).

(** gem5 holds the port; an error of the port ends the run. *)
Class Host := {
  slave : E → pworld X;
  set_slave : pworld X → E → E;
}.

Definition port_call (a : saction) p : pworld X :=
  match srun a p with
  | (Ok _, p') => p'
  | (Err e, p') => set_env (set_failure e) p'
  end.

(** What gem5 does to the port during an event, [tick] and [sc] being the clocks: it works on its own
    state, and makes calls which are as the port expects them, except that it need not know the clocks; and
    it asks for refused responses only when it takes them all. *)
Inductive activity (tick sc : Z) : pworld X → pworld X → Prop :=
| ac_rest p : activity tick sc p p
| ac_gem5 p p' p'' : gem5_change p p' → activity tick sc p' p'' → activity tick sc p p''
| ac_call p a p'' :
    (tick = sc → senabled (PortStep a) (set_time tick sc p)) → ¬ refuses (PortStep a) p →
    activity tick sc (port_call (PortStep a) (set_time tick sc p)) p'' → activity tick sc p p''.

Context `{!Host, !Gem5Schedule (E := E)}.

(** Payload event [pe], scheduled for [n], is in [p] and was not in [p0]. *)
Definition new_event p p0 (pe : positive) (n : Z) : Prop :=
  ∃ e, Port.events p !! pe = Some e ∧ Port.pe_when e = Some n ∧ Port.events p0 !! pe ≠ Some e.

(** gem5 calls the port from the events it services and leaves it alone otherwise.  What else may appear in
    its queue when the port is replaced by another are new payload events, and the next event stays one
    as long as no payload event is lost. *)
Class HostLaws : Prop := {
  ho_service w e w' : sound (EventLoop.gem5 w) → EventLoop.serviceOne w = (e, w') →
    activity (EventLoop.curTick w) (EventLoop.sc_time_stamp w)
      (slave (EventLoop.gem5 w)) (slave (EventLoop.gem5 w'));
  ho_limit t w e w' : EventLoop.GlobalSimLoopExitEvent t w = (e, w') →
    slave (EventLoop.gem5 w') = slave (EventLoop.gem5 w);
  ho_stats d r w : slave (EventLoop.gem5 (EventLoop.schedStatEvent d r w)) = slave (EventLoop.gem5 w);
  ho_interrupt w : slave (EventLoop.gem5 (EventLoop.exitSimLoop w)) = slave (EventLoop.gem5 w);
  ho_poll w : slave (EventLoop.gem5 (EventLoop.pollQueue_service w)) = slave (EventLoop.gem5 w);
  ho_deschedule e w : slave (EventLoop.gem5 (EventLoop.deschedule_delete e w)) = slave (EventLoop.gem5 w);
  ho_set p g : slave (set_slave p g) = p;
  ho_sound p g : sound g → sound (set_slave p g);
  ho_scheduled e t p g : EventLoopSpec.scheduled e t g → EventLoopSpec.scheduled e t (set_slave p g);
  ho_exits x p w : exits x w → exits x (EventLoop.set_gem5 (set_slave p (EventLoop.gem5 w)) w);
  ho_next p g n : EventLoop.nextTick (set_slave p g) = Some n →
    (∃ n0, EventLoop.nextTick g = Some n0 ∧ n0 ≤ n) ∨ (∃ pe, new_event p (slave g) pe n);
  ho_some p g : (∀ pe, is_Some (Port.events (slave g) !! pe) → is_Some (Port.events p !! pe)) →
    is_Some (EventLoop.nextTick g) → is_Some (EventLoop.nextTick (set_slave p g));
}.

Context `{!Guests, !HostLaws, !Gem5Laws (E := E)}.

(** A reachable state stays reachable while gem5's clock is SystemC's. *)
Lemma call_reachable (a : saction) p :
  sreachable p → senabled a p → ¬ refuses a p → sreachable (port_call a p).
Proof.
  intros Hp Hen Hno. destruct (sreachable_inv p Hp) as [G Hi].
  destruct (wpe_cases _ _ _ _ (wpe_saction p G a Hi Hen)) as [([] & p' & Hrun & _)|(e & p' & _ & Href & _)];
    [|done].
  unfold port_call. rewrite Hrun. by eapply sreach_step.
Qed.

Lemma router_accepts k x p : ¬ refuses (RouterStep k x) p.
Proof. by intros [? _]. Qed.

Lemma activity_reachable t p p' : activity t t p p' → sreachable p → sreachable p'.
Proof.
  induction 1 as [p|p p' p'' Hc _ IH|p a p'' Hen Hno _ IH]; intros Hp; [done|..].
  - apply IH. by eapply sreach_gem5.
  - apply IH, call_reachable; [by apply sreach_time|by apply Hen|exact Hno].
Qed.

Lemma service_reachable w e w' :
  sound (EventLoop.gem5 w) → EventLoop.curTick w = EventLoop.sc_time_stamp w →
  EventLoop.serviceOne w = (e, w') →
  sreachable (slave (EventLoop.gem5 w)) → sreachable (slave (EventLoop.gem5 w')).
Proof.
  intros Hs Hcu Hrun Hp. pose proof (ho_service w e w' Hs Hrun) as Ha. rewrite <- Hcu in Ha.
  exact (activity_reachable _ _ _ Ha Hp).
Qed.

(** *** The port's invariant as gem5's *)

Definition hosted : Gem5Schedule (E := E) := and_sound (λ g, sreachable (slave g)).

Lemma hosted_laws : @Gem5Laws _ _ hosted.
Proof.
  apply and_sound_laws; [|apply _]. split.
  - by apply service_reachable.
  - intros t w e w' Hrun. by rewrite (ho_limit _ _ _ _ Hrun).
  - intros d r w. by rewrite ho_stats.
  - intros w. by rewrite ho_interrupt.
  - intros w. by rewrite ho_poll.
  - intros e w. by rewrite ho_deschedule.
Qed.

(** C21: The event loop and the slave port together.  gem5 holds the port and calls it only from the events it
    services, with requests for the memory behind the router of their socket, taking the events of one
    transaction in the order of their notification, and every response that it asks for again ([activity],
    [HostLaws]).  It does not look at the clocks.  Then in every state that the module, its kernel and gem5 can
    reach the port with its routers is in a state of its own closed system and none of its calls has
    failed, the assertion that gem5's time is SystemC's included; and every further step of the loop
    ends as the loop's do: it succeeds and leads to such a state, but for a signal's exception, an exit
    event that was overwritten and a queue that runs empty after it ([ends]). *)
Theorem port_runs_on_time s :
  @ereachable _ _ hosted s →
  sreachable (slave (EventLoop.gem5 (loop s))) ∧
  failure (Port.env (slave (EventLoop.gem5 (loop s)))) = None ∧
  ∀ act, @eenabled _ _ hosted act s → ends (@ereachable _ _ hosted) act s (erun act s).
Proof.
  intros Hr. pose proof (@ereachable_inv _ _ hosted hosted_laws s Hr) as Hi.
  destruct (@ev_sound _ _ hosted _ Hi) as [_ Hp]. split; [done|]. split.
  - destruct (sreachable_inv _ Hp) as [G Hv]. apply (v_coupled _ _ _ _ Hv).
  - intros act Hen. by apply (@reachable_ends _ _ hosted hosted_laws).
Qed.

(** *** Phases that routers send *)

(** A router schedules payload events, all of them 10 ns from now. *)
Record posting (rw rw' : rworld X) : Prop := {
  pg_sc : Port.sc_time_stamp (Router.env rw') = Port.sc_time_stamp (Router.env rw);
  pg_new pe e : Port.events (Router.env rw') !! pe = Some e →
    Port.events (Router.env rw) !! pe = Some e ∨
    Port.pe_when e = Some (wrap64 (Port.sc_time_stamp (Router.env rw) + Router.sc_ns 10));
  pg_old pe : is_Some (Port.events (Router.env rw) !! pe) → is_Some (Port.events (Router.env rw') !! pe);
}.

#[local] Instance posting_preorder : PreOrder posting.
Proof.
  split; [by split; auto|]. intros rw1 rw2 rw3 [Hs1 Hn1 Ho1] [Hs2 Hn2 Ho2].
  split; [congruence| |auto]. intros pe e [He|He]%Hn2; [by apply Hn1|]. right. by rewrite He, Hs1.
Qed.

Lemma posting_same rw rw' :
  Port.events (Router.env rw') = Port.events (Router.env rw) →
  Port.sc_time_stamp (Router.env rw') = Port.sc_time_stamp (Router.env rw) → posting rw rw'.
Proof. intros He Hs. by split; rewrite ?He; auto. Qed.

Lemma posting_call_bw k t ph : follows posting (@Router.call_bw _ _ _ (behind k) t ph (Router.sc_ns 10)).
Proof.
  intros rw. unfold Router.call_bw. simpl. unfold backward, Port.nb_transport_bw, Port.new_PayloadEvent,
    Port.notify, lift_option, gets, check, modify, mbind, M_bind, mret, M_ret. simpl.
  rewrite lookup_insert_eq. simpl. split; simpl; [done| |].
  - intros pe e. rewrite insert_insert_eq. intros [[<- <-]|[_ He]]%lookup_insert_Some; [by right|by left].
  - intros pe [e He]. rewrite insert_insert_eq. destruct (decide (pe = Port.next_event (Router.env rw))) as [->|Hne].
    + rewrite lookup_insert_eq. by eexists.
    + rewrite lookup_insert_ne by done. by eexists.
Qed.

Lemma posting_call_mem k c t d : follows posting (@Router.call_mem _ _ _ (behind k) c t d).
Proof.
  intros rw. unfold Router.call_mem. simpl. unfold out_call.
  destruct (memory_b_transport _ _ _ _ _) as [r [m x]]. by apply posting_same.
Qed.

Ltac posting_step :=
  lazymatch goal with
  | |- follows _ (Router.call_bw _ _ _) => apply posting_call_bw
  | |- follows _ (Router.call_mem _ _ _) => apply posting_call_mem
  | |- follows _ (Router.send_end_req _) => unfold Router.send_end_req, Router.done_notify
  | |- follows _ (Router.send_response _) => unfold Router.send_response, Router.peq_notify
  | |- follows _ (Router.peq_cb _ _) => unfold Router.peq_cb
  | |- follows _ _ => follows_step
  | |- _ => intros; by apply posting_same
  end.

Lemma posting_run k (x : rstep) : follows posting (@TxnRouterProps.run _ _ _ (behind k) (router_action x)).
Proof.
  destruct x; simpl; unfold Router.peq_deliver, Router.execute_begin, Router.execute_end;
    repeat posting_step.
Qed.

(** The process of router [k] makes step [x]. *)
Definition router_post k (x : rstep) w : EventLoop.world E :=
  let p := slave (EventLoop.gem5 w) in
  EventLoop.set_gem5 (set_slave (port_call (RouterStep k x)
    (set_time (EventLoop.curTick w) (EventLoop.sc_time_stamp w) p)) (EventLoop.gem5 w)) w.

Lemma router_step_events k x p :
  let p' := port_call (RouterStep k x) p in
  (∀ pe n, new_event p' p pe n → n = wrap64 (Port.sc_time_stamp p + Router.sc_ns 10)) ∧
  (∀ pe, is_Some (Port.events p !! pe) → is_Some (Port.events p' !! pe)).
Proof.
  unfold port_call, new_event. simpl. unfold router_step.
  destruct (routers (Port.env p) !! k) as [r|]; [|split; [by intros pe n (e & He & _ & Hne)|done]].
  pose proof (posting_run k x (enter r p)) as [_ Hn Ho].
  destruct (TxnRouterProps.run _ _) as [[[]|e] rw]; simpl in *;
    (split; [|exact Ho]; intros pe n (e' & He & Hw & Hne); apply Hn in He as [He|He]; congruence).
Qed.

(** Each payload event that the step schedules is due 10 ns from SystemC's time. *)
Lemma router_post_new k x w pe n :
  u64 (EventLoop.sc_time_stamp w) → EventLoop.sc_time_stamp w + Router.sc_ns 10 < 2 ^ 64 →
  new_event (slave (EventLoop.gem5 (router_post k x w))) (slave (EventLoop.gem5 w)) pe n →
  n = EventLoop.sc_time_stamp w + Router.sc_ns 10.
Proof.
  intros Hu Hlt Hpe. set (p := set_time (EventLoop.curTick w) (EventLoop.sc_time_stamp w) (slave (EventLoop.gem5 w))).
  simpl in Hpe. rewrite ho_set in Hpe. apply (proj1 (router_step_events k x p)) in Hpe as ->.
  apply wrap64_small. unfold u64, Router.sc_ns in *. simpl. lia.
Qed.

Lemma router_post_posts k x w :
  @sound _ hosted (EventLoop.gem5 w) → EventLoop.curTick w ≤ EventLoop.sc_time_stamp w →
  senabled (RouterStep k x) (slave (EventLoop.gem5 w)) →
  u64 (EventLoop.sc_time_stamp w) → EventLoop.sc_time_stamp w + Router.sc_ns 10 < 2 ^ 64 →
  @posts _ _ hosted w (router_post k x w).
Proof.
  intros [Hs Hp] Hlag Hen Hu Hlt. set (t := EventLoop.sc_time_stamp w) in *.
  set (p := set_time (EventLoop.curTick w) t (slave (EventLoop.gem5 w))).
  assert (sreachable (port_call (RouterStep k x) p)) as Hp'
    by (apply call_reachable; [by apply sreach_time|exact Hen|apply router_accepts]).
  set (g' := set_slave (port_call (RouterStep k x) p) (EventLoop.gem5 w)).
  assert (∀ n, EventLoop.nextTick g' = Some n →
    t ≤ n ∨ ∃ n0, EventLoop.nextTick (EventLoop.gem5 w) = Some n0 ∧ n0 ≤ n) as Hnext.
  { intros n [?|[pe Hpe]]%ho_next; [by right|left].
    rewrite (router_post_new k x w pe n Hu Hlt); [unfold Router.sc_ns; fold t; lia|].
    change (EventLoop.gem5 (router_post k x w)) with g'. unfold g'. by rewrite ho_set. }
  change (router_post k x w) with (EventLoop.set_gem5 g' w).
  split; [|exact Hnext]. split; [|split; [|split]].
  - split; simpl; try done; [by left| |].
    + intros n [?|?]%Hnext; [left; unfold t in *; lia|by right].
    + intros _. split; [by apply ho_sound|]. unfold g'. by rewrite ho_set.
  - intros e t' He. simpl. by apply ho_scheduled.
  - intros y Hy. by apply ho_exits.
  - intros Hn. simpl. apply ho_some; [|done]. apply (router_step_events k x p).
Qed.

(** C24: A router may send a phase to the port at any time, while gem5 lags SystemC, too: in a state in which the
    router is ready for a step, the step is one that the event loop admits - nothing comes into gem5's queue
    before SystemC's time, and port and gem5 stay sound - and each payload event that the step schedules
    is due 10 ns from SystemC's time. *)
Theorem router_posts_in_time k x w :
  @sound _ hosted (EventLoop.gem5 w) → EventLoop.curTick w ≤ EventLoop.sc_time_stamp w →
  senabled (RouterStep k x) (slave (EventLoop.gem5 w)) →
  u64 (EventLoop.sc_time_stamp w) → EventLoop.sc_time_stamp w + Router.sc_ns 10 < 2 ^ 64 →
  @posts _ _ hosted w (router_post k x w) ∧
  ∀ pe n, new_event (slave (EventLoop.gem5 (router_post k x w))) (slave (EventLoop.gem5 w)) pe n →
    n = EventLoop.sc_time_stamp w + Router.sc_ns 10.
Proof.
  intros Hs Hlag Hen Hu Hlt. split; [by apply router_post_posts|]. intros pe n. by apply router_post_new.
Qed.
End on_time.

(** ** Witnesses *)

Section witness.
#[local] Existing Instance still.
#[local] Existing Instance pair.
#[local] Existing Instance still_guests.

(** The CPU of [clockwork] sends request 1 at its events, if it can; gem5 has no time for payload events. *)
Abbreviation rig := (clockwork (pworld bool)).

Definition may_send (p : pworld bool) : bool :=
  match pkts (MemManager.st (Port.memory p)) !! 1%positive with
  | Some pkt => negb (cacheResponding pkt) && (isRead pkt || isWrite pkt) && (0 <=? socket_of p pkt) &&
      (socket_of p pkt <? 2) && Router.in_range (Router.TxnRouter_new 0 4096) (getAddr pkt)
  | None => false
  end.
Definition cpu_event (tick sc : Z) (p : pworld bool) : pworld bool :=
  let p' := set_time tick sc p in
  if may_send p' then port_call (PortStep (ARequest 1)) p' else p.

Definition cpu_work (w : EventLoop.world rig) : pworld bool :=
  cpu_event (EventLoop.curTick w) (EventLoop.sc_time_stamp w) (held (EventLoop.gem5 w)).

#[local] Instance rig_queue : EventLoop.Gem5Queue rig := ticking cpu_work.
#[local] Instance rig_schedule : Gem5Schedule (E := rig) := ticking_schedule.
#[local] Instance rig_laws : Gem5Laws (E := rig) := ticking_laws cpu_work.
#[local] Instance rig_host : Host (X := bool) := { slave := held; set_slave := hold }.

Lemma cpu_event_activity tick sc p : activity tick sc p (cpu_event tick sc p).
Proof.
  unfold cpu_event. destruct (may_send (set_time tick sc p)) eqn:Hg; [|constructor].
  apply (ac_call _ _ _ (ARequest 1)); [|by intros [? _]|constructor]. intros ->. unfold may_send in Hg.
  destruct (pkts (MemManager.st (Port.memory (set_time sc sc p))) !! 1%positive) as [pkt|] eqn:Ha; [|done].
  by apply (request_enabled 1 _ pkt).
Qed.

#[local] Instance rig_host_laws : HostLaws.
Proof.
  split; simpl; try done.
  - intros w e w' _. unfold clock_service. destruct (exit_at (EventLoop.gem5 w)) as [t|].
    + destruct (t <? cpu (EventLoop.gem5 w)); intros [= <- <-]; [constructor|apply cpu_event_activity].
    + intros [= <- <-]. apply cpu_event_activity.
  - by intros t w e w' [= <- <-].
  - intros p g n Hn. left. by exists n.
Qed.

(** What the system keeps true of this gem5. *)
#[local] Instance rig_hosted : Gem5Schedule (E := rig) := hosted.
#[local] Instance rig_hosted_laws : @Gem5Laws rig _ rig_hosted.
Proof. exact hosted_laws. Qed.

(** [simulate] for 1200 ticks: the CPU sends its request at 500. *)
Definition rig0 : system (E := rig) := clock_start system0 500.
Definition rig1 := step_of (EBegin 1200) rig0.
Definition rig2 := step_of (EEnter 2) rig1.
Definition rig3 := step_of (EEnter 2) (step_of (ETime 500) rig2).

Lemma rig2_reachable : ereachable rig2.
Proof.
  apply enter_reachable; [|by exists 0|reflexivity|vm_compute; lia|reflexivity].
  apply system_step; [apply ereach_initial| |reflexivity].
  - split; try done. split; [done|]. apply sreach_initial, system0_initial.
  - split; [done|]. split; [split; lia|]. split; [split; simpl; lia|]. split; [done|].
    intros n [= <-]. simpl. lia.
Qed.

Lemma rig3_reachable : ereachable rig3.
Proof.
  apply enter_reachable; [|by exists 500|reflexivity|vm_compute; lia|reflexivity].
  apply time_reachable; [apply rig2_reachable|vm_compute; discriminate|reflexivity..].
Qed.

Lemma port_runs_on_time_witness :
  length (Port.calls (slave (EventLoop.gem5 (loop rig3)))) = 1%nat ∧
  failure (Port.env (slave (EventLoop.gem5 (loop rig3)))) = None.
Proof.
  destruct (port_runs_on_time rig3 rig3_reachable) as (_ & Hf & _).
  split; [vm_compute; reflexivity|exact Hf].
Defined.

(** The router of socket 0 takes the request from its queue at 500, and its END_REQ is due at 10500. *)
Lemma router_posts_in_time_witness :
  posts (loop rig3) (router_post 0 (RDeliver 0) (loop rig3)) ∧
  ∃ n, new_event (slave (EventLoop.gem5 (router_post 0 (RDeliver 0) (loop rig3))))
    (slave (EventLoop.gem5 (loop rig3))) 1 n ∧ n = 10500.
Proof.
  destruct (router_posts_in_time 0 (RDeliver 0) (loop rig3)) as [Hp Hn].
  - exact (ev_sound _ (ereachable_inv rig3 rig3_reachable)).
  - vm_compute. discriminate.
  - eapply delivered_enabled; [lia|vm_compute; reflexivity|simpl; lia].
  - vm_compute. split; [discriminate|reflexivity].
  - vm_compute. reflexivity.
  - split; [exact Hp|]. assert (new_event (slave (EventLoop.gem5 (router_post 0 (RDeliver 0) (loop rig3))))
      (slave (EventLoop.gem5 (loop rig3))) 1 10500) as He
      by (eexists; split; [vm_compute; reflexivity|split; [reflexivity|vm_compute; discriminate]]).
    exists 10500. split; [exact He|]. rewrite (Hn _ _ He). reflexivity.
Defined.
End witness.
