(* ===== verification/MasterPort.v ===== *)
(** * SCMasterPort: sc_master_port.cc, sc_master_port.hh

    The gem5 port that turns TLM transactions into gem5 packets.  Catching gem5 up with SystemC is
    used through the interface [TimeKeeper] of [EventLoop]. *)

From S2P Require Import Prelude Tlm Concrete MemManager EventLoop.

Module Master.

(** [class SCMasterPort]; [transactor] says whether the pointer is set. *)
Record SCMasterPort := {
  waitForRetry : bool;
  pendingRequest : option ptr;
  pendingPacket : option ptr;
  needToSendRetry : bool;
  responseInProgress : bool;
  transactor : bool;
}.

Definition SCMasterPort_new : SCMasterPort :=
  {| waitForRetry := false; pendingRequest := None; pendingPacket := None;
     needToSendRetry := false; responseInProgress := false; transactor := false |}.

Definition set_pending (b : bool) (t a : option ptr) (p : SCMasterPort) : SCMasterPort :=
  {| waitForRetry := b; pendingRequest := t; pendingPacket := a;
     needToSendRetry := needToSendRetry p; responseInProgress := responseInProgress p;
     transactor := transactor p |}.
Definition set_needToSendRetry (b : bool) (p : SCMasterPort) : SCMasterPort :=
  {| waitForRetry := waitForRetry p; pendingRequest := pendingRequest p;
     pendingPacket := pendingPacket p; needToSendRetry := b;
     responseInProgress := responseInProgress p; transactor := transactor p |}.
Definition set_responseInProgress (b : bool) (p : SCMasterPort) : SCMasterPort :=
  {| waitForRetry := waitForRetry p; pendingRequest := pendingRequest p;
     pendingPacket := pendingPacket p; needToSendRetry := needToSendRetry p;
     responseInProgress := b; transactor := transactor p |}.
Definition set_transactor (b : bool) (p : SCMasterPort) : SCMasterPort :=
  {| waitForRetry := waitForRetry p; pendingRequest := pendingRequest p;
     pendingPacket := pendingPacket p; needToSendRetry := needToSendRetry p;
     responseInProgress := responseInProgress p; transactor := b |}.

(** The calls of the port and, first, those that come in; with the answers. *)
Inductive mcall :=
| MFw (t : ptr) (ph : tlm_phase) (status : tlm_sync_enum)
| MResp (a : ptr) (accepted : bool)
| MSendReq (a : ptr) (accepted : bool)
| MBw (t : ptr) (ph : tlm_phase) (status : tlm_sync_enum)
| MRetryResp
| MAtomic (a : ptr)
| MFunctional (a : ptr).

(** The interfaces [bindToTransactor] registers with the socket. *)
Inductive registration := NonBlocking | Blocking.

Section master.
Context `{TlmPayload, Gem5Packet} {E : Type}.

Record world := World {
  port : SCMasterPort;
  memory : mem;
  peq : list (ptr * tlm_phase * Z);
  now : Z;
  env : E;
  history : list mcall;
}.

Definition set_port (f : SCMasterPort → SCMasterPort) (w : world) : world :=
  World (f (port w)) (memory w) (peq w) (now w) (env w) (history w).
Definition set_memory (m : mem) (w : world) : world :=
  World (port w) m (peq w) (now w) (env w) (history w).
Definition set_peq (q : list (ptr * tlm_phase * Z)) (w : world) : world :=
  World (port w) (memory w) q (now w) (env w) (history w).
Definition log_call (c : mcall) (w : world) : world :=
  World (port w) (memory w) (peq w) (now w) (env w) (history w ++ [c]).

(** gem5, the initiator and the library; [owner_id] is the requestor id of the port's owner, [sc_time_ps v]
    the value of [sc_time(v, SC_PS)], for a whole [v] as a [double] has it.  While it is told to retry,
    gem5 sends responses again from inside that call, in which the port may fail. *)
Class MasterEnv := {
  owner_id : Z;
  sendTimingReq : ptr → world → bool * world;
  sendRetryResp : world → outcome unit * world;
  sendAtomic : ptr → world → Z * world;
  sendFunctional : ptr → world → world;
  nb_transport_bw : ptr → tlm_phase → Z → world → (tlm_sync_enum * tlm_phase * Z) * world;
  sc_time_ps : Z → Z;
}.
End master.
Arguments world {_ _} E.
Arguments MasterEnv {_ _} E.

Abbreviation on_memory c := (zoom memory set_memory c).
Abbreviation on_store c :=
  (zoom (λ w, st (memory w)) (λ s w, set_memory (Mem (mgr (memory w)) s) w) c).

Section functions.
Context `{TlmPayload, Gem5Packet} {E : Type} `{!MasterEnv E} `{!TimeKeeper (world E)}.
Abbreviation MM := (M (world E)).

Definition call_sendTimingReq (a : ptr) : MM bool := λ w,
  let '(ok, w') := sendTimingReq a w in (Ok ok, log_call (MSendReq a ok) w').
Definition call_bw (t : ptr) (ph : tlm_phase) (delay : Z) : MM (tlm_sync_enum * tlm_phase * Z) :=
  λ w, let '(r, w') := nb_transport_bw t ph delay w in (Ok r, log_call (MBw t ph r.1.1) w').
Definition call_sendRetryResp : MM unit := λ w, sendRetryResp (log_call MRetryResp w).
Definition call_sendAtomic (a : ptr) : MM Z := λ w,
  let '(d, w') := sendAtomic a w in (Ok d, log_call (MAtomic a) w').
Definition call_sendFunctional (a : ptr) : MM unit := λ w,
  (Ok tt, log_call (MFunctional a) (sendFunctional a w)).

(** [bindToTransactor]; gem5's system is in timing mode, in atomic mode or in neither. *)
Definition bindToTransactor (isTimingMode isAtomicMode : bool) : MM registration :=
  p ← gets port;
  check (negb (transactor p)) (SC_ASSERT "this->transactor == nullptr");;
  modify (set_port (set_transactor true));;
  if isTimingMode then mret NonBlocking
  else if isAtomicMode then mret Blocking
  else fail (PANIC "gem5 operates neither in Timing nor in Atomic mode").

Definition generatePacket (t : ptr) : MM ptr :=
  p ← on_store (gp_at t);
  cmd ← match get_command (attrs p) with
        | TLM_READ_COMMAND => mret ReadReq
        | TLM_WRITE_COMMAND => mret WriteReq
        | TLM_IGNORE_COMMAND =>
            fail (SC_FATAL "SCMasterPort" "received transaction with unsupported command")
        end;
  on_store (new_pkt (new_packet (get_address (attrs p)) (get_data_length (attrs p)) owner_id cmd
                       (get_data_ptr (attrs p)))).

Definition destroyPacket (a : ptr) : MM unit := on_store (delete_pkt a).

(** The packet of a transaction: the one it carries, or a new one. *)
Definition packet_of (t : ptr) : MM ptr :=
  p ← on_store (gp_at t);
  match get_extension (attrs p) with
  | Some e => mret (getPacket e)
  | None => generatePacket t
  end.

(** [is_response_error] of the library: every status but TLM_OK_RESPONSE. *)
Definition checkTransaction (t : ptr) : MM unit :=
  p ← on_store (gp_at t);
  check (bool_decide (get_response_status (attrs p) = TLM_OK_RESPONSE))
    (SC_ERROR "TLM-2" "Transaction returned with error").

(** A call that comes in is noted when it returns. *)
Definition noted_fw (t : ptr) (ph : tlm_phase) (delay : Z) (status : tlm_sync_enum) :
    MM (tlm_sync_enum * tlm_phase * Z) :=
  modify (log_call (MFw t ph status));; mret (status, ph, delay).

Definition nb_transport_fw (t : ptr) (ph : tlm_phase) (delay : Z) :
    MM (tlm_sync_enum * tlm_phase * Z) :=
  p ← on_store (gp_at t);
  if negb (get_byte_enable_ptr (attrs p) =? 0)
  then on_store (gp_do t (set_response_status TLM_BYTE_ENABLE_ERROR_RESPONSE));;
       noted_fw t ph delay TLM_COMPLETED
  else if get_streaming_width (attrs p) <? get_data_length (attrs p)
  then on_store (gp_do t (set_response_status TLM_BURST_ERROR_RESPONSE));;
       noted_fw t ph delay TLM_COMPLETED
  else
    on_store (acquire t);;
    modify (λ w, set_peq (peq w ++ [(t, ph, now w + delay)]) w);;
    noted_fw t ph delay TLM_ACCEPTED.

Definition sendEndReq (t : ptr) : MM unit :=
  answer ← call_bw t END_REQ 0;
  check (bool_decide (answer.1.1 = TLM_ACCEPTED)) (PANIC "Unexpected status after sending END_REQ").

Definition handleBeginReq (t : ptr) : MM unit :=
  p ← gets port;
  check (negb (waitForRetry p)) (SC_ASSERT "!waitForRetry");;
  check match pendingRequest p with None => true | _ => false end
    (SC_ASSERT "pendingRequest == nullptr");;
  check match pendingPacket p with None => true | _ => false end
    (SC_ASSERT "pendingPacket == nullptr");;
  on_store (acquire t);;
  pkt ← packet_of t;
  on_store (pkt_do pkt (pushSenderState (TlmSenderState t)));;
  accepted ← call_sendTimingReq pkt;
  if (accepted : bool)
  then sendEndReq t;; on_memory (release t)
  else modify (set_port (set_pending true (Some t) (Some pkt))).

Definition handleEndResp (t : ptr) : MM unit :=
  p ← gets port;
  check (responseInProgress p) (SC_ASSERT "responseInProgress");;
  modify (set_port (set_responseInProgress false));;
  checkTransaction t;;
  p ← gets port;
  if needToSendRetry p
  then call_sendRetryResp;; modify (set_port (set_needToSendRetry false))
  else mret tt.

Definition peq_cb (t : ptr) (ph : tlm_phase) : MM unit :=
  tk_catchup;;
  w ← get;
  check (gem5_tick w =? systemc_time w) (ASSERT "curTick() == sc_time_stamp()");;
  match ph with
  | BEGIN_REQ => handleBeginReq t
  | END_RESP => handleEndResp t
  | _ => fail (PANIC "unimplemented phase in callback")
  end;;
  tk_notify.

(** The kernel delivers the [i]-th entry of the queue. *)
Definition peq_deliver (i : nat) : MM unit :=
  q ← gets peq;
  e ← lift_option (q !! i) (UNDEFINED "peq");
  modify (set_peq (delete i q));;
  peq_cb e.1.1 e.1.2.

(** [sim_clock::as_int::ps]: the ticks of a picosecond, at gem5's frequency. *)
Definition as_int_ps : Z := EventLoop.setTickFrequency / 10 ^ 12.

(** [(double)n] of an unsigned 64-bit [n]: rounded to 53 significant bits, to the even one of two that are
    equally near. *)
Definition to_double (n : Z) : Z :=
  if n <? 2 ^ 53 then n
  else
    let unit := 2 ^ (Z.log2 n - 52) in
    let q := n / unit in
    let r := n `mod` unit in
    let up := if 2 * r <? unit then false else if unit <? 2 * r then true else Z.odd q in
    (if up then q + 1 else q) * unit.

(** The ticks of [sendAtomic] as a time. *)
Definition ps_of_ticks (ticks : Z) : Z := sc_time_ps (to_double (ticks / as_int_ps)).

Definition b_transport (t : ptr) (time : Z) : MM Z :=
  p ← on_store (gp_at t);
  pkt ← packet_of t;
  ticks ← call_sendAtomic pkt;
  k ← on_store (pkt_at pkt);
  check (negb (needsResponse k && negb (isResponse k))) (PANIC "Packet sending failed!");;
  match get_extension (attrs p) with None => destroyPacket pkt | Some _ => mret tt end;;
  on_store (gp_do t (set_response_status TLM_OK_RESPONSE));;
  mret (wrap64 (time + ps_of_ticks ticks)).

Definition transport_dbg (t : ptr) : MM Z :=
  p ← on_store (gp_at t);
  match get_extension (attrs p) with
  | Some e => call_sendFunctional (getPacket e)
  | None => pkt ← generatePacket t; call_sendFunctional pkt;; destroyPacket pkt
  end;;
  p ← on_store (gp_at t);
  mret (get_data_length (attrs p)).

Definition get_direct_mem_ptr (t : ptr) : MM bool := mret false.

Definition sendBeginResp (t : ptr) (delay : Z) : MM unit :=
  on_store (gp_do t (set_response_status TLM_OK_RESPONSE));;
  answer ← call_bw t BEGIN_RESP delay;
  let '(status, ph, _) := answer in
  if bool_decide (status = TLM_COMPLETED)
     || (bool_decide (status = TLM_UPDATED) && bool_decide (ph = END_RESP))
  then modify (set_port (set_responseInProgress false))
  else if bool_decide (status = TLM_ACCEPTED)
  then modify (set_port (set_responseInProgress true))
  else fail (PANIC "Unexpected status after sending BEGIN_RESP").

Definition noted_resp (a : ptr) (accepted : bool) : MM bool :=
  modify (log_call (MResp a accepted));; mret accepted.

Definition recvTimingResp (a : ptr) : MM bool :=
  p ← gets port;
  if responseInProgress p
  then
    check (negb (needToSendRetry p)) (SC_ASSERT "!needToSendRetry");;
    modify (set_port (set_needToSendRetry true));;
    noted_resp a false
  else
    k ← on_store (pkt_at a);
    check (isResponse k) (SC_ASSERT "pkt->isResponse()");;
    let delay := payloadDelay k in
    on_store (pkt_do a (set_payloadDelay 0));;
    on_store (pkt_do a (set_headerDelay 0));;
    k ← on_store (pkt_at a);
    s ← lift_option (popSenderState k) (ASSERT "senderState != NULL");
    on_store (pkt_do a (λ _, s.2));;
    t ← lift_option match s.1 with TlmSenderState t => Some t | OtherSenderState _ => None end
          (SC_ASSERT "tlmSenderState != nullptr");
    q ← on_store (gp_at t);
    match get_extension (attrs q) with None => destroyPacket a | Some _ => mret tt end;;
    sendBeginResp t delay;;
    on_memory (release t);;
    noted_resp a true.

Definition recvReqRetry : MM unit :=
  p ← gets port;
  check (waitForRetry p) (SC_ASSERT "waitForRetry");;
  check match pendingRequest p with Some _ => true | None => false end
    (SC_ASSERT "pendingRequest != nullptr");;
  pkt ← lift_option (pendingPacket p) (SC_ASSERT "pendingPacket != nullptr");
  accepted ← call_sendTimingReq pkt;
  if (accepted : bool)
  then
    modify (set_port (λ p, set_pending false (pendingRequest p) None p));;
    p ← gets port;
    t ← lift_option (pendingRequest p) (UNDEFINED "*pendingRequest");
    sendEndReq t;;
    on_memory (release t);;
    modify (set_port (λ p, set_pending (waitForRetry p) None (pendingPacket p) p))
  else mret tt.

(** [recvRangeChange] only warns. *)
Definition recvRangeChange : MM unit := mret tt.
End functions.
End Master.
