(* ===== verification/MasterProtocol.v ===== *)
(** * The master port between an initiator and gem5

    The account that the port's history gives of its transactions, what the port relies on of the
    initiator and of gem5, and the invariant of the closed system. *)

From S2P Require Import Prelude Tlm MemManager EventLoop MasterPort.
Import Master.

(** ** The account

    The request that has no END_REQ yet, the packet that gem5 has taken for it, the transactions that
    gem5 works on with their packets, and the one that has no END_RESP yet; and whether gem5 owes a
    retry for the request it refused, or the port for a response. *)
Record account := Account {
  requested : option ptr;
  sending : option ptr;
  taken : gmap ptr ptr;
  answered : option ptr;
  refused : bool;
  owed : bool;
}.

(** One call; [None] where a call breaks the base protocol, or the timing protocol of gem5. *)
Definition account_step (s : account) (c : mcall) : option account :=
  let '(Account req snd tk ans rf ow) := s in
  match c with
  | MFw t ph TLM_ACCEPTED =>
      match ph with
      | BEGIN_REQ =>
          when (bool_decide (req = None) && bool_decide (tk !! t = None) && negb (bool_decide (ans = Some t)))
               (Some (Account (Some t) snd tk ans rf ow))
      | END_RESP => when (bool_decide (ans = Some t)) (Some (Account req snd tk None rf ow))
      | _ => None
      end
  | MFw _ _ TLM_COMPLETED => Some s
  | MFw _ _ TLM_UPDATED => None
  | MSendReq a ok =>
      when (bool_decide (is_Some req) && bool_decide (snd = None))
           (Some (Account req (if ok then Some a else None) tk ans (negb ok) ow))
  | MBw t END_REQ TLM_ACCEPTED =>
      match snd with
      | Some a => when (bool_decide (req = Some t)) (Some (Account None None (<[t := a]> tk) ans rf ow))
      | None => None
      end
  | MBw t BEGIN_RESP status =>
      when (bool_decide (is_Some (tk !! t)) && bool_decide (ans = None))
           (Some (Account req snd (delete t tk)
                    (if bool_decide (status = TLM_ACCEPTED) then Some t else None) rf ow))
  | MBw _ _ _ => None
  | MResp _ ok => when (negb ow) (Some (Account req snd tk ans rf (negb ok)))
  | MRetryResp => when ow (Some (Account req snd tk ans rf false))
  | MAtomic _ | MFunctional _ => Some s
  end.

Definition no_account : account := Account None None ∅ None false false.

Definition account_of (l : list mcall) : option account :=
  foldl (λ o c, o ≫= λ s, account_step s c) (Some no_account) l.

Lemma account_snoc l c : account_of (l ++ [c]) = account_of l ≫= λ s, account_step s c.
Proof. unfold account_of. by rewrite foldl_app. Qed.

(** ** References

    How many references of [t] the initiator and the port have between them: the initiator one until
    END_RESP, the port one for each entry of its queue, two for a request it is working on, and one for a
    transaction that gem5 has taken. *)
Abbreviation queue := (list (ptr * tlm_phase)).

Definition entries (t : ptr) (q : queue) : nat := length (filter (λ e, e.1 = t) q).

Definition shares (s : account) (q : queue) (t : ptr) : nat :=
  (entries t q +
   (if bool_decide (requested s = Some t) then if bool_decide ((t, BEGIN_REQ) ∈ q) then 1 else 3 else 0) +
   (if bool_decide (is_Some (taken s !! t)) then 2 else 0) +
   (if bool_decide (answered s = Some t) then 1 else 0))%nat.

Section protocol.
Context `{TlmPayloadLaws, Gem5PacketLaws} {E : Type}.
Implicit Types (w : world E) (t a : ptr) (m : mem) (p : payload) (s : account) (q : queue).

(** What nobody else changes of a payload that the port has. *)
Record intact p p' : Prop := {
  kp_extension : get_extension (attrs p') = get_extension (attrs p);
  kp_command : get_command (attrs p') = get_command (attrs p);
  kp_status : get_response_status (attrs p) = TLM_OK_RESPONSE →
              get_response_status (attrs p') = TLM_OK_RESPONSE;
}.

Definition phases w : queue := fst <$> peq w.

(** A step of the other side: the port, its queue and its history stay; so do the references that are
    accounted for, what the port reads of those payloads, and the packets of queued requests. *)
Record mprivate w w' : Prop := {
  mp_port : port w' = port w;
  mp_peq : peq w' = peq w;
  mp_history : history w' = history w;
  mp_ok : mm_ok (memory w) → mm_ok (memory w');
  mp_payload s t p : account_of (history w) = Some s → (0 < shares s (phases w) t)%nat →
    gps (st (memory w)) !! t = Some p → (shares s (phases w) t ≤ ref_count p)%nat →
    ∃ p', gps (st (memory w')) !! t = Some p' ∧ (shares s (phases w) t ≤ ref_count p')%nat ∧ intact p p';
  mp_packet t p e : (t, BEGIN_REQ) ∈ phases w → gps (st (memory w)) !! t = Some p →
    get_extension (attrs p) = Some e → is_Some (pkts (st (memory w)) !! Packet e) →
    is_Some (pkts (st (memory w')) !! Packet e);
}.

(** gem5 answers the request it took for [t] with the packet [a], the port's sender state on top. *)
Definition answers w a t (k0 : packet) : Prop :=
  (∀ s, account_of (history w) = Some s → taken s !! t = Some a) ∧
  ∃ k, pkts (st (memory w)) !! a = Some k ∧ isResponse k = true ∧
    popSenderState (set_headerDelay 0 (set_payloadDelay 0 k)) = Some (TlmSenderState t, k0).

Context `{!MasterEnv E}.

(** While it is told to retry, gem5 may send responses, the one that was refused and further ones; the run
    ends when the port fails on one of them. *)
Inductive retried : world E → outcome unit → world E → Prop :=
| rt_quiet w w' : mprivate w w' → retried w (Ok tt) w'
| rt_answer w w1 a t k0 b w2 o w3 :
    mprivate w w1 → answers w1 a t k0 → recvTimingResp a w1 = (Ok b, w2) → retried w2 o w3 →
    retried w o w3
| rt_stop w w1 a t k0 e w2 :
    mprivate w w1 → answers w1 a t k0 → recvTimingResp a w1 = (Err e, w2) → retried w (Err e) w2.

(** The other side: neither gem5 nor the initiator calls back, except for those responses; END_REQ is
    answered by TLM_ACCEPTED, BEGIN_RESP by TLM_UPDATED only with END_RESP; a functional access changes
    the length of no payload. *)
Class Peer : Prop := {
  pe_request a w ok w' : sendTimingReq a w = (ok, w') → mprivate w w';
  pe_end_req t d w r w' : nb_transport_bw t END_REQ d w = (r, w') →
    mprivate w w' ∧ r.1.1 = TLM_ACCEPTED;
  pe_begin_resp t d w r w' : nb_transport_bw t BEGIN_RESP d w = (r, w') →
    mprivate w w' ∧ (r.1.1 = TLM_UPDATED → r.1.2 = END_RESP);
  pe_retry w : retried w (fst (sendRetryResp w)) (snd (sendRetryResp w));
  pe_functional a w : mprivate w (sendFunctional a w) ∧
    ∀ t p, gps (st (memory w)) !! t = Some p → ∃ p', gps (st (memory (sendFunctional a w))) !! t = Some p' ∧
      get_data_length (attrs p') = get_data_length (attrs p);
}.

(** A gem5 that waits for END_RESP between the responses it sends again. *)
Class Courteous : Prop := { co_retry w : fst (sendRetryResp w) = Ok tt }.

(** ** Invariant *)

(** A queued request can be sent: it is a read or a write, or carries a packet that exists and that
    gem5 does not have. *)
Definition usable s m p : Prop :=
  match get_extension (attrs p) with
  | Some e => is_Some (pkts (st m) !! Packet e) ∧ ∀ t a, taken s !! t = Some a → a ≠ Packet e
  | None => get_command (attrs p) ≠ TLM_IGNORE_COMMAND
  end.

Definition has_gp m t (P : payload → Prop) : Prop := ∃ p, gps (st m) !! t = Some p ∧ P p.

Record mem_ok s q m : Prop := {
  me_ok : mm_ok m;
  me_funded t : (0 < shares s q t)%nat → has_gp m t (λ p, shares s q t ≤ ref_count p)%nat;
  me_usable t : (t, BEGIN_REQ) ∈ q → has_gp m t (usable s m);
  me_status t : answered s = Some t ∨ (t, END_RESP) ∈ q →
    has_gp m t (λ p, get_response_status (attrs p) = TLM_OK_RESPONSE);
}.

(** No request is on its way to gem5. *)
Definition idle_port (p : SCMasterPort) : Prop :=
  waitForRetry p = false ∧ pendingRequest p = None ∧ pendingPacket p = None.

(** The port's members for requests, and the BEGIN_REQ entries of the queue; [hand] is the request
    that a handler is working on. *)
Inductive request_ok (p : SCMasterPort) : option ptr → account → list ptr → Prop :=
| rq_none s : idle_port p → requested s = None → sending s = None → refused s = false →
    request_ok p None s []
| rq_queued t s : idle_port p → requested s = Some t → sending s = None → refused s = false →
    request_ok p None s [t]
| rq_hand t s : requested s = Some t → request_ok p (Some t) s []
| rq_done t s : requested s = None → sending s = None → refused s = false →
    request_ok p (Some t) s []
| rq_pending t a s : waitForRetry p = true → pendingRequest p = Some t → pendingPacket p = Some a →
    requested s = Some t → sending s = None → refused s = true → request_ok p None s [].

(** Its member for responses, and the END_RESP entries. *)
Inductive response_ok : bool → option ptr → list ptr → Prop :=
| rs_free : response_ok false None []
| rs_answered t : response_ok true (Some t) []
| rs_ending t : response_ok true None [t].

(** [mid]: a retry is being sent. *)
Record minv (mid : bool) (hand : option ptr) w s : Prop := {
  mi_account : account_of (history w) = Some s;
  mi_memory : mem_ok s (phases w) (memory w);
  mi_queue : ∃ begins ends,
    phases w ≡ₚ ((λ t, (t, BEGIN_REQ)) <$> begins) ++ ((λ t, (t, END_RESP)) <$> ends) ∧
    request_ok (port w) hand s begins ∧ response_ok (responseInProgress (port w)) (answered s) ends;
  mi_retry : needToSendRetry (port w) = owed s || mid;
  mi_owed : owed s = true → responseInProgress (port w) = true ∧ mid = false;
}.
End protocol.
