(* ===== verification/MasterPortProps.v ===== *)
(** * Theorems about the master port

    What each function of [MasterPort] does on every branch, and that it keeps the invariant. *)

From S2P Require Import Prelude Tlm Concrete MemManager EventLoop MasterPort MasterProtocol.
Import Master.

(** ** Shares *)

#[export] Instance entries_proper t : Proper ((≡ₚ) ==> eq) (entries t).
Proof. intros q q' Hq. unfold entries. by rewrite Hq. Qed.

#[export] Instance shares_proper s : Proper ((≡ₚ) ==> eq ==> eq) (shares s).
Proof.
  intros q q' Hq t _ <-. unfold shares.
  rewrite (bool_decide_ext ((t, BEGIN_REQ) ∈ q) ((t, BEGIN_REQ) ∈ q')) by (by rewrite Hq).
  by rewrite (entries_proper t q q' Hq).
Qed.

Lemma entries_cons t e q : entries t (e :: q) = (entries t q + if decide (e.1 = t) then 1 else 0)%nat.
Proof. unfold entries. rewrite filter_cons. case_decide; simpl; lia. Qed.

Lemma entries_in t ph q : (t, ph) ∈ q → (0 < entries t q)%nat.
Proof.
  intros Hin. unfold entries. assert ((t, ph) ∈ filter (λ e, e.1 = t) q) as Hf
    by (by apply list_elem_of_filter).
  destruct (filter _ q); [by apply not_elem_of_nil in Hf|simpl; lia].
Qed.

Lemma shares_in s t ph q : (t, ph) ∈ q → (0 < shares s q t)%nat.
Proof. intros ?%entries_in. unfold shares. lia. Qed.

Section master.
Context `{TlmPayloadLaws, Gem5PacketLaws} {E : Type} `{!MasterEnv E} `{!TimeKeeper (world E)}.
Implicit Types (w : world E) (t a : ptr) (m : mem) (p : payload) (s : account) (q : queue).

(** ** Memory *)

Lemma intact_refl p : intact p p.
Proof. by split. Qed.

Lemma intact_trans p1 p2 p3 : intact p1 p2 → intact p2 p3 → intact p1 p3.
Proof. intros [] []. split; [congruence..|auto]. Qed.

Lemma usable_intact s m m' p p' :
  usable s m p → intact p p' →
  (∀ e, get_extension (attrs p) = Some e → is_Some (pkts (st m) !! Packet e) →
        (∀ t a, taken s !! t = Some a → a ≠ Packet e) → is_Some (pkts (st m') !! Packet e)) →
  usable s m' p'.
Proof.
  intros Hu [He Hc _] Hp. unfold usable in *. rewrite He.
  destruct (get_extension (attrs p)) as [e|]; [|by rewrite Hc].
  destruct Hu as [Hk Ht]. split; [|done]. by apply Hp.
Qed.

#[export] Instance mem_ok_proper s : Proper ((≡ₚ) ==> eq ==> iff) (mem_ok s).
Proof.
  assert (∀ q q' m, q ≡ₚ q' → mem_ok s q m → mem_ok s q' m) as Hperm.
  { intros q q' m Hq [Ho Hf Hu Hs]. split; [done|..].
    - intros t. assert (shares s q' t = shares s q t) as -> by (by rewrite Hq). apply Hf.
    - intros t. rewrite <- Hq. apply Hu.
    - intros t. rewrite <- Hq. apply Hs. }
  intros q q' Hq m _ <-. split; by apply Hperm.
Qed.

(** One payload changes, and with it the account. *)
Lemma mem_update t p p' s q s' q' m m' :
  mem_ok s q m → mm_ok m' → gps (st m) !! t = Some p → gps (st m') !! t = Some p' →
  (∀ t', t' ≠ t → gps (st m') !! t' = gps (st m) !! t') → pkts (st m') = pkts (st m) →
  ((0 < shares s' q' t)%nat → intact p p') →
  (∀ t', t' ≠ t → (shares s' q' t' ≤ shares s q t')%nat) → (shares s' q' t ≤ ref_count p')%nat →
  (∀ t', (t', BEGIN_REQ) ∈ q' →
     (t', BEGIN_REQ) ∈ q ∧ (∀ t a, taken s' !! t = Some a → taken s !! t = Some a) ∨
     t' = t ∧ usable s' m' p') →
  (∀ t', answered s' = Some t' ∨ (t', END_RESP) ∈ q' →
     answered s = Some t' ∨ (t', END_RESP) ∈ q ∨
     t' = t ∧ get_response_status (attrs p') = TLM_OK_RESPONSE) →
  mem_ok s' q' m'.
Proof.
  intros [_ Hf Hu Hst] Hm Hp Hp' Hoth Hpk Hk Hle Hlet Hbegin Hend. split; [done|..].
  - intros t' Hpos. destruct (decide (t' = t)) as [->|Hne]; [by exists p'|].
    specialize (Hle t' Hne). destruct (Hf t' ltac:(lia)) as (p1 & Hp1 & Hr). exists p1.
    rewrite Hoth by done. split; [done|lia].
  - intros t' Hin. pose proof (shares_in s' _ _ _ Hin) as Hpos.
    destruct (Hbegin t' Hin) as [[Hin' Htk]|[-> Hus]]; [|by exists p'].
    destruct (Hu t' Hin') as (p1 & Hp1 & Hus).
    assert (∀ p2, gps (st m') !! t' = Some p2 → intact p1 p2 → has_gp m' t' (usable s' m')) as Hdone.
    { intros p2 Hp2 [He Hc _]. exists p2. split; [done|]. unfold usable in *. rewrite He, Hc, Hpk.
      destruct (get_extension (attrs p1)); [|done]. destruct Hus as [Hpx Hax]. split; [done|].
      intros t0 a Ht0. by eapply Hax, Htk. }
    destruct (decide (t' = t)) as [->|Hne].
    + simplify_eq. apply (Hdone p'); [done|]. apply Hk. lia.
    + apply (Hdone p1); [by rewrite Hoth|apply intact_refl].
  - intros t' Hin. assert (0 < shares s' q' t')%nat as Hpos.
    { destruct Hin as [Ha|Hin]; [|by eapply shares_in]. unfold shares. rewrite (bool_decide_true _ Ha). lia. }
    destruct (decide (t' = t)) as [->|Hne].
    + destruct (Hend t Hin) as [Ho|[Ho|[_ Hok]]]; [..|by exists p'];
        (destruct (Hst t) as (p1 & Hp1 & Hok); [auto|]); simplify_eq; exists p';
        (split; [done|]); apply (Hk ltac:(lia)), Hok.
    + destruct (Hst t') as (p1 & Hp1 & Hok); [destruct (Hend t' Hin) as [|[|[]]]; auto; done|].
      exists p1. by rewrite Hoth.
Qed.

(** Nothing changes but packets that no queued request has. *)
Lemma mem_packets s q m m' :
  mem_ok s q m → mm_ok m' → gps (st m') = gps (st m) →
  (∀ a, is_Some (pkts (st m) !! a) → is_Some (pkts (st m') !! a) ∨ ∃ t, taken s !! t = Some a) →
  mem_ok s q m'.
Proof.
  intros [_ Hf Hu Hst] Hm Hg Hpk. split; [done|..]; unfold has_gp; rewrite Hg; [done| |done].
  intros t Hin. destruct (Hu t Hin) as (p & Hp & Hus). exists p. split; [done|].
  eapply usable_intact; [exact Hus|apply intact_refl|]. intros e _ Hk Htk.
  destruct (Hpk _ Hk) as [?|(t' & Ht')]; [done|]. by apply Htk in Ht'.
Qed.

Lemma mem_private w w' s :
  mprivate w w' → account_of (history w) = Some s → mem_ok s (phases w) (memory w) →
  mem_ok s (phases w) (memory w').
Proof.
  intros Hpr Hs [Hm Hf Hu Hst].
  assert (∀ t P, (0 < shares s (phases w) t)%nat → has_gp (memory w) t P →
    has_gp (memory w') t (λ p', ∃ p, gps (st (memory w)) !! t = Some p ∧ P p ∧ intact p p' ∧
      shares s (phases w) t ≤ ref_count p')%nat) as Hhas.
  { intros t P Hpos (p & Hp & HP). destruct (Hf t Hpos) as (p1 & Hp1 & Hr). simplify_eq.
    destruct (mp_payload _ _ Hpr s t p Hs Hpos Hp Hr) as (p' & Hp' & Hr' & Hk). exists p'.
    split; [done|]. by exists p. }
  split; [by apply Hpr|..].
  - intros t Hpos. destruct (Hhas t _ Hpos (Hf t Hpos)) as (p' & Hp' & p & _ & _ & _ & Hr). by exists p'.
  - intros t Hin. destruct (Hhas t _ (shares_in _ _ _ _ Hin) (Hu t Hin))
      as (p' & Hp' & p & Hp & Hus & Hk & _).
    exists p'. split; [done|]. eapply usable_intact; [exact Hus|exact Hk|]. intros e He Hpk _.
    by eapply (mp_packet _ _ Hpr).
  - intros t Hin. destruct (Hhas t _ ltac:(unfold shares; destruct Hin as [Ha|Hin];
      [rewrite (bool_decide_true _ Ha); lia|apply entries_in in Hin; lia]) (Hst t Hin))
      as (p' & Hp' & p & _ & Hok & Hk & _).
    exists p'. split; [done|]. by apply (kp_status _ _ Hk).
Qed.

(** ** Lemmas *)

Lemma wp_mpayload w t p (Q : payload → world E → Prop) :
  gps (st (memory w)) !! t = Some p → Q p w → wp (on_store (gp_at t)) Q w.
Proof.
  intros Hp HQ. apply wp_zoom. eapply wp_gp_at; [exact Hp|]. by destruct w as [? [] ? ? ? ?].
Qed.

Lemma wp_mpacket w a k (Q : packet → world E → Prop) :
  pkts (st (memory w)) !! a = Some k → Q k w → wp (on_store (pkt_at a)) Q w.
Proof.
  intros Hp HQ. apply wp_zoom. eapply wp_pkt_at; [exact Hp|]. by destruct w as [? [] ? ? ? ?].
Qed.

(** [w] with a payload, or a packet, overwritten. *)
Definition put_gp w t p : world E :=
  set_memory (Mem (mgr (memory w)) (set_gps (insert t p) (st (memory w)))) w.
Definition put_pkt w a k : world E :=
  set_memory (Mem (mgr (memory w)) (set_pkts (insert a k) (st (memory w)))) w.

Lemma wp_payload_do w t p f (Q : unit → world E → Prop) :
  gps (st (memory w)) !! t = Some p → Q tt (put_gp w t (f p)) → wp (on_store (gp_do t f)) Q w.
Proof. intros Hp HQ. apply wp_zoom. by eapply wp_gp_do. Qed.

Lemma wp_mpacket_do w a k f (Q : unit → world E → Prop) :
  pkts (st (memory w)) !! a = Some k → Q tt (put_pkt w a (f k)) → wp (on_store (pkt_do a f)) Q w.
Proof. intros Hp HQ. apply wp_zoom. by eapply wp_pkt_do. Qed.

Lemma put_pkt_ok w a k k0 :
  mm_ok (memory w) → pkts (st (memory w)) !! a = Some k0 → mm_ok (memory (put_pkt w a k)).
Proof.
  intros [[W1 W2] ? ? ? ? ? ?] Ha. split; try done. split; [done|]. simpl.
  intros a' k' [[<- _]|[_ ?]]%lookup_insert_Some; eauto.
Qed.

Lemma put_gp_ok w t p f :
  mm_ok (memory w) → gps (st (memory w)) !! t = Some p → (0 < ref_count p)%nat →
  (0 < ref_count (f p))%nat → has_mm (attrs (f p)) = has_mm (attrs p) →
  mm_ok (memory (put_gp w t (f p))).
Proof.
  intros Hok Hp Hr Hr' Hmm. eapply mm_ok_write; [done..|]. rewrite Hmm. by eapply (ok_mm _ Hok).
Qed.

Lemma wp_call_sendTimingReq w a (Q : bool → world E → Prop) :
  (∀ ok w', sendTimingReq a w = (ok, w') → Q ok (log_call (MSendReq a ok) w')) →
  wp (call_sendTimingReq a) Q w.
Proof. intros HQ. unfold wp, call_sendTimingReq. destruct (sendTimingReq a w). by apply HQ. Qed.

Lemma wp_master_bw w t ph d (Q : tlm_sync_enum * tlm_phase * Z → world E → Prop) :
  (∀ r w', nb_transport_bw t ph d w = (r, w') → Q r (log_call (MBw t ph r.1.1) w')) →
  wp (call_bw t ph d) Q w.
Proof. intros HQ. unfold wp, call_bw. destruct (nb_transport_bw t ph d w). by apply HQ. Qed.


(** ** The invariant *)

Lemma minv_private mid hand w w' s : minv mid hand w s → mprivate w w' → minv mid hand w' s.
Proof.
  intros [Ha Hm Hq Hr Ho] Hpr. pose proof (mem_private _ _ _ Hpr Ha Hm) as Hm'.
  destruct Hpr as [Hp Hpq Hh _ _ _]. unfold phases in *.
  split; unfold phases; rewrite ?Hp, ?Hpq, ?Hh; done.
Qed.

(** The memory's part depends on three members of the account. *)
Lemma mem_ok_account s s' q m :
  mem_ok s q m → requested s' = requested s → taken s' = taken s → answered s' = answered s →
  mem_ok s' q m.
Proof.
  intros [Ho Hf Hu Hst] Hr Ht Ha.
  assert (∀ t, shares s' q t = shares s q t) as Hs by (intros t; unfold shares; by rewrite Hr, Ht, Ha).
  split; [done|..].
  - intros t. rewrite Hs. apply Hf.
  - intros t Hin. destruct (Hu t Hin) as (p & Hp & Hus). exists p. split; [done|].
    unfold usable in *. by rewrite Ht.
  - intros t. rewrite Ha. apply Hst.
Qed.

(** Which entries there are. *)
Lemma split_begin q begins ends t :
  q ≡ₚ ((λ t, (t, BEGIN_REQ)) <$> begins) ++ ((λ t, (t, END_RESP)) <$> ends) →
  (t, BEGIN_REQ) ∈ q ↔ t ∈ begins.
Proof.
  intros ->. rewrite elem_of_app, !list_elem_of_fmap. split.
  - intros [(t' & [= ->] & Ht)|(t' & [=] & _)]. done.
  - intros Ht. left. by exists t.
Qed.

Lemma split_end q begins ends t :
  q ≡ₚ ((λ t, (t, BEGIN_REQ)) <$> begins) ++ ((λ t, (t, END_RESP)) <$> ends) →
  (t, END_RESP) ∈ q ↔ t ∈ ends.
Proof.
  intros ->. rewrite elem_of_app, !list_elem_of_fmap. split.
  - intros [(t' & [=] & _)|(t' & [= ->] & Ht)]. done.
  - intros Ht. right. by exists t.
Qed.

(** *** Calls of the initiator *)

Definition supported p : bool :=
  (get_byte_enable_ptr (attrs p) =? 0) && negb (get_streaming_width (attrs p) <? get_data_length (attrs p)).

(** The initiator may send phase [ph] of [t]: it has a reference to it, the account allows the phase,
    and a request can be sent to gem5. *)
Definition initiator_may w t ph : Prop :=
  ∃ p, gps (st (memory w)) !! t = Some p ∧ (0 < ref_count p)%nat ∧
  ∀ s, account_of (history w) = Some s →
  if supported p
  then is_Some (account_step s (MFw t ph TLM_ACCEPTED)) ∧
       (ph = BEGIN_REQ → (shares s (phases w) t < ref_count p)%nat ∧ usable s (memory w) p)
  else shares s (phases w) t = 0%nat.

(** The state when the call was queued. *)
Definition queued w t p ph d : world E :=
  log_call (MFw t ph TLM_ACCEPTED) (set_peq (peq w ++ [(t, ph, now w + d)]) (put_gp w t (gp_inc p))).

Lemma wp_fw w t p ph d (Q : tlm_sync_enum * tlm_phase * Z → world E → Prop) :
  gps (st (memory w)) !! t = Some p →
  (supported p = true → Q (TLM_ACCEPTED, ph, d) (queued w t p ph d)) →
  (supported p = false → ∀ v, Q (TLM_COMPLETED, ph, d)
     (log_call (MFw t ph TLM_COMPLETED) (put_gp w t (set_response_status v p)))) →
  wp (nb_transport_fw t ph d) Q w.
Proof.
  intros Hp Hq Hc. unfold nb_transport_fw, supported, noted_fw in *.
  apply wp_bind. eapply wp_mpayload; [exact Hp|].
  destruct (get_byte_enable_ptr (attrs p) =? 0); simpl in *.
  - destruct (_ <? _); simpl in *; (apply wp_bind; eapply wp_payload_do; [exact Hp|]).
    + apply wp_bind, wp_modify, wp_ret. by apply Hc.
    + apply wp_bind, wp_modify, wp_bind, wp_modify, wp_ret. by apply Hq.
  - apply wp_bind; eapply wp_payload_do; [exact Hp|]. apply wp_bind, wp_modify, wp_ret. by apply Hc.
Qed.

Lemma acquired_ok w t p :
  mm_ok (memory w) → gps (st (memory w)) !! t = Some p → (0 < ref_count p)%nat →
  mm_ok (memory (put_gp w t (gp_inc p))).
Proof.
  intros Hm Hp Hr. apply put_gp_ok; try done; unfold ref_count in *; autorewrite with gp; simpl; try done; lia.
Qed.

Lemma kept_inc p : intact p (gp_inc p) ∧ ref_count (gp_inc p) = S (ref_count p).
Proof. unfold ref_count. split; [split|]; by autorewrite with gp. Qed.

(** BEGIN_REQ is queued. *)
Lemma minv_begin w s t p d :
  minv false None w s → requested s = None → gps (st (memory w)) !! t = Some p →
  (shares s (phases w) t < ref_count p)%nat → usable s (memory w) p → taken s !! t = None →
  answered s ≠ Some t →
  minv false None (queued w t p BEGIN_REQ d)
    (Account (Some t) (sending s) (taken s) (answered s) (refused s) (owed s)).
Proof.
  intros [Ha Hm (begins & ends & Hq & Hreq & Hresp) Hr Ho] Hnone Hp Hlt Hus Ht Hans.
  inversion Hreq as [s0 Hidle _ Hsnd Href| | | |]; subst; try congruence. destruct (kept_inc p) as [Hk Hrc].
  split; [|..|done|done].
  - simpl. rewrite account_snoc, Ha. destruct s as [req snd tk ans rf ow]. simpl in *. subst.
    rewrite !bool_decide_true, bool_decide_false by done. done.
  - assert (phases (queued w t p BEGIN_REQ d) ≡ₚ (t, BEGIN_REQ) :: phases w) as ->.
    { unfold phases. simpl. rewrite fmap_app. simpl. by rewrite Permutation_app_comm. }
    eapply (mem_update t p (gp_inc p)); [exact Hm|apply acquired_ok; [apply Hm|done|lia]|done
      |apply lookup_insert_eq|intros; by apply lookup_insert_ne|done|done|..].
    + intros t' Hne. unfold shares. simpl. rewrite entries_cons, Hnone.
      simpl. rewrite decide_False, (bool_decide_false (Some t = Some t')) by congruence. lia.
    + rewrite Hrc. unfold shares in *. simpl. rewrite Hnone in Hlt. simpl in Hlt.
      rewrite entries_cons. simpl. rewrite decide_True, !bool_decide_true by (done || by left). lia.
    + intros t' [[= ->]|Hin]%elem_of_cons; [right|by left]. split; [done|].
      unfold usable in *. autorewrite with gp. simpl. done.
    + simpl. intros t' [?|[[=]|?]%elem_of_cons]; auto.
  - exists [t], ends. split; [|split; [by constructor|done]].
    unfold phases in *. simpl. rewrite fmap_app, Hq. simpl. by rewrite Permutation_app_comm.
Qed.

(** END_RESP is queued. *)
Lemma minv_end w s t p d :
  minv false None w s → answered s = Some t → gps (st (memory w)) !! t = Some p →
  minv false None (queued w t p END_RESP d)
    (Account (requested s) (sending s) (taken s) None (refused s) (owed s)).
Proof.
  intros [Ha Hm (begins & ends & Hq & Hreq & Hresp) Hr Ho] Hans Hp. destruct (kept_inc p) as [Hk Hrc].
  assert (shares s (phases w) t ≤ ref_count p ∧ 0 < shares s (phases w) t)%nat as [Hle Hpos].
  { assert (0 < shares s (phases w) t)%nat as Hpos
      by (unfold shares; rewrite (bool_decide_true _ Hans); lia).
    destruct (me_funded _ _ _ Hm t Hpos) as (p1 & Hp1 & ?). simplify_eq. done. }
  rewrite Hans in Hresp. inversion Hresp as [|t' Hrip|]; subst.
  split; [|..|done|simpl; by rewrite <- Hrip in Ho].
  - simpl. rewrite account_snoc, Ha. destruct s as [req snd tk ans rf ow]. simpl in *. subst.
    by rewrite !bool_decide_true by done.
  - assert (phases (queued w t p END_RESP d) ≡ₚ (t, END_RESP) :: phases w) as ->.
    { unfold phases. simpl. rewrite fmap_app. simpl. by rewrite Permutation_app_comm. }
    assert (∀ t', ((t', BEGIN_REQ) ∈ (t, END_RESP) :: phases w) ↔ (t', BEGIN_REQ) ∈ phases w) as Hb.
    { intros t'. rewrite elem_of_cons. split; [by intros [[=]|]|by right]. }
    eapply (mem_update t p (gp_inc p)); [exact Hm|apply acquired_ok; [apply Hm|done|lia]|done
      |apply lookup_insert_eq|intros; by apply lookup_insert_ne|done|done|..].
    + intros t' Hne. unfold shares. simpl. rewrite entries_cons, (bool_decide_ext _ _ (Hb t')).
      simpl. rewrite decide_False by congruence. lia.
    + rewrite Hrc. unfold shares in *. simpl. rewrite entries_cons, (bool_decide_ext _ _ (Hb t)).
      rewrite (bool_decide_true (answered s = Some t)) in Hle by done. simpl. rewrite decide_True by done. lia.
    + intros t' Hin%Hb. by left.
    + simpl. intros t' [?|[[= ->]|?]%elem_of_cons]; auto; done.
  - exists begins, [t]. split; [|split; [|simpl; rewrite <- Hrip; constructor]].
    + unfold phases in *. simpl. rewrite fmap_app, Hq. simpl. by rewrite app_nil_r.
    + simpl. inversion Hreq; subst; econstructor; done.
Qed.

(** A call of the initiator keeps the invariant. *)
Lemma wp_master_fw w s t ph d :
  minv false None w s → initiator_may w t ph →
  wp (nb_transport_fw t ph d) (λ r w', r.1.1 ≠ TLM_UPDATED ∧ ∃ s', minv false None w' s') w.
Proof.
  intros Hi (p & Hp & Hr & Hmay). pose proof (mi_account _ _ _ _ Hi) as Ha.
  specialize (Hmay s Ha). eapply wp_fw; [exact Hp|..]; intros Hsup; rewrite Hsup in Hmay.
  - split; [done|]. destruct Hmay as [[s' Hs'] Hb]. destruct s as [req snd tk ans rf ow] eqn:Hs.
    destruct ph; simpl in Hs'; try done.
    + destruct (bool_decide (req = None)) eqn:H3; [|done]. destruct (bool_decide (tk !! t = None)) eqn:H4; [|done].
      destruct (bool_decide (ans = Some t)) eqn:H5; [done|].
      destruct (Hb eq_refl) as [Hlt Hus]. eexists.
      apply (minv_begin w _ t p d Hi); [by eapply bool_decide_eq_true|done..| |];
        [by eapply bool_decide_eq_true|by eapply bool_decide_eq_false].
    + destruct (bool_decide (ans = Some t)) eqn:H3; [|done]. eexists.
      apply (minv_end w _ t p d Hi); [by eapply bool_decide_eq_true|done].
  - intros v. split; [done|]. exists s. destruct Hi as [_ Hm Hq Hrt Ho].
    split; [simpl; by rewrite account_snoc, Ha; destruct s|..|exact Hq|done|done].
    eapply (mem_update t p (set_response_status v p)); [exact Hm| |done|apply lookup_insert_eq
      |intros; by apply lookup_insert_ne|done|..].
    + apply put_gp_ok; try done; [apply Hm|..]; unfold ref_count in *; by autorewrite with gp.
    + intros Hpos. change (0 < shares s (phases w) t)%nat in Hpos. lia.
    + done.
    + change (shares s (phases w) t ≤ ref_count (set_response_status v p))%nat. lia.
    + intros t' Hin. left. by split.
    + intros t' [?|?]; auto.
Qed.

(** *** END_REQ *)

(** A reference is given back. *)
Lemma mem_release t p s q s' m m' :
  mem_ok s q m → gps (st m) !! t = Some p → released m t p m' →
  (∀ t', t' ≠ t → (shares s' q t' ≤ shares s q t')%nat) → (S (shares s' q t) ≤ ref_count p)%nat →
  (∀ t', (t', BEGIN_REQ) ∈ q → ∀ t a, taken s' !! t = Some a → taken s !! t = Some a) →
  (∀ t', answered s' = Some t' → answered s = Some t' ∨
     t' = t ∧ get_response_status (attrs p) = TLM_OK_RESPONSE) →
  mem_ok s' q m'.
Proof.
  intros Hm Hp [(p' & Hp' & Hr & Hk) Hoth Hpk _ _ Hok] Hle Hlt Htk Hans.
  assert ((0 < shares s' q t)%nat → intact p p') as Hkp.
  { intros Hpos. destruct Hk as (He & _ & Hc & Hst); [lia|]. split; [done..|congruence]. }
  eapply (mem_update t p p'); [exact Hm|done..| | |].
  - rewrite Hr. lia.
  - intros t' Hin. left. split; [done|]. by eapply Htk.
  - intros t' [Ha|Hin]; [|auto]. destruct (Hans t' Ha) as [?|[-> Hst]]; [auto|].
    right; right. split; [done|]. apply Hkp; [|done]. unfold shares. rewrite (bool_decide_true _ Ha). lia.
Qed.

(** In the hands of a handler no entry is a request. *)
Lemma hand_queue mid t w s t' :
  minv mid (Some t) w s → ¬ (t', BEGIN_REQ) ∈ phases w.
Proof.
  intros [_ _ (begins & ends & Hq & Hreq & _) _ _]. rewrite (split_begin _ _ _ _ Hq).
  inversion Hreq; subst; apply not_elem_of_nil.
Qed.

(** END_REQ goes out, and a reference is given back. *)
Lemma wp_end_req `{!Peer} mid w s t a (Q : unit → world E → Prop) :
  minv mid (Some t) w s → requested s = Some t → sending s = Some a → refused s = false →
  (∀ w' s', minv mid (Some t) w' s' → requested s' = None → answered s' = answered s →
     port w' = port w → history w' = history w ++ [MBw t END_REQ TLM_ACCEPTED] → Q tt w') →
  wp (sendEndReq t;; on_memory (release t)) Q w.
Proof.
  intros Hi Hreq Hsnd Href HQ. apply wp_bind. unfold sendEndReq. apply wp_bind, wp_master_bw.
  intros [[status ph] d] w1 Hbw. destruct (pe_end_req _ _ _ _ _ Hbw) as (Hpr & Hst). simpl in Hst.
  subst status. pose proof (minv_private _ _ _ _ _ Hi Hpr) as Hi1. apply wp_check; [done|].
  pose proof (mi_memory _ _ _ _ Hi1) as Hm.
  assert (∀ t', ¬ (t', BEGIN_REQ) ∈ phases w1) as Hno by (intros t'; by eapply hand_queue).
  set (s1 := Account None None (<[t := a]> (taken s)) (answered s) (refused s) (owed s)).
  assert (S (shares s1 (phases w1) t) ≤ shares s (phases w1) t)%nat as Hsh.
  { unfold shares. rewrite (bool_decide_true _ Hreq).
    rewrite (bool_decide_false ((t, BEGIN_REQ) ∈ _)) by apply Hno. simpl. destruct (bool_decide (is_Some (<[t:=a]> _ !! t))), (bool_decide (answered s = _)); lia. }
  destruct (me_funded _ _ _ Hm t ltac:(lia)) as (p & Hp & Hr).
  apply wp_zoom. eapply wp_release; [apply Hm|exact Hp|lia|]. intros m Hrel.
  apply (HQ _ s1); [|done|done|apply Hpr|simpl; by rewrite (mp_history _ _ Hpr)].
  destruct Hi1 as [Ha _ (begins & ends & Hq & Hrq & Hrs) Hrt Ho].
  split; [..|done|done].
  - simpl. rewrite account_snoc, Ha. destruct s as [req snd tk ans rf ow]. simpl in *. subst.
    simpl. by rewrite bool_decide_true.
  - eapply (mem_release t p s (phases w1) s1); [exact Hm|exact Hp|exact Hrel|..].
    + intros t' Hne. unfold shares. simpl. rewrite lookup_insert_ne by done.
      repeat case_bool_decide; simplify_eq; lia.
    + lia.
    + by intros t' ?%Hno.
    + auto.
  - exists begins, ends. split; [exact Hq|]. split; [|exact Hrs]. inversion Hrq; subst.
    + by constructor.
    + by constructor.
Qed.

(** *** Requests *)

(** A packet is pushed on. *)
Lemma mem_put_pkt s q w a k k' :
  mem_ok s q (memory w) → pkts (st (memory w)) !! a = Some k → mem_ok s q (memory (put_pkt w a k')).
Proof.
  intros Hm Hk. eapply mem_packets; [exact Hm|eapply put_pkt_ok; [apply Hm|exact Hk]|done|].
  intros a' Ha'. left. simpl. destruct (decide (a' = a)) as [->|Hne].
  - rewrite lookup_insert_eq. by eexists.
  - by rewrite lookup_insert_ne.
Qed.

Lemma new_pkt_ok m k :
  mm_ok m → mm_ok (Mem (mgr m) (Store (gps (st m)) (<[next_ptr (st m) := k]> (pkts (st m)))
                          (Pos.succ (next_ptr (st m))))).
Proof.
  intros [[Wg Wp] ? ? ? ? ? ?]. split; try done. split; simpl.
  - intros t p Hp. apply Wg in Hp. lia.
  - intros a k' [[<- _]|[_ Hk]]%lookup_insert_Some; [lia|]. apply Wp in Hk. lia.
Qed.

(** What a new packet for [p] asks for. *)
Definition asked p : packet :=
  new_packet (get_address (attrs p)) (get_data_length (attrs p)) owner_id
    (if bool_decide (get_command (attrs p) = TLM_READ_COMMAND) then ReadReq else WriteReq)
    (get_data_ptr (attrs p)).

(** The packet of a request: its own, or a new one. *)
Definition packet_in w t p a (k : packet) : Prop :=
  match get_extension (attrs p) with
  | Some e => a = Packet e ∧ pkts (st (memory w)) !! a = Some k
  | None => pkts (st (memory w)) !! a = None ∧ k = asked p
  end.

Lemma wp_fresh_packet w s q t p (Q : ptr → world E → Prop) :
  mem_ok s q (memory w) → gps (st (memory w)) !! t = Some p → get_command (attrs p) ≠ TLM_IGNORE_COMMAND →
  (∀ a k m, pkts (st (memory w)) !! a = None ∧ k = asked p → pkts (st m) !! a = Some k →
     mgr m = mgr (memory w) → gps (st m) = gps (st (memory w)) → mem_ok s q m → Q a (set_memory m w)) →
  wp (generatePacket t) Q w.
Proof.
  intros Hm Hp Hus HQ. unfold generatePacket. apply wp_bind. eapply wp_mpayload; [exact Hp|].
  assert (pkts (st (memory w)) !! next_ptr (st (memory w)) = None) as Hfresh.
  { destruct (pkts (st (memory w)) !! _) eqn:Hk; [|done].
    apply (ok_wf _ (me_ok _ _ _ Hm)) in Hk. lia. }
  set (cmd := if bool_decide (get_command (attrs p) = TLM_READ_COMMAND) then ReadReq else WriteReq).
  apply wp_bind. apply (wp_mono _ (λ c w', c = cmd ∧ w' = w)).
  { unfold cmd. by destruct (get_command (attrs p)); [apply wp_ret..|]. }
  intros c w' [-> ->]. apply wp_zoom. unfold wp, new_pkt. eapply HQ.
  - split; [exact Hfresh|]. reflexivity.
  - simpl. apply lookup_insert_eq.
  - done.
  - done.
  - eapply mem_packets; [exact Hm|by apply new_pkt_ok, Hm|done|].
    intros a Ha. left. simpl. destruct (decide (a = next_ptr (st (memory w)))) as [->|Hne].
    + rewrite lookup_insert_eq. by eexists.
    + by rewrite lookup_insert_ne.
Qed.

Lemma wp_packet_of w s q t p (Q : ptr → world E → Prop) :
  mem_ok s q (memory w) → gps (st (memory w)) !! t = Some p → usable s (memory w) p →
  (∀ a k m, packet_in w t p a k → pkts (st m) !! a = Some k → mgr m = mgr (memory w) →
     gps (st m) = gps (st (memory w)) → mem_ok s q m → Q a (set_memory m w)) →
  wp (packet_of t) Q w.
Proof.
  intros Hm Hp Hus HQ. unfold packet_of, packet_in, usable in *. apply wp_bind.
  eapply wp_mpayload; [exact Hp|]. destruct (get_extension (attrs p)) as [e|] eqn:He.
  - destruct Hus as [[k Hk] _]. apply wp_ret.
    replace w with (set_memory (memory w) w) by (by destruct w). by eapply HQ.
  - eapply wp_fresh_packet; [exact Hm|exact Hp|exact Hus|].
    intros a k m Ha. by apply HQ.
Qed.

(** What sending a request came to. *)
Definition request_sent w t a (ok : bool) w' : Prop :=
  history w' = history w ++ (MSendReq a ok :: if ok then [MBw t END_REQ TLM_ACCEPTED] else []) ∧
  if ok then idle_port (port w')
  else waitForRetry (port w') = true ∧ pendingRequest (port w') = Some t ∧
       pendingPacket (port w') = Some a.

(** Taking the entry of a request out of the queue, and a second reference. *)
Lemma mem_take w s t p :
  mem_ok s ((t, BEGIN_REQ) :: phases w) (memory w) → requested s = Some t →
  (∀ t', ¬ (t', BEGIN_REQ) ∈ phases w) → gps (st (memory w)) !! t = Some p →
  mem_ok s (phases w) (memory (put_gp w t (gp_inc p))).
Proof.
  intros Hm Hreq Hno Hp. destruct (kept_inc p) as [Hk Hrc].
  assert (S (shares s (phases w) t) = S (shares s ((t, BEGIN_REQ) :: phases w) t) + 1)%nat as Hsh.
  { unfold shares. rewrite entries_cons, (bool_decide_true _ Hreq), (bool_decide_false (_ ∈ phases w))
      by apply Hno. rewrite (bool_decide_true (_ ∈ _)) by by left. simpl. rewrite decide_True by done. lia. }
  destruct (me_funded _ _ _ Hm t) as (p' & Hp' & Hr); [eapply shares_in; by left|]. simplify_eq.
  assert (0 < shares s ((t, BEGIN_REQ) :: phases w) t)%nat as Hpos by (eapply shares_in; by left).
  eapply (mem_update t p (gp_inc p)); [exact Hm|apply acquired_ok; [apply Hm|done|lia]|done
    |apply lookup_insert_eq|intros; by apply lookup_insert_ne|done|done|..].
  - intros t' Hne. unfold shares. rewrite entries_cons, Hreq.
    rewrite (bool_decide_false (Some t = Some t')) by congruence. lia.
  - rewrite Hrc. lia.
  - by intros t' ?%Hno.
  - intros t' [?|Hin]; [by left|]. right; left. by right.
Qed.

(** gem5 is asked to take a request. *)
Definition sent s (a : ptr) (ok : bool) : account :=
  Account (requested s) (if ok then Some a else None) (taken s) (answered s) (negb ok) (owed s).

Lemma wp_send_req `{!Peer} mid w s t a (Q : bool → world E → Prop) :
  minv mid (Some t) w s → requested s = Some t → sending s = None →
  (∀ ok w', fst (sendTimingReq a w) = ok → minv mid (Some t) w' (sent s a ok) →
     port w' = port w → history w' = history w ++ [MSendReq a ok] → Q ok w') →
  wp (call_sendTimingReq a) Q w.
Proof.
  intros Hi Hreq Hsnd HQ. apply wp_call_sendTimingReq. intros ok w' Hrun.
  pose proof (pe_request _ _ _ _ Hrun) as Hpr. pose proof (minv_private _ _ _ _ _ Hi Hpr) as [Ha Hm Hq Hr Ho].
  apply HQ; [by rewrite Hrun| |apply Hpr|simpl; by rewrite (mp_history _ _ Hpr)].
  split; [..|exact Hr|exact Ho].
  - simpl. rewrite account_snoc, Ha. destruct s. simpl in *. subst.
    by rewrite !bool_decide_true by (done || by eexists).
  - by eapply mem_ok_account.
  - destruct Hq as (begins & ends & Hq & Hrq & Hrs). exists begins, ends. split; [done|].
    split; [|done]. inversion Hrq; subst; [by constructor|congruence].
Qed.

(** A handler is done with its request. *)
Lemma minv_put_down mid t w s :
  minv mid (Some t) w s → requested s = None → idle_port (port w) → minv mid None w s.
Proof.
  intros [Ha Hm (begins & ends & Hq & Hrq & Hrs) Hr Ho] Hreq Hidle. split; try done.
  exists begins, ends. split; [done|]. split; [|done].
  inversion Hrq; subst; [congruence|by constructor].
Qed.

(** A request waits for a retry. *)
Lemma minv_pending mid t a w s (p : SCMasterPort) :
  minv mid (Some t) w s → requested s = Some t → sending s = None → refused s = true →
  waitForRetry p = true → pendingRequest p = Some t → pendingPacket p = Some a →
  responseInProgress p = responseInProgress (port w) → needToSendRetry p = needToSendRetry (port w) →
  minv mid None (set_port (λ _, p) w) s.
Proof.
  intros [Ha Hm (begins & ends & Hq & Hrq & Hrs) Hr Ho] Hreq Hsnd Href Hp1 Hp2 Hp3 Hp4 Hp5.
  split; simpl; rewrite ?Hp4, ?Hp5; try done. exists begins, ends. split; [done|]. split; [|done].
  inversion Hrq; subst; [by econstructor|congruence].
Qed.

Lemma wp_handleBeginReq `{!Peer} w s t ends (Q : unit → world E → Prop) :
  account_of (history w) = Some s → mem_ok s ((t, BEGIN_REQ) :: phases w) (memory w) →
  requested s = Some t → sending s = None → refused s = false → idle_port (port w) →
  phases w ≡ₚ ((λ t, (t, END_RESP)) <$> ends) →
  response_ok (responseInProgress (port w)) (answered s) ends →
  needToSendRetry (port w) = owed s || false →
  (owed s = true → responseInProgress (port w) = true ∧ false = false) →
  (∀ w' s' a ok w1 p k, minv false None w' s' → gps (st (memory w)) !! t = Some p →
     packet_in w t p a k →
     pkts (st (memory w1)) !! a = Some (pushSenderState (TlmSenderState t) k) →
     fst (sendTimingReq a w1) = ok → request_sent w t a ok w' → Q tt w') →
  wp (handleBeginReq t) Q w.
Proof.
  intros Ha Hm Hreq Hsnd Href Hidle Hq Hrs Hrt Ho HQ. pose proof Hidle as (Hw1 & Hw2 & Hw3).
  unfold handleBeginReq. apply wp_bind, wp_gets. rewrite Hw1, Hw2, Hw3.
  do 3 (apply wp_bind, wp_check; [done|]).
  destruct (me_usable _ _ _ Hm t ltac:(by left)) as (p & Hp & Hus).
  assert (∀ t', ¬ (t', BEGIN_REQ) ∈ phases w) as Hno.
  { intros t'. rewrite Hq, list_elem_of_fmap. by intros (t0 & [=] & _). }
  pose proof (mem_take w s t p Hm Hreq Hno Hp) as Hm1.
  apply wp_bind. eapply (wp_payload_do _ t p); [done|].
  apply wp_bind. eapply wp_packet_of; [exact Hm1|apply lookup_insert_eq| |].
  { unfold usable in *. by autorewrite with gp. }
  intros a k m Hin Hk Hmgr Hg Hm2. apply wp_bind. eapply (wp_mpacket_do _ _ k); [exact Hk|].
  set (w1 := put_pkt _ _ _).
  assert (minv false (Some t) w1 s) as Hi1.
  { split; try done; [by eapply mem_put_pkt|]. exists [], ends. split; [done|]. split; [by constructor|done]. }
  assert (pkts (st (memory w1)) !! a = Some (pushSenderState (TlmSenderState t) k)) as Hk1
    by apply lookup_insert_eq.
  assert (packet_in w t p a k) as Hin0.
  { unfold packet_in, asked in *. by autorewrite with gp in Hin. }
  apply wp_bind. eapply wp_send_req; [exact Hi1|done..|]. intros ok w2 Hok Hi2 Hport Hhist.
  destruct ok.
  - eapply wp_end_req; [exact Hi2|done..|]. intros w3 s3 Hi3 Hr3 _ Hport3 Hhist3.
    assert (idle_port (port w3)) as Hidle3 by (by rewrite Hport3, Hport).
    eapply (HQ _ s3 a true w1); [by eapply minv_put_down|done..|]. split; [|done].
    by rewrite Hhist3, Hhist, <- app_assoc.
  - apply wp_modify. eapply (HQ _ (sent s a false) a false w1); [|done..|].
    + eapply (minv_pending false t a w2 (sent s a false) (set_pending true (Some t) (Some a) (port w2)));
        [exact Hi2|done..].
    + split; [simpl; by rewrite Hhist|done].
Qed.

(** gem5 tells the port to retry. *)
Lemma wp_recvReqRetry `{!Peer} w s (Q : unit → world E → Prop) :
  minv false None w s → refused s = true →
  (∀ w' s' t a ok, minv false None w' s' → pendingRequest (port w) = Some t →
     pendingPacket (port w) = Some a → fst (sendTimingReq a w) = ok →
     request_sent w t a ok w' → Q tt w') →
  wp recvReqRetry Q w.
Proof.
  intros Hi Href HQ.
  assert (∃ t a, waitForRetry (port w) = true ∧ pendingRequest (port w) = Some t ∧
    pendingPacket (port w) = Some a ∧ requested s = Some t ∧ sending s = None ∧ minv false (Some t) w s)
    as (t & a & Hw1 & Hw2 & Hw3 & Hreq & Hsnd & Hi1).
  { destruct Hi as [Ha Hm (begins & ends & Hq & Hrq & Hrs) Hr Ho].
    inversion Hrq as [| | | |t a s' K1 K2 K3 K4 K5]; subst; try congruence.
    exists t, a. repeat (split; [done|]). split; try done. exists [], ends.
    split; [done|]. split; [by constructor|done]. }
  unfold recvReqRetry. apply wp_bind, wp_gets. rewrite Hw1, Hw2, Hw3.
  do 2 (apply wp_bind, wp_check; [done|]). apply wp_bind. eapply wp_lift_option; [done|].
  apply wp_bind. eapply wp_send_req; [exact Hi1|done..|]. intros ok w1 Hok Hi2 Hport Hhist.
  destruct ok.
  - apply wp_bind, wp_modify, wp_bind, wp_gets. simpl. rewrite Hport, Hw2.
    apply wp_bind. eapply wp_lift_option; [done|]. set (w2 := set_port _ w1).
    assert (minv false (Some t) w2 (sent s a true)) as Hi3.
    { destruct Hi2 as [Ha Hm (begins & ends & Hq & Hrq & Hrs) Hr Ho]. split; try done.
      exists begins, ends. split; [done|]. split; [|done]. inversion Hrq; subst; by constructor. }
    apply wp_bind_assoc, wp_bind. eapply wp_end_req; [exact Hi3|done..|].
    intros w3 s3 Hi4 Hr4 _ Hport4 Hhist4. apply wp_modify.
    assert (idle_port (set_pending (waitForRetry (port w3)) None (pendingPacket (port w3)) (port w3)))
      as Hidle by (rewrite Hport4; done).
    eapply (HQ _ s3 t a true); [|done..|].
    + destruct Hi4 as [Ha Hm (begins & ends & Hq & Hrq & Hrs) Hr Ho]. split; try done.
      exists begins, ends. split; [done|]. split; [|done].
      inversion Hrq; subst; [congruence|by constructor].
    + split; [|done]. simpl. rewrite Hhist4. simpl. by rewrite Hhist, <- app_assoc.
  - apply wp_ret. eapply (HQ _ (sent s a false) t a false); [|done..|].
    + pose proof (minv_pending false t a w1 (sent s a false) (port w1) Hi2 Hreq eq_refl eq_refl) as Hp.
      replace (set_port (λ _, port w1) w1) with w1 in Hp by (by destruct w1).
      rewrite Hport in Hp. by apply Hp.
    + split; [done|]. by rewrite Hport.
Qed.

(** *** Responses *)

Lemma put_pkt_twice w a k k' : put_pkt (put_pkt w a k) a k' = put_pkt w a k'.
Proof. unfold put_pkt, set_memory, set_pkts. simpl. by rewrite insert_insert_eq. Qed.

(** The delays are reset and the port's sender state comes off. *)
Lemma wp_take_response {B} (K : ptr → M (world E) B) w a k k0 t (Q : B → world E → Prop) :
  pkts (st (memory w)) !! a = Some k →
  popSenderState (set_headerDelay 0 (set_payloadDelay 0 k)) = Some (TlmSenderState t, k0) →
  wp (K t) Q (put_pkt w a k0) →
  wp (on_store (pkt_do a (set_payloadDelay 0));;
      on_store (pkt_do a (set_headerDelay 0));;
      k ← on_store (pkt_at a);
      s ← lift_option (popSenderState k) (ASSERT "senderState != NULL");
      on_store (pkt_do a (λ _, s.2));;
      t ← lift_option match s.1 with TlmSenderState t => Some t | OtherSenderState _ => None end
        (SC_ASSERT "tlmSenderState != nullptr");
      K t) Q w.
Proof.
  intros Ha Hpop HQ.
  apply wp_bind. eapply (wp_mpacket_do _ _ k); [exact Ha|].
  apply wp_bind. eapply wp_mpacket_do; [apply lookup_insert_eq|].
  apply wp_bind. eapply wp_mpacket; [apply lookup_insert_eq|].
  apply wp_bind. eapply wp_lift_option; [exact Hpop|].
  apply wp_bind. eapply wp_mpacket_do; [apply lookup_insert_eq|]. apply wp_bind, wp_ret.
  simpl. by rewrite !put_pkt_twice.
Qed.

(** What BEGIN_RESP leaves. *)
Definition responded s t (status : tlm_sync_enum) : account :=
  Account (requested s) (sending s) (delete t (taken s))
    (if bool_decide (status = TLM_ACCEPTED) then Some t else None) (refused s) (owed s).

Lemma put_gp_refs w t p f :
  ref_count (f p) = ref_count p → intact p (f p) → ∀ s,
  mem_ok s (phases w) (memory w) → gps (st (memory w)) !! t = Some p → (0 < ref_count p)%nat →
  has_mm (attrs (f p)) = has_mm (attrs p) →
  (shares s (phases w) t ≤ ref_count p)%nat → mem_ok s (phases w) (memory (put_gp w t (f p))).
Proof.
  intros Hr Hk s Hm Hp Hpos Hmm Hle.
  eapply (mem_update t p (f p)); [exact Hm| |done|apply lookup_insert_eq
    |intros; by apply lookup_insert_ne|done|done|done|by rewrite Hr| |].
  - apply put_gp_ok; try done; [apply Hm|by rewrite Hr].
  - intros t' Hin. left. by split.
  - intros t' [?|?]; auto.
Qed.

(** The account and the memory after BEGIN_RESP, once the reference is given back. *)
Lemma minv_responded mid w s t a0 a status p m :
  minv mid None w s → taken s !! t = Some a0 → responseInProgress (port w) = false →
  gps (st (memory w)) !! t = Some p → (shares s (phases w) t ≤ ref_count p)%nat →
  get_response_status (attrs p) = TLM_OK_RESPONSE → released (memory w) t p m →
  minv mid None (log_call (MResp a true) (set_memory m
    (set_port (set_responseInProgress (bool_decide (status = TLM_ACCEPTED)))
       (log_call (MBw t BEGIN_RESP status) w)))) (responded s t status).
Proof.
  intros [Ha Hm (begins & ends & Hq & Hrq & Hrs) Hrt Ho] Ht Hrip Hp Hr Hst Hrel.
  rewrite Hrip in Hrs. inversion Hrs as [Hans Hends| |]; subst. symmetry in Hans.
  assert (owed s = false) as Howed by (destruct (owed s); [by destruct (Ho eq_refl); congruence|done]).
  assert (S (shares (responded s t status) (phases w) t) ≤ shares s (phases w) t)%nat as Hsh.
  { unfold shares. simpl. rewrite lookup_delete_eq, (bool_decide_true (is_Some (taken s !! t))) by by eexists.
    rewrite (bool_decide_false (is_Some None)) by by intros []. repeat case_bool_decide; lia. }
  split; [..|simpl; rewrite Howed; by rewrite Howed in Hrt|by simpl; rewrite Howed].
  - simpl. rewrite !account_snoc, Ha. destruct s as [req snd tk ans rf ow]. simpl in *. subst.
    rewrite (bool_decide_true (is_Some _)) by by eexists. done.
  - eapply (mem_release t p s (phases w) (responded s t status)); [exact Hm|exact Hp|exact Hrel|..].
    + intros t' Hne. unfold shares. simpl. rewrite lookup_delete_ne by done.
      repeat case_bool_decide; simplify_eq; lia.
    + lia.
    + simpl. intros t' _ t0 a1 [_ ?]%lookup_delete_Some. done.
    + simpl. intros t'. case_bool_decide; [|done]. intros [= ->]. by right.
  - exists begins, []. split; [exact Hq|]. split.
    + simpl. inversion Hrq; subst; by econstructor.
    + simpl. case_bool_decide; constructor.
Qed.

Lemma wp_begin_resp `{!Peer} mid w s t a0 delay a (Q : bool → world E → Prop) :
  minv mid None w s → taken s !! t = Some a0 → responseInProgress (port w) = false →
  (∀ status w', minv mid None w' (responded s t status) → port w' = set_responseInProgress
       (bool_decide (status = TLM_ACCEPTED)) (port w) →
     history w' = history w ++ [MBw t BEGIN_RESP status; MResp a true] →
     (∃ w1, pkts (st (memory w1)) = pkts (st (memory w)) ∧
            has_gp (memory w1) t (λ p, get_response_status (attrs p) = TLM_OK_RESPONSE) ∧
            (fst (nb_transport_bw t BEGIN_RESP delay w1)).1.1 = status) → Q true w') →
  wp (sendBeginResp t delay;; on_memory (release t);; noted_resp a true) Q w.
Proof.
  intros Hi Ht Hrip HQ. unfold sendBeginResp. pose proof (mi_memory _ _ _ _ Hi) as Hm.
  assert (0 < shares s (phases w) t)%nat as Hpos.
  { unfold shares. rewrite (bool_decide_true (is_Some (taken s !! t))) by by eexists. lia. }
  destruct (me_funded _ _ _ Hm t Hpos) as (p & Hp & Hr).
  apply wp_bind, wp_bind. eapply (wp_payload_do _ t p); [done|].
  set (p1 := set_response_status TLM_OK_RESPONSE p). set (w1 := put_gp w t p1).
  assert (minv mid None w1 s) as Hi1.
  { destruct Hi as [Ha _ Hq Hrt Ho]. split; try done.
    apply (put_gp_refs w t p (set_response_status TLM_OK_RESPONSE)); try done;
      [unfold ref_count|split|lia|]; by autorewrite with gp. }
  assert (shares s (phases w1) t ≤ ref_count p1)%nat as Hr1.
  { unfold p1, ref_count in *. by autorewrite with gp. }
  apply wp_bind, wp_master_bw. intros [[status ph] d] w2 Hbw.
  destruct (pe_begin_resp _ _ _ _ _ Hbw) as (Hpr & Hupd). simpl in Hupd.
  pose proof (minv_private _ _ _ _ _ Hi1 Hpr) as Hi2.
  destruct (mp_payload _ _ Hpr s t p1 (mi_account _ _ _ _ Hi1) Hpos (lookup_insert_eq _ _ _) Hr1)
    as (p2 & Hp2 & Hr2 & Hk2).
  assert (shares s (phases w2) t ≤ ref_count p2)%nat as Hr3.
  { unfold phases. by rewrite (mp_peq _ _ Hpr). }
  assert (∀ b, b = bool_decide (status = TLM_ACCEPTED) →
    wp (modify (set_port (set_responseInProgress b)))
      (λ _, wp (on_memory (release t);; noted_resp a true) Q) (log_call (MBw t BEGIN_RESP status) w2))
    as Hrest.
  { intros b ->. apply wp_modify, wp_bind, wp_zoom.
    eapply wp_release; [apply Hi2|exact Hp2|exact (Nat.lt_le_trans _ _ _ Hpos Hr2)|].
    intros m Hrel. apply wp_bind, wp_modify, wp_ret. eapply (HQ status).
    - eapply minv_responded; [exact Hi2|exact Ht|by rewrite (mp_port _ _ Hpr)|exact Hp2|done| |exact Hrel].
      apply (kp_status _ _ Hk2). unfold p1. by autorewrite with gp.
    - simpl. by rewrite (mp_port _ _ Hpr).
    - simpl. rewrite (mp_history _ _ Hpr). by rewrite <- app_assoc.
    - exists w1. split; [done|]. split; [|by rewrite Hbw]. exists p1. split; [apply lookup_insert_eq|].
      unfold p1. by autorewrite with gp. }
  destruct status; simpl; [by apply Hrest| |by apply Hrest].
  rewrite (Hupd eq_refl). simpl. by apply Hrest.
Qed.

(** The packet of a response that the port made is deleted. *)
Lemma mem_destroy s q w t a :
  mem_ok s q (memory w) → taken s !! t = Some a →
  mem_ok s q (memory (set_memory (Mem (mgr (memory w)) (set_pkts (delete a) (st (memory w)))) w)).
Proof.
  intros Hm Ht. pose proof (me_ok _ _ _ Hm) as [[W1 W2] ? ? ? ? ? ?].
  eapply mem_packets; [exact Hm| |done|].
  - split; try done. split; [done|]. simpl. intros a' k' [_ Hk']%lookup_delete_Some. by eapply W2.
  - intros a' Ha'. simpl. destruct (decide (a' = a)) as [->|Hne]; [right; by exists t|left].
    by rewrite lookup_delete_ne.
Qed.

Lemma minv_memory mid hand w s m :
  minv mid hand w s → mem_ok s (phases w) m → minv mid hand (set_memory m w) s.
Proof. by intros [] Hm. Qed.

Lemma wp_recvTimingResp `{!Peer} mid w s a t k0 (Q : bool → world E → Prop) :
  minv mid None w s → responseInProgress (port w) = false → answers w a t k0 →
  (∀ status w', minv mid None w' (responded s t status) →
     port w' = set_responseInProgress (bool_decide (status = TLM_ACCEPTED)) (port w) →
     history w' = history w ++ [MBw t BEGIN_RESP status; MResp a true] →
     (∃ w1 k p, pkts (st (memory w)) !! a = Some k ∧ gps (st (memory w)) !! t = Some p ∧
        pkts (st (memory w1)) !! a =
          match get_extension (attrs p) with Some _ => Some k0 | None => None end ∧
        has_gp (memory w1) t (λ p, get_response_status (attrs p) = TLM_OK_RESPONSE) ∧
        (fst (nb_transport_bw t BEGIN_RESP (payloadDelay k) w1)).1.1 = status) → Q true w') →
  wp (recvTimingResp a) Q w.
Proof.
  intros Hi Hrip (Htk & k & Hk & Hresp & Hpop) HQ.
  pose proof (Htk s (mi_account _ _ _ _ Hi)) as Ht. pose proof (mi_memory _ _ _ _ Hi) as Hm.
  destruct (me_funded _ _ _ Hm t) as (p & Hp & _).
  { unfold shares. rewrite (bool_decide_true (is_Some (taken s !! t))) by by eexists. lia. }
  unfold recvTimingResp. apply wp_bind, wp_gets. rewrite Hrip.
  apply wp_bind. eapply wp_mpacket; [exact Hk|]. apply wp_bind, wp_check; [done|]. cbv zeta.
  eapply wp_take_response; [exact Hk|exact Hpop|]. set (w1 := put_pkt w a k0).
  assert (minv mid None w1 s) as Hi1 by (apply minv_memory; [done|by eapply mem_put_pkt]).
  apply wp_bind. eapply (wp_mpayload w1 t p); [exact Hp|].
  destruct (get_extension (attrs p)) as [e|] eqn:He.
  - apply wp_bind, wp_ret. eapply wp_begin_resp; [exact Hi1|exact Ht|done|].
    intros status w' Hi' Hp' Hh (w2 & Hpk & Hst). eapply HQ; [exact Hi'|done..|].
    exists w2, k, p. rewrite He, Hpk. do 2 (split; [done|]). split; [|done].
    apply lookup_insert_eq.
  - apply wp_bind, wp_zoom, wp_modify.
    eapply wp_begin_resp; [apply (minv_memory _ _ w1);
      [exact Hi1|apply (mem_destroy s (phases w1) w1 t a); [apply Hi1|exact Ht]]|exact Ht|done|].
    intros status w' Hi' Hp' Hh (w2 & Hpk & Hst). eapply HQ; [exact Hi'|done..|].
    exists w2, k, p. rewrite He, Hpk. do 2 (split; [done|]). split; [|done].
    apply lookup_delete_eq.
Qed.

(** gem5 answers while the port waits for END_RESP. *)
Lemma wp_response_refused w s a (Q : bool → world E → Prop) :
  minv false None w s → responseInProgress (port w) = true → owed s = false →
  (∀ w' s', minv false None w' s' → port w' = set_needToSendRetry true (port w) →
     history w' = history w ++ [MResp a false] → Q false w') →
  wp (recvTimingResp a) Q w.
Proof.
  intros [Ha Hm (begins & ends & Hq & Hrq & Hrs) Hrt Ho] Hrip Howed HQ.
  unfold recvTimingResp. apply wp_bind, wp_gets. rewrite Hrip. rewrite Howed in Hrt. simpl in Hrt.
  apply wp_bind, wp_check; [by rewrite Hrt|]. apply wp_bind, wp_modify, wp_bind, wp_modify, wp_ret.
  apply (HQ _ (Account (requested s) (sending s) (taken s) (answered s) (refused s) true)); [|done..].
  split; [..|done|done].
  - simpl. rewrite account_snoc, Ha. destruct s. simpl in *. by subst.
  - by eapply mem_ok_account.
  - exists begins, ends. split; [done|]. split; [|done]. inversion Hrq; subst; by econstructor.
Qed.

(** *** END_RESP *)

(** What gem5 does while it is told to retry: its responses are taken, until it sends one while another waits
    for END_RESP. *)
Lemma minv_retried `{!Peer} w o w' s :
  minv true None w s → retried w o w' →
  match o with
  | Ok _ => ∃ s' l, minv true None w' s' ∧ history w' = history w ++ l
  | Err e => e = SC_ASSERT "!needToSendRetry"
  end.
Proof.
  intros Hi Hret. revert s Hi.
  assert (∀ w1 s a t k0, minv true None w1 s → answers w1 a t k0 →
    fails (recvTimingResp a) (SC_ASSERT "!needToSendRetry") w1 ∨
    wp (recvTimingResp a) (λ _ w', ∃ s' l, minv true None w' s' ∧ history w' = history w1 ++ l) w1) as Hone.
  { intros w1 s a t k0 Hi Hans. destruct (responseInProgress (port w1)) eqn:Hrip; [left|right].
    - unfold fails, recvTimingResp. erewrite bind_Ok by done. rewrite Hrip, (mi_retry _ _ _ _ Hi), orb_true_r.
      done.
    - eapply wp_recvTimingResp; [exact Hi|exact Hrip|exact Hans|].
      intros status w2 Hi' _ Hl _. by eexists (responded s t status), _. }
  induction Hret as [w1 w2 Hpr|w1 w2 a t k0 b w3 o w4 Hpr Hans Hrun _ IH|w1 w2 a t k0 e w3 Hpr Hans Hrun];
    intros s Hi.
  - exists s, []. rewrite (mp_history _ _ Hpr), app_nil_r. split; [by eapply minv_private|done].
  - destruct (Hone w2 s a t k0) as [Hf|Hwp]; [by eapply minv_private|exact Hans|..].
    { unfold fails in Hf. by rewrite Hrun in Hf. }
    unfold wp in Hwp. rewrite Hrun in Hwp. destruct Hwp as (s' & l & Hi3 & Hl). specialize (IH s' Hi3).
    destruct o as [u|e]; [|done]. destruct IH as (s2 & l2 & Hi4 & Hl2). exists s2, (l ++ l2).
    split; [done|]. by rewrite Hl2, Hl, (mp_history _ _ Hpr), app_assoc.
  - destruct (Hone w2 s a t k0) as [Hf|Hwp]; [by eapply minv_private|exact Hans|..].
    + unfold fails in Hf. rewrite Hrun in Hf. by injection Hf.
    + unfold wp in Hwp. by rewrite Hrun in Hwp.
Qed.

(** The error of a retry in which gem5 sends a response while another one waits for END_RESP. *)
Definition insisted w (e : error) (_ : world E) : Prop :=
  e = SC_ASSERT "!needToSendRetry" ∧ needToSendRetry (port w) = true ∧
  ∃ w0, fst (sendRetryResp w0) = Err e.

Lemma mem_drop s q m t : mem_ok s ((t, END_RESP) :: q) m → mem_ok s q m.
Proof.
  intros [Ho Hf Hu Hst].
  assert (∀ t', shares s q t' ≤ shares s ((t, END_RESP) :: q) t')%nat as Hle.
  { intros t'. unfold shares. rewrite entries_cons.
    rewrite (bool_decide_ext ((t', BEGIN_REQ) ∈ (t, END_RESP) :: q) ((t', BEGIN_REQ) ∈ q)); [lia|].
    rewrite elem_of_cons. split; [by intros [[=]|]|by right]. }
  split; [done|..].
  - intros t' Hpos. specialize (Hle t'). destruct (Hf t' ltac:(lia)) as (p & Hp & Hr).
    exists p. split; [done|lia].
  - intros t' Hin. apply Hu. by right.
  - intros t' [?|Hin]; apply Hst; [by left|]. right. by right.
Qed.

Lemma wpe_handleEndResp `{!Peer} w s t begins (Q : unit → world E → Prop) :
  account_of (history w) = Some s → mem_ok s ((t, END_RESP) :: phases w) (memory w) →
  answered s = None → phases w ≡ₚ ((λ t, (t, BEGIN_REQ)) <$> begins) →
  request_ok (port w) None s begins → responseInProgress (port w) = true →
  needToSendRetry (port w) = owed s →
  (∀ w' s' l, minv false None w' s' →
     history w' = history w ++ (if owed s then MRetryResp :: l else []) → Q tt w') →
  wpe (insisted w) (handleEndResp t) Q w.
Proof.
  intros Ha Hm Hans Hq Hrq Hrip Hrt HQ. unfold handleEndResp, checkTransaction.
  apply wpe_step, wp_gets. rewrite Hrip. apply wpe_step, wp_check; [done|]. apply wpe_step, wp_modify.
  set (w1 := set_port _ w).
  destruct (me_status _ _ _ Hm t) as (p & Hp & Hst); [right; by left|].
  apply wpe_step, wp_bind. eapply (wp_mpayload w1 t p); [exact Hp|].
  apply wp_check; [by apply bool_decide_eq_true|]. apply wpe_step, wp_gets. simpl. rewrite Hrt.
  assert (∀ b s', mem_ok s' (phases w) (memory w) → account_of (history w ++ b) = Some s' →
    answered s' = None → request_ok (port w) None s' begins → owed s' = false →
    ∀ w2, w2 = World (port w1) (memory w1) (peq w1) (now w1) (env w1) (history w ++ b) →
    minv (needToSendRetry (port w)) None w2 s') as Hbase.
  { intros b s' Hm' Ha' Hans' Hrq' How w2 ->. split; simpl; try done.
    - exists begins, []. split; [by rewrite app_nil_r|]. split; [|rewrite Hans'; constructor].
      inversion Hrq'; subst; by econstructor.
    - by rewrite How.
    - congruence. }
  apply mem_drop in Hm. destruct (owed s) eqn:How.
  - set (s1 := Account (requested s) (sending s) (taken s) (answered s) (refused s) false).
    assert (minv true None (log_call MRetryResp w1) s1) as Hi1.
    { rewrite <- Hrt. eapply (Hbase [MRetryResp] s1); try done; [by eapply mem_ok_account| |].
      - rewrite account_snoc, Ha. destruct s. simpl in *. by subst.
      - inversion Hrq; subst; by econstructor. }
    apply wpe_bind. unfold wpe at 1, call_sendRetryResp.
    pose proof (minv_retried _ _ _ _ Hi1 (pe_retry _)) as Hret.
    destruct (sendRetryResp (log_call MRetryResp w1)) as [[[]|e] w2] eqn:Hrun; simpl in Hret.
    2: { split; [done|]. split; [by rewrite Hrt|]. eexists. by rewrite Hrun. }
    destruct Hret as (s2 & l & Hi2 & Hl). apply wpe_modify. apply (HQ _ s2 l); [|simpl; rewrite Hl; simpl; by rewrite <- app_assoc].
    destruct Hi2 as [Ha2 Hm2 (b2 & e2 & Hq2 & Hrq2 & Hrs2) Hrt2 Ho2].
    assert (owed s2 = false) as How2 by (destruct (owed s2); [by destruct (Ho2 eq_refl)|done]).
    split; simpl; try done; [|by rewrite How2|by rewrite How2].
    exists b2, e2. split; [done|]. split; [|done]. inversion Hrq2; subst; by econstructor.
  - apply wpe_ret. apply (HQ _ s []); [|by rewrite app_nil_r].
    rewrite <- Hrt. eapply (Hbase [] s); try done; [by rewrite app_nil_r|]. simpl.
    by rewrite app_nil_r.
Qed.

(** *** The queue *)

(** Catching up and notifying change the time only. *)
Record mstays w w' : Prop := {
  ms_port : port w' = port w;
  ms_memory : memory w' = memory w;
  ms_peq : peq w' = peq w;
  ms_history : history w' = history w;
}.

Lemma minv_stays mid hand w w' s : minv mid hand w s → mstays w w' → minv mid hand w' s.
Proof.
  intros [Ha Hm Hq Hr Ho] [Hp Hme Hpq Hh]. unfold phases in *.
  split; unfold phases; rewrite ?Hp, ?Hme, ?Hpq, ?Hh; done.
Qed.

(** gem5 may change a packet. *)
Lemma packet_private w w' a k :
  is_Some (pkts (st (memory w)) !! a) → port w' = port w → peq w' = peq w → history w' = history w →
  memory w' = memory (put_pkt w a k) → mprivate w w'.
Proof.
  intros [k1 Ha] Hp Hq Hh Hm. split; [done..| | |].
  - intros Hok. rewrite Hm. by eapply put_pkt_ok.
  - intros s t p _ _ Hg Hr. exists p. rewrite Hm. split; [done|]. split; [done|apply intact_refl].
  - intros t p e _ _ _ Hk. rewrite Hm. simpl. destruct (decide (a = Packet e)) as [<-|Hne].
    + rewrite lookup_insert_eq. by eexists.
    + by rewrite lookup_insert_ne.
Qed.

(** gem5 is not ahead of SystemC, and has missed no event. *)
Definition on_time w : Prop := gem5_tick w ≤ systemc_time w ∧ no_event_missed w.

Lemma request_sent_stays w w1 w2 w' t a ok :
  request_sent w1 t a ok w2 → history w1 = history w → mstays w2 w' → request_sent w t a ok w'.
Proof. unfold request_sent. intros [Hh Hp] Hw [Hp' _ _ Hh']. rewrite Hp', Hh', <- Hw. done. Qed.

(** What the delivery of an entry does. *)
Definition delivery w t (ph : tlm_phase) w' : Prop :=
  match ph with
  | BEGIN_REQ => ∃ a ok w1 p k, gps (st (memory w)) !! t = Some p ∧ packet_in w t p a k ∧
      pkts (st (memory w1)) !! a = Some (pushSenderState (TlmSenderState t) k) ∧
      fst (sendTimingReq a w1) = ok ∧ request_sent w t a ok w'
  | END_RESP => ∃ l, history w' = history w ++ (if needToSendRetry (port w) then MRetryResp :: l else [])
  | _ => False
  end.

(** An entry, taken out. *)
Lemma queue_entry w i t ph d begins ends :
  peq w !! i = Some (t, ph, d) →
  phases w ≡ₚ ((λ t, (t, BEGIN_REQ)) <$> begins) ++ ((λ t, (t, END_RESP)) <$> ends) →
  (t, ph) :: (fst <$> delete i (peq w)) ≡ₚ phases w ∧
  (ph = BEGIN_REQ ∧ t ∈ begins ∨ ph = END_RESP ∧ t ∈ ends).
Proof.
  intros Hi Hq. assert ((t, ph) :: (fst <$> delete i (peq w)) ≡ₚ phases w) as Hd.
  { change (fst <$> ((t, ph, d) :: delete i (peq w)) ≡ₚ phases w). apply fmap_Permutation.
    symmetry. by apply delete_Permutation. }
  split; [done|]. assert ((t, ph) ∈ phases w) as Hin by (rewrite <- Hd; by left).
  rewrite Hq, elem_of_app, !list_elem_of_fmap in Hin.
  destruct Hin as [(t' & [= <- ->] & Ht)|(t' & [= <- ->] & Ht)]; auto.
Qed.

Context `{!TimeKeeperLaws (world E) mstays}.

Lemma wpe_master_deliver `{!Peer} w s i t ph d :
  minv false None w s → peq w !! i = Some (t, ph, d) → on_time (set_peq (delete i (peq w)) w) →
  wpe (λ e w', ph = END_RESP ∧ insisted w e w') (peq_deliver i)
    (λ _ w', (∃ s', minv false None w' s') ∧ delivery w t ph w') w.
Proof.
  intros [Ha Hm (begins & ends & Hq & Hrq & Hrs) Hrt Ho] Hi [Htime Hmiss].
  destruct (queue_entry _ _ _ _ _ _ _ Hi Hq) as [Hd Hin].
  unfold peq_deliver. apply wpe_step, wp_gets, wpe_step. eapply wp_lift_option; [exact Hi|].
  apply wpe_step, wp_modify. simpl. set (w0 := set_peq _ w) in *. unfold peq_cb.
  apply wpe_step. eapply wp_mono; [by apply catchup_ok|]. intros _ w1 [Htick [Hp1 Hme1 Hpq1 Hh1]].
  apply wpe_step. unfold wp at 1, get. apply wpe_step, wp_check; [by apply Z.eqb_eq|].
  assert (phases w1 = (fst <$> delete i (peq w))) as Hph1 by (unfold phases; by rewrite Hpq1).
  rewrite <- Hph1 in Hd. rewrite <- Hd in Hm.
  destruct Hin as [[-> Hin]|[-> Hin]].
  - apply wpe_step. inversion Hrq; subst; try by apply not_elem_of_nil in Hin.
    apply list_elem_of_singleton in Hin as ->. rewrite Hq in Hd. simpl in Hd. apply Permutation_cons_inv in Hd.
    simpl in Hp1, Hme1, Hh1.
    eapply (wp_handleBeginReq w1 s); rewrite ?Hh1, ?Hp1, ?Hme1; try done.
    intros w2 s2 a ok w3 p k Hi2 Hp Hpk Hk Hok Hsent. apply wpe_wp.
    eapply wp_mono; [apply notify_ok|]. intros [] w4 Hstays. split; [exists s2; by eapply minv_stays|].
    exists a, ok, w3, p, k. split; [done|]. split; [|split; [done|split; [done|by eapply request_sent_stays]]].
    unfold packet_in in *. by rewrite Hme1 in Hpk.
  - apply wpe_bind. assert (answered s = None ∧ responseInProgress (port w) = true ∧ ends = [t]) as (Hans & Hrip & ->).
    { inversion Hrs; subst; try by apply not_elem_of_nil in Hin.
      apply list_elem_of_singleton in Hin as ->. done. }
    rewrite Hq, Permutation_app_comm in Hd. simpl in Hd. apply Permutation_cons_inv in Hd.
    simpl in Hp1, Hme1, Hh1. rewrite orb_false_r in Hrt.
    eapply (wpe_mono _ (insisted w1)); [eapply (wpe_handleEndResp w1 s t begins); rewrite ?Hh1, ?Hp1, ?Hme1; try done| |
      by intros ? ? HQ; exact HQ].
    2: { intros e w' (He & Hr & Hw0). split; [done|]. split; [done|]. by rewrite Hp1 in Hr. }
    intros w2 s2 l Hi2 Hh2. apply wpe_wp. eapply wp_mono; [apply notify_ok|]. intros [] w4 Hst.
    split; [exists s2; by eapply minv_stays|]. exists l. by rewrite (ms_history _ _ Hst), Hh2, Hrt.
Qed.

(** A delivery to a gem5 that waits for END_RESP between its responses, or of a request. *)
Lemma wp_master_deliver `{!Peer} w s i t ph d :
  minv false None w s → peq w !! i = Some (t, ph, d) → on_time (set_peq (delete i (peq w)) w) →
  ph = BEGIN_REQ ∨ Courteous →
  wp (peq_deliver i) (λ _ w', (∃ s', minv false None w' s') ∧ delivery w t ph w') w.
Proof.
  intros Hi He Ht Hor. eapply wp_of_wpe; [by eapply wpe_master_deliver|].
  intros e w' (-> & _ & _ & w0 & Hw0). destruct Hor as [?|Hc]; [done|]. by rewrite (co_retry w0) in Hw0.
Qed.
End master.
