(* ===== verification/MasterFunctions.v ===== *)
(** * The functions of the master port, one by one

    What [nb_transport_fw], [generatePacket], [recvTimingResp], [handleEndResp] and [peq_cb] return on
    every branch, errors included; and the concrete environment that the witnesses run in. *)

From S2P Require Import Prelude Tlm Concrete MemManager EventLoop MasterPort MasterProtocol.
From S2P Require Import MasterPortProps.
Import Master.

Section functions.
Context `{TlmPayloadLaws, Gem5PacketLaws} {E : Type} `{!MasterEnv E} `{!TimeKeeper (world E)}.
Implicit Types (w : world E) (t a : ptr) (p : payload).

(** A transaction with byte enables or a burst is refused at once with the status that says why,
    and nothing else is done; every other transaction is acquired and queued. *)
Theorem transaction_checked t ph d w p :
  gps (st (memory w)) !! t = Some p →
  let a := attrs p in
  nb_transport_fw t ph d w =
    if negb (get_byte_enable_ptr a =? 0)
    then (Ok (TLM_COMPLETED, ph, d),
          log_call (MFw t ph TLM_COMPLETED)
            (put_gp w t (set_response_status TLM_BYTE_ENABLE_ERROR_RESPONSE p)))
    else if get_streaming_width a <? get_data_length a
    then (Ok (TLM_COMPLETED, ph, d),
          log_call (MFw t ph TLM_COMPLETED)
            (put_gp w t (set_response_status TLM_BURST_ERROR_RESPONSE p)))
    else (Ok (TLM_ACCEPTED, ph, d), queued w t p ph d).
Proof.
  intros Hp a. unfold nb_transport_fw, acquire, gp_do, gp_at, mbind, M_bind, zoom. simpl.
  rewrite Hp. fold a. destruct (negb _); simpl; [by rewrite Hp|].
  destruct (_ <? _); simpl; by rewrite Hp.
Qed.

(** A new packet asks for what the transaction asks for; a transaction that is neither a read nor
    a write has no packet. *)
Theorem packet_generated t w p :
  store_wf (st (memory w)) → gps (st (memory w)) !! t = Some p →
  match get_command (attrs p) with
  | TLM_IGNORE_COMMAND =>
      fails (generatePacket t)
        (SC_FATAL "SCMasterPort" "received transaction with unsupported command") w
  | cmd =>
      ∃ w' a k, generatePacket t w = (Ok a, w') ∧ pkts (st (memory w)) !! a = None ∧
        pkts (st (memory w')) = <[a := k]> (pkts (st (memory w))) ∧
        getAddr k = get_address (attrs p) ∧ getSize k = get_data_length (attrs p) ∧
        getPtr k = get_data_ptr (attrs p) ∧ requestorId k = owner_id ∧
        isRead k = bool_decide (cmd = TLM_READ_COMMAND) ∧
        isWrite k = bool_decide (cmd = TLM_WRITE_COMMAND)
  end.
Proof.
  intros [_ Hwf] Hp.
  assert (pkts (st (memory w)) !! next_ptr (st (memory w)) = None) as Hfresh.
  { destruct (pkts (st (memory w)) !! _) eqn:Hk; [|done]. apply Hwf in Hk. lia. }
  destruct (get_command (attrs p)) eqn:Hc; unfold fails, generatePacket, gp_at, mbind, M_bind, zoom;
    simpl; rewrite Hp, Hc; simpl; [| |done].
  all: eexists _, _, _; split; [reflexivity|]; split; [done|]; split; [reflexivity|].
  all: by autorewrite with pkt.
Qed.

(** While a response waits for END_RESP the next one is refused, and only the retry is noted; a
    second refusal before the retry is a failed assertion. *)
Theorem response_refused w a :
  responseInProgress (port w) = true →
  if needToSendRetry (port w)
  then fails (recvTimingResp a) (SC_ASSERT "!needToSendRetry") w
  else recvTimingResp a w = (Ok false, log_call (MResp a false) (set_port (set_needToSendRetry true) w)).
Proof.
  intros Hb. unfold fails, recvTimingResp, mbind, M_bind, gets, check. simpl. rewrite Hb.
  by destruct (needToSendRetry (port w)).
Qed.

(** [handleEndResp] frees the response channel, and asks gem5 for a retry exactly if one is owed.
    The flag is cleared only after [sendRetryResp] has returned: while gem5 sends its responses
    again from inside that call, the flag still says that a retry is owed; if the port fails there, the
    run ends. *)
Theorem end_resp_retries w t p :
  responseInProgress (port w) = true → gps (st (memory w)) !! t = Some p →
  get_response_status (attrs p) = TLM_OK_RESPONSE →
  let w1 := set_port (set_responseInProgress false) w in
  handleEndResp t w =
    (if needToSendRetry (port w)
     then match sendRetryResp (log_call MRetryResp w1) with
          | (Ok _, w2) => (Ok tt, set_port (set_needToSendRetry false) w2)
          | (Err e, w2) => (Err e, w2)
          end
     else (Ok tt, w1)) ∧
  (needToSendRetry (port w) = true →
   needToSendRetry (port (log_call MRetryResp w1)) = true).
Proof.
  intros Hb Hp Hs w1. split; [|done].
  unfold handleEndResp, checkTransaction, gp_at, mbind, M_bind, gets, check, modify, zoom. simpl.
  rewrite Hb. simpl. rewrite Hp, Hs. simpl. destruct (needToSendRetry (port w)) eqn:Hn.
  - unfold call_sendRetryResp, w1. destruct w as [? [] ? ? ? ?]. simpl.
    by destruct (sendRetryResp _) as [[[]|e] w2].
  - unfold w1, mret, M_ret. f_equal. by destruct w as [? [] ? ? ? ?].
Qed.

(** C39: The reference that [nb_transport_fw] takes for END_RESP is never given back: after END_RESP has
    come and was handled, the transaction has one reference more than before it came. *)
Theorem end_resp_leaks w t p ph d w1 w2 :
  gps (st (memory w)) !! t = Some p → get_byte_enable_ptr (attrs p) = 0 →
  get_data_length (attrs p) ≤ get_streaming_width (attrs p) →
  get_response_status (attrs p) = TLM_OK_RESPONSE →
  responseInProgress (port w) = true → needToSendRetry (port w) = false →
  nb_transport_fw t ph d w = (Ok (TLM_ACCEPTED, ph, d), w1) → handleEndResp t w1 = (Ok tt, w2) →
  has_gp (memory w2) t (λ p2, ref_count p2 = S (ref_count p)).
Proof.
  intros Hp Hbe Hw Hs Hb Hn Hfw Hend.
  unfold nb_transport_fw, acquire, gp_do, gp_at, mbind, M_bind, zoom in Hfw. simpl in Hfw.
  rewrite Hp in Hfw. simpl in Hfw. rewrite Hbe, (proj2 (Z.ltb_ge _ _)) in Hfw by done.
  simpl in Hfw. rewrite Hp in Hfw. simpl in Hfw. injection Hfw as <-.
  unfold handleEndResp, checkTransaction, gp_at, mbind, M_bind, zoom in Hend. simpl in Hend.
  rewrite Hb in Hend. simpl in Hend. rewrite lookup_insert_eq in Hend. simpl in Hend.
  rewrite attrs_inc in Hend. simpl in Hend. rewrite Hs in Hend. simpl in Hend.
  rewrite Hn in Hend. injection Hend as <-.
  exists (gp_inc p). split; [apply lookup_insert_eq|]. unfold ref_count. by autorewrite with gp.
Qed.

(** Every event of the queue is handled when gem5 has been caught up with SystemC, by the handler
    of its phase; a phase without a handler is a panic. *)
Theorem callback_caught_up (R : world E → world E → Prop) `{!TimeKeeperLaws (world E) R} w t ph :
  gem5_tick w ≤ systemc_time w → no_event_missed w →
  ∃ w1, R w w1 ∧ gem5_tick w1 = systemc_time w1 ∧
    peq_cb t ph w =
      (match ph with
       | BEGIN_REQ => handleBeginReq t;; tk_notify
       | END_RESP => handleEndResp t;; tk_notify
       | _ => fail (PANIC "unimplemented phase in callback")
       end) w1.
Proof.
  intros Hlag Hmiss. destruct (wp_Ok _ _ _ (catchup_ok w Hlag Hmiss)) as ([] & w1 & Hrun & Ht & HR).
  exists w1. split; [done|]. split; [done|]. unfold peq_cb. erewrite bind_Ok by exact Hrun.
  erewrite bind_Ok by done. rewrite Ht, Z.eqb_refl. erewrite bind_Ok by done. by destruct ph.
Qed.
End functions.

(** ** Witnesses *)

(** gem5 takes requests if the flag is set; the initiator accepts everything.  The number is gem5's
    time. *)
#[local] Instance polite : MasterEnv (bool * Z) := {
  owner_id := 7;
  sendTimingReq _ w := (fst (env w), w);
  sendRetryResp w := (Ok tt, w);
  sendAtomic _ w := (0, w);
  sendFunctional _ w := w;
  nb_transport_bw _ ph d w := ((TLM_ACCEPTED, ph, d), w);
  sc_time_ps v := v;
}.

#[local] Instance polite_peer : Peer.
Proof.
  assert (∀ w : world (bool * Z), mprivate w w) as Hrefl.
  { intros w. split; try done. intros s t p _ _ Hp Hr. exists p. split; [done|]. split; [done|apply intact_refl]. }
  split; intros; simpl in *; simplify_eq; [apply Hrefl|by split|by split|by apply rt_quiet|].
  split; [apply Hrefl|]. intros t p Hp. by exists p.
Qed.

#[local] Instance polite_time : TimeKeeper (world (bool * Z)) := {
  gem5_tick w := (env w).2;
  systemc_time := now;
  no_event_missed _ := True;
  tk_catchup := modify (λ w, World (port w) (memory w) (peq w) (now w) ((env w).1, now w) (history w));
  tk_notify := mret tt;
}.

#[local] Instance polite_time_laws : TimeKeeperLaws (world (bool * Z)) mstays.
Proof. by split. Qed.

Definition gp_of (e : option Gem5Extension) (refs width : nat) : payload :=
  GpAttributes 64 TLM_READ_COMMAND 4096 8 (Z.of_nat width) 0 TLM_OK_RESPONSE true refs e.
Definition master_memory (e : option Gem5Extension) (refs : nat) (k : packet) : mem :=
  Mem {| numberOfAllocations := 1; numberOfFrees := 0; freePayloads := [] |}
      (Store {[ 5%positive := gp_of e refs 8 ]} {[ 3%positive := k ]} 10).
Definition ext3 : option Gem5Extension := Some {| Packet := 3; coreId := Some 0 |}.
Definition master (takes : bool) (p : SCMasterPort) (m : mem) : world (bool * Z) :=
  World p m [] 100 (takes, 90) [].

Lemma master_memory_ok e refs k : (0 < refs)%nat → mm_ok (master_memory e refs k).
Proof.
  intros Hr. split; simpl; try done; try constructor; simpl; try done; try set_solver.
  - intros t p [<- <-]%lookup_singleton_Some. lia.
  - intros t p [<- <-]%lookup_singleton_Some. lia.
  - intros t p [<- <-]%lookup_singleton_Some. unfold ref_count. simpl. lia.
  - by intros t p [<- <-]%lookup_singleton_Some.
Qed.

Lemma transaction_checked_witness :
  fst (nb_transport_fw 5 BEGIN_REQ 0
    (master true SCMasterPort_new (Mem MemoryManager_new
       (Store {[ 5%positive := gp_of None 1 4 ]} ∅ 10)))) = Ok (TLM_COMPLETED, BEGIN_REQ, 0).
Proof. rewrite (transaction_checked 5 BEGIN_REQ 0 _ (gp_of None 1 4)); reflexivity. Defined.

Lemma packet_generated_witness :
  ∃ w' a k, generatePacket 5 (master true SCMasterPort_new (master_memory None 1 (read_request 5 64 8)))
    = (Ok a, w') ∧ pkts (st (memory w')) !! a = Some k ∧ getAddr k = 64.
Proof.
  destruct (packet_generated 5 (master true SCMasterPort_new
    (master_memory None 1 (read_request 5 64 8))) (gp_of None 1 8)) as (w' & a & k & Hrun & _ & Hk & Ha & _).
  - apply (master_memory_ok None 1). lia.
  - reflexivity.
  - exists w', a, k. split; [done|]. rewrite Hk, lookup_insert_eq. done.
Defined.

(** The response to a request that the slave port sent: the transaction's reference is on top. *)
Definition response3 : packet :=
  makeResponse (pushSenderState (TlmSenderState 5) (read_request 5 64 8)).

Lemma response_refused_witness :
  fails (recvTimingResp 3) (SC_ASSERT "!needToSendRetry")
    (master true (set_needToSendRetry true (set_responseInProgress true SCMasterPort_new))
       (master_memory ext3 2 response3)).
Proof.
  apply (response_refused (master true (set_needToSendRetry true
    (set_responseInProgress true SCMasterPort_new)) (master_memory ext3 2 response3)) 3).
  reflexivity.
Defined.

Definition answering : world (bool * Z) :=
  master true (set_responseInProgress true SCMasterPort_new) (master_memory ext3 1 response3).

Lemma end_resp_retries_witness :
  handleEndResp 5 answering = (Ok tt, set_port (set_responseInProgress false) answering).
Proof. apply (end_resp_retries answering 5 (gp_of ext3 1 8)); reflexivity. Defined.

Lemma end_resp_leaks_witness :
  has_gp (memory (snd (handleEndResp 5 (snd (nb_transport_fw 5 END_RESP 0 answering))))) 5
    (λ p, ref_count p = 2%nat).
Proof.
  apply (end_resp_leaks answering 5 (gp_of ext3 1 8) END_RESP 0
    (snd (nb_transport_fw 5 END_RESP 0 answering))); try reflexivity.
Defined.

Lemma callback_caught_up_witness :
  ∃ w1, mstays answering w1 ∧ gem5_tick w1 = systemc_time w1 ∧
    peq_cb 5 END_RESP answering = (handleEndResp 5;; tk_notify) w1.
Proof. apply (callback_caught_up mstays answering 5 END_RESP); [simpl; lia|done]. Defined.
