(* ===== verification/MasterAccess.v ===== *)
(** * Blocking and debug accesses through the master port

    [b_transport], which the socket is given when gem5 is in atomic mode, and [transport_dbg]: one call of
    gem5 each, with the packet of the transaction or one that lives only for the call. *)

From S2P Require Import Prelude Tlm Concrete MemManager EventLoop MasterPort MasterProtocol.
From S2P Require Import MasterPortProps MasterFunctions.
Import Master.

Section access.
Context `{TlmPayloadLaws, Gem5PacketLaws} {E : Type} `{!MasterEnv E} `{!TimeKeeper (world E)}.
Implicit Types (w : world E) (t a : ptr) (m : mem) (p : payload) (k : packet) (s : account) (q : queue).

(** The transaction has a packet, or gets one. *)
Definition carries m p : Prop :=
  match get_extension (attrs p) with
  | Some e => is_Some (pkts (st m) !! Packet e)
  | None => get_command (attrs p) ≠ TLM_IGNORE_COMMAND
  end.

(** [w] with a packet gone. *)
Definition drop_pkt w a : world E :=
  set_memory (Mem (mgr (memory w)) (set_pkts (delete a) (st (memory w)))) w.

(** *** Debug transports, in the closed system *)

Lemma minv_log mid hand w s c :
  minv mid hand w s → account_step s c = Some s → minv mid hand (log_call c w) s.
Proof. intros [Ha Hm Hq Hr Ho] Hc. split; try done. simpl. by rewrite account_snoc, Ha. Qed.

(** A packet that no queued request carries may go. *)
Lemma mem_drop_pkt s q w a :
  mem_ok s q (memory w) →
  (∀ t p e, (t, BEGIN_REQ) ∈ q → gps (st (memory w)) !! t = Some p → get_extension (attrs p) = Some e →
     a ≠ Packet e) →
  mem_ok s q (memory (drop_pkt w a)).
Proof.
  intros [Hok Hf Hu Hst] Ha. pose proof Hok as [[W1 W2] ? ? ? ? ? ?]. split; try done.
  - split; try done. split; [done|]. simpl. intros a' k' [_ Hk']%lookup_delete_Some. by eapply W2.
  - intros t Hin. destruct (Hu t Hin) as (p & Hp & Hus). exists p. split; [done|].
    eapply usable_intact; [exact Hus|apply intact_refl|]. intros e He Hk _. simpl.
    rewrite lookup_delete_ne; [done|]. by eapply Ha.
Qed.

(** The packets of queued requests existed before the packet [a] was made. *)
Lemma fresh_not_queued w w1 s a :
  mem_ok s (phases w) (memory w) → account_of (history w) = Some s → pkts (st (memory w)) !! a = None →
  gps (st (memory w1)) = gps (st (memory w)) → phases w1 = phases w → history w1 = history w →
  ∀ w2, mprivate w1 w2 → ∀ t p e, (t, BEGIN_REQ) ∈ phases w → gps (st (memory w2)) !! t = Some p →
    get_extension (attrs p) = Some e → a ≠ Packet e.
Proof.
  intros Hm Hs Ha Hg Hph Hh w2 Hpr t p e Hin Hp He ->.
  destruct (me_usable _ _ _ Hm t Hin) as (p0 & Hp0 & Hus).
  pose proof (shares_in s _ _ _ Hin) as Hpos. destruct (me_funded _ _ _ Hm t Hpos) as (p1 & Hp1 & Hr).
  simplify_eq. destruct (mp_payload _ _ Hpr s t p0) as (p' & Hp' & _ & Hin'); rewrite ?Hh, ?Hph, ?Hg; try done.
  simplify_eq. unfold usable in Hus. rewrite <- (kp_extension _ _ Hin'), He, Ha in Hus.
  by destruct Hus as [[] _].
Qed.

Context `{!Peer}.

Lemma wp_transport_dbg w s t p (Q : Z → world E → Prop) :
  minv false None w s → gps (st (memory w)) !! t = Some p → carries (memory w) p →
  (∀ a k w', packet_in w t p a k → minv false None w' s → port w' = port w → peq w' = peq w →
     history w' = history w ++ [MFunctional a] →
     (get_extension (attrs p) = None → pkts (st (memory w')) !! a = None) →
     Q (get_data_length (attrs p)) w') →
  wp (transport_dbg t) Q w.
Proof.
  intros Hi Hp Hc HQ. unfold transport_dbg. apply wp_bind. eapply wp_mpayload; [exact Hp|].
  unfold packet_in, carries in *.
  assert (∀ a w1, minv false None w1 s → port w1 = port w → peq w1 = peq w → history w1 = history w →
    gps (st (memory w1)) = gps (st (memory w)) →
    let w2 := sendFunctional a w1 in
    mprivate w1 w2 ∧ minv false None (log_call (MFunctional a) w2) s ∧ port w2 = port w ∧ peq w2 = peq w ∧
    history w2 = history w ∧ ∃ p', gps (st (memory w2)) !! t = Some p' ∧
      get_data_length (attrs p') = get_data_length (attrs p)) as Hcall.
  { intros a w1 Hi1 Hpo Hpq Hh Hg w2. destruct (pe_functional a w1) as [Hpr Hlen].
    destruct (Hlen t p) as (p' & Hp' & Hl); [by rewrite Hg|]. split; [done|].
    split; [apply minv_log; [by eapply minv_private|by destruct s]|].
    split; [rewrite <- Hpo; apply (mp_port _ _ Hpr)|]. split; [rewrite <- Hpq; apply (mp_peq _ _ Hpr)|].
    split; [rewrite <- Hh; apply (mp_history _ _ Hpr)|]. by exists p'. }
  destruct (get_extension (attrs p)) as [e|] eqn:He.
  - destruct Hc as [k Hk]. destruct (Hcall (Packet e) w) as (_ & Hi2 & Hpo & Hpq & Hh & p' & Hp' & Hl); [done..|].
    apply wp_bind. unfold wp at 1, call_sendFunctional, getPacket.
    apply wp_bind. eapply wp_mpayload; [exact Hp'|]. apply wp_ret. rewrite Hl.
    apply (HQ (Packet e) k); simpl; [done|done|done|done|by rewrite Hh|done].
  - do 2 apply wp_bind. eapply wp_fresh_packet; [apply Hi|exact Hp|exact Hc|].
    intros a k m [Ha Hk] Hak _ Hg Hm. set (w1 := set_memory m w).
    destruct (Hcall a w1) as (Hpr & Hi2 & Hpo & Hpq & Hh & p' & Hp' & Hl);
      [by apply minv_memory|done..|exact Hg|].
    apply wp_bind. unfold wp at 1, call_sendFunctional. unfold destroyPacket. apply wp_zoom, wp_modify.
    set (w2 := log_call _ _) in *. change (set_memory _ w2) with (drop_pkt w2 a).
    apply wp_bind. eapply wp_mpayload; [exact Hp'|]. apply wp_ret. rewrite Hl.
    apply (HQ a k); simpl; [done| |done|done|by rewrite Hh|intros _; apply lookup_delete_eq].
    apply (minv_memory _ _ w2); [exact Hi2|]. apply mem_drop_pkt; [apply Hi2|].
    intros t' p1 e Hin. apply (fresh_not_queued w w1 s a (mi_memory _ _ _ _ Hi)
      (mi_account _ _ _ _ Hi) Ha Hg eq_refl eq_refl _ Hpr).
    unfold phases in *. simpl in Hin. by rewrite Hpq in Hin.
Qed.

(** *** Blocking transports *)

Lemma mem_ok_idle m : mm_ok m → mem_ok no_account [] m.
Proof.
  intros Hm. split; [done|..].
  - intros t Hpos. unfold shares in Hpos. simpl in Hpos. rewrite lookup_empty in Hpos.
    rewrite bool_decide_false in Hpos by by intros []. simpl in Hpos. lia.
  - by intros t ?%not_elem_of_nil.
  - by intros t [|?%not_elem_of_nil].
Qed.

(** The library makes a time of a whole number of picoseconds without loss while that has at most 52 bits. *)
Class ExactPicoseconds : Prop := { exact_ps v : 0 ≤ v < 2 ^ 52 → sc_time_ps v = v }.

Lemma to_double_small n : n < 2 ^ 53 → to_double n = n.
Proof. intros Hn. unfold to_double. by rewrite (proj2 (Z.ltb_lt _ _)). Qed.

(** What the conversion of ticks gives. *)
Lemma ps_of_ticks_exact `{!ExactPicoseconds} ticks : 0 ≤ ticks < 2 ^ 52 → ps_of_ticks ticks = ticks.
Proof.
  intros Ht. unfold ps_of_ticks. change as_int_ps with 1. rewrite Z.div_1_r, to_double_small by lia.
  by apply exact_ps.
Qed.

(** C32: A blocking transport is one atomic access of gem5, with the packet of the transaction or with a new one
    that asks for the same and is deleted when gem5 has answered: its status is OK, and the time that gem5's
    ticks make - through a double and the library's conversion - is added to its delay, in 64 bits.  So it
    takes as many picoseconds longer as gem5 took ticks if these are fewer than 2^52 and the sum has 64 bits.
    A packet that comes back without the response it needs is a panic. *)
Theorem blocking_request t d w p :
  mm_ok (memory w) → gps (st (memory w)) !! t = Some p → carries (memory w) p →
  ∃ a k m, packet_in w t p a k ∧ pkts (st m) !! a = Some k ∧ gps (st m) = gps (st (memory w)) ∧
    ∀ ticks w1 k1 p1, sendAtomic a (set_memory m w) = (ticks, w1) →
      pkts (st (memory w1)) !! a = Some k1 → gps (st (memory w1)) !! t = Some p1 →
      let w2 := log_call (MAtomic a) w1 in
      let w3 := put_gp match get_extension (attrs p) with Some _ => w2 | None => drop_pkt w2 a end t
                  (set_response_status TLM_OK_RESPONSE p1) in
      if needsResponse k1 && negb (isResponse k1)
      then fails (b_transport t d) (PANIC "Packet sending failed!") w
      else b_transport t d w = (Ok (wrap64 (d + sc_time_ps (to_double ticks))), w3) ∧
           (ExactPicoseconds → 0 ≤ ticks < 2 ^ 52 → 0 ≤ d → d + ticks < 2 ^ 64 →
            b_transport t d w = (Ok (d + ticks), w3)).
Proof.
  intros Hm Hp Hc. assert (usable no_account (memory w) p) as Hus.
  { unfold usable, carries in *. destruct (get_extension (attrs p)); [|done]. split; [done|].
    intros t' a Ht. simpl in Ht. by rewrite lookup_empty in Ht. }
  assert (wp (packet_of t) (λ a w', ∃ k m, w' = set_memory m w ∧ packet_in w t p a k ∧
    pkts (st m) !! a = Some k ∧ gps (st m) = gps (st (memory w))) w) as Hwp.
  { eapply wp_packet_of; [by apply mem_ok_idle|exact Hp|exact Hus|]. intros a k m Ha Hk _ Hg _.
    by exists k, m. }
  destruct (wp_Ok _ _ _ Hwp) as (a & w' & Hpk & k & m & -> & Ha & Hk & Hg).
  exists a, k, m. do 3 (split; [done|]). intros ticks w1 k1 p1 Hat Hk1 Hp1 w2 w3.
  assert (∀ w, set_memory (Mem (mgr (memory w)) (st (memory w))) w = w) as Heta by by intros [? [] ? ? ? ?].
  assert (∀ w p t, gps (st (memory w)) !! t = Some p → on_store (gp_at t) w = (Ok p, w)) as Hgp.
  { intros w0 p0 t0 Hpt. unfold zoom, gp_at. rewrite Hpt. by rewrite Heta. }
  assert (on_store (pkt_at a) w2 = (Ok k1, w2)) as Hka.
  { unfold zoom, pkt_at. change (memory w2) with (memory w1). rewrite Hk1. by rewrite <- (Heta w2). }
  assert (ps_of_ticks ticks = sc_time_ps (to_double ticks)) as Hps
    by (unfold ps_of_ticks; change as_int_ps with 1; by rewrite Z.div_1_r).
  assert (b_transport t d w = (Ok (wrap64 (d + ps_of_ticks ticks)), w3) →
    b_transport t d w = (Ok (wrap64 (d + sc_time_ps (to_double ticks))), w3) ∧
    (ExactPicoseconds → 0 ≤ ticks < 2 ^ 52 → 0 ≤ d → d + ticks < 2 ^ 64 →
     b_transport t d w = (Ok (d + ticks), w3))) as Hdone.
  { intros Hrun. split; [by rewrite Hrun, Hps|]. intros Hex Ht Hd Hsum. rewrite Hrun, ps_of_ticks_exact by done.
    rewrite wrap64_small; [done|split; lia]. }
  assert (if needsResponse k1 && negb (isResponse k1)
          then fails (b_transport t d) (PANIC "Packet sending failed!") w
          else b_transport t d w = (Ok (wrap64 (d + ps_of_ticks ticks)), w3)) as Hrun;
    [|by destruct (needsResponse k1 && negb (isResponse k1)); [|apply Hdone]].
  unfold fails, b_transport. erewrite !bind_Ok by (by apply Hgp). erewrite !bind_Ok by exact Hpk.
  erewrite !(bind_Ok (call_sendAtomic a)) by (unfold call_sendAtomic; by rewrite Hat). fold w2.
  erewrite !(bind_Ok (on_store (pkt_at a))) by (exact Hka).
  destruct (needsResponse k1 && negb (isResponse k1)); [done|].
  erewrite bind_Ok by done.
  assert (∀ w4, gps (st (memory w4)) !! t = Some p1 →
    (on_store (gp_do t (set_response_status TLM_OK_RESPONSE));; mret (wrap64 (d + ps_of_ticks ticks))) w4 =
    (Ok (wrap64 (d + ps_of_ticks ticks)), put_gp w4 t (set_response_status TLM_OK_RESPONSE p1))) as Hend.
  { intros w4 Hw4. unfold zoom, gp_do, gp_at, mbind, M_bind, mret, M_ret, modify. simpl. by rewrite Hw4. }
  destruct (get_extension (attrs p)); (erewrite bind_Ok by done); by apply Hend.
Qed.
End access.

(** ** Witness *)

(** gem5 answers an atomic access after 30 ticks. *)
#[local] Instance obliging : MasterEnv unit := {
  owner_id := 7;
  sendTimingReq _ w := (true, w);
  sendRetryResp w := (Ok tt, w);
  sendAtomic a w := (30, put_pkt w a (makeResponse (read_request 5 64 8)));
  sendFunctional _ w := w;
  nb_transport_bw _ ph d w := ((TLM_ACCEPTED, ph, d), w);
  sc_time_ps v := v;
}.

Lemma obliging_exact : ExactPicoseconds (E := unit).
Proof. by split. Qed.

Lemma blocking_request_witness :
  ∃ w', b_transport 5 100 (World SCMasterPort_new (master_memory None 1 (read_request 5 64 8)) [] 0 tt []) =
    (Ok 130, w') ∧ history w' = [MAtomic 10].
Proof.
  set (w := World SCMasterPort_new (master_memory None 1 (read_request 5 64 8)) [] 0 tt []).
  destruct (blocking_request 5 100 w (gp_of None 1 8)) as (a & k & m & [Ha _] & _ & Hg & Hrun).
  - apply master_memory_ok. lia.
  - reflexivity.
  - discriminate.
  - specialize (Hrun 30 _ (makeResponse (read_request 5 64 8)) (gp_of None 1 8) eq_refl).
    simpl in Hrun. rewrite lookup_insert_eq, Hg in Hrun. specialize (Hrun eq_refl eq_refl).
    destruct Hrun as [_ Hrun]. specialize (Hrun obliging_exact ltac:(lia) ltac:(lia) ltac:(lia)).
    assert (history (snd (b_transport 5 100 w)) = [MAtomic 10]) as Hh by (vm_compute; reflexivity).
    eexists. split; [exact Hrun|]. rewrite Hrun in Hh. exact Hh.
Defined.

(** Above 2^53 ticks are lost in the double. *)
Example ticks_lost : to_double (2 ^ 53 + 1) = 2 ^ 53 ∧ to_double (2 ^ 53 + 3) = 2 ^ 53 + 4.
Proof. vm_compute. done. Qed.
