(* ===== verification/MasterSpec.v ===== *)
(** * What the master port promises

    The closed system of the port, an initiator and gem5: every run of it, in any interleaving of the
    initiator's calls, deliveries of the queue, responses and retries, and the theorems about them. *)

From S2P Require Import Prelude Tlm Concrete MemManager EventLoop MasterPort MasterProtocol.
From S2P Require Import MasterPortProps MasterFunctions MasterAccess.
Import Master.

(** ** Runs *)

(** The initiator calls, by a phase or for a debug access, the kernel delivers, gem5 answers, gem5 tells
    the port to retry. *)
Inductive maction :=
| MCall (t : ptr) (ph : tlm_phase) (delay : Z)
| MDebug (t : ptr)
| MDeliver (i : nat)
| MAnswer (a : ptr)
| MRetry.

Section runs.
Context `{TlmPayloadLaws, Gem5PacketLaws} {E : Type} `{!MasterEnv E} `{!TimeKeeper (world E)}.
Implicit Types (w : world E) (t a : ptr) (p : payload) (s : account) (act : maction).

Definition mrun act : M (world E) unit :=
  match act with
  | MCall t ph d => _ ← nb_transport_fw t ph d; mret tt
  | MDebug t => _ ← transport_dbg t; mret tt
  | MDeliver i => peq_deliver i
  | MAnswer a => _ ← recvTimingResp a; mret tt
  | MRetry => recvReqRetry
  end.

(** gem5 answers a request it took, not while it owes a refused response; it says retry when it refused. *)
Definition menabled act w : Prop :=
  match act with
  | MCall t ph _ => initiator_may w t ph
  | MDebug t => has_gp (memory w) t (carries (memory w))
  | MDeliver i => (i < length (peq w))%nat ∧ on_time (set_peq (delete i (peq w)) w)
  | MAnswer a => ∃ s t k0, account_of (history w) = Some s ∧ owed s = false ∧ answers w a t k0
  | MRetry => ∃ s, account_of (history w) = Some s ∧ refused s = true
  end.

Record minitial w : Prop := {
  in_port : port w = set_transactor true SCMasterPort_new;
  in_memory : mm_ok (memory w);
  in_peq : peq w = [];
  in_history : history w = [];
}.

Inductive mreachable : world E → Prop :=
| mreach_initial w : minitial w → mreachable w
| mreach_step w act w' : mreachable w → menabled act w → mrun act w = (Ok tt, w') → mreachable w'
| mreach_other w w' : mreachable w → mprivate w w' → mreachable w'
| mreach_time w w' : mreachable w → mstays w w' → mreachable w'.

Lemma initial_minv w : minitial w → minv false None w no_account.
Proof.
  intros [Hp Hm Hq Hh]. split; unfold phases; rewrite ?Hp, ?Hq, ?Hh; try done.
  - by apply mem_ok_idle.
  - exists [], []. split; [done|]. split; [by constructor|constructor].
Qed.

Context `{!TimeKeeperLaws (world E) mstays, !Peer}.

Lemma minv_response w s : minv false None w s → responseInProgress (port w) = false → owed s = false.
Proof. intros Hi Hrip. destruct (owed s) eqn:Ho; [|done]. destruct (mi_owed _ _ _ _ Hi Ho). congruence. Qed.

(** The delivery of END_RESP while the port owes gem5 a retry. *)
Definition retries act w : Prop :=
  ∃ i t d, act = MDeliver i ∧ peq w !! i = Some (t, END_RESP, d) ∧ needToSendRetry (port w) = true.

Lemma wpe_maction w s act :
  minv false None w s → menabled act w →
  wpe (λ e w', retries act w ∧ insisted w e w') (mrun act) (λ _ w', ∃ s', minv false None w' s') w.
Proof.
  intros Hi Hen. pose proof (mi_account _ _ _ _ Hi) as Ha. destruct act as [t ph d|t|i|a|]; simpl in *.
  - apply wpe_wp, wp_bind. eapply wp_mono; [by apply (wp_master_fw w s)|]. intros r w' [_ Hs'].
    by apply wp_ret.
  - destruct Hen as (p & Hp & Hc). apply wpe_wp, wp_bind. eapply wp_transport_dbg; [done..|].
    intros a k w' _ Hi' _ _ _ _. apply wp_ret. by exists s.
  - destruct Hen as [Hlt Htime]. destruct (lookup_lt_is_Some_2 (peq w) i ltac:(lia)) as [[[t ph] d] He].
    eapply wpe_mono; [by eapply (wpe_master_deliver w s i t ph d)| |by intros [] w' [? _]].
    intros e w' [-> Hin]. pose proof Hin as (_ & Hr & _). split; [by exists i, t, d|done].
  - destruct Hen as (s0 & t & k0 & Hs0 & How & Hans). simplify_eq. apply wpe_wp, wp_bind.
    destruct (responseInProgress (port w)) eqn:Hrip.
    + eapply wp_response_refused; [done..|]. intros w' s' Hi' _ _. apply wp_ret. by exists s'.
    + eapply wp_recvTimingResp; [done..|]. intros status w' Hi' _ _ _. apply wp_ret. by eexists.
  - destruct Hen as (s0 & Hs0 & Href). simplify_eq.
    apply wpe_wp. eapply wp_recvReqRetry; [done..|]. intros w' s' t a ok Hi' _ _ _ _. by exists s'.
Qed.

Lemma mreachable_inv w : mreachable w → ∃ s, minv false None w s.
Proof.
  induction 1 as [w Hw|w act w' _ [s Hi] Hen Hrun|w w' _ [s Hi] Hpr|w w' _ [s Hi] Hst].
  - exists no_account. by apply initial_minv.
  - pose proof (wpe_maction w s act Hi Hen) as Hwp. unfold wpe in Hwp. by rewrite Hrun in Hwp.
  - exists s. by eapply minv_private.
  - exists s. by eapply minv_stays.
Qed.

(** ** Properties *)

(** An enabled call returns, in a reachable state, or fails as said. *)
Lemma mreachable_step w act :
  mreachable w → menabled act w →
  (∃ w', mrun act w = (Ok tt, w') ∧ mreachable w') ∨
  (retries act w ∧ fails (mrun act) (SC_ASSERT "!needToSendRetry") w ∧ ¬ Courteous).
Proof.
  intros Hr Hen. destruct (mreachable_inv w Hr) as [s Hi].
  destruct (wpe_cases _ _ _ _ (wpe_maction w s act Hi Hen))
    as [([] & w' & Hrun & _)|(e & w' & Hrun & Hret & -> & _ & w0 & Hw0)].
  - left. exists w'. split; [done|]. by eapply mreach_step.
  - right. split; [done|]. unfold fails. rewrite Hrun. split; [done|]. intros Hc. by rewrite (co_retry w0) in Hw0.
Qed.

(** C28: The port with an initiator that keeps the base protocol and a gem5 that keeps the timing protocol, which
    do not call back while they are called, except that gem5 may send any number of responses while it
    is told to retry: in every reachable state every call that the initiator, the queue or gem5 may make returns
    without an error, no payload is used after it was freed, and the state it returns in is reachable
    again - but for one case: when END_RESP is delivered while a retry is owed, and gem5, told to retry,
    sends a response while another one waits for its END_RESP, the port's assertion that no retry is owed
    fails.  A gem5 that does not do so never meets it. *)
Theorem master_safe w act :
  mreachable w → menabled act w →
  (∃ w', mrun act w = (Ok tt, w') ∧ mreachable w') ∨
  (retries act w ∧ fails (mrun act) (SC_ASSERT "!needToSendRetry") w ∧ ¬ Courteous).
Proof. apply mreachable_step. Qed.

(** C29: The port keeps the base protocol towards the initiator and the timing protocol towards gem5: the
    history of every reachable state passes the account, the members of the port agree with it, and
    every transaction it names exists with a reference for each of its shares. *)
Theorem master_keeps_protocol w :
  mreachable w →
  ∃ s, account_of (history w) = Some s ∧
    waitForRetry (port w) = refused s ∧ needToSendRetry (port w) = owed s ∧
    (refused s = true → pendingRequest (port w) = requested s) ∧
    (responseInProgress (port w) = true ↔
       is_Some (answered s) ∨ ∃ t, (t, END_RESP) ∈ phases w) ∧
    ∀ t, (0 < shares s (phases w) t)%nat → has_gp (memory w) t (λ p, shares s (phases w) t ≤ ref_count p)%nat.
Proof.
  intros Hr. destruct (mreachable_inv w Hr) as [s [Ha Hm (begins & ends & Hq & Hrq & Hrs) Hrt _]].
  exists s. split; [done|]. rewrite orb_false_r in Hrt. split; [|split; [done|split; [|split]]].
  - by inversion Hrq as [s0 [? _]|t s0 [? _]|t s0|t s0|]; subst; congruence.
  - inversion Hrq; subst; congruence.
  - assert ((∃ t, (t, END_RESP) ∈ phases w) ↔ ∃ t, t ∈ ends) as ->
      by (split; intros [t Ht]; exists t; by apply (split_end _ _ _ _ Hq)).
    inversion Hrs; subst; split; try done; [intros [[]|[t ?%not_elem_of_nil]]; done|by left; eexists|].
    intros _. right. exists t. by left.
  - apply (me_funded _ _ _ Hm).
Qed.

(** A BEGIN_REQ whose time has come is sent to gem5 with the transaction on top of the sender states of
    its packet, which is the one the transaction carries or a new one that asks for the same.  Taken by
    gem5 it is answered by END_REQ; refused it waits for a retry, and END_REQ is not sent. *)
Theorem request_forwarded w i t d :
  mreachable w → peq w !! i = Some (t, BEGIN_REQ, d) → on_time (set_peq (delete i (peq w)) w) →
  ∃ w' p a k ok w1, peq_deliver i w = (Ok tt, w') ∧
    gps (st (memory w)) !! t = Some p ∧ packet_in w t p a k ∧
    pkts (st (memory w1)) !! a = Some (pushSenderState (TlmSenderState t) k) ∧
    fst (sendTimingReq a w1) = ok ∧ request_sent w t a ok w'.
Proof.
  intros Hr He Htime. destruct (mreachable_inv w Hr) as [s Hi].
  destruct (wp_Ok _ _ _ (wp_master_deliver w s i t BEGIN_REQ d Hi He Htime (or_introl eq_refl)))
    as ([] & w' & Hrun & _ & a & ok & w1 & p & k & Hp & Hin & Hk & Hok & Hsent).
  by exists w', p, a, k, ok, w1.
Qed.

(** A retry sends the waiting packet again.  Taken, END_REQ goes to the transaction that waited and the
    port is idle; refused, it waits on. *)
Theorem request_retried w s :
  mreachable w → account_of (history w) = Some s → refused s = true →
  ∃ w' t a ok, recvReqRetry w = (Ok tt, w') ∧ requested s = Some t ∧
    pendingPacket (port w) = Some a ∧ fst (sendTimingReq a w) = ok ∧ request_sent w t a ok w'.
Proof.
  intros Hr Hs Href. destruct (mreachable_inv w Hr) as [s' Hi].
  pose proof (mi_account _ _ _ _ Hi) as Ha. simplify_eq.
  assert (pendingRequest (port w) = requested s) as Hreq.
  { destruct Hi as [_ _ (? & ? & _ & Hrq & _) _ _]. inversion Hrq; subst; congruence. }
  assert (wp recvReqRetry (λ _ w', ∃ t a ok, requested s = Some t ∧ pendingPacket (port w) = Some a ∧
    fst (sendTimingReq a w) = ok ∧ request_sent w t a ok w') w) as Hwp.
  { eapply wp_recvReqRetry; [done..|]. intros w' s' t a ok _ Ht Hpk Hok Hsent.
    exists t, a, ok. by rewrite <- Hreq. }
  destruct (wp_Ok _ _ _ Hwp) as ([] & w' & Hrun & t & a & ok & ?). by exists w', t, a, ok.
Qed.

(** C31: A response goes back to the transaction that [handleBeginReq] pushed on the packet: BEGIN_RESP is
    sent for it with an OK status and the packet's delay, after the packet's own sender states are
    restored - or the packet is deleted, exactly if the port made it; the transaction is no longer with gem5. *)
Theorem response_returned w s a t k0 :
  mreachable w → account_of (history w) = Some s → answers w a t k0 →
  responseInProgress (port w) = false →
  ∃ w' status w1 k p, recvTimingResp a w = (Ok true, w') ∧
    pkts (st (memory w)) !! a = Some k ∧ gps (st (memory w)) !! t = Some p ∧
    pkts (st (memory w1)) !! a =
      match get_extension (attrs p) with Some _ => Some k0 | None => None end ∧
    has_gp (memory w1) t (λ p, get_response_status (attrs p) = TLM_OK_RESPONSE) ∧
    (fst (nb_transport_bw t BEGIN_RESP (payloadDelay k) w1)).1.1 = status ∧
    history w' = history w ++ [MBw t BEGIN_RESP status; MResp a true] ∧
    account_of (history w') = Some (responded s t status) ∧
    responseInProgress (port w') = bool_decide (status = TLM_ACCEPTED).
Proof.
  intros Hr Hs Hans Hrip. destruct (mreachable_inv w Hr) as [s' Hi].
  pose proof (mi_account _ _ _ _ Hi) as Ha. simplify_eq.
  assert (wp (recvTimingResp a) (λ b w', ∃ status w1 k p, b = true ∧
    pkts (st (memory w)) !! a = Some k ∧ gps (st (memory w)) !! t = Some p ∧
    pkts (st (memory w1)) !! a =
      match get_extension (attrs p) with Some _ => Some k0 | None => None end ∧
    has_gp (memory w1) t (λ p, get_response_status (attrs p) = TLM_OK_RESPONSE) ∧
    (fst (nb_transport_bw t BEGIN_RESP (payloadDelay k) w1)).1.1 = status ∧
    history w' = history w ++ [MBw t BEGIN_RESP status; MResp a true] ∧
    account_of (history w') = Some (responded s t status) ∧
    responseInProgress (port w') = bool_decide (status = TLM_ACCEPTED)) w) as Hwp.
  { eapply wp_recvTimingResp; [done..|].
    intros status w' Hi' Hp Hh (w1 & k & p & Hk & Hg & Hpk & Hst & Hbw). exists status, w1, k, p.
    do 7 (split; [done|]). split; [by apply (mi_account _ _ _ _ Hi')|]. by rewrite Hp. }
  destruct (wp_Ok _ _ _ Hwp) as (b & w' & Hrun & status & w1 & k & p & -> & Hall).
  by exists w', status, w1, k, p.
Qed.

(** A debug transport is one functional access of gem5, with the packet of the transaction or one that is
    deleted again, and may come at any time: it reports the whole length and touches nothing else. *)
Theorem debug_request w t p :
  mreachable w → gps (st (memory w)) !! t = Some p → carries (memory w) p →
  ∃ w' a k, transport_dbg t w = (Ok (get_data_length (attrs p)), w') ∧ packet_in w t p a k ∧
    port w' = port w ∧ peq w' = peq w ∧ history w' = history w ++ [MFunctional a] ∧
    (get_extension (attrs p) = None → pkts (st (memory w')) !! a = None).
Proof.
  intros Hr Hp Hc. destruct (mreachable_inv w Hr) as [s Hi].
  assert (wp (transport_dbg t) (λ n w', n = get_data_length (attrs p) ∧ ∃ a k, packet_in w t p a k ∧
    port w' = port w ∧ peq w' = peq w ∧ history w' = history w ++ [MFunctional a] ∧
    (get_extension (attrs p) = None → pkts (st (memory w')) !! a = None)) w) as Hwp.
  { eapply wp_transport_dbg; [done..|]. intros a k w' Ha _ Hpo Hq Hh Hd. split; [done|]. by exists a, k. }
  destruct (wp_Ok _ _ _ Hwp) as (n & w' & Hrun & -> & a & k & Hall). by exists w', a, k.
Qed.

(** C30: Nothing is lost: a request without END_REQ is still queued, or gem5 refused it and the port waits for
    the retry; and while the port owes gem5 a retry, the END_RESP that brings it is queued, or the
    initiator has the response and owes it. *)
Theorem master_never_stuck w s :
  mreachable w → account_of (history w) = Some s →
  (∀ t, requested s = Some t →
     (∃ i d, peq w !! i = Some (t, BEGIN_REQ, d)) ∨
     menabled MRetry w ∧ pendingRequest (port w) = Some t) ∧
  (owed s = true →
     is_Some (answered s) ∨ ∃ i t d, peq w !! i = Some (t, END_RESP, d)).
Proof.
  intros Hr Hs. destruct (mreachable_inv w Hr) as [s' [Ha Hm (begins & ends & Hq & Hrq & Hrs) _ Ho]].
  simplify_eq.
  assert (∀ t ph, (t, ph) ∈ phases w → ∃ i d, peq w !! i = Some (t, ph, d)) as Hin.
  { intros t ph ([[t' ph'] d] & [= -> ->] & Hin)%list_elem_of_fmap.
    apply list_elem_of_lookup in Hin as [i Hi]. by exists i, d. }
  split.
  - intros t Ht. inversion Hrq as [|t0 s0|t0 s0|t0 s0|t0 a s0 Hw Hpr Hpk Hreq _ Href]; subst; try congruence.
    + left. apply Hin, (split_begin _ _ _ _ Hq). assert (t0 = t) as -> by congruence. by left.
    + right. split; [by exists s|congruence].
  - intros How. destruct (Ho How) as [Hrip _]. rewrite Hrip in Hrs. inversion Hrs; subst; [by left; eexists|].
    right. destruct (Hin t END_RESP) as (i & d & Hi); [apply (split_end _ _ _ _ Hq); by left|].
    by exists i, t, d.
Qed.
End runs.

(** ** Witnesses *)

Section witnesses.
#[local] Existing Instance polite.
#[local] Existing Instance polite_peer.
#[local] Existing Instance polite_time.
#[local] Existing Instance polite_time_laws.

Abbreviation W := (world (bool * Z)).

Definition after (act : maction) (w : W) : W := snd (mrun act w).

Lemma master_after act w :
  mreachable w → menabled act w → fst (mrun act w) = Ok tt → mreachable (after act w).
Proof.
  intros Hw Hen Hrun. eapply mreach_step; [done..|]. unfold after.
  destruct (mrun act w) as [r w']. simpl in *. by subst.
Qed.

(** gem5 changes the packet it took, or its mind. *)
Lemma outside_after (w : W) a k b :
  mreachable w → is_Some (pkts (st (memory w)) !! a) →
  mreachable (World (port w) (memory (put_pkt w a k)) (peq w) (now w) (b, (env w).2) (history w)).
Proof.
  intros Hw Ha. eapply mreach_other; [exact Hw|]. by eapply (packet_private _ _ a k).
Qed.

Lemma caught_on_time (w : W) : (env w).2 ≤ now w → on_time w.
Proof. by split. Qed.

(** The initiator asks for a read with a packet of its own; [b]: gem5 takes it. *)
Definition run0 (b : bool) : W :=
  master b (set_transactor true SCMasterPort_new) (master_memory ext3 1 (read_request 5 64 8)).
Definition run1 (b : bool) : W := after (MCall 5 BEGIN_REQ 0) (run0 b).
Definition run2 (b : bool) : W := after (MDeliver 0) (run1 b).

(** gem5 makes the response, and the port passes it on. *)
Definition run3 : W :=
  let w := run2 true in
  World (port w) (memory (put_pkt w 3 response3)) (peq w) (now w) (true, (env w).2) (history w).
Definition run4 : W := after (MAnswer 3) run3.

(** gem5 takes requests again. *)
Definition run2' : W :=
  let w := run2 false in
  World (port w) (memory (put_pkt w 3 (pushSenderState (TlmSenderState 5) (read_request 5 64 8)))) (peq w)
    (now w) (true, (env w).2) (history w).

Lemma run1_reachable b : mreachable (run1 b).
Proof.
  apply master_after; [|..|by destruct b].
  - apply mreach_initial. split; try done. apply master_memory_ok. lia.
  - exists (gp_of ext3 1 8). split; [done|]. split; [unfold ref_count; simpl; lia|]. intros s [= <-].
    split; [by eexists|]. intros _. split; [vm_compute; lia|]. split; [by eexists|]. intros t a Ht.
    by vm_compute in Ht.
Qed.

Lemma run1_due b : on_time (set_peq (delete 0%nat (peq (run1 b))) (run1 b)).
Proof. apply caught_on_time. destruct b; vm_compute; discriminate. Qed.

Lemma run2_reachable b : mreachable (run2 b).
Proof.
  apply master_after; [apply run1_reachable| |by destruct b; vm_compute].
  split; [destruct b; vm_compute; lia|apply run1_due].
Qed.

Lemma run3_reachable : mreachable run3.
Proof. apply (outside_after (run2 true)); [apply run2_reachable|]. by eexists. Qed.

Lemma run2'_reachable : mreachable run2'.
Proof. apply (outside_after (run2 false)); [apply run2_reachable|]. by eexists. Qed.

(** What the account says then. *)
Definition taken_by (w : W) : account := default no_account (account_of (history w)).

Lemma run3_answers : answers run3 3 5 (makeResponse (read_request 5 64 8)).
Proof.
  split; [|by exists response3].
  intros s Hs. vm_compute in Hs. injection Hs as <-. reflexivity.
Qed.

Lemma master_safe_witness : ∃ w', mrun (MAnswer 3) run3 = (Ok tt, w') ∧ mreachable w'.
Proof.
  destruct (master_safe run3 (MAnswer 3) run3_reachable) as [Hok|[(i & t & d & Ha & _) _]].
  - exists (taken_by run3), 5%positive, (makeResponse (read_request 5 64 8)).
    split; [reflexivity|]. split; [reflexivity|apply run3_answers].
  - exact Hok.
  - discriminate Ha.
Defined.

Lemma master_keeps_protocol_witness :
  ∃ s, account_of (history (run2 false)) = Some s ∧ refused s = true ∧
    pendingRequest (port (run2 false)) = requested s.
Proof.
  destruct (master_keeps_protocol (run2 false) (run2_reachable false)) as (s & Hs & Hw & _ & Hp & _).
  exists s. vm_compute in Hw. split; [exact Hs|]. split; [by symmetry|]. apply Hp. by symmetry.
Defined.

Lemma request_forwarded_witness :
  ∃ w' a ok, peq_deliver 0 (run1 false) = (Ok tt, w') ∧ request_sent (run1 false) 5 a ok w'.
Proof.
  destruct (request_forwarded (run1 false) 0 5 100 (run1_reachable false) ltac:(reflexivity)
    (run1_due false)) as (w' & p & a & k & ok & w1 & Hrun & _ & _ & _ & _ & Hs).
  by exists w', a, ok.
Defined.

Lemma request_retried_witness :
  ∃ w' t a ok, recvReqRetry run2' = (Ok tt, w') ∧ ok = true ∧ request_sent run2' t a ok w'.
Proof.
  destruct (request_retried run2' (taken_by run2') run2'_reachable ltac:(reflexivity) ltac:(reflexivity))
    as (w' & t & a & ok & Hrun & _ & _ & Hok & Hs).
  exists w', t, a, ok. split; [exact Hrun|]. split; [by symmetry|exact Hs].
Defined.

Lemma response_returned_witness :
  ∃ w' status, recvTimingResp 3 run3 = (Ok true, w') ∧
    history w' = history run3 ++ [MBw 5 BEGIN_RESP status; MResp 3 true].
Proof.
  destruct (response_returned run3 (taken_by run3) 3 5 (makeResponse (read_request 5 64 8))
    run3_reachable ltac:(reflexivity) run3_answers ltac:(reflexivity))
    as (w' & status & w1 & k & p & Hrun & _ & _ & _ & _ & _ & Hh & _).
  exists w', status. split; [exact Hrun|exact Hh].
Defined.

Lemma master_never_stuck_witness :
  (∃ i d, peq (run2 false) !! i = Some (5%positive, BEGIN_REQ, d)) ∨
  menabled MRetry (run2 false) ∧ pendingRequest (port (run2 false)) = Some 5%positive.
Proof.
  apply (master_never_stuck (run2 false) (taken_by (run2 false)) (run2_reachable false));
    reflexivity.
Defined.

(** A whole transaction: request, END_REQ, response, END_RESP. *)
Example read_goes_through :
  history (after (MDeliver 0) (after (MCall 5 END_RESP 0) run4)) =
    [MFw 5 BEGIN_REQ TLM_ACCEPTED; MSendReq 3 true; MBw 5 END_REQ TLM_ACCEPTED;
     MBw 5 BEGIN_RESP TLM_ACCEPTED; MResp 3 true; MFw 5 END_RESP TLM_ACCEPTED].
Proof. vm_compute. reflexivity. Qed.
End witnesses.
