(* ===== verification/MasterOnTime.v ===== *)
(** * The master port in the gem5 that the event loop runs

    The port delivers its queue from a process of SystemC, which gem5's clock may lag: it has gem5 caught up
    first, and wakes the event loop up afterwards.  Here gem5 is anything that holds the port and calls it
    from the events it services, and the port catches up through the event loop itself. *)

From S2P Require Import Prelude Tlm Concrete MemManager EventLoop EventLoopSpec MasterPort MasterProtocol.
From S2P Require Import MasterPortProps MasterFunctions MasterAccess MasterSpec.
Import Master.

(** What the port keeps between calls. *)
Section mstate.
Context `{TlmPayload, Gem5Packet}.

Record mstate := MState {
  m_port : SCMasterPort;
  m_memory : mem;
  m_peq : list (ptr * tlm_phase * Z);
  m_history : list mcall;
}.
End mstate.

Section on_time.
Context `{TlmPayloadLaws, Gem5PacketLaws} {E : Type} `{!EventLoop.Gem5Queue E}.
Implicit Types (w : EventLoop.world E) (m : mstate) (g : E) (t : ptr).
Abbreviation MW := (world (EventLoop.world E)).
Implicit Types mw : MW.

(** ** The port on the event loop *)

(** The rest of the port's world is the module, with its kernel and gem5. *)
Definition set_env w mw : MW := World (port mw) (memory mw) (peq mw) (now mw) w (history mw).

(** [Module::catchup] and [Module::notify], as [SCMasterPort::peq_cb] calls them. *)
#[export] Instance on_loop_time : TimeKeeper MW := {
  gem5_tick mw := EventLoop.curTick (env mw);
  systemc_time mw := EventLoop.sc_time_stamp (env mw);
  no_event_missed mw := ¬ EventLoop.event_missed (env mw);
  tk_catchup := zoom env set_env EventLoop.catchup;
  tk_notify := zoom env set_env (EventLoop.notify 0);
}.

#[export] Instance on_loop_time_laws : TimeKeeperLaws MW mstays.
Proof.
  split.
  - intros mw Hlag Hmiss. by apply wp_zoom, EventLoop.wp_catchup.
  - intros mw. by apply wp_zoom, wp_modify.
Qed.

(** gem5 holds the port. *)
Class MasterHost := {
  master : E → mstate;
  set_master : mstate → E → E;
}.

Context `{!MasterHost, !MasterEnv (EventLoop.world E), !Gem5Schedule (E := E)}.

Definition state_of mw : mstate := MState (port mw) (memory mw) (peq mw) (history mw).
Definition view m w : MW :=
  World (m_port m) (m_memory m) (m_peq m) (EventLoop.sc_time_stamp w) w (m_history m).

(** A call enters the port that gem5 holds, and leaves it there. *)
Definition enter w : MW := view (master (EventLoop.gem5 w)) w.
Definition put m w : EventLoop.world E := EventLoop.set_gem5 (set_master m (EventLoop.gem5 w)) w.
Definition leave mw : EventLoop.world E := put (state_of mw) (env mw).

(** What gem5 does to the port during an event: it works on its own state, and makes calls that are as the
    port expects them. *)
Definition of_gem5 (act : maction) : Prop := match act with MAnswer _ | MRetry => True | _ => False end.

Inductive serving : MW → MW → Prop :=
| sv_rest mw : serving mw mw
| sv_gem5 mw mw' mw'' : mprivate mw mw' → serving mw' mw'' → serving mw mw''
| sv_call mw act mw'' :
    of_gem5 act → menabled act mw → serving (snd (mrun act mw)) mw'' → serving mw mw''.

(** A call to gem5 or to the initiator, made in time, leaves gem5 with its time, and schedules no event in
    the past.  A functional access may come at any time; it does not go through gem5's queue. *)
Definition in_time w : Prop := sound (EventLoop.gem5 w) ∧ EventLoop.curTick w = EventLoop.sc_time_stamp w.
Definition moves mw mw' : Prop := in_time (env mw) → in_time (env mw') ∧ stirs (env mw) (env mw').

(** gem5 calls the port from the events it services and leaves it alone otherwise; its queue does not
    depend on what the port keeps. *)
Class MasterHostLaws : Prop := {
  mh_request a mw : moves mw (snd (sendTimingReq a mw));
  mh_backward t ph d mw : moves mw (snd (nb_transport_bw t ph d mw));
  mh_retry mw : moves mw (snd (sendRetryResp mw));
  mh_functional a mw : undisturbed (env mw) (env (sendFunctional a mw));
  mh_service w e w' : sound (EventLoop.gem5 w) → EventLoop.serviceOne w = (e, w') →
    ∃ mw, serving (enter w) mw ∧ state_of mw = master (EventLoop.gem5 w');
  mh_limit n w e w' : EventLoop.GlobalSimLoopExitEvent n w = (e, w') →
    master (EventLoop.gem5 w') = master (EventLoop.gem5 w);
  mh_stats d r w : master (EventLoop.gem5 (EventLoop.schedStatEvent d r w)) = master (EventLoop.gem5 w);
  mh_interrupt w : master (EventLoop.gem5 (EventLoop.exitSimLoop w)) = master (EventLoop.gem5 w);
  mh_poll w : master (EventLoop.gem5 (EventLoop.pollQueue_service w)) = master (EventLoop.gem5 w);
  mh_deschedule e w : master (EventLoop.gem5 (EventLoop.deschedule_delete e w)) = master (EventLoop.gem5 w);
  mh_set m g : master (set_master m g) = m;
  mh_sound m g : sound g → sound (set_master m g);
  mh_scheduled e n m g : EventLoopSpec.scheduled e n g → EventLoopSpec.scheduled e n (set_master m g);
  mh_exits x m w : exits x w → exits x (put m w);
  mh_next m g : EventLoop.nextTick (set_master m g) = EventLoop.nextTick g;
}.

Context `{!Peer, !MasterHostLaws, !Gem5Laws (E := E)}.

(** ** What calls do to gem5's queue *)

#[local] Instance stirs_preorder : PreOrder (stirs (E := E)).
Proof.
  split.
  - intros w. split; [|done]. split; try done; [by left|]. intros n Hn. right. by exists n.
  - intros w1 w2 w3 ([Hm1 Ha1 Ht1 Hs1 Hc1 Hn1 Ho1] & He1 & Hx1 & Hq1)
      ([Hm2 Ha2 Ht2 Hs2 Hc2 Hn2 Ho2] & He2 & Hx2 & Hq2).
    split; [|by auto]. split; [congruence..| | |auto].
    + destruct Hc1 as [Hc1|Hc1], Hc2 as [Hc2|Hc2]; rewrite Hc2, ?Hs1, Hc1; [by left|by right..|right].
      unfold EventLoop.set_external, EventLoop.earlier. simpl. do 2 f_equal.
      destruct (EventLoop.externalSchedulingEvent (EventLoop.sc w1)); lia.
    + intros n [?|(n1 & [?|(n0 & Hn0 & ?)]%Hn1 & ?)]%Hn2; [left; lia|left; lia|].
      right. exists n0. split; [done|lia].
Qed.

#[local] Instance moves_preorder : PreOrder moves.
Proof.
  split; [by split|]. intros mw1 mw2 mw3 H12 H23 Ht1. destruct (H12 Ht1) as [Ht2 Hs1].
  destruct (H23 Ht2) as [Ht3 Hs2]. split; [done|]. by etrans.
Qed.

Lemma moves_same mw mw' : env mw' = env mw → moves mw mw'.
Proof. intros He Ht. by rewrite He. Qed.

Lemma moves_sendTimingReq a : follows moves (call_sendTimingReq a).
Proof.
  intros mw. unfold call_sendTimingReq. pose proof (mh_request a mw) as Hm.
  destruct (sendTimingReq a mw) as [ok mw']. exact Hm.
Qed.

Lemma moves_bw t ph d : follows moves (call_bw t ph d).
Proof.
  intros mw. unfold call_bw. pose proof (mh_backward t ph d mw) as Hm.
  destruct (nb_transport_bw t ph d mw) as [r mw']. exact Hm.
Qed.

Lemma moves_sendRetryResp : follows moves call_sendRetryResp.
Proof. intros mw. exact (mh_retry (log_call MRetryResp mw)). Qed.

Ltac moves_step :=
  lazymatch goal with
  | |- follows _ (call_sendTimingReq _) => apply moves_sendTimingReq
  | |- follows _ (call_bw _ _ _) => apply moves_bw
  | |- follows _ call_sendRetryResp => apply moves_sendRetryResp
  | |- follows _ (sendEndReq _) => unfold sendEndReq
  | |- follows _ (packet_of _) => unfold packet_of
  | |- follows _ (generatePacket _) => unfold generatePacket
  | |- follows _ (checkTransaction _) => unfold checkTransaction
  | |- follows _ _ => follows_step
  | |- _ => intros; by apply moves_same
  end.

(** The handler of a phase. *)
Definition handler t (ph : tlm_phase) : M MW unit :=
  match ph with
  | BEGIN_REQ => handleBeginReq t
  | END_RESP => handleEndResp t
  | _ => fail (PANIC "unimplemented phase in callback")
  end.

Lemma moves_handler t ph : follows moves (handler t ph).
Proof. unfold handler, handleBeginReq, handleEndResp. repeat moves_step. Qed.

(** ** The port's invariant as gem5's *)

Definition port_sound g : Prop := ∃ w : EventLoop.world E, mreachable (view (master g) w).
Definition mhosted : Gem5Schedule (E := E) := and_sound port_sound.

Lemma mreachable_view m w w' : mreachable (view m w) → mreachable (view m w').
Proof. intros Hm. by apply (mreach_time _ _ Hm). Qed.

Lemma port_sound_enter w : port_sound (EventLoop.gem5 w) ↔ mreachable (enter w).
Proof. split; [intros [w' Hw]; by eapply mreachable_view|by exists w]. Qed.

Lemma port_sound_set mw g : mreachable mw → port_sound (set_master (state_of mw) g).
Proof. intros Hm. exists (env mw). rewrite mh_set. by apply (mreach_time _ _ Hm). Qed.

Lemma port_sound_same g g' : master g' = master g → port_sound g → port_sound g'.
Proof. unfold port_sound. by intros ->. Qed.

(** A call that does not deliver END_RESP returns, in a reachable state. *)
Lemma mrun_reachable act mw :
  mreachable mw → menabled act mw → ¬ retries act mw → ∃ mw', mrun act mw = (Ok tt, mw') ∧ mreachable mw'.
Proof. intros Hr Hen Hno. by destruct (mreachable_step mw act Hr Hen) as [?|[? _]]. Qed.

Lemma retries_deliver act mw : retries act mw → match act with MDeliver _ => True | _ => False end.
Proof. by intros (i & t & d & -> & _). Qed.

Lemma serving_reachable mw mw' : serving mw mw' → mreachable mw → mreachable mw'.
Proof.
  induction 1 as [mw|mw mw' mw'' Hpr _ IH|mw act mw'' Hact Hen _ IH]; intros Hm; [done|..].
  - apply IH. by eapply mreach_other.
  - apply IH. destruct (mrun_reachable act mw Hm Hen) as (mw' & -> & Hm'); [|exact Hm'].
    intros Hret%retries_deliver. by destruct act.
Qed.

#[local] Instance port_kept : Kept port_sound.
Proof.
  split.
  - intros w e w' Hs _ Hrun Hp%port_sound_enter.
    destruct (mh_service w e w' Hs Hrun) as (mw & Hsv & Hst). exists (env mw). rewrite <- Hst.
    apply (mreach_time mw); [by eapply serving_reachable|done].
  - intros n w e w' Hrun. apply port_sound_same. exact (mh_limit n w e w' Hrun).
  - intros d r w. apply port_sound_same, mh_stats.
  - intros w. apply port_sound_same, mh_interrupt.
  - intros w. apply port_sound_same, mh_poll.
  - intros e w. apply port_sound_same, mh_deschedule.
Qed.

Lemma mhosted_laws : @Gem5Laws _ _ mhosted.
Proof. apply and_sound_laws; apply _. Qed.

(** What the port keeps is no matter to the loop. *)
Lemma put_undisturbed m w : undisturbed w (put m w).
Proof.
  split; try done; [apply mh_next|intros e n; apply mh_scheduled|intros x; apply mh_exits|apply mh_sound].
Qed.

Lemma undisturbed_hosted w w' :
  undisturbed w w' → port_sound (EventLoop.gem5 w') → @undisturbed _ _ mhosted w w'.
Proof. intros [] Hp. split; try done. intros [Hs _]. split; auto. Qed.

Lemma stirs_hosted w w' :
  stirs w w' → port_sound (EventLoop.gem5 w') → @stirs _ _ mhosted w w'.
Proof. intros (Hw & Hrest) Hp. split; [|exact Hrest]. by apply works_and. Qed.

(** ** The port and the loop together *)

(** The processes of SystemC call the port at any time, and the kernel delivers its queue while the thread is
    in [simulate]. *)
Definition port_may (act : maction) (s : system (E := E)) : Prop :=
  match act with
  | MCall _ _ _ | MDebug _ => menabled act (enter (loop s))
  | MDeliver i => is_Some (limit s) ∧ (i < length (peq (enter (loop s))))%nat
  | _ => False
  end.

Definition port_step (act : maction) : M (system (E := E)) unit := λ s,
  let '(r, mw) := mrun act (enter (loop s)) in (r, set_loop (leave mw) s).

Inductive creachable : system → Prop :=
| cr_initial s : @einitial _ mhosted s → creachable s
| cr_loop s act s' :
    creachable s → @eenabled _ _ mhosted act s → erun act s = (Ok tt, s') → creachable s'
| cr_port s act s' :
    creachable s → port_may act s → port_step act s = (Ok tt, s') → creachable s'
| cr_other s mw :
    creachable s → mprivate (enter (loop s)) mw → env mw = loop s → creachable (set_loop (leave mw) s).

Lemma loop_reachable act s :
  creachable s → @eenabled _ _ mhosted act s → fst (erun act s) = Ok tt → creachable (step_of act s).
Proof.
  intros Hs Hen Hrun. eapply cr_loop; [exact Hs|exact Hen|]. unfold step_of.
  destruct (erun act s) as [r s']. simpl in *. by subst.
Qed.

Lemma port_reachable act s :
  creachable s → port_may act s → fst (port_step act s) = Ok tt → creachable (snd (port_step act s)).
Proof.
  intros Hs Hmay Hrun. eapply cr_port; [exact Hs|exact Hmay|].
  destruct (port_step act s) as [r s']. simpl in *. by subst.
Qed.

(** [EVisit] with what the handler of entry [i] does. *)
Definition handled (i : nat) w : EventLoop.world E :=
  match peq (enter w) !! i with
  | Some (t, ph, _) => leave (snd (handler t ph (set_peq (delete i (peq (enter w))) (enter w))))
  | None => w
  end.

Lemma peq_deliver_run mw i t ph d :
  peq mw !! i = Some (t, ph, d) → on_time mw →
  peq_deliver i mw =
    (handler t ph;; tk_notify) (set_env (caught (env mw)) (set_peq (delete i (peq mw)) mw)).
Proof.
  intros Hi [Hlag Hmiss]. unfold peq_deliver. erewrite bind_Ok by done. erewrite bind_Ok by (by rewrite Hi).
  erewrite bind_Ok by done. unfold peq_cb.
  erewrite bind_Ok by (simpl; unfold zoom; simpl; by rewrite (proj1 (EventLoop.catchup_spec _) Hlag Hmiss)).
  erewrite bind_Ok by done. simpl. by erewrite bind_Ok by (by rewrite Z.eqb_refl).
Qed.

(** A delivery that returns is a visit of gem5 as the loop admits it, and returns in time. *)
Lemma deliver_visits i s l :
  @einv _ _ mhosted s → limit s = Some l → (i < length (peq (enter (loop s))))%nat →
  fst (mrun (MDeliver i) (enter (loop s))) = Ok tt →
  let w := loop s in
  let w' := handled i (caught w) in
  erun (EVisit (handled i)) s = port_step (MDeliver i) s ∧
  port_step (MDeliver i) s = (Ok tt, set_loop (woken w') s) ∧
  in_time w' ∧ @stirs _ _ mhosted (caught w) w'.
Proof.
  intros Hi Hl Hlt Hok w w'. pose proof (@einv_simulating _ _ mhosted s l Hi Hl) as Hsim.
  destruct (@simulating_time _ _ mhosted l w Hsim) as [Hlag Hmiss].
  destruct (@ev_sound _ _ mhosted s Hi) as [Hso Hp%port_sound_enter]. fold w in Hso, Hp.
  destruct (lookup_lt_is_Some_2 (peq (enter w)) i Hlt) as [[[t ph] d] He].
  assert (on_time (enter w)) as Htime by done.
  destruct (mreachable_step (enter w) (MDeliver i) Hp) as [(mw2 & Hrun & Hm2)|(_ & Hf & _)];
    [by split| |unfold fails in Hf; fold w in Hok; congruence].
  simpl in Hrun. pose proof (peq_deliver_run (enter w) i t ph d He Htime) as Hdel. rewrite Hrun in Hdel.
  set (mw0 := set_env _ _) in Hdel.
  destruct (moves_handler t ph mw0) as [Ht1 Hs1]; [by split|].
  destruct (handler t ph mw0) as [[[]|e] mw1] eqn:Hh; [|by rewrite (bind_Err _ _ _ _ _ Hh) in Hdel].
  rewrite (bind_Ok _ _ _ _ _ Hh) in Hdel. injection Hdel as ->.
  assert (handled i (caught w) = leave mw1) as Hw'.
  { unfold handled. change (peq (enter (caught w))) with (peq (enter w)). rewrite He.
    change (set_peq _ (enter (caught w))) with mw0. by rewrite Hh. }
  assert (port_step (MDeliver i) s = (Ok tt, set_loop (woken w') s)) as Hstep.
  { unfold port_step. fold w. simpl. rewrite Hrun. unfold w'. by rewrite Hw'. }
  split; [|split; [done|]].
  - rewrite Hstep. simpl. unfold zoom. fold w.
    erewrite bind_Ok by (exact (proj1 (EventLoop.catchup_spec _) Hlag Hmiss)). done.
  - unfold w'. rewrite Hw'. split; [split; [apply mh_sound|]; apply Ht1|].
    apply stirs_hosted; [etrans; [exact Hs1|apply undisturbed_stirs, put_undisturbed]|]. apply port_sound_set.
    by apply (mreach_time _ _ Hm2).
Qed.

(** A call of the initiator is not noticed by the loop. *)
Definition calm mw mw' : Prop := undisturbed (env mw) (env mw').

#[local] Instance calm_preorder : PreOrder calm.
Proof. unfold calm. split; [by intros mw|]. intros mw1 mw2 mw3 H12 H23. by etrans. Qed.

Lemma calm_same mw mw' : env mw' = env mw → calm mw mw'.
Proof. unfold calm. by intros ->. Qed.

Lemma calm_sendFunctional a : follows calm (call_sendFunctional a).
Proof. intros mw. exact (mh_functional a mw). Qed.

Ltac calm_step :=
  lazymatch goal with
  | |- follows _ (call_sendFunctional _) => apply calm_sendFunctional
  | |- follows _ (noted_fw _ _ _ _) => unfold noted_fw
  | |- follows _ (generatePacket _) => unfold generatePacket
  | |- follows _ (destroyPacket _) => unfold destroyPacket
  | |- follows _ _ => follows_step
  | |- _ => intros; by apply calm_same
  end.

Lemma calm_call act :
  match act with MCall _ _ _ | MDebug _ => True | _ => False end → follows calm (mrun act).
Proof.
  destruct act as [t ph d|t| | |]; try done; intros _; simpl; unfold nb_transport_fw, transport_dbg;
    repeat calm_step.
Qed.

(** *** The invariant of the whole *)

Lemma call_einv mw s :
  @einv _ _ mhosted s → mreachable mw → undisturbed (loop s) (env mw) →
  @einv _ _ mhosted (set_loop (leave mw) s).
Proof.
  intros Hi Hm Hu. apply (@einv_undisturbed _ _ mhosted); [done|].
  apply undisturbed_hosted; [etrans; [exact Hu|apply put_undisturbed]|by apply port_sound_set].
Qed.

Lemma loop_einv act s :
  @einv _ _ mhosted s → @eenabled _ _ mhosted act s → ends (@einv _ _ mhosted) act s (erun act s).
Proof. exact (@step_ends _ _ mhosted mhosted_laws s act). Qed.

Lemma port_einv act s :
  @einv _ _ mhosted s → port_may act s →
  (∃ s', port_step act s = (Ok tt, s') ∧ @einv _ _ mhosted s') ∨
  (retries act (enter (loop s)) ∧ fails (port_step act) (SC_ASSERT "!needToSendRetry") s).
Proof.
  intros Hi Hmay. destruct (@ev_sound _ _ mhosted s Hi) as [_ Hp%port_sound_enter].
  assert (match act with MCall _ _ _ | MDebug _ => True | _ => False end →
    menabled act (enter (loop s)) → ∃ s', port_step act s = (Ok tt, s') ∧ @einv _ _ mhosted s') as Hcall.
  { intros Hact Hen. destruct (mrun_reachable act _ Hp Hen) as (mw & Hrun & Hm).
    { intros Hret%retries_deliver. by destruct act. }
    exists (set_loop (leave mw) s). unfold port_step. rewrite Hrun. split; [done|].
    pose proof (calm_call act Hact (enter (loop s))) as Hc. rewrite Hrun in Hc. by apply call_einv. }
  destruct act as [t ph d|t|i|a|]; simpl in Hmay; [| |destruct Hmay as [[l Hl] Hlt]|done|done].
  1, 2: left; exact (Hcall I Hmay).
  - destruct (mreachable_step (enter (loop s)) (MDeliver i) Hp) as [(mw2 & Hrun2 & _)|(Hret & Hf & _)].
    { split; [done|]. exact (@simulating_time _ _ mhosted l _ (@einv_simulating _ _ mhosted s l Hi Hl)). }
    2: { right. split; [done|]. unfold fails, port_step in *. by destruct (mrun _ _). }
    left. destruct (deliver_visits i s l Hi Hl Hlt) as (Hev & Hstep & _ & Hst); [by rewrite Hrun2|].
    eexists. split; [exact Hstep|].
    assert (@eenabled _ _ mhosted (EVisit (handled i)) s) as Hen by (split; [by eexists|exact Hst]).
    destruct (ends_well _ _ _ (loop_einv (EVisit (handled i)) s Hi Hen) I) as (s' & Hrun & Hi'). rewrite Hev, Hstep in Hrun. by injection Hrun as <-.
Qed.

Lemma creachable_einv s : creachable s → @einv _ _ mhosted s.
Proof.
  induction 1 as [s Hs|s act s' _ Hi Hen Hrun|s act s' _ Hi Hmay Hrun|s mw _ Hi Hpr He].
  - by apply (@initial_einv _ _ mhosted).
  - pose proof (loop_einv act s Hi Hen) as He. rewrite Hrun in He. apply He.
  - destruct (port_einv act s Hi Hmay) as [(s1 & Hrun1 & Hi1)|[_ Hf]]; [congruence|].
    unfold fails in Hf. by rewrite Hrun in Hf.
  - destruct (@ev_sound _ _ mhosted s Hi) as [_ Hp%port_sound_enter].
    apply call_einv; [done|by eapply mreach_other|by rewrite He].
Qed.

Lemma creachable_ends act s :
  creachable s → @eenabled _ _ mhosted act s → ends creachable act s (erun act s).
Proof.
  intros Hr Hen. apply (ends_mono (@einv _ _ mhosted)); [by apply loop_einv; [apply creachable_einv|]|].
  intros s' Hrun _. by eapply cr_loop.
Qed.

(** C22: The event loop and the master port together: in every state that the module, its kernel, the initiator
    and a gem5 that holds the port can reach, the port is in a state of its own closed system; every
    further call and delivery of the port succeeds and leads to such a state, but for a retry in which gem5
    sends a response while another one waits for END_RESP; and every step of the loop ends as the
    loop's do: it succeeds and leads to such a state, but for a signal's exception, an exit event that
    was overwritten and a queue that runs empty after it ([ends]).  The initiator keeps the base protocol and
    gem5 the timing protocol, as [Peer] says. *)
Theorem master_runs_on_time s :
  creachable s →
  mreachable (enter (loop s)) ∧
  (∀ act, @eenabled _ _ mhosted act s → ends creachable act s (erun act s)) ∧
  (∀ act, port_may act s → (∃ s', port_step act s = (Ok tt, s') ∧ creachable s') ∨
     (retries act (enter (loop s)) ∧ fails (port_step act) (SC_ASSERT "!needToSendRetry") s)).
Proof.
  intros Hr. pose proof (creachable_einv s Hr) as Hi. split; [|split].
  - apply port_sound_enter, (@ev_sound _ _ mhosted s Hi).
  - intros act Hen. by apply creachable_ends.
  - intros act Hmay. destruct (port_einv act s Hi Hmay) as [(s' & Hrun & _)|?]; [left|by right].
    exists s'. split; [done|]. by eapply cr_port.
Qed.

Lemma delivery_stays mw mw' mw'' t ph :
  delivery mw t ph mw' → mstays mw' mw'' → delivery mw t ph mw''.
Proof.
  intros Hd Hst. destruct ph; simpl in *; try done.
  - destruct Hd as (a & ok & mw1 & p & k & Hp & Hin & Hk & Hok & Hs). exists a, ok, mw1, p, k.
    do 4 (split; [done|]). by eapply request_sent_stays.
  - by rewrite (ms_history _ _ Hst).
Qed.

(** C23: A transaction reaches gem5 in time, however far gem5 lags when it is delivered: the delivery of an entry
    of the queue - of a request, or of END_RESP to a gem5 that waits for END_RESP between the responses it
    sends again - does what its phase asks for, and when it returns gem5's time is SystemC's, which has
    not moved, and the event loop is about to be entered. *)
Theorem delivered_on_time s i t ph d l :
  creachable s → limit s = Some l → peq (enter (loop s)) !! i = Some (t, ph, d) →
  ph = BEGIN_REQ ∨ Courteous →
  ∃ s', port_step (MDeliver i) s = (Ok tt, s') ∧
    delivery (enter (loop s)) t ph (enter (loop s')) ∧
    EventLoop.curTick (loop s') = EventLoop.sc_time_stamp (loop s') ∧
    EventLoop.sc_time_stamp (loop s') = EventLoop.sc_time_stamp (loop s) ∧
    due_now (EventLoop.externalSchedulingEvent (EventLoop.sc (loop s'))) (loop s').
Proof.
  intros Hr Hl He Hor. pose proof (creachable_einv s Hr) as Hi.
  destruct (@ev_sound _ _ mhosted s Hi) as [_ Hp%port_sound_enter].
  destruct (mreachable_inv _ Hp) as [acct Hm].
  pose proof (@simulating_time _ _ mhosted l _ (@einv_simulating _ _ mhosted s l Hi Hl)) as Htime.
  pose proof (wp_master_deliver (enter (loop s)) acct i t ph d Hm He Htime Hor) as Hwp.
  destruct (wp_Ok _ _ _ Hwp) as ([] & mw & Hrun & _ & Hd).
  destruct (deliver_visits i s l Hi Hl) as (_ & Hstep & [_ Htick] & [Hw _]);
    [by eapply lookup_lt_Some|by simpl; rewrite Hrun|].
  set (s1 := set_loop _ s) in Hstep. exists s1. split; [exact Hstep|].
  split; [|split; [exact Htick|split; [exact (wk_time _ _ Hw)|]]].
  - unfold port_step in Hstep. simpl in Hstep. rewrite Hrun in Hstep. assert (set_loop (leave mw) s = s1) as Heq by congruence.
    assert (enter (loop s1) = view (state_of mw) (leave mw)) as ->; [|by apply (delivery_stays _ mw)].
    rewrite <- Heq. unfold enter. simpl. by rewrite mh_set.
  - eexists. split; [reflexivity|]. simpl. destruct (EventLoop.externalSchedulingEvent _); lia.
Qed.
End on_time.

(** ** Witnesses *)

(** gem5 takes every request; at the CPU's events it answers packet 3, if it has taken it. *)
Section easy.
Context {E : Type}.
Abbreviation EW := (world (EventLoop.world E)).

#[local] Instance easy : MasterEnv (EventLoop.world E) := {
  owner_id := 7;
  sendTimingReq _ mw := (true, mw);
  sendRetryResp mw := (Ok tt, mw);
  sendAtomic _ mw := (0, mw);
  sendFunctional _ mw := mw;
  nb_transport_bw _ ph d mw := ((TLM_ACCEPTED, ph, d), mw);
  sc_time_ps v := v;
}.

#[local] Instance easy_peer : Peer (E := EventLoop.world E).
Proof.
  assert (∀ mw : EW, mprivate mw mw) as Hrefl.
  { intros mw. split; try done. intros s t p _ _ Hp Hr. exists p. by split; [|split; [|apply intact_refl]]. }
  split; intros; simpl in *; simplify_eq; [apply Hrefl|by split|by split|by apply rt_quiet|].
  split; [apply Hrefl|]. intros t p Hp. by exists p.
Qed.

Definition can_answer (mw : EW) (k : packet) : bool :=
  match account_of (history mw) with
  | Some s => bool_decide (taken s !! 5%positive = Some 3%positive) && negb (owed s)
  | None => false
  end && isResponse k &&
  match popSenderState (set_headerDelay 0 (set_payloadDelay 0 k)) with
  | Some (TlmSenderState t, _) => (t =? 5)%positive
  | _ => false
  end.

Definition answer (mw : EW) : EW :=
  match pkts (st (memory mw)) !! 3%positive with
  | Some k =>
      let mw' := put_pkt mw 3 (makeResponse k) in
      if can_answer mw' (makeResponse k) then snd (recvTimingResp 3 mw') else mw
  | None => mw
  end.

Lemma answer_serving `{!EventLoop.Gem5Queue E} (mw : EW) : serving mw (answer mw).
Proof.
  unfold answer. destruct (pkts (st (memory mw)) !! 3%positive) as [k|] eqn:Hk; [|constructor].
  cbv zeta. set (mw' := put_pkt mw 3 (makeResponse k)).
  destruct (can_answer mw' (makeResponse k)) eqn:Hc; [|constructor].
  apply (sv_gem5 _ mw'); [apply (packet_private mw mw' 3 (makeResponse k)); [by eexists|done..]|].
  assert (snd (recvTimingResp 3 mw') = snd (mrun (MAnswer 3) mw')) as ->.
  { simpl. unfold mbind, M_bind. by destruct (recvTimingResp 3 mw') as [[] ?]. }
  apply (sv_call _ (MAnswer 3)); [done| |constructor]. unfold can_answer in Hc.
  destruct (account_of (history mw')) as [s|] eqn:Hs; [|done].
  apply andb_prop in Hc as [Hc Hpop]. apply andb_prop in Hc as [Hc Hresp]. apply andb_prop in Hc as [Ht Ho].
  destruct (popSenderState _) as [[[|t] k0]|] eqn:Hst; try done. apply Pos.eqb_eq in Hpop as ->.
  exists s, 5%positive, k0. split; [done|]. split; [by destruct (owed s)|]. split.
  - intros s' Hs'. assert (s' = s) as -> by congruence. by apply bool_decide_eq_true in Ht.
  - exists (makeResponse k). split; [apply lookup_insert_eq|]. by split.
Qed.
End easy.

Section witness.
#[local] Existing Instance easy.
#[local] Existing Instance easy_peer.

Abbreviation mrig := (clockwork mstate).

#[local] Instance mrig_host : MasterHost := { master := held; set_master := hold }.
Definition cpu_work (w : EventLoop.world mrig) : mstate := state_of (answer (enter w)).

#[local] Instance mrig_queue : EventLoop.Gem5Queue mrig := ticking cpu_work.
#[local] Instance mrig_schedule : Gem5Schedule (E := mrig) := ticking_schedule.
#[local] Instance mrig_laws : Gem5Laws (E := mrig) := ticking_laws cpu_work.

#[local] Instance mrig_host_laws : MasterHostLaws.
Proof.
  split; try done.
  - intros a mw. by apply moves_same.
  - intros t ph d mw. by apply moves_same.
  - intros mw. by apply moves_same.
  - intros w e w' _. simpl. unfold clock_service.
    destruct (exit_at (EventLoop.gem5 w)) as [t|]; [destruct (t <? cpu (EventLoop.gem5 w))|]; intros [= <- <-].
    + exists (enter w). split; [constructor|]. by destruct (held (EventLoop.gem5 w)) eqn:He; unfold enter; simpl; rewrite He.
    + exists (answer (enter w)). split; [apply answer_serving|done].
    + exists (answer (enter w)). split; [apply answer_serving|done].
  - by intros n w e w' [= <- <-].
Qed.

(** [simulate] for 1200 ticks; at 200 the initiator asks for a read, and the kernel delivers the request. *)
Definition mrig0 : system (E := mrig) :=
  clock_start (MState (set_transactor true SCMasterPort_new) (master_memory ext3 1 (read_request 5 64 8)) [] [])
    500.
Definition mrig1 := step_of (EBegin 1200) mrig0.
Definition mrig2 := step_of (ETime 200) (step_of (EEnter 2) mrig1).
Definition mrig3 := snd (port_step (MCall 5 BEGIN_REQ 0) mrig2).
Definition mrig4 := snd (port_step (MDeliver 0) mrig3).
(** The loop is entered; at 500 the CPU has its event. *)
Definition mrig5 := step_of (EEnter 2) (step_of (ETime 500) (step_of (EExternal 2) mrig4)).

Lemma mrig0_reachable : creachable mrig0.
Proof.
  apply cr_initial. split; try done. split; [done|].
  exists (loop mrig0). apply mreach_initial. split; try done. apply master_memory_ok. lia.
Qed.

Lemma mrig2_reachable : creachable mrig2.
Proof.
  apply loop_reachable; [apply loop_reachable; [apply loop_reachable; [apply mrig0_reachable| |reflexivity]
    | |reflexivity]| |reflexivity].
  - split; [done|]. split; [split; lia|]. split; [split; simpl; lia|]. split; [done|].
    intros n [= <-]. simpl. lia.
  - split; [by exists 0|]. apply enough_quiet; [reflexivity|vm_compute; lia].
  - split; [vm_compute; discriminate|]. intros p [Hp|[Hp|Hp]]; vm_compute in Hp; [done|done|].
    injection Hp as <-. lia.
Qed.

Lemma mrig3_reachable : creachable mrig3.
Proof.
  apply (cr_port mrig2 (MCall 5 BEGIN_REQ 0)); [apply mrig2_reachable| |reflexivity].
  exists (gp_of ext3 1 8). split; [done|]. split; [unfold ref_count; simpl; lia|]. intros s [= <-].
  split; [by eexists|]. intros _. split; [vm_compute; lia|]. split; [by eexists|]. intros t a Ht.
  by vm_compute in Ht.
Qed.

Lemma master_runs_on_time_witness :
  EventLoop.curTick (loop mrig3) = 0 ∧ EventLoop.sc_time_stamp (loop mrig3) = 200 ∧
  ∃ s', port_step (MDeliver 0) mrig3 = (Ok tt, s') ∧ creachable s'.
Proof.
  split; [reflexivity|]. split; [reflexivity|].
  destruct (master_runs_on_time mrig3 mrig3_reachable) as (_ & _ & Hport).
  destruct (Hport (MDeliver 0)) as [Hok|[(i & t & d & [= <-] & He & _) _]].
  - split; [by eexists|vm_compute; lia].
  - exact Hok.
  - exfalso. vm_compute in He. discriminate He.
Defined.

Lemma delivered_on_time_witness :
  ∃ s', port_step (MDeliver 0) mrig3 = (Ok tt, s') ∧ EventLoop.curTick (loop s') = 200 ∧
    due_now (EventLoop.externalSchedulingEvent (EventLoop.sc (loop s'))) (loop s').
Proof.
  destruct (delivered_on_time mrig3 0 5 BEGIN_REQ 200 (1%positive, 1200) mrig3_reachable
    ltac:(reflexivity) ltac:(reflexivity) (or_introl eq_refl)) as (s' & Hrun & _ & Ht & Hst & Hdue).
  exists s'. split; [exact Hrun|]. split; [by rewrite Ht, Hst|exact Hdue].
Defined.

(** The request waits for gem5 to be caught up, and the response comes from gem5's event at 500. *)
Example read_in_time :
  EventLoop.curTick (loop mrig4) = 200 ∧ EventLoop.curTick (loop mrig5) = 500 ∧
  history (enter (loop mrig5)) =
    [MFw 5 BEGIN_REQ TLM_ACCEPTED; MSendReq 3 true; MBw 5 END_REQ TLM_ACCEPTED;
     MBw 5 BEGIN_RESP TLM_ACCEPTED; MResp 3 true].
Proof. vm_compute. done. Qed.
End witness.
