(* ===== verification/WholeSystem.v ===== *)
(** * Both ports, the routers and the event loop

    A gem5 that holds a slave port with its routers and a master port, run by the event loop: the closed
    systems of SystemOnTime and MasterOnTime as one. *)

From S2P Require Import Prelude StdMap Tlm Concrete MemManager BlockingHelper SocketMap Transactor.
From S2P Require Import SlavePort SlaveProtocol SlavePortProps SlavePortSpec TxnRouter TxnRouterProps.
From S2P Require Import System SystemProps SystemSpec EventLoop EventLoopSpec SystemOnTime.
From S2P Require Import MasterPort MasterProtocol MasterPortProps MasterFunctions MasterAccess MasterSpec MasterOnTime.
Import System.

Section whole.
Context `{TlmPayloadLaws, Gem5PacketLaws} {X : Type} `{!Layout X, !Outside X}.
Context {E : Type} `{!EventLoop.Gem5Queue E, !Host (X := X) (E := E), !MasterHost (E := E)}.
Context `{!Master.MasterEnv (EventLoop.world E), !Gem5Schedule (E := E)}.
Implicit Types (w : EventLoop.world E) (s : system (E := E)).

(** The ports do not share what they keep. *)
Class Apart : Prop := { ap_master p g : master (set_slave p g) = master g }.

(** What gem5 keeps true of itself and of the slave port, and of the master port, too. *)
Definition with_slave : Gem5Schedule (E := E) := hosted.
Definition with_both : Gem5Schedule (E := E) := mhosted (Gem5Schedule0 := with_slave).

Context `{!Guests, !HostLaws, !Gem5Laws (E := E), !Peer (E := EventLoop.world E), !Apart}.
Context `{!MasterHostLaws (Gem5Schedule0 := with_slave)}.

(** Every interleaving of the steps of the loop, of the master port and its initiator, and of other
    processes, among them the routers. *)
Definition whole_reachable s : Prop := creachable (Gem5Schedule0 := with_slave) s.

(** Router [k] makes step [x]: the kernel runs one of its processes, while gem5 may lag. *)
Definition router_may k (x : rstep) s : Prop :=
  is_Some (limit s) ∧ senabled (RouterStep k x) (slave (EventLoop.gem5 (loop s))) ∧
  u64 (EventLoop.sc_time_stamp (loop s)) ∧ EventLoop.sc_time_stamp (loop s) + Router.sc_ns 10 < 2 ^ 64.

Definition router_acts k (x : rstep) : M (system (E := E)) unit := erun (ESchedule (router_post k x)).

Lemma whole_laws : @Gem5Laws _ _ with_slave.
Proof. exact hosted_laws. Qed.

Lemma whole_einv s : whole_reachable s → @einv _ _ with_both s.
Proof. pose proof whole_laws. intros Hs. exact (creachable_einv (Gem5Schedule0 := with_slave) s Hs). Qed.

(** What a router posts is no matter to the master port. *)
Lemma router_post_both k x w :
  @sound _ with_both (EventLoop.gem5 w) → EventLoop.curTick w ≤ EventLoop.sc_time_stamp w →
  senabled (RouterStep k x) (slave (EventLoop.gem5 w)) →
  u64 (EventLoop.sc_time_stamp w) → EventLoop.sc_time_stamp w + Router.sc_ns 10 < 2 ^ 64 →
  @posts _ _ with_both w (router_post k x w).
Proof.
  intros [Hs Hm] Hlag Hen Hu Hlt.
  destruct (router_post_posts k x w Hs Hlag Hen Hu Hlt) as [[Hw Hrest] Hn].
  split; [|exact Hn]. split; [|exact Hrest]. apply (@works_and _ _ with_slave); [exact Hw|].
  apply port_sound_same. apply ap_master.
Qed.

Lemma router_enabled k x s :
  whole_reachable s → router_may k x s →
  @eenabled _ _ with_both (ESchedule (router_post k x)) s.
Proof.
  intros Hs (Hl & Hen & Hu & Hlt). pose proof (whole_einv s Hs) as Hi. split; [done|].
  apply router_post_both; [apply (@ev_sound _ _ with_both s Hi)|apply (@ev_lag _ _ with_both s Hi)|done..].
Qed.

(** C1: The whole: in every state that the event loop, its kernel, gem5, both ports, the initiator of the master
    port and the routers of the slave port can reach, in any interleaving, both ports are in a state of
    their own closed systems; every step of a router succeeds and leads to such a state, as does every call
    and delivery of the master port, but for a retry in which gem5 sends a response while another one
    waits for END_RESP; and every step of the loop ends as the loop's do: it succeeds and leads to
    such a state, but for a signal's exception, an exit event that was overwritten and a queue that
    runs empty after it ([ends]).  The conditions are those of the parts: what gem5 does to the slave port is as
    for [port_runs_on_time], the initiator and gem5 treat the master port as [Peer] says, and the memories
    behind the routers are as [Guests] says. *)
Theorem whole_system_runs s :
  whole_reachable s →
  sreachable (slave (EventLoop.gem5 (loop s))) ∧ mreachable (MasterOnTime.enter (loop s)) ∧
  (∀ act, @eenabled _ _ with_both act s → ends whole_reachable act s (erun act s)) ∧
  (∀ act, port_may act s → (∃ s', port_step act s = (Ok tt, s') ∧ whole_reachable s') ∨
     (retries act (MasterOnTime.enter (loop s)) ∧ fails (port_step act) (SC_ASSERT "!needToSendRetry") s)) ∧
  (∀ k x, router_may k x s → ∃ s', router_acts k x s = (Ok tt, s') ∧ whole_reachable s').
Proof.
  intros Hr. pose proof whole_laws as Hlaws. pose proof (whole_einv s Hr) as Hi.
  destruct (@ev_sound _ _ with_both s Hi) as [[_ Hsl] Hm]. split; [done|].
  split; [by apply port_sound_enter|]. split; [|split].
  - intros act Hen. exact (creachable_ends (Gem5Schedule0 := with_slave) act s Hr Hen).
  - intros act Hmay. destruct (port_einv (Gem5Schedule0 := with_slave) act s Hi Hmay) as [(s' & Hrun & _)|?];
      [left|by right]. exists s'. split; [done|]. by eapply cr_port.
  - intros k x Hmay. exists (snd (router_acts k x s)). split; [done|].
    eapply cr_loop; [exact Hr|by apply (router_enabled k x s)|done].
Qed.
End whole.

(** ** Witness *)

Section witness.
#[local] Existing Instance still.
#[local] Existing Instance SystemSpec.pair.
#[local] Existing Instance still_guests.
#[local] Existing Instance easy.
#[local] Existing Instance easy_peer.

(** At the CPU's events gem5 sends request 1 to the slave port, and answers the master port. *)
Abbreviation both := (clockwork (pworld bool * mstate)).

#[local] Instance both_slave : Host (X := bool) (E := both) := {
  slave g := fst (held g);
  set_slave p g := hold (p, snd (held g)) g;
}.
#[local] Instance both_master : MasterHost (E := both) := {
  master g := snd (held g);
  set_master m g := hold (fst (held g), m) g;
}.

Definition both_work (w : EventLoop.world both) : pworld bool * mstate :=
  (cpu_event (EventLoop.curTick w) (EventLoop.sc_time_stamp w) (fst (held (EventLoop.gem5 w))),
   MasterOnTime.state_of (MasterOnTime.answer (MasterOnTime.enter w))).

#[local] Instance both_queue : EventLoop.Gem5Queue both := ticking both_work.
#[local] Instance both_schedule : Gem5Schedule (E := both) := ticking_schedule.
#[local] Instance both_laws : Gem5Laws (E := both) := ticking_laws both_work.

#[local] Instance both_host_laws : HostLaws.
Proof.
  split; simpl; try done.
  - intros w e w' _. unfold clock_service. destruct (exit_at (EventLoop.gem5 w)) as [t|].
    + destruct (t <? cpu (EventLoop.gem5 w)); intros [= <- <-]; [constructor|apply cpu_event_activity].
    + intros [= <- <-]. apply cpu_event_activity.
  - by intros t w e w' [= <- <-].
  - intros p g n Hn. left. by exists n.
Qed.

#[local] Instance both_apart : Apart.
Proof. done. Qed.

#[local] Instance both_master_laws : MasterHostLaws (Gem5Schedule0 := with_slave).
Proof.
  split; try done.
  - intros a mw. by apply moves_same.
  - intros t ph d mw. by apply moves_same.
  - intros mw. by apply moves_same.
  - intros w e w' _. simpl. unfold clock_service.
    destruct (exit_at (EventLoop.gem5 w)) as [t|]; [destruct (t <? cpu (EventLoop.gem5 w))|]; intros [= <- <-].
    + exists (MasterOnTime.enter w). split; [constructor|]. unfold MasterOnTime.enter. simpl.
      by destruct (snd (held (EventLoop.gem5 w))).
    + exists (MasterOnTime.answer (MasterOnTime.enter w)). split; [apply answer_serving|done].
    + exists (MasterOnTime.answer (MasterOnTime.enter w)). split; [apply answer_serving|done].
  - by intros n w e w' [= <- <-].
Qed.

(** [simulate] for 1200 ticks: at 200 the master port is called and delivers the request; at 500 the CPU sends
    its request and answers. *)
Definition whole0 : system (E := both) :=
  clock_start (system0, MState (Master.set_transactor true Master.SCMasterPort_new)
    (master_memory ext3 1 (read_request 5 64 8)) [] []) 500.
Definition whole2 := step_of (ETime 200) (step_of (EEnter 2) (step_of (EBegin 1200) whole0)).
Definition whole3 := snd (port_step (MCall 5 BEGIN_REQ 0) whole2).
Definition whole4 := snd (port_step (MDeliver 0) whole3).
Definition whole5 := step_of (ETime 500) (step_of (EExternal 2) whole4).
Definition whole6 := step_of (EEnter 2) whole5.

Lemma whole_step act s :
  whole_reachable s → @eenabled _ _ with_both act s → fst (erun act s) = Ok tt → whole_reachable (step_of act s).
Proof. exact (loop_reachable (Gem5Schedule0 := with_slave) act s). Qed.

Lemma whole2_reachable : whole_reachable whole2.
Proof.
  apply whole_step; [apply whole_step; [apply whole_step; [| |reflexivity]| |reflexivity]| |reflexivity].
  - apply cr_initial. split; try done. split; [split; [done|apply sreach_initial, system0_initial]|].
    exists (loop whole0). apply mreach_initial. split; try done. apply master_memory_ok. lia.
  - split; [done|]. split; [split; lia|]. split; [split; simpl; lia|]. split; [done|].
    intros n [= <-]. simpl. lia.
  - split; [by exists 0|]. apply (@enough_quiet _ _ with_both); [reflexivity|vm_compute; lia].
  - split; [vm_compute; discriminate|]. intros p [Hp|[Hp|Hp]]; vm_compute in Hp; [done|done|].
    injection Hp as <-. lia.
Qed.

Lemma whole3_reachable : whole_reachable whole3.
Proof.
  apply (port_reachable (Gem5Schedule0 := with_slave)); [exact whole2_reachable| |vm_compute; reflexivity].
  - exists (gp_of ext3 1 8). split; [vm_compute; reflexivity|]. split; [vm_compute; lia|].
    intros s Hs. vm_compute in Hs. injection Hs as <-. split; [eexists; vm_compute; reflexivity|]. intros _.
    split; [vm_compute; lia|]. split; [eexists; vm_compute; reflexivity|]. intros t a Ht. by vm_compute in Ht.
Qed.

Lemma whole4_reachable : whole_reachable whole4.
Proof.
  apply (port_reachable (Gem5Schedule0 := with_slave)); [exact whole3_reachable| |vm_compute; reflexivity].
  - split; [exists (1%positive, 1200); vm_compute; reflexivity|vm_compute; lia].
Qed.

Lemma whole6_reachable : whole_reachable whole6.
Proof.
  apply whole_step; [apply whole_step; [apply whole_step; [apply whole4_reachable| |reflexivity]| |reflexivity]
    | |reflexivity].
  - split; [by exists 200|]. apply (@enough_quiet _ _ with_both); [reflexivity|vm_compute; lia].
  - split; [vm_compute; discriminate|]. intros p [Hp|[Hp|Hp]]; vm_compute in Hp; [done|done|].
    injection Hp as <-. lia.
  - split; [by exists 500|]. apply (@enough_quiet _ _ with_both); [reflexivity|vm_compute; lia].
Qed.

(** The router of socket 0 takes the request of the slave port; the master port has passed its response on. *)
Lemma whole_system_runs_witness :
  length (Master.history (MasterOnTime.enter (loop whole6))) = 5%nat ∧
  length (Port.calls (slave (EventLoop.gem5 (loop whole6)))) = 1%nat ∧
  ∃ s', router_acts 0 (RDeliver 0) whole6 = (Ok tt, s') ∧ whole_reachable s'.
Proof.
  split; [vm_compute; reflexivity|]. split; [vm_compute; reflexivity|].
  destruct (whole_system_runs whole6 whole6_reachable) as (_ & _ & _ & _ & Hrouter).
  destruct (Hrouter 0 (RDeliver 0)) as (s' & Hrun & Hs').
  - split; [exists (1%positive, 1200); vm_compute; reflexivity|]. split; [eapply delivered_enabled; [lia|vm_compute; reflexivity|simpl; lia]|].
    split; [vm_compute; split; [discriminate|reflexivity]|vm_compute; reflexivity].
  - exists s'. split; [exact Hrun|]. exact Hs'.
Defined.
End witness.
