(* ===== verification/Translation.v ===== *)
(** * The two translations

    The slave port makes a payload of a packet ([packet2payload]), the master port makes a packet of
    a payload ([generatePacket]).  Each undoes the other, as far as the second format can tell. *)

From S2P Require Import Prelude StdMap Tlm Concrete MemManager BlockingHelper SocketMap Transactor.
From S2P Require Import SlavePort SlaveProtocol SlavePortProps EventLoop MasterPort MasterFunctions.

Section translation.
Context `{TlmPayloadLaws, Gem5PacketLaws} {E E' : Type} `{!Master.MasterEnv E'}.
Implicit Types (w : Port.world E) (wm : Master.world E') (t a : ptr) (k : packet) (p : payload).

(** What a transaction asks for. *)
Record same_request k k' : Prop := {
  sr_address : getAddr k' = getAddr k;
  sr_size : getSize k' = getSize k;
  sr_data : getPtr k' = getPtr k;
  sr_read : isRead k' = isRead k;
  sr_write : isWrite k' = negb (isRead k);
}.

Record same_transaction p p' : Prop := {
  st_address : get_address (attrs p') = get_address (attrs p);
  st_length : get_data_length (attrs p') = get_data_length (attrs p);
  st_width : get_streaming_width (attrs p') = get_data_length (attrs p);
  st_data : get_data_ptr (attrs p') = get_data_ptr (attrs p);
  st_command : get_command (attrs p') = get_command (attrs p);
}.

(** What [generatePacket] makes of a payload. *)
Definition packet_for p (cmd : MemCmd) : packet :=
  new_packet (get_address (attrs p)) (get_data_length (attrs p)) Master.owner_id cmd
    (get_data_ptr (attrs p)).

Lemma wp_generatePacket wm t p cmd (Q : ptr → Master.world E' → Prop) :
  gps (st (Master.memory wm)) !! t = Some p →
  get_command (attrs p) = match cmd with ReadReq => TLM_READ_COMMAND | WriteReq => TLM_WRITE_COMMAND end →
  (∀ a wm', pkts (st (Master.memory wm')) !! a = Some (packet_for p cmd) → Q a wm') →
  wp (Master.generatePacket t) Q wm.
Proof.
  intros Hp Hc HQ. unfold wp, Master.generatePacket, gp_at, mbind, M_bind, zoom. simpl. rewrite Hp, Hc.
  destruct cmd; apply HQ, lookup_insert_eq.
Qed.

(** A read or write packet of gem5 that enters SystemC as a payload and gem5 again as a packet is
    the same request: address, size, data and direction. *)
Theorem packet_roundtrip w a t k p0 :
  pkts (st (Port.memory w)) !! a = Some k → (isRead k || isWrite k) = true →
  (isRead k || negb (isInvalidate k)) = true → u32 (getSize k) →
  gps (st (Port.memory w)) !! t = Some p0 → has_mm (attrs p0) = true →
  ∃ w', Port.packet2payload a t w = (Ok tt, w') ∧
    ∀ wm, gps (st (Master.memory wm)) !! t = gps (st (Port.memory w')) !! t →
      ∃ a' wm' k', Master.generatePacket t wm = (Ok a', wm') ∧
        pkts (st (Master.memory wm')) !! a' = Some k' ∧ same_request k k'.
Proof.
  intros Ha Hrw Hri Hsz Hp Hmm.
  destruct (wp_Ok _ _ _ (wp_packet2payload w a t k p0 (λ _ w', ∃ p, payload_of k p0 p ∧
    gps (st (Port.memory w')) !! t = Some p) Ha Hrw Hp Hmm
    (λ p Hpo _, ex_intro _ p (conj Hpo (lookup_insert_eq _ _ _))))) as ([] & w' & Hrun & p & Hpo & Hp').
  exists w'. split; [done|]. intros wm Hwm. rewrite Hp' in Hwm. destruct Hpo as [Had Hl _ Hd Hc _ _].
  set (cmd := if isRead k then ReadReq else WriteReq).
  destruct (wp_Ok _ _ _ (wp_generatePacket wm t p cmd (λ a' wm',
    pkts (st (Master.memory wm')) !! a' = Some (packet_for p cmd)) Hwm ltac:(rewrite Hc; unfold cmd;
      destruct (isRead k); [done|]; simpl in Hri; apply negb_true_iff in Hri; by rewrite Hri)
    (λ a' wm' Hk', Hk'))) as (a' & wm' & Hrun' & Hk').
  exists a', wm', (packet_for p cmd). split; [done|]. split; [done|]. unfold packet_for, cmd.
  split; autorewrite with pkt; [done|by rewrite Hl, wrap32_small|done|by destruct (isRead k)..].
Qed.

(** C17: A read or write transaction of SystemC that enters gem5 as a packet and SystemC again as a
    payload is the same transaction: address, length, data and command; the streaming width is the
    length, so it is not a burst. *)
Theorem payload_roundtrip wm t p :
  gps (st (Master.memory wm)) !! t = Some p → get_command (attrs p) ≠ TLM_IGNORE_COMMAND →
  u32 (get_data_length (attrs p)) →
  ∃ a wm', Master.generatePacket t wm = (Ok a, wm') ∧
    ∀ w t' p0, pkts (st (Port.memory w)) !! a = pkts (st (Master.memory wm')) !! a →
      gps (st (Port.memory w)) !! t' = Some p0 → has_mm (attrs p0) = true →
      ∃ w' p', Port.packet2payload a t' w = (Ok tt, w') ∧
        gps (st (Port.memory w')) !! t' = Some p' ∧ same_transaction p p'.
Proof.
  intros Hp Hc Hsz.
  set (cmd := match get_command (attrs p) with TLM_READ_COMMAND => ReadReq | _ => WriteReq end).
  destruct (wp_Ok _ _ _ (wp_generatePacket wm t p cmd (λ a wm',
    pkts (st (Master.memory wm')) !! a = Some (packet_for p cmd)) Hp
    ltac:(unfold cmd; by destruct (get_command (attrs p)))
    (λ a wm' Hk', Hk'))) as (a & wm' & Hrun & Hk).
  exists a, wm'. split; [done|]. intros w t' p0 Ha Hp0 Hmm. rewrite Hk in Ha.
  destruct (wp_Ok _ _ _ (wp_packet2payload w a t' (packet_for p cmd) p0 (λ _ w', ∃ p',
    payload_of (packet_for p cmd) p0 p' ∧ gps (st (Port.memory w')) !! t' = Some p') Ha
    ltac:(unfold packet_for; autorewrite with pkt; by destruct cmd) Hp0 Hmm
    (λ p' Hpo _, ex_intro _ p' (conj Hpo (lookup_insert_eq _ _ _)))))
    as ([] & w' & Hrun' & p' & [Had Hl Hw Hd Hcm _ _] & Hp').
  exists w', p'. split; [done|]. split; [done|]. unfold packet_for in *.
  autorewrite with pkt in *. rewrite wrap32_small in * by done. split; try done.
  rewrite Hcm. unfold cmd. by destruct (get_command (attrs p)).
Qed.
End translation.

(** ** Witnesses *)

#[local] Existing Instance polite.

Definition translating (k : packet) : Port.world unit :=
  Port.World (Port.SCSlavePort_new 0 None) (master_memory None 1 k) ∅ 1 0 0 tt [].
Definition translating_back (m : mem) : Master.world (bool * Z) :=
  master true Master.SCMasterPort_new m.

Lemma packet_roundtrip_witness :
  ∃ w' a' wm' k', Port.packet2payload 3 5 (translating (write_request 6 256 4)) = (Ok tt, w') ∧
    Master.generatePacket 5 (translating_back (Port.memory w')) = (Ok a', wm') ∧
    pkts (st (Master.memory wm')) !! a' = Some k' ∧ getAddr k' = 256 ∧ isWrite k' = true.
Proof.
  destruct (packet_roundtrip (translating (write_request 6 256 4)) 3 5 (write_request 6 256 4)
    (gp_of None 1 8)) as (w' & Hrun & Hall); try (vm_compute; done).
  destruct (Hall (translating_back (Port.memory w')) eq_refl) as (a' & wm' & k' & Hrun' & Hk & [Ha _ _ _ Hw]).
  exists w', a', wm', k'. repeat split; try assumption.
Defined.

Lemma payload_roundtrip_witness :
  ∃ a wm' w' p', Master.generatePacket 5 (translating_back (master_memory None 1 (read_request 5 0 0)))
      = (Ok a, wm') ∧
    Port.packet2payload a 5 (Port.set_memory (Master.memory wm') (translating (read_request 5 0 0)))
      = (Ok tt, w') ∧
    gps (st (Port.memory w')) !! 5%positive = Some p' ∧ get_address (attrs p') = 64 ∧
    get_command (attrs p') = TLM_READ_COMMAND.
Proof.
  destruct (payload_roundtrip (E := unit) (translating_back (master_memory None 1 (read_request 5 0 0)))
    5 (gp_of None 1 8)) as (a & wm' & Hrun & Hall); [reflexivity|discriminate|vm_compute; done|].
  assert (gps (st (Master.memory wm')) !! 5%positive = Some (gp_of None 1 8)) as Hp.
  { vm_compute in Hrun. injection Hrun as <- <-. reflexivity. }
  destruct (Hall (Port.set_memory (Master.memory wm') (translating (read_request 5 0 0))) 5%positive
    (gp_of None 1 8) eq_refl Hp eq_refl) as (w' & p' & Hrun' & Hp' & [Ha _ _ _ Hc]).
  exists a, wm', w', p'. repeat split; try assumption.
Defined.
