(* ===== verification/Logger.v ===== *)
(** * Logger: sc_logger.cc

    The stream that cuts gem5's messages into lines and reports each of them to SystemC. *)

From Stdlib Require Import Ascii.
From S2P Require Import Prelude.

Module Logger.

Definition text := list ascii.
Definition newline : ascii := "010"%char.
Definition carriage_return : ascii := "013"%char.
Definition space : ascii := " "%char.
Definition zero : ascii := "000"%char.

(** [class CuttingStreambuf], with the reports made so far: name and message. *)
Record CuttingStreambuf := { line : text; reports : list (string * text) }.

Definition CuttingStreambuf_new : CuttingStreambuf := {| line := []; reports := [] |}.

(** The characters [logMessage] cuts off the end: [find_last_not_of] gives the last character that
    is none of them, or [npos], whose successor is 0. *)
Definition is_trimmed (c : ascii) : bool :=
  bool_decide (c = space) || bool_decide (c = newline) || bool_decide (c = carriage_return).
Fixpoint find_last_not_of (s : text) : option nat :=
  match s with
  | [] => None
  | c :: s' =>
      match find_last_not_of s' with
      | Some i => Some (S i)
      | None => if is_trimmed c then None else Some 0%nat
      end
  end.
Definition trim (message : text) : text :=
  take match find_last_not_of message with Some i => S i | None => 0 end message.

(** [c_str()] as its reader sees it: up to the first null byte. *)
Fixpoint c_str (s : text) : text :=
  match s with
  | [] => []
  | c :: s' => if bool_decide (c = zero) then [] else c :: c_str s'
  end.
Definition shown (message : text) : text := c_str (trim message).

Section functions.
Abbreviation ML := (M CuttingStreambuf).

Definition logMessage (name : string) (message : text) : ML unit :=
  modify (λ b, {| line := line b; reports := reports b ++ [(name, shown message)] |}).

Definition outputLine : ML unit :=
  l ← gets line;
  logMessage "gem5" l;;
  modify (λ b, {| line := []; reports := reports b |}).

(** [overflow]; [None] is [EOF].  It always returns 0. *)
Definition overflow (chr : option ascii) : ML Z :=
  match chr with
  | Some c =>
      (if bool_decide (c = newline) then outputLine
       else modify (λ b, {| line := line b ++ [c]; reports := reports b |}));;
      mret 0
  | None => mret 0
  end.

Definition sync : ML Z :=
  l ← gets line;
  (match l with [] => mret tt | _ => outputLine end);;
  mret 0.

(** [~CuttingStreambuf] *)
Definition CuttingStreambuf_delete : ML unit := sync;; mret tt.

(** The stream has no buffer: every character that is written goes through [overflow]. *)
Definition write (s : text) : ML unit := for_each s (λ c, overflow (Some c);; mret tt).

(** [~Logger]: flushes the stream, and deletes the buffer. *)
Definition Logger_delete : ML unit := sync;; CuttingStreambuf_delete.
End functions.

(** ** Properties *)

Lemma not_in_cons (c x : ascii) (s : text) : x ≠ c → x ∉ s → x ∉ c :: s.
Proof. intros ? ?. rewrite elem_of_cons. by intros [?|?]. Qed.

(** The complete lines of a text, and the rest after the last newline. *)
Fixpoint split_lines (s : text) : list text * text :=
  match s with
  | [] => ([], [])
  | c :: s' =>
      let '(ls, rest) := split_lines s' in
      if bool_decide (c = newline) then ([] :: ls, rest)
      else match ls with
           | [] => ([], c :: rest)
           | l :: ls' => ((c :: l) :: ls', rest)
           end
  end.

Definition join_lines (ls : list text) (rest : text) : text :=
  foldr (λ l acc, l ++ newline :: acc) rest ls.

Lemma split_join s : let '(ls, rest) := split_lines s in
  join_lines ls rest = s ∧ Forall (λ l, newline ∉ l) ls ∧ newline ∉ rest.
Proof.
  induction s as [|c s IH]; simpl.
  { split; [done|]. split; [constructor|apply not_elem_of_nil]. }
  destruct (split_lines s) as [ls rest]. destruct IH as (Hj & Hls & Hr).
  case_bool_decide as Hc; simpl.
  - subst c. rewrite Hj. split; [done|]. split; [|done]. constructor; [apply list.not_elem_of_nil|done].
  - apply not_eq_sym in Hc. destruct ls as [|l ls]; simpl in *.
    + split; [by rewrite Hj|]. split; [done|]. by apply not_in_cons.
    + split; [by rewrite Hj|]. apply Forall_cons in Hls as [? ?]. split; [|done].
      constructor; [by apply not_in_cons|done].
Qed.

(** What the stream reports of a line that was begun with [l]. *)
Definition prepend (l : text) (x : list text * text) : list text * text :=
  match x with
  | ([], rest) => ([], l ++ rest)
  | (l1 :: ls, rest) => ((l ++ l1) :: ls, rest)
  end.

Lemma write_spec s b :
  write s b =
    (let '(ls, rest) := prepend (line b) (split_lines s) in
     (Ok tt, {| line := rest; reports := reports b ++ ((λ l, ("gem5"%string, shown l)) <$> ls) |})).
Proof.
  revert b. induction s as [|c s IH]; intros b.
  { simpl. rewrite !app_nil_r. by destruct b. }
  assert (write (c :: s) b = write s (snd (overflow (Some c) b))) as ->.
  { unfold write. simpl. unfold mbind, M_bind, mret, M_ret. simpl. unfold overflow.
    by case_bool_decide. }
  rewrite IH. unfold overflow. simpl. case_bool_decide as Hc; simpl;
    destruct (split_lines s) as [[|l ls] rest]; simpl;
    rewrite <- ?app_assoc, ?app_nil_r; done.
Qed.

(** C37: Whatever is written to a fresh stream, it is reported line by line: each complete line once, in
    the order written, without its newline, and after [sync] the unfinished line too, if there is
    one.  Joined by newlines, what was cut out is what was written. *)
Theorem logger_reports_lines (s : text) :
  ∃ ls rest,
    s = join_lines ls rest ∧ Forall (λ l, newline ∉ l) ls ∧ (newline ∉ rest) ∧
    (write s;; sync) CuttingStreambuf_new =
      (Ok 0, {| line := [];
                reports := ((λ l, ("gem5"%string, shown l)) <$>
                            (ls ++ match rest with [] => [] | _ => [rest] end)) |}).
Proof.
  pose proof (split_join s) as Hs. pose proof (write_spec s CuttingStreambuf_new) as Hw.
  destruct (split_lines s) as [ls rest]. destruct Hs as (Hj & Hls & Hr). exists ls, rest.
  split; [done|]. split; [done|]. split; [done|].
  assert (prepend (line CuttingStreambuf_new) (ls, rest) = (ls, rest)) as Hp by by destruct ls.
  rewrite Hp in Hw. unfold mbind at 1, M_bind at 1. rewrite Hw. rewrite fmap_app.
  destruct rest; simpl; [by rewrite app_nil_r|done].
Qed.

Lemma trim_cons c s :
  trim (c :: s) =
    match trim s with [] => if is_trimmed c then [] else [c] | t => c :: t end.
Proof.
  unfold trim. simpl. destruct (find_last_not_of s) as [i|] eqn:Ei.
  - destruct s; [discriminate|]. done.
  - simpl. by destruct (is_trimmed c).
Qed.

(** What is reported of a message is the message without the spaces,
    newlines and carriage returns at its end, and nothing else is cut. *)
Theorem trim_spec (s : text) :
  ∃ tail, s = trim s ++ tail ∧ Forall (λ c, is_trimmed c = true) tail ∧
    (∀ c, last (trim s) = Some c → is_trimmed c = false).
Proof.
  induction s as [|c s (tail & Hs & Ht & Hl)]; [by exists []|]. rewrite trim_cons.
  destruct (trim s) as [|d t] eqn:Et; simpl in Hs.
  - destruct (is_trimmed c) eqn:Hc.
    + exists (c :: tail). subst. split; [done|]. split; [by constructor|done].
    + exists tail. subst. split; [done|]. split; [done|]. by intros ? [= <-].
  - exists tail. split; [by rewrite Hs|]. by split.
Qed.
End Logger.
