(* ===== verification/SimControl.v ===== *)
(** * The simulation control: sim_control.cc, and the port handlers of sc_slave_port.cc and
    sc_master_port.cc

    The module that configures gem5: it loads the configuration, registers the ports gem5 creates,
    and knows the requestor ids of the CPUs.  There is at most one, so the static pointer [instance]
    holds the module itself. *)

From Stdlib Require Import Ascii.
From S2P Require Import Prelude StdMap SocketMap EventLoop.

(** [class Gem5SimControlInterface] of sim_control_if.hh: what the transactors call of the control, through
    their ports [sim_control]. *)
Class Gem5SimControlInterface (W : Type) := {
  sim_control_getSlavePort : string → M W positive;
  sim_control_getMasterPort : string → M W positive;
}.

Module Control.

(** [class Gem5SimControl]: its members; ports are pointers. *)
Record Gem5SimControl := {
  config_manager : option string;  (* the file of the configuration; [None] before it is loaded *)
  simulationEnd : Z;
  slavePorts : stdmap string positive;
  masterPorts : stdmap string positive;
  cpuPorts : stdmap string (list Z);
}.

Definition set_config_manager (f : string) (c : Gem5SimControl) : Gem5SimControl :=
  {| config_manager := Some f; simulationEnd := simulationEnd c; slavePorts := slavePorts c;
     masterPorts := masterPorts c; cpuPorts := cpuPorts c |}.
Definition set_slavePorts (m : stdmap string positive) (c : Gem5SimControl) : Gem5SimControl :=
  {| config_manager := config_manager c; simulationEnd := simulationEnd c; slavePorts := m;
     masterPorts := masterPorts c; cpuPorts := cpuPorts c |}.
Definition set_masterPorts (m : stdmap string positive) (c : Gem5SimControl) : Gem5SimControl :=
  {| config_manager := config_manager c; simulationEnd := simulationEnd c;
     slavePorts := slavePorts c; masterPorts := m; cpuPorts := cpuPorts c |}.
Definition set_cpuPorts (m : stdmap string (list Z)) (c : Gem5SimControl) : Gem5SimControl :=
  {| config_manager := config_manager c; simulationEnd := simulationEnd c;
     slavePorts := slavePorts c; masterPorts := masterPorts c; cpuPorts := m |}.

(** ** The CPUs *)

(** The loop of [addCoreID]: appends to the entry of the core, [None] where there is no entry. *)
Fixpoint append_id (core_name : string) (id : Z) (m : stdmap string (list Z)) :
    option (stdmap string (list Z)) :=
  match m with
  | [] => None
  | (k, ids) :: m' =>
      if bool_decide (k = core_name) then Some ((k, ids ++ [id]) :: m')
      else cons (k, ids) <$> append_id core_name id m'
  end.

Definition addCoreID (core_name : string) (id : Z) (m : stdmap string (list Z)) :
    stdmap string (list Z) :=
  match append_id core_name id m with
  | Some m' => m'
  | None => sm_set core_name [id] m
  end.

(** [initCoreInfo] for the CPUs of the configuration; [getRequestorId core port] is gem5's. *)
Definition initCoreInfo (getRequestorId : string → string → Z) (core_list : list string)
    (m : stdmap string (list Z)) : stdmap string (list Z) :=
  foldl (λ m core_name,
    addCoreID core_name (getRequestorId core_name "data"%string)
      (addCoreID core_name (getRequestorId core_name "inst"%string) m)) m core_list.

(** The loop of [getCoreIDByRequestorID]. *)
Fixpoint find_core (core_id id : Z) (m : stdmap string (list Z)) : Z :=
  match m with
  | [] => 0
  | (_, ids) :: m' =>
      if bool_decide (id ∈ ids) then core_id else find_core (wrap32 (core_id + 1)) id m'
  end.
Definition getCoreIDByRequestorID (id : Z) (m : stdmap string (list Z)) : Z := find_core 0 id m.

(** ** Debug flags *)

(** The tokens [getline(ss, flag, ' ')] reads: the text up to each space, and what is left at the
    end if that is not empty. *)
Fixpoint getlines (s : string) : list string :=
  match s with
  | EmptyString => []
  | String c s' =>
      if bool_decide (c = " "%char) then EmptyString :: getlines s'
      else match getlines s' with
           | [] => [String c EmptyString]
           | flag :: flags => String c flag :: flags
           end
  end.

(** ** The control and gem5 *)

(** The calls of gem5 and SystemC that only have an effect on them. *)
Inductive gem5_call :=
| cxxConfigInit
| registerHandler (port_type : string)
| setDebugLogger
| setClockFrequency (ticks_per_second : Z)
| initSignals
| initSimStats
| registerStatsHandlers
| Trace_enable
| clearDebugFlag (flag : string)
| setDebugFlag (flag : string)
| statsEnable
| dump_queue.

(** An external port of the configuration: of type "tlm_slave" or "tlm_master", with its data. *)
Inductive port_kind := tlm_slave | tlm_master.
Definition external_port : Type := port_kind * string.

#[global] Instance port_kind_eq_dec : EqDecision port_kind.
Proof. solve_decision. Defined.

(** The result of a call of the configuration manager; an exception has a name and a message. *)
Definition exceptional : Type := option (string * string).

Section control.
Context {E : Type}.

(** [instance] is static; [queues] are gem5's queues; [slaves] is the CPU table of each slave port
    that was created. *)
Record world := World {
  instance : option Gem5SimControl;
  queues : list string;
  slaves : gmap positive Sockets.cpu_sockets;
  next_port : positive;
  gem5 : E;
}.

Definition set_instance (c : option Gem5SimControl) (w : world) : world :=
  World c (queues w) (slaves w) (next_port w) (gem5 w).
Definition set_queues (q : list string) (w : world) : world :=
  World (instance w) q (slaves w) (next_port w) (gem5 w).
Definition set_slaves (s : gmap positive Sockets.cpu_sockets) (w : world) : world :=
  World (instance w) (queues w) s (next_port w) (gem5 w).
Definition set_next_port (p : positive) (w : world) : world :=
  World (instance w) (queues w) (slaves w) p (gem5 w).
Definition set_gem5 (e : E) (w : world) : world :=
  World (instance w) (queues w) (slaves w) (next_port w) e.

(** gem5's configuration manager, and the rest of gem5 the control calls.  [instantiate] asks the
    handlers for a list of external ports. *)
Class Gem5Config := {
  gem5_do : gem5_call → E → E;
  time_resolution_ps : E → Z;
  load : string → E → bool;
  instantiate : string → E → list external_port * exceptional * E;
  cpuNameList : E → list string;
  getRequestorId : E → string → string → Z;
  initState : E → exceptional * E;
  startup : E → exceptional * E;
}.
End control.
Arguments world : clear implicits.
Arguments Gem5Config E : clear implicits.

Section functions.
Context {E : Type} `{!Gem5Config E}.
Abbreviation MC := (M (world E)).

Definition call (c : gem5_call) : MC unit := modify (λ w, set_gem5 (gem5_do c (gem5 w)) w).

Definition this : MC Gem5SimControl :=
  i ← gets instance; lift_option i (UNDEFINED "this").
Definition modify_this (f : Gem5SimControl → Gem5SimControl) : MC unit :=
  c ← this; modify (set_instance (Some (f c))).

Definition registerSlavePort (name : string) (port : positive) : MC unit :=
  c ← this;
  match sm_find name (slavePorts c) with
  | None => modify_this (set_slavePorts (sm_set name port (slavePorts c)))
  | Some _ => fail (EXIT_FAILURE "Slave Port is already registered!")
  end.

Definition registerMasterPort (name : string) (port : positive) : MC unit :=
  c ← this;
  match sm_find name (masterPorts c) with
  | None => modify_this (set_masterPorts (sm_set name port (masterPorts c)))
  | Some _ => fail (EXIT_FAILURE "Master Port is already registered!")
  end.

(** [getSlavePort] also gives the port the CPUs' requestor ids. *)
Definition getSlavePort (name : string) : MC positive :=
  c ← this;
  port ← lift_option (sm_find name (slavePorts c)) (EXIT_FAILURE "Slave Port was not found!");
  s ← gets slaves;
  t ← lift_option (s !! port) (UNDEFINED "slavePorts.at(name)");
  modify (set_slaves (<[port := Sockets.updateCorePortMap (cpuPorts c) t]> s));;
  mret port.

Definition getMasterPort (name : string) : MC positive :=
  c ← this;
  lift_option (sm_find name (masterPorts c)) (EXIT_FAILURE "Master Port was not found!").

(** [class Gem5SimControl] implements the interface. *)
#[global] Instance control_interface : Gem5SimControlInterface (world E) := {
  sim_control_getSlavePort := getSlavePort;
  sim_control_getMasterPort := getMasterPort;
}.

(** [SCSlavePortHandler::getExternalPort], [SCMasterPortHandler::getExternalPort]: a new port,
    registered under the data of the configuration. *)
Definition new_port : MC positive :=
  p ← gets next_port; modify (set_next_port (Pos.succ p));; mret p.

Definition slave_getExternalPort (port_data : string) : MC unit :=
  port ← new_port;
  modify (λ w, set_slaves (<[port := Sockets.cpu_sockets_new]> (slaves w)) w);;
  registerSlavePort port_data port.

Definition master_getExternalPort (port_data : string) : MC unit :=
  port ← new_port;
  registerMasterPort port_data port.

Definition getExternalPort (p : external_port) : MC unit :=
  match p.1 with
  | tlm_slave => slave_getExternalPort p.2
  | tlm_master => master_getExternalPort p.2
  end.

(** [catch (gem5::CxxConfigManager::Exception &e)] *)
Definition caught (x : exceptional) : MC unit :=
  match x with
  | None => mret tt
  | Some (name, message) => fail (EXIT_FAILURE ("Config problem in sim object " +:+ name +:+ ": " +:+ message))
  end.

(** The loop over the debug flags; [flag.at(0)] throws for an empty token. *)
Definition debug_flag (flag : string) : MC unit :=
  match flag with
  | EmptyString => fail (THROW "std::out_of_range: flag.at(0)")
  | String c rest =>
      if bool_decide (c = "-"%char) then call (clearDebugFlag rest) else call (setDebugFlag flag)
  end.
Definition debug_flags (gem5DebugFlags : string) : MC unit :=
  for_each (getlines gem5DebugFlags) debug_flag.

(** The part of the constructor from the configuration on. *)
Definition configure (configFile : string) : MC unit :=
  '(ports, x) ← (λ w, let '(ports, x, e) := instantiate configFile (gem5 w) in
                     (Ok (ports, x), set_gem5 e w));
  for_each ports getExternalPort;;
  caught x;;
  e ← gets gem5;
  c ← this;
  modify (set_instance (Some
    (set_cpuPorts (initCoreInfo (getRequestorId e) (cpuNameList e) (cpuPorts c)) c))).

(** The constructor once [instance] is set. *)
Definition construct (configFile gem5DebugFlags : string) : MC unit :=
  call cxxConfigInit;;
  call (registerHandler "tlm_slave");;
  call (registerHandler "tlm_master");;
  call setDebugLogger;;
  call (setClockFrequency EventLoop.setTickFrequency);;
  r ← gets (λ w, time_resolution_ps (gem5 w));
  check (r =? 1) (ASSERT "sc_get_time_resolution() == sc_time(1, SC_PS)");;
  q ← gets queues;
  (match EventLoop.setupEventQueues q with
   | Ok q' => modify (set_queues q')
   | Err e => fail e
   end);;
  call initSignals;;
  call initSimStats;;
  call registerStatsHandlers;;
  call Trace_enable;;
  check (negb (bool_decide (configFile = ""%string))) (EXIT_FAILURE "No gem5 config file specified!");;
  loaded ← gets (λ w, load configFile (gem5 w));
  check loaded (EXIT_FAILURE "Can't open config file");;
  modify_this (set_config_manager configFile);;
  debug_flags gem5DebugFlags;;
  call statsEnable;;
  call dump_queue;;
  configure configFile.

(** [Gem5SimControl::Gem5SimControl] *)
Definition Gem5SimControl_new (configFile : string) (simulationEnd : Z) (gem5DebugFlags : string) :
    MC unit :=
  i ← gets instance;
  check (match i with None => true | Some _ => false end)
    (PANIC "Tried to instantiate Gem5SimControl more than once!");;
  modify (set_instance (Some
    {| config_manager := None; simulationEnd := simulationEnd; slavePorts := [];
       masterPorts := []; cpuPorts := [] |}));;
  construct configFile gem5DebugFlags.

(** [getInstance]: the arguments of every call but the first are ignored. *)
Definition getInstance (configFile : string) (simulationEnd : Z) (gem5DebugFlags : string) :
    MC Gem5SimControl :=
  i ← gets instance;
  (match i with
   | None => Gem5SimControl_new configFile simulationEnd gem5DebugFlags
   | Some _ => mret tt
   end);;
  this.

Definition end_of_elaboration : MC unit :=
  x ← (λ w, let '(x, e) := initState (gem5 w) in (Ok x, set_gem5 e w));
  caught x;;
  x ← (λ w, let '(x, e) := startup (gem5 w) in (Ok x, set_gem5 e w));
  caught x.
End functions.

(** [run], around the [wait] of [simulate]; the callbacks do nothing unless they are overridden. *)
Section run.
Context {E : Type} `{!EventLoop.Gem5Queue E}.

Definition run_cycles (c : Gem5SimControl) : Z :=
  if simulationEnd c =? 0 then EventLoop.MaxTick else simulationEnd c.
Definition run_begin (c : Gem5SimControl) : M (EventLoop.world E) positive :=
  EventLoop.simulate_begin (run_cycles c).
Definition run_end (limit_event : positive) : M (EventLoop.world E) positive :=
  EventLoop.simulate_end limit_event.
End run.

(** ** Lemmas *)

Section cpu_lemmas.
Implicit Types (m : stdmap string (list Z)).

Lemma append_id_spec name id m :
  sm_sorted m → append_id name id m = (λ ids, sm_set name (ids ++ [id]) m) <$> sm_find name m.
Proof.
  induction 1 as [|k ids m Hall Hs IH]; simpl; [done|]. case_bool_decide as Hk.
  - subst. by rewrite kcmp_refl.
  - rewrite IH. destruct (kcmp name k) eqn:Hc.
    + by apply kcmp_eq in Hc as ->.
    + destruct (sm_find name m) as [ids'|] eqn:Hf; [|done]. apply sm_find_elem in Hf; [|done].
      rewrite Forall_forall in Hall. specialize (Hall _ Hf). simpl in Hall.
      apply kcmp_gt in Hall. congruence.
    + by destruct (sm_find name m).
Qed.

Lemma addCoreID_spec name id m :
  sm_sorted m → addCoreID name id m = sm_set name (sm_get_or [] name m ++ [id]) m.
Proof.
  intros Hs. unfold addCoreID, sm_get_or. rewrite append_id_spec by done.
  by destruct (sm_find name m).
Qed.

Lemma addCoreID_sorted name id m : sm_sorted m → sm_sorted (addCoreID name id m).
Proof. intros Hs. rewrite addCoreID_spec by done. by apply sm_set_sorted. Qed.

Lemma initCoreInfo_sorted g l m : sm_sorted m → sm_sorted (initCoreInfo g l m).
Proof.
  revert m. induction l as [|n l IH]; intros m Hs; simpl; [done|].
  by apply IH, addCoreID_sorted, addCoreID_sorted.
Qed.

(** The requestor ids a CPU gets each time its name is listed. *)
Definition core_ports (g : string → string → Z) (n : string) : list Z :=
  [g n "inst"%string; g n "data"%string].

Lemma initCoreInfo_find g l m name :
  sm_sorted m →
  sm_find name (initCoreInfo g l m) =
    match filter (λ n, n = name) l with
    | [] => sm_find name m
    | ns => Some (sm_get_or [] name m ++ mjoin (core_ports g <$> ns))
    end.
Proof.
  revert m. induction l as [|n l IH]; intros m Hs; [done|]. simpl.
  assert (sm_sorted (addCoreID n (g n "inst"%string) m)) as Hs1 by by apply addCoreID_sorted.
  rewrite IH by by apply addCoreID_sorted.
  assert (∀ k, sm_find k (addCoreID n (g n "data"%string) (addCoreID n (g n "inst"%string) m)) =
    if decide (k = n) then Some (sm_get_or [] n m ++ core_ports g n) else sm_find k m) as Hf.
  { intros k. rewrite (addCoreID_spec n (g n "data"%string)), sm_find_set by done.
    unfold sm_get_or at 1. rewrite addCoreID_spec, !sm_find_set, kcmp_refl by done. simpl.
    destruct (kcmp k n) eqn:Hc, (decide (k = n)) as [->|Hn]; try done;
      rewrite ?kcmp_refl in Hc; try done; [by rewrite <- app_assoc|by apply kcmp_eq in Hc]. }
  unfold sm_get_or. rewrite Hf, filter_cons. destruct (decide (n = name)) as [->|Hn].
  - rewrite decide_True by done. unfold sm_get_or. destruct (filter _ l); simpl.
    + done.
    + by rewrite <- app_assoc.
  - by rewrite decide_False by done.
Qed.

Lemma find_core_spec k id m :
  u32 k →
  find_core k id m =
    match Sockets.first_index id (sm_values m) with
    | Some i => wrap32 (k + Z.of_nat i)
    | None => 0
    end.
Proof.
  revert k. induction m as [|[n ids] m IH]; intros k Hk; simpl; [done|].
  case_bool_decide; [by rewrite Z.add_0_r, wrap32_small|].
  rewrite IH by auto with gem5. unfold sm_values.
  destruct (Sockets.first_index id m.*2) as [i|]; simpl; [|done].
  unfold wrap32. rewrite Zplus_mod_idemp_l. f_equal. lia.
Qed.
End cpu_lemmas.

Section flag_lemmas.

Fixpoint has_space (s : string) : bool :=
  match s with
  | EmptyString => false
  | String c s' => bool_decide (c = " "%char) || has_space s'
  end.

Lemma getlines_word a : has_space a = false → a ≠ ""%string → getlines a = [a].
Proof.
  induction a as [|c a IH]; simpl; [done|]. intros [Hc Ha]%orb_false_iff _. rewrite Hc.
  destruct a; [done|]. by rewrite IH.
Qed.

Lemma getlines_space a s :
  has_space a = false → getlines (a +:+ String " "%char s) = a :: getlines s.
Proof.
  induction a as [|c a IH]; simpl; [done|]. intros [Hc Ha]%orb_false_iff. by rewrite Hc, IH.
Qed.

Lemma getlines_concat ws :
  Forall (λ a, has_space a = false) ws → last ws ≠ Some ""%string →
  getlines (String.concat " " ws) = ws.
Proof.
  induction 1 as [|a ws Ha Hws IH]; intros Hl; [done|]. destruct ws as [|b ws].
  - simpl. apply getlines_word; [done|]. by intros ->.
  - change (String.concat " " (a :: b :: ws)) with
      (a +:+ String " "%char (String.concat " " (b :: ws))).
    rewrite getlines_space by done. f_equal. by apply IH.
Qed.
End flag_lemmas.

Section properties.
Context {E : Type} `{!Gem5Config E}.
Implicit Types (w : world E) (c : Gem5SimControl).

(** gem5 after a list of calls. *)
Definition replay (l : list gem5_call) (e : E) : E := foldl (λ e i, gem5_do i e) e l.

Definition flag_call (flag : string) : gem5_call :=
  match flag with
  | EmptyString => setDebugFlag flag
  | String c rest => if bool_decide (c = "-"%char) then clearDebugFlag rest else setDebugFlag flag
  end.

Lemma debug_flag_Ok flag w :
  flag ≠ ""%string → debug_flag flag w = (Ok tt, set_gem5 (gem5_do (flag_call flag) (gem5 w)) w).
Proof. destruct flag as [|c s]; [done|]. simpl. by case_bool_decide. Qed.

Lemma debug_flags_Ok ws w :
  Forall (λ a, a ≠ ""%string) ws →
  for_each ws debug_flag w = (Ok tt, set_gem5 (replay (flag_call <$> ws) (gem5 w)) w).
Proof.
  intros Hws. revert w. induction Hws as [|a ws Ha Hws IH]; intros w; simpl; [by destruct w|].
  erewrite bind_Ok by (by apply debug_flag_Ok). by rewrite IH.
Qed.

(** The pointer registered for an external port. *)
Definition port_of c (e : external_port) : option positive :=
  match e.1 with
  | tlm_slave => sm_find e.2 (slavePorts c)
  | tlm_master => sm_find e.2 (masterPorts c)
  end.

(** The registries after the ports [l] have been created: exactly these are known, each by a port
    of its own, and the slave ports have an empty CPU table. *)
Record registered (l : list external_port) c w : Prop := {
  reg_sorted : sm_sorted (slavePorts c) ∧ sm_sorted (masterPorts c);
  reg_known e : is_Some (port_of c e) ↔ e ∈ l;
  reg_fresh e p : port_of c e = Some p → (p < next_port w)%positive;
  reg_inj e e' p : port_of c e = Some p → port_of c e' = Some p → e = e';
  reg_table n p : port_of c (tlm_slave, n) = Some p → slaves w !! p = Some Sockets.cpu_sockets_new;
}.

(** The rest of the control. *)
Definition same_config c c' : Prop :=
  config_manager c' = config_manager c ∧ simulationEnd c' = simulationEnd c ∧
  cpuPorts c' = cpuPorts c.

Definition add_port (e : external_port) (p : positive) c : Gem5SimControl :=
  match e.1 with
  | tlm_slave => set_slavePorts (sm_set e.2 p (slavePorts c)) c
  | tlm_master => set_masterPorts (sm_set e.2 p (masterPorts c)) c
  end.

Lemma port_of_add e e' p c :
  sm_sorted (slavePorts c) ∧ sm_sorted (masterPorts c) →
  port_of (add_port e p c) e' = if decide (e' = e) then Some p else port_of c e'.
Proof.
  intros [Hs Hm]. unfold port_of, add_port. destruct (decide (e' = e)) as [->|Hne].
  - destruct e as [[] n]; simpl; rewrite sm_find_set by done; by rewrite kcmp_refl.
  - destruct e as [k n], e' as [k' n']. destruct k, k'; simpl; rewrite ?sm_find_set by done; try done;
      destruct (kcmp n' n) eqn:Hc; try done; apply kcmp_eq in Hc; by subst.
Qed.

Lemma getExternalPort_run e l c w :
  registered l c w → instance w = Some c → e ∉ l →
  ∃ w', getExternalPort e w = (Ok tt, w') ∧ instance w' = Some (add_port e (next_port w) c) ∧
    queues w' = queues w ∧ gem5 w' = gem5 w ∧ registered (e :: l) (add_port e (next_port w) c) w'.
Proof.
  intros Hr Hi Hnew. assert (port_of c e = None) as Hnone.
  { destruct (port_of c e) eqn:Hp; [|done]. destruct Hnew. apply (reg_known l c w Hr). by eexists. }
  assert (∀ w', next_port w' = Pos.succ (next_port w) →
    (∀ p, (p < next_port w)%positive → slaves w' !! p = slaves w !! p) →
    (e.1 = tlm_slave → slaves w' !! next_port w = Some Sockets.cpu_sockets_new) →
    registered (e :: l) (add_port e (next_port w) c) w') as Hreg.
  { intros w' Hn Hold Hnw. destruct Hr as [Hs Hk Hf Hj Ht]. split.
    - destruct e as [[] n], Hs; simpl; split; by try apply sm_set_sorted.
    - intros e'. rewrite port_of_add, elem_of_cons by done. rewrite <- Hk.
      destruct (decide (e' = e)); [split; [by left|by eexists]|]. split; [by right|by intros [?|?]].
    - intros e' p. rewrite port_of_add, Hn by done. destruct (decide _); [intros [= <-]; lia|].
      intros Hp. specialize (Hf _ _ Hp). lia.
    - intros e1 e2 p. rewrite !port_of_add by done.
      destruct (decide (e1 = e)), (decide (e2 = e)); try congruence; [| |apply Hj];
        intros H1 H2; [apply Hf in H2|apply Hf in H1]; simplify_eq; lia.
    - intros n p. rewrite port_of_add by done. destruct (decide _) as [Heq|].
      + intros [= <-]. apply Hnw. by rewrite <- Heq.
      + intros Hp. rewrite Hold by by apply Hf in Hp. by apply (Ht n). }
  unfold getExternalPort, slave_getExternalPort, master_getExternalPort, new_port,
    registerSlavePort, registerMasterPort, modify_this, this, mbind, M_bind, gets, modify,
    lift_option, mret, M_ret.
  destruct e as [[] n]; unfold port_of in Hnone; simpl in *; rewrite Hi; simpl; rewrite Hnone; simpl;
    rewrite Hi; simpl; (eexists; split; [done|]); simpl; do 3 (split; [done|]); apply Hreg;
    simpl; try done.
  - intros p Hp. rewrite lookup_insert_ne by lia. done.
  - intros _. by rewrite lookup_insert_eq.
Qed.

Lemma same_config_add e p c : same_config c (add_port e p c).
Proof. by destruct e as [[] n]. Qed.

Lemma getExternalPorts_run ports l c w :
  registered l c w → instance w = Some c → NoDup ports → (∀ e, e ∈ ports → e ∉ l) →
  ∃ w' c', for_each ports getExternalPort w = (Ok tt, w') ∧ instance w' = Some c' ∧
    queues w' = queues w ∧ gem5 w' = gem5 w ∧ same_config c c' ∧
    registered (reverse ports ++ l) c' w'.
Proof.
  intros Hr Hi Hnd. revert l c w Hr Hi. induction Hnd as [|e ports Hin Hnd IH]; intros l c w Hr Hi Hl.
  { exists w, c. by repeat split_and. }
  destruct (getExternalPort_run e l c w Hr Hi) as (w1 & Hrun & Hi1 & Hq1 & Hg1 & Hr1).
  { apply Hl. by left. }
  destruct (IH _ _ _ Hr1 Hi1) as (w2 & c2 & Hrun2 & Hi2 & Hq2 & Hg2 & Hsame & Hr2).
  { intros e' He'. rewrite elem_of_cons. intros [->|Hel]; [done|].
    eapply Hl; [|exact Hel]. by right. }
  exists w2, c2. simpl. erewrite bind_Ok by done. split; [done|]. split; [done|].
  rewrite Hq2, Hg2, Hq1, Hg1, reverse_cons, <- app_assoc. do 2 (split; [done|]). split; [|done].
  unfold same_config. destruct Hsame as (-> & -> & ->). apply same_config_add.
Qed.

Definition prologue : list gem5_call :=
  [cxxConfigInit; registerHandler "tlm_slave"; registerHandler "tlm_master"; setDebugLogger;
   setClockFrequency 1000000000000].
Definition enabling : list gem5_call :=
  [initSignals; initSimStats; registerStatsHandlers; Trace_enable].

(** Under the default sockets both numbers come from the order of the map. *)
Lemma core_and_socket (M : stdmap string (list Z)) gem5_cache id :
  Z.of_nat (length M) < 2 ^ 32 →
  let t := Sockets.initSocketMap (Some []) (Sockets.updateCorePortMap M Sockets.cpu_sockets_new) in
  Sockets.getSocketId gem5_cache id t =
    if gem5_cache
    then if bool_decide (Exists (λ ids, id ∈ ids) (sm_values M))
         then getCoreIDByRequestorID id M + 1 else 0
    else getCoreIDByRequestorID id M.
Proof.
  intros Hlen t. unfold getCoreIDByRequestorID, Sockets.getSocketId.
  assert (Sockets.socket_map t = Sockets.numbered 0 (sm_values M)) as ->.
  { unfold t. simpl. apply (Sockets.default_loop_numbered M []). simpl. lia. }
  rewrite Sockets.find_numbered, find_core_spec by (split; lia).
  destruct (Sockets.first_index id (sm_values M)) as [i|] eqn:Hi; simpl.
  - assert (i < length M)%nat as Hlt.
    { apply Sockets.first_index_lt in Hi. unfold sm_values in Hi. by rewrite length_fmap in Hi. }
    destruct gem5_cache; [|by rewrite wrap32_small by (split; lia)].
    rewrite bool_decide_true, !wrap32_small; [done|split; lia|split; lia|].
    apply Sockets.first_index_Some in Hi as [(ids & Hids & Hin) _].
    apply Exists_exists. exists ids. split; [by eapply list_elem_of_lookup_2|done].
  - destruct gem5_cache; [|done]. rewrite bool_decide_false; [done|]. clear -Hi. intros Hex.
    induction Hex as [ids ls Hin|ids ls Hex IH]; simpl in Hi; [by rewrite bool_decide_true in Hi|].
    apply IH. case_bool_decide; [done|]. by destruct (Sockets.first_index id ls).
Qed.

(** C35: The control and the slave port number the CPUs alike: an id the control finds in a CPU goes,
    with the default sockets, through the socket with that CPU's number - one more with the gem5
    cache, whose socket 0 is the system port's - and an unknown id through socket 0. *)
Theorem control_agrees_with_port (M : stdmap string (list Z)) id :
  Z.of_nat (length M) < 2 ^ 32 →
  let t := Sockets.initSocketMap (Some []) (Sockets.updateCorePortMap M Sockets.cpu_sockets_new) in
  Sockets.getSocketId false id t = getCoreIDByRequestorID id M ∧
  Sockets.getSocketId true id t =
    (if bool_decide (Exists (λ ids, id ∈ ids) (sm_values M)) then getCoreIDByRequestorID id M + 1 else 0).
Proof.
  intros Hlen t. split; [by apply (core_and_socket M false)|by apply (core_and_socket M true)].
Qed.

(** The CPUs of the configuration are the keys of the map, in the order of their names, each with
    the ids of its instruction and its data port; a name that is listed again gets them again. *)
Theorem core_info g l name :
  sm_sorted (initCoreInfo g l []) ∧
  sm_find name (initCoreInfo g l []) =
    match filter (λ n, n = name) l with
    | [] => None
    | ns => Some (mjoin (core_ports g <$> ns))
    end.
Proof.
  split; [apply initCoreInfo_sorted; constructor|].
  rewrite initCoreInfo_find by constructor. done.
Qed.

(** The debug flags: the words of the string are set in their order, a word that begins with a
    minus is cleared; an empty word, which two spaces or a leading space make, ends the program. *)
Theorem flags_applied ws w :
  Forall (λ a, has_space a = false) ws → last ws ≠ Some ""%string →
  (Forall (λ a, a ≠ ""%string) ws →
   debug_flags (String.concat " " ws) w = (Ok tt, set_gem5 (replay (flag_call <$> ws) (gem5 w)) w)) ∧
  (""%string ∈ ws → fails (debug_flags (String.concat " " ws)) (THROW "std::out_of_range: flag.at(0)") w).
Proof.
  intros Hsp Hl. unfold debug_flags. rewrite getlines_concat by done. split; [apply debug_flags_Ok|].
  clear Hsp Hl. revert w. induction ws as [|a ws IH]; intros w; [by rewrite elem_of_nil|].
  intros Hin. simpl. destruct (decide (a = ""%string)) as [->|Ha]; [by apply fails_bind|].
  eapply fails_bind_Ok; [by apply debug_flag_Ok|]. apply IH.
  apply elem_of_cons in Hin as [?|?]; [by subst|done].
Qed.

(** C34: The constructor: with a resolution of 1 ps, no queues yet, a configuration that loads, words
    as debug flags, and external ports that are instantiated without an exception, no two of the
    same kind and data, it succeeds.  It has then called gem5 in this order, installed its queue,
    registered each port under its data, and knows the CPUs. *)
Theorem control_ready file e_nd flags w ports e :
  let e1 := replay prologue (gem5 w) in
  let e2 := replay enabling e1 in
  let e3 := replay ((flag_call <$> getlines flags) ++ [statsEnable; dump_queue]) e2 in
  instance w = None → time_resolution_ps e1 = 1 → queues w = [] → file ≠ ""%string →
  load file e2 = true → Forall (λ a, a ≠ ""%string) (getlines flags) →
  instantiate file e3 = (ports, None, e) → NoDup ports →
  ∃ w' c, Gem5SimControl_new file e_nd flags w = (Ok tt, w') ∧ instance w' = Some c ∧
    config_manager c = Some file ∧ simulationEnd c = e_nd ∧
    cpuPorts c = initCoreInfo (getRequestorId e) (cpuNameList e) [] ∧
    queues w' = ["events"%string] ∧ gem5 w' = e ∧ registered (reverse ports) c w'.
Proof.
  intros e1 e2 e3 Hi Hr Hq Hf Hl Hfl Hin Hnd.
  set (c0 := {| config_manager := Some file; simulationEnd := e_nd; slavePorts := [];
                masterPorts := []; cpuPorts := [] |}).
  set (w3 := World (Some c0) ["events"%string] (slaves w) (next_port w) e3).
  assert (Gem5SimControl_new file e_nd flags w = configure file w3) as ->.
  { destruct w as [i q s n g]. simpl in *. subst i q. unfold Gem5SimControl_new, construct.
    do 8 (erewrite bind_Ok by reflexivity). unfold set_instance, set_gem5. simpl.
    erewrite bind_Ok; [|reflexivity]. simpl. change (gem5_do (setClockFrequency _) _) with e1.
    rewrite Hr. do 3 (erewrite bind_Ok by reflexivity). simpl.
    do 4 (erewrite bind_Ok by reflexivity). unfold set_gem5, set_queues. simpl.
    change (gem5_do Trace_enable _) with e2. rewrite bool_decide_false by done.
    do 2 (erewrite bind_Ok by reflexivity). simpl. rewrite Hl.
    do 2 (erewrite bind_Ok by reflexivity). simpl. unfold debug_flags.
    erewrite bind_Ok by (by apply debug_flags_Ok). do 2 (erewrite bind_Ok by reflexivity).
    unfold w3, e3, replay. by rewrite foldl_app. }
  assert (registered [] c0 w3) as Hreg.
  { split; [split; constructor| | | |].
    - intros [[] ?]; unfold port_of; simpl; rewrite elem_of_nil; (split; [by intros []|done]).
    - by intros [[] ?].
    - by intros [[] ?].
    - done. }
  destruct (getExternalPorts_run ports [] c0 (set_gem5 e w3)) as
    (w' & c & Hrun & Hic & Hqc & Hgc & (Hcf & Hce & Hcc) & Hrc).
  { destruct Hreg. by split. }
  { done. } { done. } { intros ? _. apply not_elem_of_nil. }
  unfold configure. erewrite bind_Ok; [|simpl; by rewrite Hin]. simpl.
  erewrite bind_Ok by exact Hrun. simpl. erewrite bind_Ok by reflexivity.
  erewrite bind_Ok by reflexivity. erewrite bind_Ok; [|unfold this, mbind, M_bind, gets; by rewrite Hic].
  rewrite Hgc, Hcc. eexists _, _. split; [done|]. split; [done|]. simpl.
  rewrite Hcf, Hce, Hqc, app_nil_r in *. repeat (split; [done|]). by destruct Hrc.
Qed.

(** A computation that, once [this] exists, keeps it and does not reach undefined behaviour. *)
Definition keeps_this {A} (m : M (world E) A) : Prop :=
  ∀ w, is_Some (instance w) →
    match m w with
    | (Ok _, w') => is_Some (instance w')
    | (Err e, _) => ∀ what, e ≠ UNDEFINED what
    end.

Lemma keeps_bind {A B} (m : M (world E) A) (f : A → M (world E) B) :
  keeps_this m → (∀ a, keeps_this (f a)) → keeps_this (m ≫= f).
Proof.
  intros Hm Hf w Hw. specialize (Hm w Hw). unfold mbind, M_bind.
  destruct (m w) as [[a|e] w']; [by apply Hf|done].
Qed.

Lemma keeps_ret {A} (a : A) : keeps_this (mret a).
Proof. by intros w. Qed.
Lemma keeps_gets {A} (f : world E → A) : keeps_this (gets f).
Proof. by intros w. Qed.
Lemma keeps_modify f : (∀ w, is_Some (instance w) → is_Some (instance (f w))) → keeps_this (modify f).
Proof. intros Hf w Hw. by apply Hf. Qed.
Lemma keeps_fail {A} e : (∀ what, e ≠ UNDEFINED what) → keeps_this (@fail (world E) A e).
Proof. by intros He w Hw. Qed.
Lemma keeps_check b e : (∀ what, e ≠ UNDEFINED what) → keeps_this (check b e).
Proof. intros He w Hw. by destruct b. Qed.
Lemma keeps_this_this : keeps_this this.
Proof.
  intros w Hw. unfold this, mbind, M_bind, gets. destruct (instance w) as [c|] eqn:Hc; simpl.
  - by rewrite Hc.
  - by destruct Hw.
Qed.
Lemma keeps_for_each {A} (l : list A) f : (∀ a, keeps_this (f a)) → keeps_this (for_each l f).
Proof. intros Hf. induction l; simpl; [apply keeps_ret|by apply keeps_bind]. Qed.

Ltac keeps :=
  repeat lazymatch goal with
  | |- keeps_this (mbind _ _) => apply keeps_bind; [|intros ?]
  | |- keeps_this (mret _) => apply keeps_ret
  | |- keeps_this (gets _) => apply keeps_gets
  | |- keeps_this this => apply keeps_this_this
  | |- keeps_this (modify _) => apply keeps_modify; simpl; (done || by intros; eexists)
  | |- keeps_this (check _ _) => by apply keeps_check
  | |- keeps_this (fail _) => by apply keeps_fail
  | |- keeps_this (for_each _ _) => apply keeps_for_each; intros ?
  | |- keeps_this (match match ?x with _ => _ end with _ => _ end) => destruct x
  | |- keeps_this (match ?x with _ => _ end) => destruct x
  end.

Lemma keeps_configure file : keeps_this (configure file).
Proof.
  unfold configure, caught, getExternalPort, slave_getExternalPort, master_getExternalPort, new_port,
    registerSlavePort, registerMasterPort, modify_this.
  apply keeps_bind; [|intros [ports x]; keeps].
  intros w Hw. by destruct (Control.instantiate file (gem5 w)) as [[ports x] e].
Qed.

(** A control that is constructed is the instance, and its construction reaches no undefined
    behaviour. *)
Lemma getInstance_safe file e_nd flags w :
  match getInstance file e_nd flags w with
  | (Ok c, w') => is_Some (instance w')
  | (Err e, _) => ∀ what, e ≠ UNDEFINED what
  end.
Proof.
  unfold getInstance. unfold mbind at 1, M_bind at 1, gets.
  destruct (instance w) as [c|] eqn:Hi.
  { exact (keeps_this_this w ltac:(by eexists)). }
  assert (keeps_this (construct file flags;; this)) as Hk.
  { unfold construct, modify_this, debug_flags, debug_flag, call, EventLoop.setupEventQueues.
    keeps. apply keeps_configure. }
  set (c0 := {| config_manager := None; simulationEnd := e_nd; slavePorts := []; masterPorts := [];
                cpuPorts := [] |}).
  assert (Gem5SimControl_new file e_nd flags w = construct file flags (set_instance (Some c0) w))
    as Hnew.
  { unfold Gem5SimControl_new. erewrite bind_Ok by reflexivity. by rewrite Hi. }
  specialize (Hk (set_instance (Some c0) w) ltac:(by eexists)). revert Hk. unfold mbind, M_bind.
  by rewrite Hnew.
Qed.

(** After the constructor, each slave port of the configuration is found by its data, and no other
    name is; the port found is given the requestor ids of the CPUs.  Master ports likewise. *)
Theorem ports_found l c w n :
  registered l c w → instance w = Some c →
  ((tlm_slave, n) ∈ l →
   ∃ p, port_of c (tlm_slave, n) = Some p ∧
     getSlavePort n w =
       (Ok p, set_slaves (<[p := Sockets.updateCorePortMap (cpuPorts c) Sockets.cpu_sockets_new]> (slaves w)) w)) ∧
  ((tlm_slave, n) ∉ l → fails (getSlavePort n) (EXIT_FAILURE "Slave Port was not found!") w) ∧
  ((tlm_master, n) ∈ l → ∃ p, port_of c (tlm_master, n) = Some p ∧ getMasterPort n w = (Ok p, w)) ∧
  ((tlm_master, n) ∉ l → fails (getMasterPort n) (EXIT_FAILURE "Master Port was not found!") w).
Proof.
  intros [_ Hk _ _ Ht] Hi.
  assert (∀ k, (k, n) ∉ l → port_of c (k, n) = None) as Hno.
  { intros k Hn. destruct (port_of c (k, n)) eqn:Hp; [|done]. destruct Hn. apply Hk. by eexists. }
  unfold getSlavePort, getMasterPort, this, fails, lift_option, mbind, M_bind, gets, modify. simpl.
  rewrite !Hi. simpl. split; [|split; [|split]].
  - intros [p Hp]%Hk. exists p. split; [done|]. pose proof (Ht n p Hp) as Hs.
    unfold port_of in Hp. simpl in Hp. rewrite Hp. simpl. by rewrite Hs.
  - intros Hp%Hno. unfold port_of in Hp. simpl in Hp. by rewrite Hp.
  - intros [p Hp]%Hk. exists p. split; [done|]. unfold port_of in Hp. simpl in Hp. by rewrite Hp.
  - intros Hp%Hno. unfold port_of in Hp. simpl in Hp. by rewrite Hp.
Qed.

(** Two external ports of one kind with the same data end the program. *)
Theorem duplicate_port_exits l c w e :
  registered l c w → instance w = Some c → e ∈ l →
  fails (getExternalPort e)
    (EXIT_FAILURE match e.1 with
                  | tlm_slave => "Slave Port is already registered!"
                  | tlm_master => "Master Port is already registered!"
                  end) w.
Proof.
  intros [_ Hk _ _ _] Hi [p Hp]%Hk.
  unfold getExternalPort, slave_getExternalPort, master_getExternalPort, new_port,
    registerSlavePort, registerMasterPort, this, fails, mbind, M_bind, gets, modify, lift_option,
    mret, M_ret.
  destruct e as [[] n]; unfold port_of in Hp; simpl in *; rewrite Hi; simpl; by rewrite Hp.
Qed.

(** There is one control: a second construction panics and changes nothing, and [getInstance]
    returns the control there is whatever its arguments are. *)
Theorem one_control file e_nd flags c w :
  instance w = Some c →
  Gem5SimControl_new file e_nd flags w =
    (Err (PANIC "Tried to instantiate Gem5SimControl more than once!"), w) ∧
  getInstance file e_nd flags w = (Ok c, w).
Proof.
  intros Hi. unfold Gem5SimControl_new, getInstance, this, mbind, M_bind, gets, check, lift_option.
  rewrite Hi. simpl. by rewrite Hi.
Qed.
End properties.

(** The run simulates [simulationEnd] ticks, or without a limit where that is 0. *)
Theorem run_simulates `{!EventLoop.Gem5Queue E} (c : Gem5SimControl) (w : EventLoop.world E) :
  EventLoop.MaxTick = 2 ^ 64 - 1 → u64 (simulationEnd c) → u64 (EventLoop.curTick w) →
  let limit := if simulationEnd c =? 0 then EventLoop.MaxTick
               else Z.min (EventLoop.curTick w + simulationEnd c) EventLoop.MaxTick in
  fst (run_begin c w) = Ok (fst (EventLoop.GlobalSimLoopExitEvent limit w)).
Proof.
  intros Hm Hs Ht limit.
  assert (EventLoop.simulate_limit (run_cycles c) (EventLoop.curTick w) = limit) as Hl.
  { unfold limit, run_cycles, u64 in *. destruct (simulationEnd c =? 0);
      rewrite EventLoop.simulate_limit_min; try done; rewrite ?Hm; try split; lia. }
  unfold run_begin, EventLoop.simulate_begin, mbind, M_bind, gets, modify, mret, M_ret.
  rewrite Hl. by destruct (EventLoop.GlobalSimLoopExitEvent limit w).
Qed.

(** ** Witnesses

    A gem5 that counts its calls; its configuration has two CPUs, a slave and a master port. *)
#[local] Instance small_gem5 : Gem5Config (list gem5_call) := {
  gem5_do i e := e ++ [i];
  time_resolution_ps _ := 1;
  load file _ := bool_decide (file = "config.ini"%string);
  instantiate _ e := ([(tlm_slave, "system"%string); (tlm_master, "system"%string)], None, e);
  cpuNameList _ := ["cpu2"%string; "cpu10"%string];
  getRequestorId _ name port :=
    (if bool_decide (name = "cpu2"%string) then 5 else 7) +
    (if bool_decide (port = "data"%string) then 1 else 0);
  initState e := (None, e);
  startup e := (None, e);
}.

Definition before : world (list gem5_call) := World None [] ∅ 1 [].
Definition after : world (list gem5_call) :=
  snd (Gem5SimControl_new "config.ini" 1000 "Cache -Event" before).
Definition the_control : Gem5SimControl :=
  {| config_manager := Some "config.ini"%string; simulationEnd := 1000;
     slavePorts := [("system"%string, 1%positive)]; masterPorts := [("system"%string, 2%positive)];
     cpuPorts := [("cpu10"%string, [7; 8]); ("cpu2"%string, [5; 6])] |}.

Lemma control_ready_witness :
  instance after = Some the_control ∧
  ∃ w' c, Gem5SimControl_new "config.ini" 1000 "Cache -Event" before = (Ok tt, w') ∧
    instance w' = Some c ∧ registered [(tlm_master, "system"%string); (tlm_slave, "system"%string)] c w'.
Proof.
  split; [vm_compute; reflexivity|].
  edestruct (control_ready "config.ini" 1000 "Cache -Event" before
    [(tlm_slave, "system"%string); (tlm_master, "system"%string)])
    as (w' & c & H1 & H2 & _ & _ & _ & _ & _ & H3); try reflexivity; try done.
  - repeat constructor; done.
  - apply NoDup_cons_2; [|apply NoDup_singleton]. by rewrite list_elem_of_singleton.
  - by exists w', c.
Defined.

Lemma after_registered :
  registered [(tlm_master, "system"%string); (tlm_slave, "system"%string)] the_control after.
Proof.
  assert (∀ e, port_of the_control e =
    if decide (e.2 = "system"%string)
    then Some match e.1 with tlm_slave => 1%positive | tlm_master => 2%positive end else None) as Hp.
  { intros [k n]. unfold port_of. cbn -[kcmp decide].
    destruct (decide (n = "system"%string)) as [->|Hn]; [by destruct k|].
    destruct k; (destruct (kcmp n "system"%string) eqn:Hc; [by apply kcmp_eq in Hc|done|done]). }
  split.
  - split; simpl; repeat constructor.
  - intros [k n]. rewrite Hp. simpl. rewrite !elem_of_cons, elem_of_nil.
    destruct (decide (n = "system"%string)) as [->|Hn].
    + split; [intros _; destruct k; auto|by eexists].
    + split; [by intros []|intros [[= ? ?]|[[= ? ?]|[]]]; congruence].
  - intros [k n] p. rewrite Hp. simpl. destruct (decide _); [|done]. intros [= <-]. by destruct k.
  - intros [k n] [k' n'] p. rewrite !Hp. simpl. destruct (decide _), (decide _); try done.
    intros [= <-]. subst. by destruct k, k'.
  - intros n p. rewrite Hp. simpl. destruct (decide _); [|done]. intros [= <-]. reflexivity.
Qed.

Lemma ports_found_witness :
  fst (getSlavePort "system" after) = Ok 1%positive ∧
  fails (getSlavePort "other") (EXIT_FAILURE "Slave Port was not found!") after.
Proof.
  split.
  - destruct (ports_found _ the_control after "system" after_registered) as ((p & Hp & Hr) & _);
      [vm_compute; reflexivity|right; left|]. rewrite Hr. simpl. by injection Hp as <-.
  - apply (ports_found _ the_control after "other" after_registered); [vm_compute; reflexivity|].
    rewrite !elem_of_cons, elem_of_nil. intros [?|[?|[]]]; discriminate.
Defined.

Lemma duplicate_port_exits_witness :
  fails (getExternalPort (tlm_master, "system"%string))
    (EXIT_FAILURE "Master Port is already registered!") after.
Proof.
  apply (duplicate_port_exits _ the_control after (tlm_master, "system"%string) after_registered);
    [vm_compute; reflexivity|left].
Defined.

Lemma one_control_witness : getInstance "other.ini" 0 "" after = (Ok the_control, after).
Proof. apply (one_control "other.ini" 0 "" the_control after). vm_compute. reflexivity. Defined.

Lemma control_agrees_with_port_witness :
  Sockets.getSocketId true 6
    (Sockets.initSocketMap (Some [])
      (Sockets.updateCorePortMap (cpuPorts the_control) Sockets.cpu_sockets_new)) = 2.
Proof.
  destruct (control_agrees_with_port (cpuPorts the_control) 6) as [_ ->];
    [simpl; lia|reflexivity].
Defined.

Lemma flags_applied_witness :
  debug_flags "Cache -Event" before =
    (Ok tt, set_gem5 [setDebugFlag "Cache"; clearDebugFlag "Event"] before) ∧
  fails (debug_flags "Cache  Event") (THROW "std::out_of_range: flag.at(0)") before.
Proof.
  split.
  - destruct (flags_applied ["Cache"%string; "-Event"%string] before) as [Hok _];
      [repeat constructor|done|]. apply Hok. repeat constructor; done.
  - destruct (flags_applied ["Cache"%string; ""%string; "Event"%string] before) as [_ Herr];
      [repeat constructor|done|]. apply Herr. right. left.
Defined.

Lemma run_simulates_witness :
  fst (@run_begin _ EventLoop.periodic the_control (EventLoop.world_at 90 100 200)) = Ok 1%positive.
Proof.
  rewrite (@run_simulates _ EventLoop.periodic the_control (EventLoop.world_at 90 100 200));
    [reflexivity|reflexivity|split; simpl; lia|split; simpl; lia].
Defined.
End Control.
