(* ===== verification/Stats.v ===== *)
(** * Statistics: stats.cc

    The enabling, preparing and dumping of gem5's statistics. *)

From S2P Require Import Prelude.

Module Stats.

(** The ways [statsDump] writes a statistic. *)
Inductive visit_as :=
| as_formula | as_vector | as_vector2d | as_proxy | as_vectordist | as_dist | as_sparse | as_scalar.

(** The calls of gem5; the ones for a vector go through its own class. *)
Inductive stat_call {Info : Type} :=
| initText (filename : string) (desc spaces : bool)
| processDumpQueue
| processResetQueue
| enable (vector : bool) (i : Info)
| prepare (vector : bool) (i : Info)
| output_begin
| output_end
| visit (k : visit_as) (i : Info)
| warn_not_dumped (i : Info).
Arguments stat_call : clear implicits.

(** gem5's statistics.  The dynamic type of one is known by the casts that succeed; [is_Vector2dInfo]
    is the cast of a pointer to [VectorInfo], which is null where the statistic is no vector. *)
Class StatList (Info E : Type) := {
  statsList : E → list Info;
  stat_do : stat_call Info → E → E;
  is_ScalarInfo : Info → bool;
  is_VectorInfo : Info → bool;
  VectorInfo_is_Vector2dInfo : Info → bool;
  is_FormulaInfo : Info → bool;
  is_DistInfo : Info → bool;
  is_VectorDistInfo : Info → bool;
  is_SparseHistInfo : Info → bool;
  is_Vector2d_proxy : Info → bool;
}.

Section functions.
Context {Info E : Type} `{!StatList Info E}.
Abbreviation ME := (M E).

Definition call (c : stat_call Info) : ME unit := modify (stat_do c).

Definition statsPrepare : ME unit :=
  stats ← gets statsList;
  for_each stats (λ i, call (prepare (is_VectorInfo i) i)).

Definition statsEnable : ME unit :=
  stats ← gets statsList;
  for_each stats (λ i, call (enable (is_VectorInfo i) i)).

Definition statsReset : ME unit := call processResetQueue.

(** [dynamic_cast] of a null pointer is null. *)
Definition is_Vector2dInfo (i : Info) : bool := is_VectorInfo i && VectorInfo_is_Vector2dInfo i.

(** The body of the loop of [statsDump]. *)
Definition dump_stat (i : Info) : stat_call Info :=
  if is_VectorInfo i then
    if is_FormulaInfo i then visit as_formula i else visit as_vector i
  else if is_Vector2dInfo i then visit as_vector2d i
  else if is_Vector2d_proxy i then visit as_proxy i
  else if is_VectorDistInfo i then visit as_vectordist i
  else if is_DistInfo i then visit as_dist i
  else if is_SparseHistInfo i then visit as_sparse i
  else if is_ScalarInfo i then visit as_scalar i
  else warn_not_dumped i.

Definition statsDump (filename : string) : ME unit :=
  call (initText filename true true);;
  call processDumpQueue;;
  stats ← gets statsList;
  statsEnable;;
  statsPrepare;;
  call output_begin;;
  for_each stats (λ i, call (dump_stat i));;
  call output_end.

(** ** Properties *)

Definition replay (l : list (stat_call Info)) (e : E) : E := foldl (λ e c, stat_do c e) e l.

Lemma for_each_call (f : Info → stat_call Info) l e :
  for_each l (λ i, call (f i)) e = (Ok tt, replay (f <$> l) e).
Proof.
  revert e. induction l as [|i l IH]; intros e; simpl; [done|].
  erewrite bind_Ok by reflexivity. apply IH.
Qed.

Lemma replay_app l1 l2 e : replay (l1 ++ l2) e = replay l2 (replay l1 e).
Proof. unfold replay. by rewrite foldl_app. Qed.

Lemma replay_list l e :
  (∀ c e, statsList (stat_do c e) = statsList e) → statsList (replay l e) = statsList e.
Proof.
  intros Hl. revert e. induction l as [|c l IH]; intros e; [done|].
  change (replay (c :: l) e) with (replay l (stat_do c e)). by rewrite IH.
Qed.

(** A dump first runs gem5's own dump queue, then enables and prepares every statistic, and then
    writes each of them once, in the order of the list, between a begin and an end.  The case for
    two-dimensional vectors is never taken. *)
Theorem dump_writes_each_once filename e :
  (∀ c e, statsList (stat_do c e) = statsList e) →
  let l := statsList e in
  statsDump filename e =
    (Ok tt, replay ([initText filename true true; processDumpQueue] ++
                    ((λ i, enable (is_VectorInfo i) i) <$> l) ++
                    ((λ i, prepare (is_VectorInfo i) i) <$> l) ++
                    [output_begin] ++ (dump_stat <$> l) ++ [output_end]) e) ∧
  ∀ i, dump_stat i ≠ visit as_vector2d i.
Proof.
  intros Hl l. split.
  - unfold statsDump, statsEnable, statsPrepare. do 3 (erewrite bind_Ok by reflexivity).
    rewrite !Hl. fold l.
    erewrite bind_Ok; [|erewrite bind_Ok by reflexivity; apply for_each_call].
    erewrite bind_Ok; [|erewrite bind_Ok by reflexivity; apply for_each_call].
    erewrite bind_Ok by reflexivity. erewrite bind_Ok by apply for_each_call.
    rewrite replay_list, !Hl by done. fold l. rewrite !replay_app. reflexivity.
  - intros i. unfold dump_stat, is_Vector2dInfo. destruct (is_VectorInfo i); simpl.
    + by destruct (is_FormulaInfo i).
    + by repeat case_match.
Qed.
End functions.

(** ** Witness: a scalar and a vector, and a gem5 that lists the calls. *)
#[local] Instance two_stats : StatList bool (list (stat_call bool)) := {
  statsList _ := [false; true];
  stat_do c e := e ++ [c];
  is_ScalarInfo i := negb i;
  is_VectorInfo i := i;
  VectorInfo_is_Vector2dInfo _ := false;
  is_FormulaInfo _ := false;
  is_DistInfo _ := false;
  is_VectorDistInfo _ := false;
  is_SparseHistInfo _ := false;
  is_Vector2d_proxy _ := false;
}.

Lemma dump_writes_each_once_witness :
  statsDump "stats.txt" [] =
    (Ok tt, [initText "stats.txt" true true; processDumpQueue; enable false false; enable true true;
             prepare false false; prepare true true; output_begin; visit as_scalar false;
             visit as_vector true; output_end]).
Proof.
  destruct (dump_writes_each_once (Info := bool) (E := list (stat_call bool)) "stats.txt" [])
    as [Hd _]; [done|]. exact Hd.
Defined.
End Stats.
