(* ===== verification/Elaboration.v ===== *)
(** * Elaboration: before_end_of_elaboration of slave_transactor.cc and master_transactor.cc

    SystemC calls each transactor before the simulation starts; the transactor asks the control for
    the port of its name and binds itself to it.  The file puts the control, the slave ports and the
    master ports into one state, and shows that elaboration makes every slave port ready for the
    theorems of SlavePortSpec. *)

From S2P Require Import Prelude StdMap Tlm Concrete MemManager BlockingHelper SocketMap Transactor.
From S2P Require Import SlavePort SlavePortSpec MasterPort SimControl.

Module Elaboration.

(** [Gem5MasterTransactor::Gem5MasterTransactor]: only the check of the port name. *)
Definition Gem5MasterTransactor_new (name portName : string) : outcome string :=
  if bool_decide (portName = ""%string) then Err (SC_ERROR name "No port name specified!")
  else Ok portName.

Section elaboration.
Context `{TlmPayload, Gem5Packet} {C S T : Type}.

(** The control, and the ports by pointer.  The CPU table of a slave port is kept by the control's
    state, which [getSlavePort] writes to; the mode of gem5's system decides how a master port is
    registered. *)
Record world := World {
  control : Control.world C;
  slave_ports : gmap positive (Port.world S);
  master_ports : gmap positive (Master.world T);
  registered_as : gmap positive Master.registration;
}.

Definition set_control (c : Control.world C) (w : world) : world :=
  World c (slave_ports w) (master_ports w) (registered_as w).
Definition set_slave (p : positive) (pw : Port.world S) (w : world) : world :=
  World (Control.set_slaves (<[p := Port.sockets (Port.port pw)]> (Control.slaves (control w))) (control w))
    (<[p := pw]> (slave_ports w)) (master_ports w) (registered_as w).
Definition set_master (p : positive) (mw : Master.world T) (w : world) : world :=
  World (control w) (slave_ports w) (<[p := mw]> (master_ports w)) (registered_as w).
Definition set_registered (p : positive) (r : Master.registration) (w : world) : world :=
  World (control w) (slave_ports w) (master_ports w) (<[p := r]> (registered_as w)).

Abbreviation ME := (M world).
Abbreviation on_control c := (zoom control set_control c).

(** A slave port with its CPU table. *)
Definition slave_at (p : positive) (w : world) : option (Port.world S) :=
  pw ← slave_ports w !! p;
  t ← Control.slaves (control w) !! p;
  Some (Port.set_port (Port.set_sockets t) pw).

Definition on_slave {A} (p : positive) (m : M (Port.world S) A) : ME A := λ w,
  match slave_at p w with
  | Some pw => let '(r, pw') := m pw in (r, set_slave p pw' w)
  | None => (Err (UNDEFINED "port"), w)
  end.

Definition on_master {A} (p : positive) (m : M (Master.world T) A) : ME A := λ w,
  match master_ports w !! p with
  | Some mw => let '(r, mw') := m mw in (r, set_master p mw' w)
  | None => (Err (UNDEFINED "port"), w)
  end.

(** [Gem5SlaveTransactor::before_end_of_elaboration] *)
Definition elaborate_single (portName : string) : ME unit :=
  port ← on_control (sim_control_getSlavePort portName);
  on_slave port Port.bindToTransactor.

(** [Gem5SlaveTransactor_Multi::before_end_of_elaboration] *)
Definition elaborate_multi (m : Transactor.Gem5SlaveTransactor_Multi) : ME unit :=
  port ← on_control (sim_control_getSlavePort (Transactor.portName m));
  on_slave port (Port.bindToTransactor_Multi m).

(** [Gem5MasterTransactor::before_end_of_elaboration] *)
Definition elaborate_master (isTimingMode isAtomicMode : bool) (portName : string) : ME unit :=
  port ← on_control (sim_control_getMasterPort portName);
  r ← on_master port (Master.bindToTransactor isTimingMode isAtomicMode);
  modify (set_registered port r).

(** The kernel calls the transactors one after the other. *)
Definition elaborate (ms : list Transactor.Gem5SlaveTransactor_Multi) : ME unit :=
  for_each ms elaborate_multi.
End elaboration.
Arguments world {_ _} C S T.

(** ** Properties *)

Section properties.
Context `{TlmPayloadLaws, Gem5PacketLaws} {C S T : Type}.
Implicit Types (w : world C S T) (c : Control.Gem5SimControl).

(** A slave port as its constructor leaves it. *)
Definition new_port (pw : Port.world S) : Prop :=
  (∃ u m, Port.port pw = Port.SCSlavePort_new u m) ∧ mm_ok (Port.memory pw) ∧
  Port.events pw = ∅ ∧ Port.calls pw = [].

(** The control has been made, and the slave ports named [ns] have not been touched since. *)
Record fresh (l : list Control.external_port) c (ns : list string) w : Prop := {
  fr_instance : Control.instance (control w) = Some c;
  fr_known e : is_Some (Control.port_of c e) ↔ e ∈ l;
  fr_inj e e' p : Control.port_of c e = Some p → Control.port_of c e' = Some p → e = e';
  fr_ports n p : n ∈ ns → Control.port_of c (Control.tlm_slave, n) = Some p →
    Control.slaves (control w) !! p = Some Sockets.cpu_sockets_new ∧
    ∃ pw, slave_ports w !! p = Some pw ∧ new_port pw;
}.

Lemma set_sockets_new t u m :
  Port.set_sockets t (Port.set_sockets Sockets.cpu_sockets_new (Port.SCSlavePort_new u m)) =
  Port.set_sockets t (Port.SCSlavePort_new u m).
Proof. done. Qed.

(** A transactor that can serve the CPUs [M]: a socket for each, and no map of its own. *)
Definition serves (M : stdmap string (list Z)) (m : Transactor.Gem5SlaveTransactor_Multi) : Prop :=
  Z.of_nat (length M) ≤ Transactor.socket_num m ∧ Transactor.socket_core_map m = [].

Lemma elaborate_multi_run l c ns m w :
  let M := Control.cpuPorts c in
  fresh l c ns w → Transactor.portName m ∈ ns →
  (Control.tlm_slave, Transactor.portName m) ∈ l →
  M ≠ [] → Z.of_nat (length M) < 2 ^ 32 - 1 → serves M m →
  ∃ w' p pw, elaborate_multi m w = (Ok tt, w') ∧
    Control.port_of c (Control.tlm_slave, Transactor.portName m) = Some p ∧
    slave_ports w' = <[p := pw]> (slave_ports w) ∧ initial (Z.of_nat (length M)) pw ∧
    Port.sockets (Port.port pw) = Sockets.initSocketMap (Some []) (Sockets.registered M) ∧
    Control.instance (control w') = Some c ∧
    ∀ q, q ≠ p → Control.slaves (control w') !! q = Control.slaves (control w) !! q.
Proof.
  intros M [Hi Hk _ Hp] Hn Hin HM Hlen [Hnum Hcfg].
  destruct (proj2 (Hk _) Hin) as [p Hpo]. destruct (Hp _ p Hn Hpo) as (Ht & pw & Hpw & Hnew).
  destruct Hnew as ((u & um & Hport) & Hmm & Hev & Hcalls).
  set (t := Sockets.updateCorePortMap M Sockets.cpu_sockets_new).
  assert (unbound M (Port.set_port (Port.set_sockets t) pw)) as Hub.
  { split; simpl; try done. exists u, um. by rewrite Hport. }
  destruct (bind_makes_ready M m _ Hub HM Hlen Hnum Hcfg) as (pw' & Hrun & Hinit & Hsk).
  assert (zoom control set_control (Control.getSlavePort (Transactor.portName m)) w =
    (Ok p, set_control (Control.set_slaves (<[p := t]> (Control.slaves (control w))) (control w)) w))
    as Hget.
  { unfold zoom, Control.getSlavePort, Control.this, mbind, M_bind, gets, modify, lift_option,
      mret, M_ret. rewrite Hi. simpl. unfold Control.port_of in Hpo. simpl in Hpo. rewrite Hpo.
    simpl. by rewrite Ht. }
  assert (slave_at p (set_control (Control.set_slaves (<[p := t]> (Control.slaves (control w)))
    (control w)) w) = Some (Port.set_port (Port.set_sockets t) pw)) as Hat.
  { unfold slave_at. simpl. rewrite Hpw. simpl. by rewrite lookup_insert_eq. }
  eexists _, p, pw'. split.
  { unfold elaborate_multi. erewrite bind_Ok by exact Hget. unfold on_slave. rewrite Hat, Hrun.
    reflexivity. }
  simpl. do 5 (split; [done|]).
  intros q Hq. by rewrite !lookup_insert_ne by done.
Qed.

(** A port that a transactor was bound to: ready, and with the core numbers of the control as its
    sockets. *)
Definition ready c (pw : Port.world S) : Prop :=
  initial (Z.of_nat (length (Control.cpuPorts c))) pw ∧
  ∀ id, Sockets.getSocketId false id (Port.sockets (Port.port pw)) =
        Control.getCoreIDByRequestorID id (Control.cpuPorts c).

(** C33: Elaboration: when the ports the transactors name are distinct and configured, and each
    transactor can serve the CPUs, every transactor gets its port, and every one of these ports is
    ready: it is in an initial state of the slave port's closed system, and it sends the requests of
    each CPU through the socket with the number the control gives that CPU. *)
Theorem elaboration_makes_ready l c ms w :
  let M := Control.cpuPorts c in
  fresh l c (Transactor.portName <$> ms) w → NoDup (Transactor.portName <$> ms) →
  Forall (λ m, (Control.tlm_slave, Transactor.portName m) ∈ l ∧ serves M m) ms →
  M ≠ [] → Z.of_nat (length M) < 2 ^ 32 - 1 →
  ∃ w', elaborate ms w = (Ok tt, w') ∧
    ∀ m, m ∈ ms → ∃ p pw, Control.port_of c (Control.tlm_slave, Transactor.portName m) = Some p ∧
      slave_ports w' !! p = Some pw ∧ ready c pw.
Proof.
  intros M Hf Hnd Hms HM Hlen.
  cut (∃ w', elaborate ms w = (Ok tt, w') ∧
    (∀ m, m ∈ ms → ∃ p pw, Control.port_of c (Control.tlm_slave, Transactor.portName m) = Some p ∧
      slave_ports w' !! p = Some pw ∧ ready c pw) ∧
    ∀ q, (∀ m, m ∈ ms → Control.port_of c (Control.tlm_slave, Transactor.portName m) ≠ Some q) →
      slave_ports w' !! q = slave_ports w !! q).
  { intros (w' & Hrun & Hr & _). by exists w'. }
  revert w Hf. induction ms as [|m ms IH]; intros w Hf.
  { exists w. split; [done|]. split; [|done]. intros m Hm. by apply elem_of_nil in Hm. }
  apply Forall_cons in Hms as [[Hin Hserve] Hms]. apply NoDup_cons in Hnd as [Hnew Hnd].
  destruct (elaborate_multi_run l c _ m w Hf) as (w1 & p & pw & Hrun & Hp & Hs1 & Hini & Hsk & Hi1 & Hq1);
    [by left|done..|].
  assert (∀ m', m' ∈ ms →
    Control.port_of c (Control.tlm_slave, Transactor.portName m') ≠ Some p) as Hne.
  { intros m' Hm' Hp'. pose proof (fr_inj _ _ _ _ Hf _ _ _ Hp Hp') as [= Heq].
    destruct Hnew. rewrite Heq. by apply list_elem_of_fmap_2. }
  destruct (IH Hnd Hms w1) as (w' & Hrun' & Hr & Hq).
  { destruct Hf as [_ Hk Hj Hpo]. split; try done. intros n q Hn Hnq.
    assert (q ≠ p) as Hqp.
    { intros ->. apply list_elem_of_fmap in Hn as (m' & -> & Hm'). by apply (Hne m'). }
    rewrite Hq1, Hs1, lookup_insert_ne by done. apply (Hpo n); [by right|done]. }
  exists w'. split; [unfold elaborate; simpl; by erewrite bind_Ok|]. split.
  - intros m' [->|Hm']%elem_of_cons; [|by apply Hr]. exists p, pw. split; [done|].
    rewrite Hq, Hs1, lookup_insert_eq by done. split; [done|]. split; [done|]. intros id.
    rewrite Hsk. apply (Control.core_and_socket M false). lia.
  - intros q Hall. rewrite Hq by (intros m' Hm'; apply Hall; by right).
    rewrite Hs1, lookup_insert_ne; [done|]. intros ->. by apply (Hall m); [left|].
Qed.

(** A master port is registered by the mode of gem5's system, once; a second transactor of the same
    name fails an assertion. *)
Theorem master_elaborated tm am name p mw w :
  fst (Control.getMasterPort name (control w)) = Ok p →
  master_ports w !! p = Some mw → Master.port mw = Master.SCMasterPort_new →
  tm || am = true →
  ∃ w', elaborate_master tm am name w = (Ok tt, w') ∧
    registered_as w' !! p = Some (if tm then Master.NonBlocking else Master.Blocking) ∧
    fails (elaborate_master tm am name) (SC_ASSERT "this->transactor == nullptr") w'.
Proof.
  intros Hg Hmw Hport Hmode.
  assert (Control.getMasterPort name (control w) = (Ok p, control w)) as Hget.
  { revert Hg. unfold Control.getMasterPort, Control.this, mbind, M_bind, gets, lift_option.
    destruct (Control.instance (control w)) as [c|]; simpl; [|done].
    destruct (sm_find name (Control.masterPorts c)); simpl; [|done]. by intros [= ->]. }
  assert (∀ w0, control w0 = control w →
    zoom control set_control (Control.getMasterPort name) w0 = (Ok p, w0)) as Hz.
  { intros w0 Hc. unfold zoom. rewrite Hc, Hget, <- Hc. by destruct w0. }
  unfold elaborate_master. erewrite bind_Ok by by apply Hz.
  unfold on_master, Master.bindToTransactor, mbind, M_bind, gets, check, modify. rewrite Hmw, Hport.
  destruct tm, am; try done; simpl; (eexists; split; [reflexivity|]); simpl;
    (split; [by rewrite lookup_insert_eq|]); unfold fails; rewrite Hz by done; simpl;
    by rewrite lookup_insert_eq.
Qed.
End properties.

(** ** Witnesses: the control of SimControl's witnesses, and a new slave port. *)

Definition system_transactor : Transactor.Gem5SlaveTransactor_Multi :=
  {| Transactor.socket_core_map := []; Transactor.portName := "system"; Transactor.socket_num := 2;
     Transactor.count := 2; Transactor.sockets := ["system0"; "system1"]%string |}.

Definition new_slave : Port.world bool :=
  Port.World (Port.SCSlavePort_new (-7) None) memory2 ∅ 1 0 0 true [].
Definition new_master : Master.world unit :=
  Master.World Master.SCMasterPort_new memory2 [] 0 tt [].
Definition before_elaboration : world (list Control.gem5_call) bool unit :=
  World Control.after {[ 1%positive := new_slave ]} {[ 2%positive := new_master ]} ∅.

Lemma before_elaboration_fresh :
  fresh [(Control.tlm_master, "system"%string); (Control.tlm_slave, "system"%string)]
    Control.the_control ["system"%string] before_elaboration.
Proof.
  destruct Control.after_registered as [_ Hk _ Hj Ht]. split; [vm_compute; reflexivity|done|done|].
  intros n p Hn Hp. split; [by apply (Ht n)|]. apply list_elem_of_singleton in Hn as ->.
  assert (p = 1%positive) as -> by (vm_compute in Hp; congruence).
  exists new_slave. split; [reflexivity|]. split; [by eexists _, _|]. split; [apply memory2_ok|done].
Qed.

Lemma elaboration_makes_ready_witness :
  ∃ w' pw, elaborate [system_transactor] before_elaboration = (Ok tt, w') ∧
    slave_ports w' !! 1%positive = Some pw ∧ ready Control.the_control pw.
Proof.
  destruct (elaboration_makes_ready _ _ [system_transactor] _ before_elaboration_fresh)
    as (w' & Hrun & Hr).
  - apply NoDup_singleton.
  - apply Forall_singleton. split; [right; left|]. split; [simpl; lia|reflexivity].
  - done.
  - simpl. lia.
  - destruct (Hr system_transactor) as (p & pw & Hp & Hs & Hready); [left|].
    exists w', pw. assert (p = 1%positive) as -> by (vm_compute in Hp; congruence). done.
Defined.

Lemma master_elaborated_witness :
  ∃ w', elaborate_master true false "system" before_elaboration = (Ok tt, w') ∧
    registered_as w' !! 2%positive = Some Master.NonBlocking.
Proof.
  destruct (master_elaborated true false "system" 2 new_master before_elaboration)
    as (w' & ? & ? & _); [vm_compute; reflexivity|reflexivity|reflexivity|reflexivity|].
  by exists w'.
Defined.
End Elaboration.
