(* ===== verification/Wrapper.v ===== *)
(** * The wrapper: gem5_wrapper.cc

    The object that makes the parts of a simulation - the control, the transactors, the routers and
    the bus - and connects them.  The objects it makes live in tables indexed by pointer; a binding
    of SystemC is an entry of a list. *)

From S2P Require Import Prelude StdMap Tlm TxnRouter SimpleBus Transactor SimControl.

Module Wrapper.

(** [class Gem5Wrapper].  [sim_control] is the control that [Gem5SimControl::instance] points to, or
    null; the bus is known by its pointer. *)
Record Gem5Wrapper := {
  sim_control : bool;
  transactors : list positive;
  txn_routers : stdmap Z positive;
  busInstance : option positive;
  isBusCreated : bool;
  simControlBinded : bool;
}.

Definition Gem5Wrapper_new : Gem5Wrapper :=
  {| sim_control := false; transactors := []; txn_routers := []; busInstance := None;
     isBusCreated := false; simControlBinded := false |}.

Definition set_sim_control (g : Gem5Wrapper) : Gem5Wrapper :=
  {| sim_control := true; transactors := transactors g; txn_routers := txn_routers g;
     busInstance := busInstance g; isBusCreated := isBusCreated g;
     simControlBinded := simControlBinded g |}.
Definition push_transactor (p : positive) (g : Gem5Wrapper) : Gem5Wrapper :=
  {| sim_control := sim_control g; transactors := transactors g ++ [p];
     txn_routers := txn_routers g; busInstance := busInstance g; isBusCreated := isBusCreated g;
     simControlBinded := simControlBinded g |}.
Definition set_txn_routers (m : stdmap Z positive) (g : Gem5Wrapper) : Gem5Wrapper :=
  {| sim_control := sim_control g; transactors := transactors g; txn_routers := m;
     busInstance := busInstance g; isBusCreated := isBusCreated g;
     simControlBinded := simControlBinded g |}.
Definition set_bus (p : positive) (g : Gem5Wrapper) : Gem5Wrapper :=
  {| sim_control := sim_control g; transactors := transactors g; txn_routers := txn_routers g;
     busInstance := Some p; isBusCreated := true; simControlBinded := simControlBinded g |}.
Definition set_simControlBinded (g : Gem5Wrapper) : Gem5Wrapper :=
  {| sim_control := sim_control g; transactors := transactors g; txn_routers := txn_routers g;
     busInstance := busInstance g; isBusCreated := isBusCreated g; simControlBinded := true |}.

(** What the wrapper has bound. *)
Inductive binding :=
| control_bound (transactor : positive)
| router_bound (transactor : positive) (socket_id : Z) (router : positive)
| bus_bound (router : positive) (bus : positive) (socket_id : Z).

Section wrapper.
Context {E : Type}.

(** The wrapper, the static [Transactor::instance], the objects by pointer, the bindings in their
    order, and the world of the control. *)
Record world := World {
  wrapper : Gem5Wrapper;
  transactor_instance : option positive;
  transactor_at : gmap positive Transactor.Gem5SlaveTransactor_Multi;
  router_at : gmap positive Router.TxnRouter;
  bus_at : gmap positive Bus.SimpleBus;
  next_ptr : positive;
  bindings : list binding;
  control : Control.world E;
}.

Definition set_wrapper (f : Gem5Wrapper → Gem5Wrapper) (w : world) : world :=
  World (f (wrapper w)) (transactor_instance w) (transactor_at w) (router_at w) (bus_at w)
    (next_ptr w) (bindings w) (control w).
Definition set_transactor_instance (p : positive) (w : world) : world :=
  World (wrapper w) (Some p) (transactor_at w) (router_at w) (bus_at w) (next_ptr w) (bindings w)
    (control w).
Definition add_transactor (t : Transactor.Gem5SlaveTransactor_Multi) (w : world) : world :=
  World (wrapper w) (transactor_instance w) (<[next_ptr w := t]> (transactor_at w)) (router_at w)
    (bus_at w) (Pos.succ (next_ptr w)) (bindings w) (control w).
Definition add_router (r : Router.TxnRouter) (w : world) : world :=
  World (wrapper w) (transactor_instance w) (transactor_at w) (<[next_ptr w := r]> (router_at w))
    (bus_at w) (Pos.succ (next_ptr w)) (bindings w) (control w).
Definition add_bus (b : Bus.SimpleBus) (w : world) : world :=
  World (wrapper w) (transactor_instance w) (transactor_at w) (router_at w)
    (<[next_ptr w := b]> (bus_at w)) (Pos.succ (next_ptr w)) (bindings w) (control w).
Definition bind (b : binding) (w : world) : world :=
  World (wrapper w) (transactor_instance w) (transactor_at w) (router_at w) (bus_at w) (next_ptr w)
    (bindings w ++ [b]) (control w).
Definition set_control (c : Control.world E) (w : world) : world :=
  World (wrapper w) (transactor_instance w) (transactor_at w) (router_at w) (bus_at w) (next_ptr w)
    (bindings w) c.
End wrapper.
Arguments world : clear implicits.

Section functions.
Context {E : Type} `{!Control.Gem5Config E}.
Abbreviation MW := (M (world E)).

(** [Gem5Wrapper::getInstance] on the static [instance]. *)
Definition getInstance (instance : option Gem5Wrapper) : Gem5Wrapper :=
  match instance with None => Gem5Wrapper_new | Some g => g end.

Definition createSimControl (configFile : string) (simulationEnd : Z) (gem5DebugFlags : string) :
    MW unit :=
  g ← gets wrapper;
  if sim_control g then mret tt else
  zoom control set_control (Control.getInstance configFile simulationEnd gem5DebugFlags);;
  modify (set_wrapper set_sim_control).

(** [new Transactor(name, portName, socket_num)] *)
Definition new_transactor (name portName : string) (socket_num : Z) : MW positive :=
  match Transactor.Gem5SlaveTransactor_Multi_new name portName socket_num with
  | (Ok _, t) => p ← gets next_ptr; modify (add_transactor t);; mret p
  | (Err e, _) => fail e
  end.

Definition createTransactor (name portName : string) (socket_num : Z) : MW unit :=
  p ← new_transactor name portName socket_num;
  modify (set_wrapper (push_transactor p)).

(** [Transactor::getInstance] makes the transactor at its first call only; the wrapper appends its
    pointer each time. *)
Definition createSingletonTransactor (name portName : string) (socket_num : Z) : MW unit :=
  i ← gets transactor_instance;
  p ← match i with
      | Some p => mret p
      | None =>
          p ← new_transactor name portName socket_num;
          modify (set_transactor_instance p);; mret p
      end;
  modify (set_wrapper (push_transactor p)).

Definition getTransactor (transactor_id : Z) : MW positive :=
  g ← gets wrapper;
  check (transactor_id <? Z.of_nat (length (transactors g))) (ASSERT "transactor_id < transactors.size()");;
  lift_option (transactors g !! Z.to_nat transactor_id) (UNDEFINED "transactors[transactor_id]").

(** [insert] does not replace a router of the same id; the new one is returned all the same. *)
Definition createTxnRouter (id mem_start_addr mem_size : Z) : MW positive :=
  p ← gets next_ptr;
  modify (add_router (Router.TxnRouter_new mem_start_addr mem_size));;
  modify (set_wrapper (λ g, set_txn_routers (sm_insert id p (txn_routers g)) g));;
  mret p.

Definition createSimpleBus (mem_start_addr mem_end_addr : Z) : MW positive :=
  g ← gets wrapper;
  match isBusCreated g, busInstance g with
  | true, Some p => mret p
  | _, _ =>
      m ← match Bus.PortMapping_new mem_start_addr mem_end_addr with
          | Ok m => mret m
          | Err e => fail e
          end;
      p ← gets next_ptr;
      modify (add_bus {| Bus.NR_OF_INITIATORS := 2; Bus.ports := [Some m] |});;
      modify (set_wrapper (set_bus p));;
      mret p
  end.

Definition bindSimControl2Transactor : MW unit :=
  g ← gets wrapper;
  if negb (sim_control g) then mret tt
  else if simControlBinded g then mret tt
  else
    for_each (transactors g) (λ p, modify (bind (control_bound p)));;
    modify (set_wrapper set_simControlBinded).

Definition bindTxnRouter2Transactor (txn_id socket_id transactor_id : Z) : MW unit :=
  g ← gets wrapper;
  check (transactor_id <? Z.of_nat (length (transactors g))) (ASSERT "transactor_id < transactors.size()");;
  p ← lift_option (transactors g !! Z.to_nat transactor_id) (UNDEFINED "transactors[transactor_id]");
  ts ← gets transactor_at;
  t ← lift_option (ts !! p) (ASSERT "transactor != nullptr");
  check (socket_id <? Transactor.getSocketNum t) (ASSERT "socket_id < transactor->getSocketNum()");;
  match sm_find txn_id (txn_routers g) with
  | Some r => modify (bind (router_bound p socket_id r))
  | None => mret tt
  end.

(** The index into [tsocks], a [std::array], is not checked. *)
Definition bindTxnRouter2Bus (txn_id socket_id : Z) : MW unit :=
  g ← gets wrapper;
  b ← lift_option (busInstance g) (ASSERT "busInstance != nullptr");
  match sm_find txn_id (txn_routers g) with
  | None => mret tt
  | Some r =>
      bs ← gets bus_at;
      bus ← lift_option (bs !! b) (UNDEFINED "busInstance");
      check (socket_id <? Bus.NR_OF_INITIATORS bus) (UNDEFINED "busInstance->tsocks[socket_id]");;
      modify (bind (bus_bound r b socket_id))
  end.

(** ** Properties *)

(** The operations, as a user of the wrapper calls them. *)
Inductive op :=
| CreateSimControl (file : string) (simulationEnd : Z) (flags : string)
| CreateTransactor (name portName : string) (socket_num : Z)
| CreateSingletonTransactor (name portName : string) (socket_num : Z)
| GetTransactor (transactor_id : Z)
| CreateTxnRouter (id mem_start_addr mem_size : Z)
| CreateSimpleBus (mem_start_addr mem_end_addr : Z)
| BindSimControl2Transactor
| BindTxnRouter2Transactor (txn_id socket_id transactor_id : Z)
| BindTxnRouter2Bus (txn_id socket_id : Z).

#[global] Instance op_eq_dec : EqDecision op.
Proof. solve_decision. Defined.

Definition run_op (o : op) : MW unit :=
  match o with
  | CreateSimControl file e flags => createSimControl file e flags
  | CreateTransactor name port n => createTransactor name port n
  | CreateSingletonTransactor name port n => createSingletonTransactor name port n
  | GetTransactor i => getTransactor i;; mret tt
  | CreateTxnRouter i a n => createTxnRouter i a n;; mret tt
  | CreateSimpleBus a b => createSimpleBus a b;; mret tt
  | BindSimControl2Transactor => bindSimControl2Transactor
  | BindTxnRouter2Transactor r s t => bindTxnRouter2Transactor r s t
  | BindTxnRouter2Bus r s => bindTxnRouter2Bus r s
  end.

(** The arguments are [uint32_t]s. *)
Definition op_ok (o : op) : Prop :=
  match o with
  | GetTransactor i => 0 ≤ i
  | BindTxnRouter2Transactor _ s t => 0 ≤ s ∧ 0 ≤ t
  | BindTxnRouter2Bus _ s => 0 ≤ s
  | _ => True
  end.

Implicit Types (w : world E).

Definition binding_ok w (b : binding) : Prop :=
  match b with
  | control_bound p => is_Some (transactor_at w !! p)
  | router_bound p s r =>
      (∃ t, transactor_at w !! p = Some t ∧ 0 ≤ s < Transactor.getSocketNum t) ∧
      is_Some (router_at w !! r)
  | bus_bound r b s => is_Some (router_at w !! r) ∧ is_Some (bus_at w !! b) ∧ 0 ≤ s < 2
  end.

(** Every pointer the wrapper holds is to an object, and every binding joins objects and sockets
    that exist. *)
Record wf w : Prop := {
  wf_transactors : Forall (λ p, is_Some (transactor_at w !! p)) (transactors (wrapper w));
  wf_instance p : transactor_instance w = Some p → is_Some (transactor_at w !! p);
  wf_routers i r : sm_find i (txn_routers (wrapper w)) = Some r → is_Some (router_at w !! r);
  wf_sorted : sm_sorted (txn_routers (wrapper w));
  wf_bus b : busInstance (wrapper w) = Some b → is_Some (bus_at w !! b);
  wf_initiators b bus : bus_at w !! b = Some bus → Bus.NR_OF_INITIATORS bus = 2;
  wf_fresh p : (next_ptr w ≤ p)%positive →
    transactor_at w !! p = None ∧ router_at w !! p = None ∧ bus_at w !! p = None;
  wf_bindings : Forall (binding_ok w) (bindings w);
  wf_control : sim_control (wrapper w) = true → is_Some (Control.instance (control w));
}.

(** The one call whose index no assertion checks: a router that exists is bound to a socket the
    bus does not have. *)
Definition unchecked o w : Prop :=
  match o with
  | BindTxnRouter2Bus r s =>
      is_Some (busInstance (wrapper w)) ∧ is_Some (sm_find r (txn_routers (wrapper w))) ∧ 2 ≤ s
  | _ => False
  end.

(** Objects are never lost. *)
Definition grows w w' : Prop :=
  (∀ p t, transactor_at w !! p = Some t → transactor_at w' !! p = Some t) ∧
  (∀ p r, router_at w !! p = Some r → router_at w' !! p = Some r) ∧
  (∀ p b, bus_at w !! p = Some b → bus_at w' !! p = Some b).

Lemma binding_grows w w' b : grows w w' → binding_ok w b → binding_ok w' b.
Proof.
  intros (Ht & Hr & Hb). destruct b; simpl.
  - intros [t Hp]. exists t. by apply Ht.
  - intros [(t & Hp & ?) [r Hrp]]. split; [exists t; split; [by apply Ht|done]|].
    exists r. by apply Hr.
  - intros ([r Hrp] & [x Hx] & ?). split; [exists r; by apply Hr|]. split; [exists x; by apply Hb|done].
Qed.

Lemma some_grows {A} (m m' : gmap positive A) :
  (∀ p a, m !! p = Some a → m' !! p = Some a) → ∀ p, is_Some (m !! p) → is_Some (m' !! p).
Proof. intros Hm p [a Ha]. exists a. by apply Hm. Qed.

(** What an operation that touches neither the objects nor the bindings has to keep. *)
Lemma wf_wrapper (f : Gem5Wrapper → Gem5Wrapper) w :
  wf w → transactors (f (wrapper w)) = transactors (wrapper w) →
  txn_routers (f (wrapper w)) = txn_routers (wrapper w) →
  busInstance (f (wrapper w)) = busInstance (wrapper w) →
  (sim_control (f (wrapper w)) = true → is_Some (Control.instance (control w))) →
  wf (set_wrapper f w).
Proof.
  intros [] Ht Hr Hb Hc. split; simpl; try done; rewrite ?Ht, ?Hr, ?Hb; done.
Qed.

Lemma wf_push p w : wf w → is_Some (transactor_at w !! p) → wf (set_wrapper (push_transactor p) w).
Proof.
  intros [] Hp. split; simpl; try done. apply Forall_app. split; [done|by apply Forall_singleton].
Qed.

Lemma wf_bind b w : wf w → binding_ok w b → wf (bind b w).
Proof.
  intros [] Hb. split; simpl; try done. apply Forall_app.
  split; [done|by apply Forall_singleton].
Qed.

Lemma insert_keeps {A} (m : gmap positive A) p a :
  m !! p = None → ∀ q b, m !! q = Some b → <[p := a]> m !! q = Some b.
Proof. intros Hp q b Hq. rewrite lookup_insert_ne; [done|]. congruence. Qed.

(** A new object of any of the three kinds. *)
Lemma wf_add w w' :
  wf w → grows w w' → wrapper w' = wrapper w → transactor_instance w' = transactor_instance w →
  bindings w' = bindings w → control w' = control w → next_ptr w' = Pos.succ (next_ptr w) →
  (∀ p, (next_ptr w < p)%positive →
    transactor_at w !! p = None → router_at w !! p = None → bus_at w !! p = None →
    transactor_at w' !! p = None ∧ router_at w' !! p = None ∧ bus_at w' !! p = None) →
  (∀ b bus, bus_at w' !! b = Some bus → Bus.NR_OF_INITIATORS bus = 2) → wf w'.
Proof.
  intros [H1 H2 H3 H4 H5 H6 H7 H8 H9] Hg Hw Hi Hb Hc Hn Hf Hbus. pose proof Hg as (Hgt & Hgr & Hgb).
  split; rewrite ?Hw, ?Hi, ?Hb, ?Hc; try done.
  - eapply Forall_impl; [exact H1|]. by apply some_grows.
  - intros p Hp. by eapply some_grows, H2.
  - intros i r Hr. by eapply some_grows, (H3 i).
  - intros b Hp. by eapply some_grows, H5.
  - intros p Hp. destruct (H7 p) as (? & ? & ?); [lia|]. apply Hf; [lia|done..].
  - eapply Forall_impl; [exact H8|]. intros b. by apply binding_grows.
Qed.

Lemma add_transactor_wf t w :
  wf w → wf (add_transactor t w) ∧ transactor_at (add_transactor t w) !! next_ptr w = Some t.
Proof.
  intros Hwf. destruct (wf_fresh w Hwf (next_ptr w)) as (? & ? & ?); [lia|].
  split; [|simpl; by rewrite lookup_insert_eq]. apply (wf_add w); try done.
  - split; [|done]. simpl. by apply insert_keeps.
  - intros p Hp ???. simpl. rewrite lookup_insert_ne by lia. done.
  - by destruct Hwf.
Qed.

Lemma add_router_wf r w :
  wf w → wf (add_router r w) ∧ router_at (add_router r w) !! next_ptr w = Some r.
Proof.
  intros Hwf. destruct (wf_fresh w Hwf (next_ptr w)) as (? & ? & ?); [lia|].
  split; [|simpl; by rewrite lookup_insert_eq]. apply (wf_add w); try done.
  - split; [done|]. split; [|done]. simpl. by apply insert_keeps.
  - intros p Hp ???. simpl. rewrite lookup_insert_ne by lia. done.
  - by destruct Hwf.
Qed.

Lemma add_bus_wf b w :
  wf w → Bus.NR_OF_INITIATORS b = 2 →
  wf (add_bus b w) ∧ bus_at (add_bus b w) !! next_ptr w = Some b.
Proof.
  intros Hwf Hb. destruct (wf_fresh w Hwf (next_ptr w)) as (? & ? & ?); [lia|].
  split; [|simpl; by rewrite lookup_insert_eq]. apply (wf_add w); try done.
  - split; [done|]. split; [done|]. simpl. by apply insert_keeps.
  - intros p Hp ???. simpl. rewrite lookup_insert_ne by lia. done.
  - simpl. intros p bus. destruct (decide (p = next_ptr w)) as [->|Hne].
    + rewrite lookup_insert_eq. by intros [= <-].
    + rewrite lookup_insert_ne by done. by apply (wf_initiators w Hwf).
Qed.

(** Undefined behaviour is not reached, and success keeps [wf] and satisfies [Q]. *)
Definition safe {A} (m : MW A) (Q : A → world E → Prop) w : Prop :=
  match m w with
  | (Ok a, w') => wf w' ∧ Q a w'
  | (Err e, _) => ∀ what, e ≠ UNDEFINED what
  end.

Lemma safe_bind {A B} (m : MW A) (f : A → MW B) Q w :
  safe m (λ a w', safe (f a) Q w') w → safe (m ≫= f) Q w.
Proof. unfold safe, mbind, M_bind. destruct (m w) as [[a|e] w']; [|done]. by intros [_ ?]. Qed.

Lemma safe_ret {A} (a : A) Q w : wf w → Q a w → safe (mret a) Q w.
Proof. by split. Qed.

Lemma safe_gets {A} (f : world E → A) (Q : A → world E → Prop) w :
  wf w → Q (f w) w → safe (gets f) Q w.
Proof. by split. Qed.

Lemma safe_modify f (Q : unit → world E → Prop) w : wf (f w) → Q tt (f w) → safe (modify f) Q w.
Proof. by split. Qed.

Lemma safe_check (b : bool) e (Q : unit → world E → Prop) w :
  wf w → (∀ what, e ≠ UNDEFINED what) → (b = true → Q tt w) → safe (check b e) Q w.
Proof. intros Hwf He HQ. unfold safe, check. destruct b; simpl; [by split; [|apply HQ]|done]. Qed.

Lemma safe_lift {A} (o : option A) e a (Q : A → world E → Prop) w :
  wf w → o = Some a → Q a w → safe (lift_option o e) Q w.
Proof. intros Hwf -> HQ. by split. Qed.

Lemma new_transactor_safe name port n (Q : positive → world E → Prop) w :
  wf w → (∀ p t w', wf w' → transactor_at w' !! p = Some t → Q p w') →
  safe (new_transactor name port n) Q w.
Proof.
  intros Hwf HQ. unfold new_transactor.
  destruct (Transactor.Gem5SlaveTransactor_Multi_new name port n) as [[[]|e] t] eqn:Ht.
  - destruct (add_transactor_wf t w Hwf) as [Hwf' Hp].
    by apply safe_bind, safe_gets, safe_bind, safe_modify, safe_ret, (HQ _ t).
  - intros what ->. by destruct (Transactor.new_errors _ _ _ _ _ Ht).
Qed.

Lemma createTransactor_safe name port n w :
  wf w → safe (createTransactor name port n) (λ _ _, True) w.
Proof.
  intros Hwf. apply safe_bind, new_transactor_safe; [done|]. intros p t w' Hwf' Hp.
  apply safe_modify; [|done]. apply wf_push; [done|by eexists].
Qed.

Lemma createSingletonTransactor_safe name port n w :
  wf w → safe (createSingletonTransactor name port n) (λ _ _, True) w.
Proof.
  intros Hwf. apply safe_bind, safe_gets; [done|].
  destruct (transactor_instance w) as [p|] eqn:Hi.
  - apply safe_bind, safe_ret; [done|]. apply safe_modify; [|done].
    apply wf_push; [done|by apply (wf_instance w Hwf)].
  - apply safe_bind, safe_bind, new_transactor_safe; [done|]. intros p t w' Hwf' Hp.
    assert (wf (set_transactor_instance p w')) as Hwf2.
    { destruct Hwf'. split; simpl; try done. intros q [= <-]. by eexists. }
    apply safe_bind, safe_modify; [done|]. apply safe_ret; [done|]. apply safe_modify; [|done].
    apply wf_push; [done|by eexists].
Qed.

Lemma createTxnRouter_safe i a n w : wf w → safe (createTxnRouter i a n) (λ _ _, True) w.
Proof.
  intros Hwf. destruct (add_router_wf (Router.TxnRouter_new a n) w Hwf) as [Hwf' Hp].
  apply safe_bind, safe_gets; [done|]. apply safe_bind, safe_modify; [done|].
  assert (wf (set_wrapper (λ g, set_txn_routers (sm_insert i (next_ptr w) (txn_routers g)) g)
    (add_router (Router.TxnRouter_new a n) w))) as Hwf2; [|by apply safe_bind, safe_modify, safe_ret].
  destruct Hwf'. split; simpl; try done; [|by apply sm_insert_sorted].
  intros j r. rewrite sm_find_insert by done.
  destruct (sm_find j (txn_routers (wrapper w))) eqn:Hj.
  - intros [= <-]. by apply (wf_routers0 j).
  - destruct (kcmp j i); [|done..]. intros [= <-]. by eexists.
Qed.

Lemma createSimpleBus_safe a b w : wf w → safe (createSimpleBus a b) (λ _ _, True) w.
Proof.
  intros Hwf. apply safe_bind, safe_gets; [done|].
  assert (safe (m ← match Bus.PortMapping_new a b with Ok m => mret m | Err e => fail e end;
    p ← gets next_ptr;
    modify (add_bus {| Bus.NR_OF_INITIATORS := 2; Bus.ports := [Some m] |});;
    modify (set_wrapper (set_bus p));; mret p) (λ _ _, True) w) as Hnew.
  { apply safe_bind. unfold Bus.PortMapping_new. destruct (a <=? b); [|done].
    apply safe_ret; [done|]. apply safe_bind, safe_gets; [done|].
    match goal with |- safe (modify (add_bus ?x) ≫= _) _ _ =>
      destruct (add_bus_wf x w Hwf eq_refl) as [Hwf' Hp] end.
    apply safe_bind, safe_modify; [done|]. apply safe_bind, safe_modify; [|apply safe_ret; [|done]];
      destruct Hwf'; split; simpl; try done; intros q [= <-]; by eexists. }
  destruct (isBusCreated (wrapper w)); [|done]. by destruct (busInstance (wrapper w)).
Qed.

Lemma bindSimControl_safe w : wf w → safe bindSimControl2Transactor (λ _ _, True) w.
Proof.
  intros Hwf. apply safe_bind, safe_gets; [done|].
  destruct (sim_control (wrapper w)) eqn:Hc; simpl; [|by apply safe_ret].
  destruct (simControlBinded (wrapper w)); [by apply safe_ret|].
  apply safe_bind. pose proof (wf_transactors w Hwf) as Hall.
  assert (∀ l w, wf w → Forall (λ p, is_Some (transactor_at w !! p)) l →
    safe (for_each l (λ p, modify (bind (control_bound p))))
      (λ _ w', sim_control (wrapper w') = sim_control (wrapper w)) w) as Hloop.
  { induction l as [|p l IH]; intros w0 Hwf0 Hl; simpl; [by apply safe_ret|].
    apply Forall_cons in Hl as [Hp Hl]. pose proof (wf_bind (control_bound p) w0 Hwf0 Hp) as Hwf1.
    apply safe_bind, safe_modify; [done|]. by apply (IH (bind (control_bound p) w0)). }
  specialize (Hloop _ w Hwf Hall). unfold safe at 1. unfold safe at 1 in Hloop.
  destruct (for_each _ _ w) as [[[]|e] w']; [|done]. destruct Hloop as [Hwf' Hc']. split; [done|].
  apply safe_modify; [|done]. apply wf_wrapper; try done. simpl. by apply wf_control.
Qed.

Lemma bindTxnRouter2Transactor_safe r s t w :
  wf w → 0 ≤ s ∧ 0 ≤ t → safe (bindTxnRouter2Transactor r s t) (λ _ _, True) w.
Proof.
  intros Hwf [Hs Ht]. apply safe_bind, safe_gets; [done|].
  apply safe_bind, safe_check; [done|done|]. intros Hlt%Z.ltb_lt.
  destruct (lookup_lt_is_Some_2 (transactors (wrapper w)) (Z.to_nat t)) as [p Hp]; [lia|].
  apply safe_bind. eapply safe_lift; [done|done|]. apply safe_bind, safe_gets; [done|].
  destruct (Forall_lookup_1 _ _ _ _ (wf_transactors w Hwf) Hp) as [tr Htr].
  apply safe_bind. eapply safe_lift; [done|done|].
  apply safe_bind, safe_check; [done|done|]. intros Hlt2%Z.ltb_lt.
  destruct (sm_find r (txn_routers (wrapper w))) as [q|] eqn:Hq; [|by apply safe_ret].
  apply safe_modify; [|done]. apply wf_bind; [done|]. split; [by exists tr|].
  by apply (wf_routers w Hwf r).
Qed.

Lemma bindTxnRouter2Bus_safe r s w :
  wf w → 0 ≤ s → ¬ unchecked (BindTxnRouter2Bus r s) w →
  safe (bindTxnRouter2Bus r s) (λ _ _, True) w.
Proof.
  intros Hwf Hs Hun. apply safe_bind, safe_gets; [done|]. apply safe_bind.
  destruct (busInstance (wrapper w)) as [b|] eqn:Hb; [|done].
  eapply safe_lift; [done|done|].
  destruct (sm_find r (txn_routers (wrapper w))) as [q|] eqn:Hq; [|by apply safe_ret].
  assert (s < 2) as Hs2.
  { apply Z.nle_gt. intros Hle. apply Hun. simpl. rewrite Hb, Hq. split; [|split]; by try eexists. }
  destruct (wf_bus w Hwf b Hb) as [bus Hbus]. apply safe_bind, safe_gets; [done|].
  apply safe_bind. eapply safe_lift; [done|done|].
  pose proof (wf_initiators w Hwf b bus Hbus) as Hn. rewrite Hn.
  rewrite (proj2 (Z.ltb_lt s 2)) by lia. apply safe_bind, safe_ret; [done|].
  apply safe_modify; [|done]. apply wf_bind; [done|]. split; [by apply (wf_routers w Hwf r)|].
  split; [by eexists|done].
Qed.

Lemma unchecked_undefined o w :
  wf w → unchecked o w →
  run_op o w = (Err (UNDEFINED "busInstance->tsocks[socket_id]"), w).
Proof.
  intros Hwf. destruct o as [| | | | | | | |r s]; try done. intros ([b Hb] & [q Hq] & Hs). simpl.
  destruct (wf_bus w Hwf b Hb) as [bus Hbus].
  unfold bindTxnRouter2Bus, mbind, M_bind, gets. rewrite Hb. simpl. rewrite Hq, Hbus. simpl.
  rewrite (wf_initiators w Hwf b bus Hbus), (proj2 (Z.ltb_ge s 2)) by lia. done.
Qed.

Lemma run_op_safe o w :
  wf w → op_ok o → ¬ unchecked o w → safe (run_op o) (λ _ _, True) w.
Proof.
  intros Hwf Ho Hun.
  assert (∀ A (m : MW A), safe m (λ _ _, True) w → safe (m;; mret tt) (λ _ _, True) w) as Hr.
  { intros A m. unfold safe, mbind, M_bind. destruct (m w) as [[a|e] w']; [|done].
    by intros [? _]. }
  destruct o; simpl in Ho; simpl.
  - unfold safe, createSimControl, mbind, M_bind, gets.
    destruct (sim_control (wrapper w)) eqn:Hc; [done|]. unfold zoom, modify.
    pose proof (Control.getInstance_safe file simulationEnd flags (control w)) as Hi.
    destruct (Control.getInstance file simulationEnd flags (control w)) as [[c|e] cw]; [|done].
    simpl in Hi. destruct Hwf. by split.
  - by apply createTransactor_safe.
  - by apply createSingletonTransactor_safe.
  - apply Hr. apply safe_bind, safe_gets; [done|]. apply safe_bind, safe_check; [done|done|].
    intros Hlt%Z.ltb_lt.
    destruct (lookup_lt_is_Some_2 (transactors (wrapper w)) (Z.to_nat transactor_id)) as [p Hp]; [lia|].
    by eapply safe_lift.
  - by apply Hr, createTxnRouter_safe.
  - by apply Hr, createSimpleBus_safe.
  - by apply bindSimControl_safe.
  - by apply bindTxnRouter2Transactor_safe.
  - by apply bindTxnRouter2Bus_safe.
Qed.

(** C36: Whatever a user of the wrapper does, with [uint32_t] arguments: either its pointers stay
    valid, every binding joins objects and sockets that exist, and the operation reaches no
    undefined behaviour; or the call is [bindTxnRouter2Bus] with a bus, a router that exists and
    a socket of 2 or more, the index nothing checks, and it does reach undefined behaviour there,
    past the end of the bus's array of sockets. *)
Theorem wrapper_safe o w :
  wf w → op_ok o →
  (¬ unchecked o w ∧
   match run_op o w with
   | (Ok _, w') => wf w'
   | (Err e, _) => ∀ what, e ≠ UNDEFINED what
   end) ∨
  (unchecked o w ∧ run_op o w = (Err (UNDEFINED "busInstance->tsocks[socket_id]"), w)).
Proof.
  intros Hwf Ho. assert (Decision (unchecked o w)) as [Hun|Hun].
  { destruct o; simpl; apply _. }
  - right. split; [done|]. by apply unchecked_undefined.
  - left. split; [done|]. pose proof (run_op_safe o w Hwf Ho Hun) as Hs. unfold safe in Hs.
    destruct (run_op o w) as [[[]|e] w']; [by destruct Hs|done].
Qed.

(** The transactors whose port to the control has been bound, in the order of the bindings. *)
Definition bound w : list positive :=
  omap (λ b, match b with control_bound p => Some p | _ => None end) (bindings w).

(** A run of operations from a wrapper that has done nothing. *)
Inductive reachable (w0 : world E) : world E → Prop :=
| reach_start : wrapper w0 = Gem5Wrapper_new → bindings w0 = [] → reachable w0 w0
| reach_step o w w' : reachable w0 w → run_op o w = (Ok tt, w') → reachable w0 w'.

(** The state after a list of operations that succeed. *)
Fixpoint runs (l : list op) w : option (world E) :=
  match l with
  | [] => Some w
  | o :: l' => match run_op o w with (Ok _, w') => runs l' w' | (Err _, _) => None end
  end.

Lemma runs_reachable l w0 w w' : reachable w0 w → runs l w = Some w' → reachable w0 w'.
Proof.
  revert w. induction l as [|o l IH]; intros w Hr; simpl; [by intros [= <-]|].
  destruct (run_op o w) as [[[]|e] w1] eqn:Hrun; [|done]. apply IH. by eapply reach_step.
Qed.

(** What an operation does to the bindings of the control. *)
Definition bound_step w w' : Prop :=
  (bound w' = bound w ∧ simControlBinded (wrapper w') = simControlBinded (wrapper w) ∧
   transactors (wrapper w) `prefix_of` transactors (wrapper w')) ∨
  (simControlBinded (wrapper w) = false ∧ simControlBinded (wrapper w') = true ∧
   bound w' = bound w ++ transactors (wrapper w) ∧
   transactors (wrapper w') = transactors (wrapper w)).

(** [steps_bound m]: [m] succeeds only with such a change. *)
Definition quiet {A} (m : MW A) : Prop :=
  ∀ w a w', m w = (Ok a, w') →
    bound w' = bound w ∧ simControlBinded (wrapper w') = simControlBinded (wrapper w) ∧
    transactors (wrapper w) `prefix_of` transactors (wrapper w').

Lemma quiet_bind {A B} (m : MW A) (f : A → MW B) : quiet m → (∀ a, quiet (f a)) → quiet (m ≫= f).
Proof.
  intros Hm Hf w b w'. unfold mbind, M_bind. destruct (m w) as [[a|e] w1] eqn:Hrun; [|done].
  intros Hf'. destruct (Hm _ _ _ Hrun) as (H1 & H2 & H3), (Hf a _ _ _ Hf') as (H4 & H5 & H6).
  split; [congruence|]. split; [congruence|]. by etrans.
Qed.

Lemma quiet_ret {A} (a : A) : quiet (mret a).
Proof. by intros w ? w' [= <- <-]. Qed.
Lemma quiet_gets {A} (f : world E → A) : quiet (gets f).
Proof. by intros w ? w' [= <- <-]. Qed.
Lemma quiet_fail {A} e : quiet (@fail (world E) A e).
Proof. by intros w ? w'. Qed.
Lemma quiet_check b e : quiet (check b e).
Proof. destruct b; [apply quiet_ret|apply quiet_fail]. Qed.
Lemma quiet_lift {A} (o : option A) e : quiet (lift_option o e).
Proof. destruct o; [apply quiet_ret|apply quiet_fail]. Qed.

Lemma quiet_modify f :
  (∀ w, bound (f w) = bound w ∧ simControlBinded (wrapper (f w)) = simControlBinded (wrapper w) ∧
    transactors (wrapper w) `prefix_of` transactors (wrapper (f w))) → quiet (modify f).
Proof. intros Hf w ? w' [= _ <-]. apply Hf. Qed.

Lemma quiet_zoom {A} (m : M (Control.world E) A) : quiet (zoom control set_control m).
Proof. intros w a w'. unfold zoom. destruct (m (control w)) as [r c]. by intros [= _ <-]. Qed.

Lemma quiet_binding b : (∀ p, b ≠ control_bound p) → quiet (modify (bind b)).
Proof.
  intros Hb. apply quiet_modify. intros w. split; [|done]. unfold bound. simpl.
  rewrite omap_app. simpl. destruct b; [by destruct (Hb transactor)|..]; by rewrite app_nil_r.
Qed.

Ltac quiet_steps :=
  repeat lazymatch goal with
  | |- quiet (mbind _ _) => apply quiet_bind; [|intros ?]
  | |- quiet (mret _) => apply quiet_ret
  | |- quiet (gets _) => apply quiet_gets
  | |- quiet (check _ _) => apply quiet_check
  | |- quiet (lift_option _ _) => apply quiet_lift
  | |- quiet (fail _) => apply quiet_fail
  | |- quiet (zoom _ _ _) => apply quiet_zoom
  | |- quiet (modify (bind _)) => by apply quiet_binding
  | |- quiet (modify (set_wrapper (push_transactor _))) =>
      apply quiet_modify; intros ?; do 2 (split; [done|]); by apply prefix_app_r
  | |- quiet (modify _) => by apply quiet_modify
  | |- quiet (match ?x with _ => _ end) => destruct x
  end.

Lemma for_each_bound l w :
  ∃ w', for_each l (λ p, modify (bind (control_bound p))) w = (Ok tt, w') ∧
    wrapper w' = wrapper w ∧ bound w' = bound w ++ l.
Proof.
  revert w. induction l as [|p l IH]; intros w; simpl; [exists w; by rewrite app_nil_r|].
  destruct (IH (bind (control_bound p) w)) as (w' & Hrun & Hw & Hb). exists w'.
  erewrite bind_Ok by reflexivity. split; [done|]. split; [done|]. rewrite Hb. unfold bound. simpl.
  rewrite omap_app. simpl. by rewrite <- app_assoc.
Qed.

Lemma run_op_bound o w w' : run_op o w = (Ok tt, w') → bound_step w w'.
Proof.
  intros Hrun.
  assert (quiet (run_op o) ∨ o = BindSimControl2Transactor) as [Hq| ->].
  { destruct (decide (o = BindSimControl2Transactor)) as [->|Hne]; [by right|left].
    destruct o; try done; simpl;
      unfold createSimControl, createTransactor, createSingletonTransactor, getTransactor,
        createTxnRouter, createSimpleBus, bindTxnRouter2Transactor, bindTxnRouter2Bus,
        new_transactor; quiet_steps. }
  { left. by eapply Hq. }
  simpl in Hrun. unfold bindSimControl2Transactor in Hrun.
  unfold mbind at 1, M_bind at 1, gets in Hrun.
  destruct (sim_control (wrapper w)); simpl in Hrun; [|injection Hrun as <-; by left].
  destruct (simControlBinded (wrapper w)) eqn:Hb; [injection Hrun as <-; by left|].
  destruct (for_each_bound (transactors (wrapper w)) w) as (w1 & H1 & Hw1 & Hb1).
  erewrite bind_Ok in Hrun by exact H1. injection Hrun as <-. right. simpl. by rewrite Hw1.
Qed.

(** The control is bound once: to the transactors made before [bindSimControl2Transactor] is called
    with a control, in their order; those made later stay unbound whatever is called. *)
Theorem control_bound_once w0 w :
  reachable w0 w →
  bound w `prefix_of` transactors (wrapper w) ∧
  (simControlBinded (wrapper w) = false → bound w = []) ∧
  (simControlBinded (wrapper w) = true → ∀ o w', run_op o w = (Ok tt, w') → bound w' = bound w) ∧
  (simControlBinded (wrapper w) = false → sim_control (wrapper w) = true →
   ∃ w', bindSimControl2Transactor w = (Ok tt, w') ∧ bound w' = transactors (wrapper w)).
Proof.
  intros Hr.
  assert (bound w `prefix_of` transactors (wrapper w) ∧
    (simControlBinded (wrapper w) = false → bound w = [])) as [Hp Hn].
  { induction Hr as [Hw Hb|o w w' Hr [IHp IHn] Hrun].
    - unfold bound. rewrite Hw, Hb. split; [apply prefix_nil|done].
    - destruct (run_op_bound _ _ _ Hrun) as [(Hb & Hs & Ht)|(Hs & Hs' & Hb & Ht)].
      + rewrite Hb, Hs. split; [by etrans|done].
      + rewrite Hb, Ht, (IHn Hs), Hs'. done. }
  split; [done|]. split; [done|]. split.
  - intros Hs o w' Hrun. destruct (run_op_bound _ _ _ Hrun) as [(Hb & _)|(Hs' & _)]; congruence.
  - intros Hs Hc. destruct (for_each_bound (transactors (wrapper w)) w) as (w1 & H1 & Hw1 & Hb1).
    unfold bindSimControl2Transactor, mbind at 1, M_bind at 1, gets. rewrite Hc, Hs. simpl.
    erewrite bind_Ok by exact H1. eexists. split; [done|]. unfold bound at 1. simpl.
    fold (bound w1). by rewrite Hb1, Hn.
Qed.

(** A second router of the same id is made and returned, but the wrapper keeps the first, which is
    the one that the binding operations use. *)
Theorem first_router_kept i a n r w :
  wf w → sm_find i (txn_routers (wrapper w)) = Some r →
  ∃ p w', createTxnRouter i a n w = (Ok p, w') ∧ p ≠ r ∧
    router_at w' !! p = Some (Router.TxnRouter_new a n) ∧
    sm_find i (txn_routers (wrapper w')) = Some r.
Proof.
  intros Hwf Hr. eexists _, _. split; [reflexivity|].
  destruct (wf_fresh w Hwf (next_ptr w)) as (_ & Hf & _); [lia|].
  split; [intros Hp; destruct (wf_routers w Hwf i r Hr); congruence|]. simpl.
  split; [by rewrite lookup_insert_eq|]. rewrite sm_find_insert by by apply wf_sorted. by rewrite Hr.
Qed.

(** There is one bus, for the range of the first call. *)
Theorem one_bus a b a' b' w p w1 :
  createSimpleBus a b w = (Ok p, w1) → isBusCreated (wrapper w) = false →
  a ≤ b ∧ createSimpleBus a' b' w1 = (Ok p, w1) ∧
  bus_at w1 !! p = Some {| Bus.NR_OF_INITIATORS := 2;
                           Bus.ports := [Some {| Bus.start := a; Bus.end_ := b |}] |}.
Proof.
  intros Hrun Hn. unfold createSimpleBus, Bus.PortMapping_new, mbind, M_bind, gets, modify in Hrun.
  rewrite Hn in Hrun. destruct (Z.leb_spec a b); [|done]. injection Hrun as <- <-.
  split; [done|]. split; [done|]. simpl. by rewrite lookup_insert_eq.
Qed.
End functions.

(** ** Witnesses

    A wrapper with a control, a transactor, a router and the bus. *)
#[local] Existing Instance Control.small_gem5.
Abbreviation gem5_calls := (list Control.gem5_call).

Definition start : world gem5_calls :=
  World Gem5Wrapper_new None ∅ ∅ ∅ 1 [] Control.before.

Lemma start_wf : wf start.
Proof. split; simpl; try done; constructor. Qed.

Definition after_ops (l : list op) : world gem5_calls :=
  foldl (λ w o, snd (run_op o w)) start l.

Definition setup : list op :=
  [CreateSimControl "config.ini" 0 ""; CreateTransactor "t" "system" 2; BindSimControl2Transactor;
   CreateTransactor "late" "other" 1].

Lemma setup_reachable : reachable start (after_ops setup).
Proof.
  apply (runs_reachable setup start start); [by apply reach_start|vm_compute; reflexivity].
Qed.

Lemma control_bound_once_witness :
  bound (after_ops setup) = [1%positive] ∧
  transactors (wrapper (after_ops setup)) = [1%positive; 2%positive] ∧
  bound (snd (bindSimControl2Transactor (after_ops setup))) = [1%positive].
Proof.
  split; [vm_compute; reflexivity|]. split; [vm_compute; reflexivity|].
  destruct (control_bound_once start (after_ops setup) setup_reachable) as (_ & _ & Hs & _).
  erewrite (Hs ltac:(vm_compute; reflexivity) BindSimControl2Transactor);
    [vm_compute; reflexivity|vm_compute; reflexivity].
Defined.

(** A router, and a bus with its two sockets. *)
Definition with_bus : world gem5_calls := after_ops [CreateTxnRouter 7 0 4096; CreateSimpleBus 0 99].

Lemma with_bus_wf : wf with_bus.
Proof.
  exact (proj1 (createSimpleBus_safe 0 99 _ (proj1 (createTxnRouter_safe 7 0 4096 start start_wf)))).
Qed.

Lemma wrapper_safe_witness :
  (bindings (snd (run_op (CreateTransactor "t" "port" 2) start)) = [] ∧
   wf (snd (run_op (CreateTransactor "t" "port" 2) start))) ∧
  run_op (BindTxnRouter2Bus 7 5) with_bus =
    (Err (UNDEFINED "busInstance->tsocks[socket_id]"), with_bus).
Proof.
  split; [split; [reflexivity|]|].
  - destruct (wrapper_safe (CreateTransactor "t" "port" 2) start start_wf I) as [[_ Hw]|[[] _]].
    exact Hw.
  - assert (0 ≤ 5) as H5 by lia.
    destruct (wrapper_safe (BindTxnRouter2Bus 7 5) with_bus with_bus_wf H5) as [[Hn _]|[_ Hw]].
    + exfalso. apply Hn. split; [eexists; vm_compute; reflexivity|].
      split; [eexists; vm_compute; reflexivity|lia].
    + exact Hw.
Defined.

Definition with_router : world gem5_calls := after_ops [CreateTxnRouter 7 0 4096].

Lemma with_router_wf : wf with_router.
Proof. exact (proj1 (createTxnRouter_safe 7 0 4096 start start_wf)). Qed.

Lemma first_router_kept_witness :
  ∃ p w', createTxnRouter 7 8192 4096 with_router = (Ok p, w') ∧ p ≠ 1%positive ∧
    sm_find 7 (txn_routers (wrapper w')) = Some 1%positive.
Proof.
  destruct (first_router_kept 7 8192 4096 1 with_router with_router_wf) as (p & w' & ? & ? & _ & ?);
    [vm_compute; reflexivity|]. by exists p, w'.
Defined.

Lemma one_bus_witness :
  createSimpleBus 5 6 (snd (createSimpleBus 0 99 start)) = (Ok 1%positive, snd (createSimpleBus 0 99 start)).
Proof. apply (one_bus 0 99 5 6 start 1 (snd (createSimpleBus 0 99 start))); reflexivity. Defined.
End Wrapper.
