(* ===== verification/Gem5Control.v ===== *)
(** * gem5 behind a dlopen interface: sc_gem5_control.cc

    The top-level module that makes gem5's root object, and the systems that are made from the same
    configuration. *)

From S2P Require Import Prelude EventLoop SimControl.

Module TopLevel.

(** [class Gem5System]; a configuration manager is known by its pointer. *)
Record Gem5System := { manager : positive; systemName : string; instanceName : string }.

(** The calls of a configuration manager, which may throw. *)
Inductive manager_call :=
| addRenaming (system_name instance_name : string)
| setParam_call (object param_name param_value : string)
| setParamVector_call (object param_name : string) (param_values : list string)
| findObject (name : string) (visit_children : bool)
| findTraversalOrder (name : string)
| bindObjectPorts (object : string)
| push_object (object : string)  (* objectsInOrder.push_back *)
| instantiate_call (build_all : bool)
| initState
| startup.

(** gem5: its managers, and the calls it shares with the other control.  [new_manager] makes a
    manager for a configuration file. *)
Class Gem5Managers (E : Type) := {
  manager_do : positive → manager_call → E → Control.exceptional * E;
  objectsInOrder : positive → E → list string;
  new_manager : string → E → positive * E;
  delete_manager : positive → E → E;
  gem5_do : Control.gem5_call → E → E;
  setRemoteGDBPort_do : Z → E → E;
  time_resolution_ps : E → Z;
  load : string → E → bool;
}.

(** [class Gem5TopLevelModule] and [class Gem5Control]; the functions to run at the end of
    elaboration are computations on gem5. *)
Record Gem5TopLevelModule {E : Type} := {
  config_file : option string;
  root_manager : option positive;
  endOfElaborationFuncs : list (E → E);
}.
Arguments Gem5TopLevelModule : clear implicits.

Record Gem5Control {E : Type} := { module : Gem5TopLevelModule E; version : string }.
Arguments Gem5Control : clear implicits.

Section functions.
Context {E : Type} `{!Gem5Managers E}.
Abbreviation ME := (M E).

(** One call of a manager inside a [try]; [who] is in the message of the [catch]. *)
Definition try_call (who : string) (m : positive) (c : manager_call) : ME unit := λ e,
  match manager_do m c e with
  | (None, e') => (Ok tt, e')
  | (Some (name, message), e') =>
      (Err (GEM5_FATAL ("Config problem in " +:+ who +:+ ": " +:+ name +:+ ": " +:+ message)), e')
  end.

(** A call outside of a [try]: an exception ends the program. *)
Definition plain_call (m : positive) (c : manager_call) : ME unit := λ e,
  match manager_do m c e with
  | (None, e') => (Ok tt, e')
  | (Some (name, _), e') => (Err (THROW name), e')
  end.

Definition Gem5System_new (manager : positive) (system_name instance_name : string) :
    ME Gem5System :=
  plain_call manager (addRenaming system_name instance_name);;
  mret {| manager := manager; systemName := system_name; instanceName := instance_name |}.

Definition Gem5System_delete (s : Gem5System) : ME unit := modify (delete_manager (manager s)).

(** The name of an object of the system; the empty name is the system itself. *)
Definition object_name (s : Gem5System) (object : string) : string :=
  systemName s +:+ (if bool_decide (object = ""%string) then ""%string else "." +:+ object).

Definition setParam (s : Gem5System) (object param_name param_value : string) : ME unit :=
  plain_call (manager s) (setParam_call (object_name s object) param_name param_value).

Definition setParamVector (s : Gem5System) (object param_name : string)
    (param_values : list string) : ME unit :=
  plain_call (manager s) (setParamVector_call (object_name s object) param_name param_values).

Definition instantiate (s : Gem5System) : ME unit :=
  let m := manager s in
  let try := try_call "Gem5System" m in
  try (findObject (systemName s) true);;
  try (findTraversalOrder (systemName s));;
  objects ← gets (objectsInOrder m);
  for_each objects (λ o, try (bindObjectPorts o));;
  try (instantiate_call false);;
  try initState;;
  try startup.

(** [Gem5TopLevelModule::Gem5TopLevelModule], on gem5's queues. *)
Definition Gem5TopLevelModule_new (config_filename : string) (queues : list string) :
    ME (Gem5TopLevelModule E * list string) :=
  let call c := modify (gem5_do c) in
  call Control.cxxConfigInit;;
  call Control.setDebugLogger;;
  call (Control.setClockFrequency EventLoop.setTickFrequency);;
  queues' ← match EventLoop.setupEventQueues queues with Ok q => mret q | Err e => fail e end;
  r ← gets time_resolution_ps;
  check (r =? 1) (GEM5_FATAL "Time resolution must be set to 1 ps for gem5 to work");;
  call Control.initSignals;;
  call Control.initSimStats;;
  call Control.registerStatsHandlers;;
  call Control.Trace_enable;;
  loaded ← gets (load config_filename);
  check loaded (GEM5_FATAL "Gem5TopLevelModule: Can't open config file");;
  m ← (λ e, let '(m, e') := new_manager config_filename e in (Ok m, e'));
  call Control.statsEnable;;
  let try := try_call "Gem5TopLevelModule" m in
  try (findObject "root" false);;
  try (push_object "root");;
  try (instantiate_call false);;
  try initState;;
  try startup;;
  mret ({| config_file := Some config_filename; root_manager := Some m;
           endOfElaborationFuncs := [] |}, queues').

Definition Gem5TopLevelModule_delete (t : Gem5TopLevelModule E) : ME unit :=
  match root_manager t with Some m => modify (delete_manager m) | None => mret tt end.

(** [run] simulates without a limit. *)
Definition run `{!EventLoop.Gem5Queue E} : M (EventLoop.world E) positive :=
  EventLoop.simulate_begin EventLoop.MaxTick.

Definition end_of_elaboration (t : Gem5TopLevelModule E) : ME unit :=
  for_each (endOfElaborationFuncs t) modify.

(** ** [Gem5Control] *)

Definition Gem5Control_new (config_filename : string) (queues : list string) :
    ME (Gem5Control E * list string) :=
  '(t, queues') ← Gem5TopLevelModule_new config_filename queues;
  mret ({| module := t; version := "" |}, queues').

Definition registerEndOfElaboration (func : E → E) (c : Gem5Control E) : Gem5Control E :=
  {| module := {| config_file := config_file (module c); root_manager := root_manager (module c);
                  endOfElaborationFuncs := endOfElaborationFuncs (module c) ++ [func] |};
     version := version c |}.

Definition setDebugFlag (flag : string) : ME unit := modify (gem5_do (Control.setDebugFlag flag)).
Definition clearDebugFlag (flag : string) : ME unit := modify (gem5_do (Control.clearDebugFlag flag)).
Definition setRemoteGDBPort (port : Z) : ME unit := modify (setRemoteGDBPort_do port).

Definition makeSystem (c : Gem5Control E) (system_name instance_name : string) : ME Gem5System :=
  file ← lift_option (config_file (module c)) (UNDEFINED "*(module->config_file)");
  m ← (λ e, let '(m, e') := new_manager file e in (Ok m, e'));
  Gem5System_new m system_name instance_name.

Definition getVersion (c : Gem5Control E) : string := version c.

Definition setVersion (new_version : string) (c : Gem5Control E) : outcome (Gem5Control E) :=
  if bool_decide (version c = ""%string)
  then Ok {| module := module c; version := new_version |}
  else Err (GEM5_FATAL "Gem5Control::setVersion called for a second time").

(** ** Properties *)

(** Calls of a manager up to the first exception. *)
Fixpoint try_all (m : positive) (cs : list manager_call) (e : E) : Control.exceptional * E :=
  match cs with
  | [] => (None, e)
  | c :: cs' =>
      match manager_do m c e with
      | (None, e') => try_all m cs' e'
      | (Some x, e') => (Some x, e')
      end
  end.

Lemma try_all_app m l1 l2 e :
  try_all m (l1 ++ l2) e =
    match try_all m l1 e with (None, e') => try_all m l2 e' | (Some x, e') => (Some x, e') end.
Proof.
  revert e. induction l1 as [|c l1 IH]; intros e; simpl; [done|].
  destruct (manager_do m c e) as [[x|] e']; [done|apply IH].
Qed.

(** The result of such calls. *)
Definition fatal_if (who : string) (r : Control.exceptional * E) : outcome unit * E :=
  match r with
  | (None, e) => (Ok tt, e)
  | (Some (name, message), e) =>
      (Err (GEM5_FATAL ("Config problem in " +:+ who +:+ ": " +:+ name +:+ ": " +:+ message)), e)
  end.

Lemma try_call_bind {A} who m c (f : unit → ME A) e :
  (try_call who m c ≫= f) e =
    match manager_do m c e with
    | (None, e') => f tt e'
    | (Some x, e') =>
        match fatal_if who (Some x, e') with (Err er, s) => (Err er, s) | (Ok u, s) => f u s end
    end.
Proof.
  unfold try_call, mbind, M_bind. by destruct (manager_do m c e) as [[[n s]|] e'].
Qed.

Lemma try_calls who m cs e :
  for_each cs (try_call who m) e = fatal_if who (try_all m cs e).
Proof.
  revert e. induction cs as [|c cs IH]; intros e; simpl; [done|]. rewrite try_call_bind.
  destruct (manager_do m c e) as [[[n s]|] e']; [done|apply IH].
Qed.

Lemma for_each_map {W A B} (g : A → B) (f : B → M W unit) l w :
  for_each l (λ a, f (g a)) w = for_each (g <$> l) f w.
Proof.
  revert w. induction l as [|a l IH]; intros w; simpl; [done|]. unfold mbind, M_bind.
  by destruct (f (g a) w) as [[[]|e] w'].
Qed.

(** Instantiating a system finds its object, orders the objects, binds the ports of each in that
    order, and then instantiates, initialises and starts it; the first exception ends the program
    with its object and message, and nothing after it is called. *)
Theorem instantiate_stops_at_exception s e :
  let m := manager s in
  instantiate s e =
    match try_all m [findObject (systemName s) true; findTraversalOrder (systemName s)] e with
    | (None, e1) =>
        fatal_if "Gem5System"
          (try_all m ((bindObjectPorts <$> objectsInOrder m e1) ++
                      [instantiate_call false; initState; startup]) e1)
    | r => fatal_if "Gem5System" r
    end.
Proof.
  intros m. unfold instantiate. fold m. cbn zeta. rewrite try_call_bind. simpl.
  destruct (manager_do m (findObject (systemName s) true) e) as [[[n x]|] e1]; [done|].
  rewrite try_call_bind.
  destruct (manager_do m (findTraversalOrder (systemName s)) e1) as [[[n x]|] e2]; [done|].
  erewrite bind_Ok by reflexivity. rewrite try_all_app. unfold mbind at 1, M_bind at 1.
  rewrite (for_each_map bindObjectPorts (try_call "Gem5System" m)), try_calls.
  destruct (try_all m (bindObjectPorts <$> objectsInOrder m e2) e2) as [[[n x]|] e3]; [done|]. simpl.
  rewrite try_call_bind.
  destruct (manager_do m (instantiate_call false) e3) as [[[n x]|] e4]; [done|].
  rewrite try_call_bind. destruct (manager_do m initState e4) as [[[n x]|] e5]; [done|].
  unfold try_call. by destruct (manager_do m startup e5) as [[[n x]|] e6].
Qed.

(** The version can be set once; until then it is empty, and setting the empty version does not
    count. *)
Theorem version_set_once c v c' v' :
  version c = ""%string → setVersion v c = Ok c' →
  getVersion c' = v ∧
  setVersion v' c' =
    (if bool_decide (v = ""%string) then Ok {| module := module c; version := v' |}
     else Err (GEM5_FATAL "Gem5Control::setVersion called for a second time")).
Proof. unfold setVersion. intros ->. simpl. intros [= <-]. done. Qed.

(** The registered functions run at the end of elaboration, in the order of their registration. *)
Theorem elaboration_order fs c e :
  endOfElaborationFuncs (module c) = [] →
  end_of_elaboration (module (foldl (λ c f, registerEndOfElaboration f c) c fs)) e =
    (Ok tt, foldl (λ e f, f e) e fs).
Proof.
  intros Hc. unfold end_of_elaboration.
  assert (∀ c, endOfElaborationFuncs (module (foldl (λ c f, registerEndOfElaboration f c) c fs)) =
    endOfElaborationFuncs (module c) ++ fs) as ->.
  { clear. induction fs as [|f fs IH]; intros c; simpl; [by rewrite app_nil_r|].
    rewrite IH. simpl. by rewrite <- app_assoc. }
  rewrite Hc. simpl. clear. revert e. induction fs as [|f fs IH]; intros e; simpl; [done|].
  erewrite bind_Ok by reflexivity. apply IH.
Qed.
End functions.

(** ** Witnesses *)

#[local] Instance no_gem5 : Gem5Managers (list Z) := {
  manager_do _ c e := (None, e);
  objectsInOrder _ _ := [];
  new_manager _ e := (1%positive, e);
  delete_manager _ e := e;
  gem5_do _ e := e;
  setRemoteGDBPort_do p e := p :: e;
  time_resolution_ps _ := 1;
  load _ _ := true;
}.

Definition fresh_control : Gem5Control (list Z) :=
  {| module := {| config_file := Some "config.ini"%string; root_manager := Some 1%positive;
                  endOfElaborationFuncs := [] |};
     version := "" |}.

Lemma version_set_once_witness :
  ∃ c, setVersion "1.0" fresh_control = Ok c ∧ getVersion c = "1.0"%string ∧
    setVersion "2.0" c = Err (GEM5_FATAL "Gem5Control::setVersion called for a second time").
Proof.
  set (c := {| module := module fresh_control; version := "1.0" |}).
  destruct (version_set_once fresh_control "1.0" c "2.0") as [Hv Hs]; [reflexivity|reflexivity|].
  exists c. split; [reflexivity|]. split; [exact Hv|exact Hs].
Defined.

Lemma elaboration_order_witness :
  end_of_elaboration (module (registerEndOfElaboration (cons 2)
    (registerEndOfElaboration (cons 1) fresh_control))) [] = (Ok tt, [2; 1]).
Proof. exact (elaboration_order [cons 1; cons 2] fresh_control [] eq_refl). Defined.
End TopLevel.
